(** * XKR Discord Encrypter: a shallow embedding of the message overlay engine

    The development follows the layout of the extension's sources:
    - [inject.js]: the SHA-256 class, the emoji table, the passphrase
      derivation [setPassphrase], the bundled CryptoJS 3.1.2 rollup (core,
      Base64, MD5, EvpKDF, cipher core, AES), the [keydown] listener and the
      decrypt pass [decryptMessages];
    - the popup script: [loadKeys] and [setKeys].

    JavaScript numbers are modelled by [Z]: every number the code handles is
    an integer of magnitude far below 2^53, so the double arithmetic is exact.
    The 32-bit coercions of the bit operators are written out ([ToInt32],
    [ToUint32]).  Strings are lists of UTF-16 code units.  Arrays of numbers
    are lists; an absent element is read as [0], since every such read in the
    code is an operand of a bit operator ([ToInt32 undefined = 0]). *)

From Stdlib Require Import ZArith List Lia Bool String Ascii Btauto.
Import ListNotations.
Local Open Scope Z_scope.
Local Abbreviation length := List.length.

(* ====================================================================== *)
(** * Part I.  The embedding                                               *)
(* ====================================================================== *)

(** ** JavaScript numbers and bit operators *)

Module JS.

Definition ToUint32 (x : Z) : Z := x mod 4294967296.

Definition ToInt32 (x : Z) : Z := (x + 2147483648) mod 4294967296 - 2147483648.

(** [x << n], [x >>> n], [x & y], [x | y], [x ^ y], [~x]: the operands are
    coerced to 32 bits, the shift count is taken modulo 32. *)
Definition shl (x n : Z) : Z := ToInt32 (Z.shiftl x (n mod 32)).
Definition shru (x n : Z) : Z := Z.shiftr (ToUint32 x) (n mod 32).
Definition band (x y : Z) : Z := ToInt32 (Z.land x y).
Definition bor (x y : Z) : Z := ToInt32 (Z.lor x y).
Definition bxor (x y : Z) : Z := ToInt32 (Z.lxor x y).
Definition bnot (x : Z) : Z := ToInt32 (Z.lnot x).

(** [Math.ceil (x / y)] for integers [x] and a positive power of two [y]:
    the quotient is exact in double arithmetic. *)
Definition ceil_div (x y : Z) : Z := - ((- x) / y).

(** [(x / y) | 0] for integers and a positive power of two [y]: truncation. *)
Definition trunc_div (x y : Z) : Z := ToInt32 (Z.quot x y).

End JS.

Declare Scope js_scope.
Delimit Scope js_scope with js.
Notation "x .% y" := (Z.rem x y) (at level 40, left associativity) : js_scope.
Notation "x .<< y" := (JS.shl x y) (at level 52, left associativity) : js_scope.
Notation "x .>>> y" := (JS.shru x y) (at level 52, left associativity) : js_scope.
Notation "x .& y" := (JS.band x y) (at level 54, left associativity) : js_scope.
Notation "x .^ y" := (JS.bxor x y) (at level 56, left associativity) : js_scope.
Notation "x .| y" := (JS.bor x y) (at level 58, left associativity) : js_scope.
Notation ".~ x" := (JS.bnot x) (at level 35, right associativity) : js_scope.
Local Open Scope js_scope.

(** ** JavaScript arrays of numbers *)

Definition aget (a : list Z) (i : Z) : Z :=
  if (0 <=? i) && (i <? Z.of_nat (length a)) then nth (Z.to_nat i) a 0 else 0.

(** [a[i] = v]: an index past the end lengthens the array, leaving holes. *)
Definition aset (a : list Z) (i : Z) (v : Z) : list Z :=
  if i <? 0 then a
  else if i <? Z.of_nat (length a)
       then firstn (Z.to_nat i) a ++ v :: skipn (S (Z.to_nat i)) a
       else a ++ repeat 0 (Z.to_nat i - length a) ++ [v].

(** [a.length = n] for [0 <= n]. *)
Definition set_length (a : list Z) (n : Z) : list Z :=
  firstn (Z.to_nat n) a ++ repeat 0 (Z.to_nat n - length a).

(** [a.slice(i, j)] for [0 <= i <= j]. *)
Definition slice (a : list Z) (i j : Z) : list Z :=
  firstn (Z.to_nat j - Z.to_nat i) (skipn (Z.to_nat i) a).

Notation "a .[ i ]" := (aget a i) (at level 1, left associativity, format "a .[ i ]") : js_scope.

(** A counted loop [for (t = lo; t < lo + n; t++) body]. *)
Definition for_loop {S : Type} (lo : Z) (n : nat) (body : Z -> S -> S) (s : S) : S :=
  fold_left (fun s t => body (lo + Z.of_nat t) s) (seq 0 n) s.

(** ** JavaScript strings *)

(** A string is the list of its UTF-16 code units. *)
Definition jsstring := list Z.

(** A literal of ASCII characters.  A backquote in the literal stands for the
    double-quote character (code 34) of the source text. *)
Definition lit (s : string) : jsstring :=
  map (fun c => let n := Z.of_N (N_of_ascii c) in if n =? 96 then 34 else n)
      (list_ascii_of_string s).

Definition jsstring_eqb (s t : jsstring) : bool := if list_eq_dec Z.eq_dec s t then true else false.

(** Exceptions the modelled code can raise. *)
Inductive exn : Type :=
| URIError            (* encodeURIComponent on an unpaired surrogate *)
| MalformedUtf8       (* Error("Malformed UTF-8 data") *)
| RangeError          (* invalid array length *)
| TypeError.          (* property access on null or undefined *)

Inductive result (A : Type) : Type :=
| Ok (a : A)
| Throw (e : exn).
Arguments Ok {A} a.
Arguments Throw {A} e.

Definition bind {A B : Type} (r : result A) (k : A -> result B) : result B :=
  match r with Ok a => k a | Throw e => Throw e end.

Notation "x <- r ;; k" := (bind r (fun x => k))
  (at level 100, r at next level, right associativity) : js_scope.
Notation "' p <- r ;; k" := (bind r (fun x => let 'p := x in k))
  (at level 100, p pattern, r at next level, right associativity) : js_scope.

(** *** UTF-16 and UTF-8 *)

Definition is_high_surrogate (c : Z) : bool := (55296 <=? c) && (c <=? 56319).
Definition is_low_surrogate (c : Z) : bool := (56320 <=? c) && (c <=? 57343).

(** The code points of a string; [None] marks an unpaired surrogate. *)
Fixpoint code_points (s : jsstring) : list (option Z) :=
  match s with
  | [] => []
  | c :: t =>
    if is_high_surrogate c then
      match t with
      | d :: t' =>
        if is_low_surrogate d
        then Some (65536 + (c - 55296) * 1024 + (d - 56320)) :: code_points t'
        else None :: code_points t
      | [] => [None]
      end
    else if is_low_surrogate c then None :: code_points t
    else Some c :: code_points t
  end.

(** The UTF-8 octets of a code point. *)
Definition utf8_octets (cp : Z) : list Z :=
  if cp <? 128 then [cp]
  else if cp <? 2048 then [192 + cp / 64; 128 + cp mod 64]
  else if cp <? 65536 then [224 + cp / 4096; 128 + (cp / 64) mod 64; 128 + cp mod 64]
  else [240 + cp / 262144; 128 + (cp / 4096) mod 64; 128 + (cp / 64) mod 64; 128 + cp mod 64].

(** The UTF-16 code units of a code point. *)
Definition utf16_units (cp : Z) : jsstring :=
  if cp <? 65536 then [cp]
  else [55296 + (cp - 65536) / 1024; 56320 + (cp - 65536) mod 1024].

(** [new TextEncoder().encode(str)], each octet as a character: an unpaired
    surrogate is encoded as U+FFFD. *)
Definition TextEncoder_encode (s : jsstring) : jsstring :=
  flat_map (fun cp => utf8_octets (match cp with Some c => c | None => 65533 end))
           (code_points s).

(** [unescape(encodeURIComponent(str))]: [encodeURIComponent] writes the UTF-8
    octets of every code point outside its unreserved set as [%XX] (and so the
    character [%] itself as [%25]) and raises [URIError] on an unpaired
    surrogate; [unescape] turns each [%XX] back into the character of code
    [XX].  The composition is the string of the UTF-8 octets. *)
Fixpoint utf8_of_code_points (l : list (option Z)) : result jsstring :=
  match l with
  | [] => Ok []
  | Some cp :: t => r <- utf8_of_code_points t ;; Ok (utf8_octets cp ++ r)
  | None :: _ => Throw URIError
  end.

Definition unescape_encodeURIComponent (s : jsstring) : result jsstring :=
  utf8_of_code_points (code_points s).

Definition is_continuation (b : Z) : bool := (128 <=? b) && (b <=? 191).

(** [decodeURIComponent(escape(str))] for a string of characters below 256:
    [escape] leaves a character of its unreserved set (all below 128) or
    writes [%XX]; [decodeURIComponent] reads either form back as the octet
    [XX], decodes multi-octet UTF-8 sequences and raises [URIError] unless the
    octets are the valid UTF-8 encoding of a code point (no overlong form, no
    surrogate, nothing above U+10FFFF). *)
Fixpoint decodeURIComponent_escape (bs : jsstring) : result jsstring :=
  match bs with
  | [] => Ok []
  | b0 :: t0 =>
    if b0 <? 128 then r <- decodeURIComponent_escape t0 ;; Ok (b0 :: r)
    else if b0 <? 192 then Throw URIError
    else if b0 <? 224 then
      match t0 with
      | b1 :: t1 =>
        let cp := (b0 - 192) * 64 + (b1 - 128) in
        if is_continuation b1 && (128 <=? cp)
        then r <- decodeURIComponent_escape t1 ;; Ok (utf16_units cp ++ r)
        else Throw URIError
      | _ => Throw URIError
      end
    else if b0 <? 240 then
      match t0 with
      | b1 :: b2 :: t2 =>
        let cp := (b0 - 224) * 4096 + (b1 - 128) * 64 + (b2 - 128) in
        if is_continuation b1 && is_continuation b2 && (2048 <=? cp)
           && negb ((55296 <=? cp) && (cp <=? 57343))
        then r <- decodeURIComponent_escape t2 ;; Ok (utf16_units cp ++ r)
        else Throw URIError
      | _ => Throw URIError
      end
    else if b0 <? 248 then
      match t0 with
      | b1 :: b2 :: b3 :: t3 =>
        let cp := (b0 - 240) * 262144 + (b1 - 128) * 4096 + (b2 - 128) * 64 + (b3 - 128) in
        if is_continuation b1 && is_continuation b2 && is_continuation b3
           && (65536 <=? cp) && (cp <=? 1114111)
        then r <- decodeURIComponent_escape t3 ;; Ok (utf16_units cp ++ r)
        else Throw URIError
      | _ => Throw URIError
      end
    else Throw URIError
  end.

(** [x.toString(16)] for a non-negative integer. *)
Definition hex_digit (d : Z) : Z := if d <? 10 then 48 + d else 87 + d.

Fixpoint hex_digits (fuel : nat) (x : Z) (acc : jsstring) : jsstring :=
  match fuel with
  | O => acc
  | S f => if x <? 16 then hex_digit x :: acc
           else hex_digits f (x / 16) (hex_digit (x mod 16) :: acc)
  end.

Definition toString16 (x : Z) : jsstring := hex_digits (S (Z.to_nat (Z.log2 x))) x [].

(** [s.slice(-n)]: the last [n] characters. *)
Definition slice_last (n : nat) (s : jsstring) : jsstring := skipn (length s - n) s.

(** ** inject.js: class Sha256 *)

Module Sha256.

Definition K : list Z :=
  [1116352408; 1899447441; 3049323471; 3921009573; 961987163; 1508970993;
   2453635748; 2870763221; 3624381080; 310598401; 607225278; 1426881987;
   1925078388; 2162078206; 2614888103; 3248222580; 3835390401; 4022224774;
   264347078; 604807628; 770255983; 1249150122; 1555081692; 1996064986;
   2554220882; 2821834349; 2952996808; 3210313671; 3336571891; 3584528711;
   113926993; 338241895; 666307205; 773529912; 1294757372; 1396182291;
   1695183700; 1986661051; 2177026350; 2456956037; 2730485921; 2820302411;
   3259730800; 3345764771; 3516065817; 3600352804; 4094571909; 275423344;
   430227734; 506948616; 659060556; 883997877; 958139571; 1322822218;
   1537002063; 1747873779; 1955562222; 2024104815; 2227730452; 2361852424;
   2428436474; 2756734187; 3204031479; 3329325298].

Definition H_init : list Z :=
  [1779033703; 3144134277; 1013904242; 2773480762;
   1359893119; 2600822924; 528734635; 1541459225].

Definition ROTR (n x : Z) : Z := (x .>>> n) .| (x .<< (32 - n)).

Definition Sigma0 (x : Z) : Z := ROTR 2 x .^ ROTR 13 x .^ ROTR 22 x.
Definition Sigma1 (x : Z) : Z := ROTR 6 x .^ ROTR 11 x .^ ROTR 25 x.
Definition sigma0 (x : Z) : Z := ROTR 7 x .^ ROTR 18 x .^ (x .>>> 3).
Definition sigma1 (x : Z) : Z := ROTR 17 x .^ ROTR 19 x .^ (x .>>> 10).
Definition Ch (x y z : Z) : Z := (x .& y) .^ (.~ x .& z).
Definition Maj (x y z : Z) : Z := (x .& y) .^ (x .& z) .^ (y .& z).

(** [utf8Encode]: a [TextEncoder] exists in the browser, so the [catch]
    branch is not taken. *)
Definition utf8Encode (str : jsstring) : jsstring := TextEncoder_encode str.

(** [msg.charCodeAt(i)] as the operand of [<<]: [NaN] past the end reads as 0. *)
Definition charCodeAt (msg : jsstring) (i : Z) : Z := aget msg i.

(** The N x 16 array [M] of big-endian words of the padded message. *)
Definition block_word (msg : jsstring) (i j : Z) : Z :=
  (charCodeAt msg (i * 64 + j * 4 + 0) .<< 24) .| (charCodeAt msg (i * 64 + j * 4 + 1) .<< 16)
  .| (charCodeAt msg (i * 64 + j * 4 + 2) .<< 8) .| (charCodeAt msg (i * 64 + j * 4 + 3) .<< 0).

Definition blocks (msg : jsstring) (N : Z) : list (list Z) :=
  map (fun i => map (fun j => block_word msg (Z.of_nat i) (Z.of_nat j)) (seq 0 16))
      (seq 0 (Z.to_nat N)).

(** [M[N-1][14] = Math.floor(lenHi); M[N-1][15] = lenLo]. *)
Definition set_length_words (M : list (list Z)) (N : Z) (msg : jsstring) : list (list Z) :=
  let bits := (Z.of_nat (length msg) - 1) * 8 in
  let lenHi := bits / 4294967296 in
  let lenLo := bits .>>> 0 in
  match nth_error M (Z.to_nat (N - 1)) with
  | Some last =>
    firstn (Z.to_nat (N - 1)) M ++ [aset (aset last 14 lenHi) 15 lenLo]
  | None => M
  end.

(** Step 1 of the block loop: the message schedule [W]. *)
Definition schedule (Mi : list Z) : list Z :=
  for_loop 16 48
    (fun t W => W ++ [(sigma1 W.[t - 2] + W.[t - 7] + sigma0 W.[t - 15] + W.[t - 16]) .>>> 0])
    (map (fun t => Mi.[Z.of_nat t]) (seq 0 16)).

Record vars : Type := Vars { va : Z; vb : Z; vc : Z; vd : Z; ve : Z; vf : Z; vg : Z; vh : Z }.

(** Step 3: one iteration of the main loop. *)
Definition round (W : list Z) (t : Z) (v : vars) : vars :=
  let T1 := vh v + Sigma1 (ve v) + Ch (ve v) (vf v) (vg v) + K.[t] + W.[t] in
  let T2 := Sigma0 (va v) + Maj (va v) (vb v) (vc v) in
  Vars ((T1 + T2) .>>> 0) (va v) (vb v) (vc v) ((vd v + T1) .>>> 0) (ve v) (vf v) (vg v).

(** Steps 1 to 4 for one block. *)
Definition compress (H : list Z) (Mi : list Z) : list Z :=
  let W := schedule Mi in
  let v := for_loop 0 64 (round W)
             (Vars H.[0] H.[1] H.[2] H.[3] H.[4] H.[5] H.[6] H.[7]) in
  [(H.[0] + va v) .>>> 0; (H.[1] + vb v) .>>> 0; (H.[2] + vc v) .>>> 0; (H.[3] + vd v) .>>> 0;
   (H.[4] + ve v) .>>> 0; (H.[5] + vf v) .>>> 0; (H.[6] + vg v) .>>> 0; (H.[7] + vh v) .>>> 0].

(** [('00000000' + H[h].toString(16)).slice(-8)]. *)
Definition hex8 (x : Z) : jsstring := slice_last 8 (lit "00000000" ++ toString16 x).

(** [Sha256.hash(msg)] with the default options (string message, hex output). *)
Definition hash (msg : jsstring) : jsstring :=
  let msg := utf8Encode msg ++ [128] in
  let N := JS.ceil_div (Z.of_nat (length msg) + 8) 64 in
  let M := set_length_words (blocks msg N) N msg in
  let H := fold_left compress M H_init in
  List.concat (map hex8 H).

End Sha256.

(** ** inject.js: CryptoJS v3.1.2, core *)

(** [lib.WordArray] (minified [r]). *)
Module WordArray.

Record t : Type := Build { words : list Z; sigBytes : Z }.

(** [init(words)] with one argument: [sigBytes = 4 * words.length]. *)
Definition init (ws : list Z) : t := Build ws (4 * Z.of_nat (length ws)).

Definition empty : t := init [].

(** [clamp]: [a[c>>>2] &= 4294967295 << 32-8*(c%4); a.length = ceil(c/4)].
    Setting a negative length raises [RangeError]. *)
Definition clamp (w : t) : result t :=
  let a := words w in
  let c := sigBytes w in
  let a := aset a (c .>>> 2) (a.[c .>>> 2] .& (4294967295 .<< 32 - 8 * (c .% 4))) in
  let n := JS.ceil_div c 4 in
  if n <? 0 then Throw RangeError else Ok (Build (set_length a n) c).

(** [this.concat(a)]. *)
Definition concat (this a : t) : result t :=
  let e := words a in
  let j := sigBytes this in
  let n := sigBytes a in
  this <- clamp this ;;
  let c := words this in
  let c :=
    if negb (j .% 4 =? 0) then
      for_loop 0 (Z.to_nat n)
        (fun k c => aset c (j + k .>>> 2)
           (c.[j + k .>>> 2]
            .| ((e.[k .>>> 2] .>>> 24 - 8 * (k .% 4) .& 255) .<< 24 - 8 * ((j + k) .% 4))))
        c
    else if 65535 <? Z.of_nat (length e) then
      for_loop 0 (Z.to_nat (JS.ceil_div n 4))
        (fun i c => let k := 4 * i in aset c (j + k .>>> 2) e.[k .>>> 2])
        c
    else c ++ e in
  Ok (Build c (j + n)).

(** [random(nBytes)]: one word [4294967296 * Math.random() | 0] per four
    bytes.  [rnd i] is the integer part of the [i]-th product; [pos] counts
    the draws made so far. *)
Definition random (rnd : nat -> Z) (pos : nat) (nBytes : Z) : t * nat :=
  let n := Z.to_nat (JS.ceil_div nBytes 4) in
  (Build (map (fun i => rnd (pos + i)%nat .| 0) (seq 0 n)) nBytes, (pos + n)%nat).

End WordArray.

Abbreviation WA := WordArray.t.

(** [enc.Latin1] (minified [b]). *)
Module Latin1.

Definition stringify (a : WA) : jsstring :=
  let c := WordArray.words a in
  for_loop 0 (Z.to_nat (WordArray.sigBytes a))
    (fun j e => e ++ [c.[j .>>> 2] .>>> 24 - 8 * (j .% 4) .& 255]) [].

Definition parse (a : jsstring) : WA :=
  let c := Z.of_nat (length a) in
  WordArray.Build
    (for_loop 0 (length a)
       (fun j e => aset e (j .>>> 2) (e.[j .>>> 2] .| ((a.[j] .& 255) .<< 24 - 8 * (j .% 4))))
       [])
    c.

End Latin1.

(** [enc.Utf8] (minified [x]). *)
Module Utf8.

Definition stringify (a : WA) : result jsstring :=
  match decodeURIComponent_escape (Latin1.stringify a) with
  | Ok s => Ok s
  | Throw _ => Throw MalformedUtf8
  end.

Definition parse (a : jsstring) : result WA :=
  s <- unescape_encodeURIComponent a ;; Ok (Latin1.parse s).

End Utf8.

(** [enc.Base64]. *)
Module Base64.

Definition _map : jsstring :=
  lit "ABCDEFGHIJKLMNOPQRSTUVWXYZabcdefghijklmnopqrstuvwxyz0123456789+/=".

(** [s.indexOf(ch)] for a one-character string [ch]. *)
Fixpoint indexOf (s : jsstring) (ch : Z) : Z :=
  match s with
  | [] => -1
  | c :: t => if c =? ch then 0 else let i := indexOf t ch in if i <? 0 then -1 else i + 1
  end.

(** The byte [l[r>>>2] >>> 24-8*(r%4) & 255]. *)
Definition byte_at (l : list Z) (r : Z) : Z := l.[r .>>> 2] .>>> 24 - 8 * (r .% 4) .& 255.

Definition stringify (d : WA) : result jsstring :=
  let p := WordArray.sigBytes d in
  (* [d.clamp()] rewrites in place the array that [l = d.words] names *)
  d <- WordArray.clamp d ;;
  let l := WordArray.words d in
  let d :=
    for_loop 0 (Z.to_nat (JS.ceil_div p 3))
      (fun i d =>
         let r := 3 * i in
         let w := (byte_at l r .<< 16) .| (byte_at l (r + 1) .<< 8) .| byte_at l (r + 2) in
         (* the inner loop runs while [4 > v && r + 0.75*v < p] *)
         for_loop 0 4
           (fun v d => if 4 * r + 3 * v <? 4 * p
                       then d ++ [_map.[w .>>> 6 * (3 - v) .& 63]] else d)
           d)
      [] in
  let pad := Z.to_nat ((4 - Z.of_nat (length d) mod 4) mod 4) in
  Ok (d ++ repeat _map.[64] pad).

Definition parse (d : jsstring) : WA :=
  let t := indexOf d _map.[64] in
  let l := if negb (t =? -1) then t else Z.of_nat (length d) in
  let '(t, r) :=
    for_loop 0 (Z.to_nat l)
      (fun w '(t, r) =>
         if negb (w .% 4 =? 0) then
           let v := indexOf _map d.[w - 1] .<< 2 * (w .% 4) in
           let b := indexOf _map d.[w] .>>> 6 - 2 * (w .% 4) in
           (aset t (r .>>> 2) (t.[r .>>> 2] .| ((v .| b) .<< 24 - 8 * (r .% 4))), r + 1)
         else (t, r))
      ([], 0) in
  WordArray.Build t r.

End Base64.

(** [lib.BufferedBlockAlgorithm._process] (minified [q]).  The block
    function [doProcessBlock words offset] rewrites the words in place and
    updates the state [S] of the algorithm (a hash value, a cipher mode).
    The result is the processed words, the data left, and the state. *)
Definition _process {S : Type} (doProcessBlock : list Z -> Z -> S -> list Z * S)
    (blockSize minBufferSize : Z) (flush : bool) (data : WA) (st : S) : WA * WA * S :=
  let e := WordArray.words data in
  let j := WordArray.sigBytes data in
  let k := blockSize in
  let b := if flush then JS.ceil_div j (4 * k)
           else Z.max (JS.trunc_div j (4 * k) - minBufferSize) 0 in
  let a := b * k in
  let j' := Z.min (4 * a) j in
  if a =? 0 then (WordArray.Build [] j', data, st)
  else
    let '(e, st) :=
      for_loop 0 (Z.to_nat b)
        (fun i '(e, st) => doProcessBlock e (i * k) st) (e, st) in
    (WordArray.Build (firstn (Z.to_nat a) e) j',
     WordArray.Build (skipn (Z.to_nat a) e) (j - j'), st).

(** [algo.MD5]. *)
Module MD5.

(** The table [T[x] = 4294967296 * Math.abs(Math.sin(x + 1)) | 0]; the
    integer parts of the products are tabulated. *)
Definition T : list Z :=
  map (fun x => x .| 0)
  [3614090360; 3905402710; 606105819; 3250441966; 4118548399; 1200080426;
   2821735955; 4249261313; 1770035416; 2336552879; 4294925233; 2304563134;
   1804603682; 4254626195; 2792965006; 1236535329; 4129170786; 3225465664;
   643717713; 3921069994; 3593408605; 38016083; 3634488961; 3889429448;
   568446438; 3275163606; 4107603335; 1163531501; 2850285829; 4243563512;
   1735328473; 2368359562; 4294588738; 2272392833; 1839030562; 4259657740;
   2763975236; 1272893353; 4139469664; 3200236656; 681279174; 3936430074;
   3572445317; 76029189; 3654602809; 3873151461; 530742520; 3299628645;
   4096336452; 1126891415; 2878612391; 4237533241; 1700485571; 2399980690;
   4293915773; 2240044497; 1873313359; 4264355552; 2734768916; 1309151649;
   4149444226; 3174756917; 718787259; 3951481745].

(** The four step functions (minified [p], [d], [l], [s]). *)
Definition FF (b n a c e j k : Z) : Z :=
  let b := b + ((n .& a) .| (.~ n .& c)) + e + k in ((b .<< j) .| (b .>>> 32 - j)) + n.
Definition GG (b n a c e j k : Z) : Z :=
  let b := b + ((n .& c) .| (a .& .~ c)) + e + k in ((b .<< j) .| (b .>>> 32 - j)) + n.
Definition HH (b n a c e j k : Z) : Z :=
  let b := b + (n .^ a .^ c) + e + k in ((b .<< j) .| (b .>>> 32 - j)) + n.
Definition II (b n a c e j k : Z) : Z :=
  let b := b + (a .^ (n .| .~ c)) + e + k in ((b .<< j) .| (b .>>> 32 - j)) + n.

(** The byte swap [(e<<8|e>>>24)&16711935 | (e<<24|e>>>8)&4278255360]. *)
Definition swap_endian (e : Z) : Z :=
  ((e .<< 8) .| (e .>>> 24)) .& 16711935 .| ((e .<< 24) .| (e .>>> 8)) .& 4278255360.

Definition _doReset : WA := WordArray.init [1732584193; 4023233417; 2562383102; 271733878].

Definition _doProcessBlock (q : list Z) (n : Z) (_hash : WA) : list Z * WA :=
  let q := for_loop 0 16 (fun a q => let c := n + a in aset q c (swap_endian q.[c])) q in
  let a := WordArray.words _hash in
  let M i := q.[n + i] in
  let f := a.[0] in let m := a.[1] in let g := a.[2] in let h := a.[3] in
  let f := FF f m g h (M 0) 7 T.[0] in
  let h := FF h f m g (M 1) 12 T.[1] in
  let g := FF g h f m (M 2) 17 T.[2] in
  let m := FF m g h f (M 3) 22 T.[3] in
  let f := FF f m g h (M 4) 7 T.[4] in
  let h := FF h f m g (M 5) 12 T.[5] in
  let g := FF g h f m (M 6) 17 T.[6] in
  let m := FF m g h f (M 7) 22 T.[7] in
  let f := FF f m g h (M 8) 7 T.[8] in
  let h := FF h f m g (M 9) 12 T.[9] in
  let g := FF g h f m (M 10) 17 T.[10] in
  let m := FF m g h f (M 11) 22 T.[11] in
  let f := FF f m g h (M 12) 7 T.[12] in
  let h := FF h f m g (M 13) 12 T.[13] in
  let g := FF g h f m (M 14) 17 T.[14] in
  let m := FF m g h f (M 15) 22 T.[15] in
  let f := GG f m g h (M 1) 5 T.[16] in
  let h := GG h f m g (M 6) 9 T.[17] in
  let g := GG g h f m (M 11) 14 T.[18] in
  let m := GG m g h f (M 0) 20 T.[19] in
  let f := GG f m g h (M 5) 5 T.[20] in
  let h := GG h f m g (M 10) 9 T.[21] in
  let g := GG g h f m (M 15) 14 T.[22] in
  let m := GG m g h f (M 4) 20 T.[23] in
  let f := GG f m g h (M 9) 5 T.[24] in
  let h := GG h f m g (M 14) 9 T.[25] in
  let g := GG g h f m (M 3) 14 T.[26] in
  let m := GG m g h f (M 8) 20 T.[27] in
  let f := GG f m g h (M 13) 5 T.[28] in
  let h := GG h f m g (M 2) 9 T.[29] in
  let g := GG g h f m (M 7) 14 T.[30] in
  let m := GG m g h f (M 12) 20 T.[31] in
  let f := HH f m g h (M 5) 4 T.[32] in
  let h := HH h f m g (M 8) 11 T.[33] in
  let g := HH g h f m (M 11) 16 T.[34] in
  let m := HH m g h f (M 14) 23 T.[35] in
  let f := HH f m g h (M 1) 4 T.[36] in
  let h := HH h f m g (M 4) 11 T.[37] in
  let g := HH g h f m (M 7) 16 T.[38] in
  let m := HH m g h f (M 10) 23 T.[39] in
  let f := HH f m g h (M 13) 4 T.[40] in
  let h := HH h f m g (M 0) 11 T.[41] in
  let g := HH g h f m (M 3) 16 T.[42] in
  let m := HH m g h f (M 6) 23 T.[43] in
  let f := HH f m g h (M 9) 4 T.[44] in
  let h := HH h f m g (M 12) 11 T.[45] in
  let g := HH g h f m (M 15) 16 T.[46] in
  let m := HH m g h f (M 2) 23 T.[47] in
  let f := II f m g h (M 0) 6 T.[48] in
  let h := II h f m g (M 7) 10 T.[49] in
  let g := II g h f m (M 14) 15 T.[50] in
  let m := II m g h f (M 5) 21 T.[51] in
  let f := II f m g h (M 12) 6 T.[52] in
  let h := II h f m g (M 3) 10 T.[53] in
  let g := II g h f m (M 10) 15 T.[54] in
  let m := II m g h f (M 1) 21 T.[55] in
  let f := II f m g h (M 8) 6 T.[56] in
  let h := II h f m g (M 15) 10 T.[57] in
  let g := II g h f m (M 6) 15 T.[58] in
  let m := II m g h f (M 13) 21 T.[59] in
  let f := II f m g h (M 4) 6 T.[60] in
  let h := II h f m g (M 11) 10 T.[61] in
  let g := II g h f m (M 2) 15 T.[62] in
  let m := II m g h f (M 9) 21 T.[63] in
  (q, WordArray.Build
        (aset (aset (aset (aset a 0 (a.[0] + f .| 0)) 1 (a.[1] + m .| 0)) 2 (a.[2] + g .| 0))
              3 (a.[3] + h .| 0))
        (WordArray.sigBytes _hash)).

(** A hasher: the buffered data, the count of bytes appended, the hash value. *)
Record hasher : Type := Hasher { _data : WA; _nDataBytes : Z; _hash : WA }.

Definition blockSize : Z := 16.

(** [create()] and [reset()]. *)
Definition reset : hasher := Hasher WordArray.empty 0 _doReset.

(** [_append(a)] for a word array. *)
Definition _append (s : hasher) (a : WA) : result hasher :=
  d <- WordArray.concat (_data s) a ;;
  Ok (Hasher d (_nDataBytes s + WordArray.sigBytes a) (_hash s)).

(** [_append(a)] for a string: [a = Utf8.parse(a)] first. *)
Definition _append_string (s : hasher) (a : jsstring) : result hasher :=
  a <- Utf8.parse a ;; _append s a.

Definition process (s : hasher) : hasher :=
  let '(_, d, h) := _process _doProcessBlock blockSize 0 false (_data s) (_hash s) in
  Hasher d (_nDataBytes s) h.

Definition update (s : hasher) (a : WA) : result hasher :=
  s <- _append s a ;; Ok (process s).

Definition update_string (s : hasher) (a : jsstring) : result hasher :=
  s <- _append_string s a ;; Ok (process s).

Definition _doFinalize (s : hasher) : WA :=
  let n := WordArray.words (_data s) in
  let a := 8 * _nDataBytes s in
  let c := 8 * WordArray.sigBytes (_data s) in
  let n := aset n (c .>>> 5) (n.[c .>>> 5] .| (128 .<< 24 - c .% 32)) in
  let e := a / 4294967296 in
  let n := aset n (((c + 64 .>>> 9) .<< 4) + 15) (swap_endian e) in
  let n := aset n (((c + 64 .>>> 9) .<< 4) + 14) (swap_endian a) in
  let d := WordArray.Build n (4 * (Z.of_nat (length n) + 1)) in
  let s := process (Hasher d (_nDataBytes s) (_hash s)) in
  WordArray.Build (map swap_endian (WordArray.words (_hash s))) (WordArray.sigBytes (_hash s)).

(** [finalize(a)] with a word array. *)
Definition finalize (s : hasher) (a : WA) : result WA :=
  s <- _append s a ;; Ok (_doFinalize s).

End MD5.

(** [algo.EvpKDF] with the configuration of [kdf.OpenSSL]: MD5, one
    iteration. *)
Module EvpKDF.

Definition iterations : Z := 1.

(** The body of the loop [for (; u.length < q; )]; [n] is the previous
    block, [None] before the first turn. *)
Fixpoint derive (fuel : nat) (keySize : Z) (password : jsstring) (salt : WA)
    (n : option WA) (b : WA) : result WA :=
  match fuel with
  | O => Ok b
  | S fuel =>
    if Z.of_nat (length (WordArray.words b)) <? keySize then
      s <- match n with
           | Some n => MD5.update MD5.reset n
           | None => Ok MD5.reset
           end ;;
      s <- MD5.update_string s password ;;
      n <- MD5.finalize s salt ;;
      n <- for_loop 1 (Z.to_nat (iterations - 1))
             (fun _ n => n <- n ;; MD5.finalize MD5.reset n) (Ok n) ;;
      b <- WordArray.concat b n ;;
      derive fuel keySize password salt (Some n) b
    else Ok b
  end.

(** [compute(password, salt)]: every turn of the loop adds the four words of
    a digest, so [keySize] turns are enough. *)
Definition compute (keySize : Z) (password : jsstring) (salt : WA) : result WA :=
  b <- derive (Z.to_nat keySize) keySize password salt None WordArray.empty ;;
  Ok (WordArray.Build (WordArray.words b) (4 * keySize)).

End EvpKDF.

(** ** inject.js: CryptoJS v3.1.2, AES *)

Module AES.

(** The doubling table (minified [a]): [a[c] = 128 > c ? c<<1 : c<<1 ^ 283]. *)
Definition d : list Z :=
  Eval vm_compute in
  for_loop 0 256 (fun c a => aset a c (if 128 >? c then c .<< 1 else (c .<< 1) .^ 283)) [].

(** The lookup tables, under the names of the unminified library; the
    minified names are [l], [s], [t], [r], [w], [v], [b], [x], [q], [n]. *)
Record tables : Type := Tables {
  SBOX : list Z; INV_SBOX : list Z;
  SUB_MIX_0 : list Z; SUB_MIX_1 : list Z; SUB_MIX_2 : list Z; SUB_MIX_3 : list Z;
  INV_SUB_MIX_0 : list Z; INV_SUB_MIX_1 : list Z; INV_SUB_MIX_2 : list Z; INV_SUB_MIX_3 : list Z }.

(** One turn of the loop that fills the tables; [e] and [j] are the loop's
    walking variables. *)
Definition table_step (st : Z * Z * tables) : Z * Z * tables :=
  let '(e, j, T) := st in
  let k := j .^ (j .<< 1) .^ (j .<< 2) .^ (j .<< 3) .^ (j .<< 4) in
  let k := (k .>>> 8) .^ (k .& 255) .^ 99 in
  let z := d.[e] in
  let F := d.[z] in
  let G := d.[F] in
  let y := (257 * d.[k]) .^ (16843008 * k) in
  let y' := (16843009 * G) .^ (65537 * F) .^ (257 * z) .^ (16843008 * e) in
  let T' := Tables
    (aset (SBOX T) e k) (aset (INV_SBOX T) k e)
    (aset (SUB_MIX_0 T) e ((y .<< 24) .| (y .>>> 8)))
    (aset (SUB_MIX_1 T) e ((y .<< 16) .| (y .>>> 16)))
    (aset (SUB_MIX_2 T) e ((y .<< 8) .| (y .>>> 24)))
    (aset (SUB_MIX_3 T) e y)
    (aset (INV_SUB_MIX_0 T) k ((y' .<< 24) .| (y' .>>> 8)))
    (aset (INV_SUB_MIX_1 T) k ((y' .<< 16) .| (y' .>>> 16)))
    (aset (INV_SUB_MIX_2 T) k ((y' .<< 8) .| (y' .>>> 24)))
    (aset (INV_SUB_MIX_3 T) k y') in
  if negb (e =? 0) then (z .^ d.[d.[d.[G .^ z]]], j .^ d.[d.[j]], T')
  else (1, 1, T').

Definition tabs : tables :=
  Eval vm_compute in
  snd (for_loop 0 256 (fun _ st => table_step st) (0, 0, Tables [] [] [] [] [] [] [] [] [] [])).

(** Minified [H]. *)
Definition RCON : list Z := [0; 1; 2; 4; 8; 16; 32; 64; 128; 27; 54].

(** [l[k>>>24]<<24 | l[k>>>16&255]<<16 | l[k>>>8&255]<<8 | l[k&255]]. *)
Definition sub_word (k : Z) : Z :=
  ((SBOX tabs).[k .>>> 24] .<< 24) .| ((SBOX tabs).[k .>>> 16 .& 255] .<< 16)
  .| ((SBOX tabs).[k .>>> 8 .& 255] .<< 8) .| (SBOX tabs).[k .& 255].

Record schedules : Type :=
  Schedules { _nRounds : Z; _keySchedule : list Z; _invKeySchedule : list Z }.

(** [_doReset], for a key whose [sigBytes] is a positive multiple of four
    (the program's keys have [4 * keySize = 32] bytes): there [sigBytes / 4]
    is exact and [j % d] is taken of integers.  Other byte counts give the
    source a fractional number of rounds; they are outside this
    definition. *)
Definition _doReset (_key : WA) : schedules :=
  let c := WordArray.words _key in
  let d := WordArray.sigBytes _key / 4 in
  let nRounds := d + 6 in
  let a := 4 * (nRounds + 1) in
  let e :=
    for_loop 0 (Z.to_nat a)
      (fun j e =>
         if j <? d then aset e j c.[j]
         else
           let k := e.[j - 1] in
           let k :=
             if negb (j .% d =? 0) then
               (if (6 <? d) && (4 =? j .% d) then sub_word k else k)
             else
               let k := (k .<< 8) .| (k .>>> 24) in
               let k := sub_word k in
               k .^ (RCON.[JS.trunc_div j d] .<< 24) in
           aset e j (e.[j - d] .^ k))
      [] in
  let c :=
    for_loop 0 (Z.to_nat a)
      (fun d c =>
         let j := a - d in
         let k := if negb (d .% 4 =? 0) then e.[j] else e.[j - 4] in
         aset c d
           (if (4 >? d) || (4 >=? j) then k
            else (INV_SUB_MIX_0 tabs).[(SBOX tabs).[k .>>> 24]]
                 .^ (INV_SUB_MIX_1 tabs).[(SBOX tabs).[k .>>> 16 .& 255]]
                 .^ (INV_SUB_MIX_2 tabs).[(SBOX tabs).[k .>>> 8 .& 255]]
                 .^ (INV_SUB_MIX_3 tabs).[(SBOX tabs).[k .& 255]]))
      [] in
  Schedules nRounds e c.

Record rstate : Type := RState { rg : Z; rh : Z; rk : Z; rn : Z; rp : Z }.

(** [_doCryptBlock(a, b, c, d, e, j, l, f)]: the state words [g], [h], [k],
    [n] and the key index [p]. *)
Definition crypt_round (c d e j l : list Z) (s : rstate) : rstate :=
  let '(RState g h k n p) := s in
  let q := d.[g .>>> 24] .^ e.[h .>>> 16 .& 255] .^ j.[k .>>> 8 .& 255] .^ l.[n .& 255] .^ c.[p] in
  let s := d.[h .>>> 24] .^ e.[k .>>> 16 .& 255] .^ j.[n .>>> 8 .& 255] .^ l.[g .& 255] .^ c.[p + 1] in
  let t := d.[k .>>> 24] .^ e.[n .>>> 16 .& 255] .^ j.[g .>>> 8 .& 255] .^ l.[h .& 255] .^ c.[p + 2] in
  let n := d.[n .>>> 24] .^ e.[g .>>> 16 .& 255] .^ j.[h .>>> 8 .& 255] .^ l.[k .& 255] .^ c.[p + 3] in
  RState q s t n (p + 4).

Definition _doCryptBlock (nRounds : Z) (a : list Z) (b : Z) (c d e j l f : list Z) : list Z :=
  let s := RState (a.[b] .^ c.[0]) (a.[b + 1] .^ c.[1]) (a.[b + 2] .^ c.[2]) (a.[b + 3] .^ c.[3]) 4 in
  let '(RState g h k n p) :=
    for_loop 1 (Z.to_nat (nRounds - 1)) (fun _ s => crypt_round c d e j l s) s in
  let q := ((f.[g .>>> 24] .<< 24) .| (f.[h .>>> 16 .& 255] .<< 16)
            .| (f.[k .>>> 8 .& 255] .<< 8) .| f.[n .& 255]) .^ c.[p] in
  let s := ((f.[h .>>> 24] .<< 24) .| (f.[k .>>> 16 .& 255] .<< 16)
            .| (f.[n .>>> 8 .& 255] .<< 8) .| f.[g .& 255]) .^ c.[p + 1] in
  let t := ((f.[k .>>> 24] .<< 24) .| (f.[n .>>> 16 .& 255] .<< 16)
            .| (f.[g .>>> 8 .& 255] .<< 8) .| f.[h .& 255]) .^ c.[p + 2] in
  let n := ((f.[n .>>> 24] .<< 24) .| (f.[g .>>> 16 .& 255] .<< 16)
            .| (f.[h .>>> 8 .& 255] .<< 8) .| f.[k .& 255]) .^ c.[p + 3] in
  aset (aset (aset (aset a b q) (b + 1) s) (b + 2) t) (b + 3) n.

Definition encryptBlock (ks : schedules) (a : list Z) (b : Z) : list Z :=
  _doCryptBlock (_nRounds ks) a b (_keySchedule ks)
    (SUB_MIX_0 tabs) (SUB_MIX_1 tabs) (SUB_MIX_2 tabs) (SUB_MIX_3 tabs) (SBOX tabs).

Definition decryptBlock (ks : schedules) (a : list Z) (c : Z) : list Z :=
  let d := a.[c + 1] in
  let a := aset a (c + 1) a.[c + 3] in
  let a := aset a (c + 3) d in
  let a := _doCryptBlock (_nRounds ks) a c (_invKeySchedule ks)
             (INV_SUB_MIX_0 tabs) (INV_SUB_MIX_1 tabs) (INV_SUB_MIX_2 tabs) (INV_SUB_MIX_3 tabs)
             (INV_SBOX tabs) in
  let d := a.[c + 1] in
  let a := aset a (c + 1) a.[c + 3] in
  aset a (c + 3) d.

Definition keySize : Z := 8.
Definition ivSize : Z := 4.
Definition blockSize : Z := 4.

End AES.

(** ** inject.js: CryptoJS v3.1.2, cipher core *)

(** [mode.CBC]: the state of a mode object. *)
Module CBC.

Record t : Type := Build { _iv : option (list Z); _prevBlock : list Z }.

Definition create (iv : list Z) : t := Build (Some iv) [].

(** [xorBlock] (minified [x]): the IV is used once, then the previous block. *)
Definition xorBlock (m : t) (e : list Z) (a b : Z) : list Z * t :=
  let '(c, m) := match _iv m with
                 | Some iv => (iv, Build None (_prevBlock m))
                 | None => (_prevBlock m, m)
                 end in
  (for_loop 0 (Z.to_nat b) (fun d e => aset e (a + d) (e.[a + d] .^ c.[d])) e, m).

Definition Encryptor_processBlock (ks : AES.schedules) (e : list Z) (a : Z) (m : t) : list Z * t :=
  let c := AES.blockSize in
  let '(e, m) := xorBlock m e a c in
  let e := AES.encryptBlock ks e a in
  (e, Build (_iv m) (slice e a (a + c))).

Definition Decryptor_processBlock (ks : AES.schedules) (e : list Z) (a : Z) (m : t) : list Z * t :=
  let c := AES.blockSize in
  let d := slice e a (a + c) in
  let e := AES.decryptBlock ks e a in
  let '(e, m) := xorBlock m e a c in
  (e, Build (_iv m) d).

End CBC.

(** [pad.Pkcs7]. *)
Module Pkcs7.

Definition pad (a : WA) (b : Z) : result WA :=
  let c := 4 * b in
  let c := c - WordArray.sigBytes a .% c in
  let d := (c .<< 24) .| (c .<< 16) .| (c .<< 8) .| c in
  let l := repeat d (Z.to_nat (JS.ceil_div c 4)) in
  WordArray.concat a (WordArray.Build l c).

Definition unpad (a : WA) : WA :=
  WordArray.Build (WordArray.words a)
    (WordArray.sigBytes a - ((WordArray.words a).[WordArray.sigBytes a - 1 .>>> 2] .& 255)).

End Pkcs7.

(** [format.OpenSSL]. *)
Module OpenSSL.

Definition stringify (ciphertext : WA) (salt : option WA) : result jsstring :=
  match salt with
  | Some a =>
    w <- WordArray.concat (WordArray.init [1398893684; 1701076831]) a ;;
    w <- WordArray.concat w ciphertext ;;
    Base64.stringify w
  | None => Base64.stringify ciphertext
  end.

(** [parse]: the ciphertext and, after the [Salted__] header, the salt. *)
Definition parse (a : jsstring) : WA * option WA :=
  let a := Base64.parse a in
  let b := WordArray.words a in
  match b with
  | 1398893684 :: 1701076831 :: _ =>
    (WordArray.Build (skipn 4 b) (WordArray.sigBytes a - 16), Some (WordArray.init (slice b 2 4)))
  | _ => (a, None)
  end.

(** [kdf.OpenSSL.execute(password, keySize, ivSize, salt)]: key, iv, salt and
    the position of the random source. *)
Definition execute (password : jsstring) (keySize ivSize : Z) (salt : option WA)
    (rnd : nat -> Z) (pos : nat) : result (WA * WA * WA) * nat :=
  let '(salt, pos) := match salt with
                      | Some d => (d, pos)
                      | None => WordArray.random rnd pos 8
                      end in
  (a <- EvpKDF.compute (keySize + ivSize) password salt ;;
   let iv := WordArray.Build (skipn (Z.to_nat keySize) (WordArray.words a)) (4 * ivSize) in
   Ok (WordArray.Build (WordArray.words a) (4 * keySize), iv, salt),
   pos).

End OpenSSL.

(** [lib.BlockCipher] over AES with the default mode (CBC) and padding
    (Pkcs7): [createEncryptor(key, cfg).finalize(message)] and
    [createDecryptor(key, cfg).finalize(ciphertext)]. *)
Module BlockCipher.

Definition encryptor_finalize (key iv : WA) (message : jsstring) : result WA :=
  let ks := AES._doReset key in
  let mode := CBC.create (WordArray.words iv) in
  m <- Utf8.parse message ;;
  data <- WordArray.concat WordArray.empty m ;;
  data <- Pkcs7.pad data AES.blockSize ;;
  let '(b, _, _) := _process (CBC.Encryptor_processBlock ks) AES.blockSize 0 true data mode in
  Ok b.

Definition decryptor_finalize (key iv : WA) (ciphertext : WA) : result WA :=
  let ks := AES._doReset key in
  let mode := CBC.create (WordArray.words iv) in
  data <- WordArray.concat WordArray.empty ciphertext ;;
  let '(b, _, _) := _process (CBC.Decryptor_processBlock ks) AES.blockSize 1 true data mode in
  Ok (Pkcs7.unpad b).

End BlockCipher.

(** [lib.PasswordBasedCipher] behind [CryptoJS.AES.encrypt] and
    [CryptoJS.AES.decrypt] with a string password. *)
Module CryptoJS_AES.

(** [encrypt(message, password)] followed by the [toString()] of the result
    (the OpenSSL formatter): the transport string. *)
Definition encrypt (message password : jsstring) (rnd : nat -> Z) (pos : nat)
  : result jsstring * nat :=
  let '(d, pos) := OpenSSL.execute password AES.keySize AES.ivSize None rnd pos in
  ('(key, iv, salt) <- d ;;
   b <- BlockCipher.encryptor_finalize key iv message ;;
   OpenSSL.stringify b (Some salt),
   pos).

(** [decrypt(ciphertext, password).toString(CryptoJS.enc.Utf8)]. *)
Definition decrypt (ciphertext password : jsstring) (rnd : nat -> Z) (pos : nat)
  : result jsstring * nat :=
  let '(c, salt) := OpenSSL.parse ciphertext in
  let '(d, pos) := OpenSSL.execute password AES.keySize AES.ivSize salt rnd pos in
  ('(key, iv, _) <- d ;;
   b <- BlockCipher.decryptor_finalize key iv c ;;
   Utf8.stringify b,
   pos).

End CryptoJS_AES.

(** ** JavaScript string methods *)

(** [s.startsWith(p)]. *)
Fixpoint startsWith (p s : jsstring) : bool :=
  match p, s with
  | [], _ => true
  | a :: p', b :: s' => (a =? b) && startsWith p' s'
  | _ :: _, [] => false
  end.

(** [s.indexOf(p)], [None] for [-1]. *)
Fixpoint indexOf (p s : jsstring) : option nat :=
  if startsWith p s then Some O
  else match s with
       | [] => None
       | _ :: t => option_map S (indexOf p t)
       end.

(** [s.includes(p)]. *)
Definition includes (p s : jsstring) : bool :=
  match indexOf p s with Some _ => true | None => false end.

(** The replacement text of [String.prototype.replace] with a string pattern
    (GetSubstitution with no captures): [$$] is a dollar sign, [$&] the
    matched text, [$`] the text before the match, [$'] the text after it. *)
Fixpoint GetSubstitution (matched before after r : jsstring) : jsstring :=
  match r with
  | [] => []
  | c :: t =>
    if c =? 36 then
      match t with
      | [] => [c]
      | d :: t' =>
        if d =? 36 then 36 :: GetSubstitution matched before after t'
        else if d =? 38 then matched ++ GetSubstitution matched before after t'
        else if d =? 96 then before ++ GetSubstitution matched before after t'
        else if d =? 39 then after ++ GetSubstitution matched before after t'
        else c :: GetSubstitution matched before after t
      end
    else c :: GetSubstitution matched before after t
  end.

(** [s.replace(p, r)] for strings [p] and [r]: the first occurrence only. *)
Definition replace (s p r : jsstring) : jsstring :=
  match indexOf p s with
  | None => s
  | Some i =>
    let before := firstn i s in
    let after := skipn (i + length p) s in
    before ++ GetSubstitution p before after r ++ after
  end.

(** [s.split(sep)] for a non-empty separator.  [skip] counts the characters
    of a separator still to pass, [cur] is the piece being read. *)
Fixpoint split_from (sep s : jsstring) (skip : nat) (cur : jsstring) : list jsstring :=
  match s with
  | [] => [cur]
  | c :: t =>
    match skip with
    | S k => split_from sep t k cur
    | O => if startsWith sep s then cur :: split_from sep t (length sep - 1) []
           else split_from sep t 0 (cur ++ [c])
    end
  end.

Definition split (sep s : jsstring) : list jsstring := split_from sep s 0 [].

(** [a[i]] of an array of strings inside a string concatenation: an absent
    element is written [undefined]. *)
Definition str_at (a : list jsstring) (i : nat) : jsstring := nth i a (lit "undefined").

(** The class [\s] of regular expressions: WhiteSpace and LineTerminator. *)
Definition is_whitespace (c : Z) : bool :=
  ((9 <=? c) && (c <=? 13)) || (c =? 32) || (c =? 160) || (c =? 5760)
  || ((8192 <=? c) && (c <=? 8202)) || (c =? 8232) || (c =? 8233) || (c =? 8239)
  || (c =? 8287) || (c =? 12288) || (c =? 65279).

(** [s.replace(/\s/g, '')]. *)
Definition remove_whitespace (s : jsstring) : jsstring := filter (fun c => negb (is_whitespace c)) s.

(** The length of the longest prefix matching [[^>]+]. *)
Fixpoint not_gt_run (s : jsstring) : nat :=
  match s with
  | c :: t => if c =? 62 then O else S (not_gt_run t)
  | [] => O
  end.

(** A match of [[^>]+(>|$)] at the head of [s]: the greedy run must be
    non-empty; what follows it is [>] or the end of the input. *)
Definition tag_body_match (s : jsstring) : option nat :=
  let n := not_gt_run s in
  match n with
  | O => None
  | _ => Some (n + match skipn n s with _ :: _ => 1 | [] => 0 end)%nat
  end.

(** A match of [/<\/?[^>]+(>|$)/] at the head of [s], by its length: the
    optional slash is tried first, then left to the character class. *)
Definition tag_match (s : jsstring) : option nat :=
  match s with
  | 60 :: t =>
    match t with
    | 47 :: t' =>
      match tag_body_match t' with
      | Some n => Some (2 + n)%nat
      | None => option_map (fun n => (1 + n)%nat) (tag_body_match t)
      end
    | _ => option_map (fun n => (1 + n)%nat) (tag_body_match t)
    end
  | _ => None
  end.

(** [s.replace(/<\/?[^>]+(>|$)/g, '')]; [skip] counts the characters of a
    match still to drop. *)
Fixpoint strip_tags_from (s : jsstring) (skip : nat) : jsstring :=
  match s with
  | [] => []
  | c :: t =>
    match skip with
    | S k => strip_tags_from t k
    | O => match tag_match s with
           | Some n => strip_tags_from t (n - 1)
           | None => c :: strip_tags_from t 0
           end
    end
  end.

Definition strip_tags (s : jsstring) : jsstring := strip_tags_from s 0.

(** ** inject.js: the emoji table *)

(** [replacementarr]: an object used as a map.  [for (key in ...)] visits the
    keys in the order they were first assigned (no key is an array index:
    every key starts with a colon). *)
Definition emojimap := list (jsstring * jsstring).

(** [obj[key] = value]. *)
Fixpoint assign (m : emojimap) (key value : jsstring) : emojimap :=
  match m with
  | [] => [(key, value)]
  | (k, v) :: t => if jsstring_eqb k key then (k, value) :: t else (k, v) :: assign t key value
  end.

Definition default_emojis : emojimap :=
  [
   (lit ":joy:",
    lit "<img src=`/assets/cae9e3b02af6e987442df2953de026fc.svg` aria-label=`:joy:` alt=`:joy:` draggable=`false` class=`emoji jumboable`>");
   (lit ":frowning2:",
    lit "<img src=`/assets/b61c4e14e90e796e36f0d10792fcc505.svg` aria-label=`:frowning2:` alt=`:frowning2:` draggable=`false` class=`emoji jumboable`>");
   (lit ":money_mouth:",
    lit "<img src=`/assets/5cdb67d23b259628f475e663ef9907e7.svg` aria-label=`:money_mouth:` alt=`:money_mouth:` draggable=`false` class=`emoji jumboable`>");
   (lit ":smile:",
    lit "<img src=`/assets/f0835a46b501ae0a182874b003fdbb65.svg` aria-label=`:smile:` alt=`:smile:` draggable=`false` class=`emoji jumboable`>");
   (lit ":sunglasses:",
    lit "<img src=`/assets/d0df7bf4acd843defa4e417cf767a574.svg` aria-label=`:sunglasses:` alt=`:sunglasses:` draggable=`false` class=`emoji jumboable`>");
   (lit ":heart_eyes:",
    lit "<img src=`/assets/7e4f6dcf32845bfa865cf17491faf867.svg` aria-label=`:heart_eyes:` alt=`:heart_eyes:` draggable=`false` class=`emoji jumboable`>");
   (lit ":heart:",
    lit "<img src=`/assets/dcbf6274f0ce0f393d064a72db2c8913.svg` aria-label=`:heart:` alt=`:heart:` draggable=`false` class=`emoji jumboable`>");
   (lit ":sob:",
    lit "<img src=`/assets/4dc13fd52f691020a1308c5b6cbc6f49.svg` aria-label=`:sob:` alt=`:sob:` draggable=`false` class=`emoji jumboable`>");
   (lit ":thumbsup:",
    lit "<img src=`/assets/2af915882260fdb89538d1610e1d9baa.svg` aria-label=`:thumbsup:` alt=`:thumbsup:` draggable=`false` class=`emoji jumboable`>");
   (lit ":ok_hand:",
    lit "<img src=`/assets/b6f700d4bc253abdb5ad576917b756d8.svg` aria-label=`:ok_hand:` alt=`:ok_hand:` draggable=`false` class=`emoji jumboable`>");
   (lit ":ingves_guld:",
    lit "<img aria-label=`:ingves_guld:` src=`https://cdn.discordapp.com/emojis/586594745711591425.png?v=1` alt=`:ingves_guld:` draggable=`false` class=`emoji jumboable`>");
   (lit ":ingves_concerned:",
    lit "<img aria-label=`:ingves_concerned:` src=`https://cdn.discordapp.com/emojis/586595195701821475.png?v=1` alt=`:ingves_concerned:` draggable=`false` class=`emoji jumboable`>");
   (lit ":cry:",
    lit "<img src=`/assets/2a6e66e7de157c4051fb7abf7d8b0063.svg` aria-label=`:cry:` alt=`:cry:` draggable=`false` class=`emoji jumboable`>");
   (lit ":thinking:",
    lit "<img src=`/assets/53ef346458017da2062aca5c7955946b.svg` aria-label=`:thinking:` alt=`:thinking:` draggable=`false` class=`emoji jumboable`>");
   (lit ":broken_heart:",
    lit "<img src=`/assets/8fee3f6705505729fea8c7379934d794.svg` aria-label=`:broken_heart:` alt=`:broken_heart:` draggable=`false` class=`emoji jumboable`>");
   (lit ":grimacing:",
    lit "<img src=`/assets/be0923fd964bff1a6ea77c14fe227a63.svg` aria-label=`:grimacing:` alt=`:grimacing:` draggable=`false` class=`emoji jumboable`>");
   (lit ":pensive:",
    lit "<img src=`/assets/f1f76882104c8724124954b6edfed6d4.svg` aria-label=`:pensive:` alt=`:pensive:` draggable=`false` class=`emoji jumboable`>");
   (lit ":money_with_wings:",
    lit "<img src=`/assets/630828f0eaa647bf465b3b903b0dbc5f.svg` aria-label=`:money_with_wings:` alt=`:money_with_wings:` draggable=`false` class=`emoji jumboable`>");
   (lit ":moneybag:",
    lit "<img src=`/assets/ccebe0b729ff7530c5e37dbbd9f9938c.svg` aria-label=`:moneybag:` alt=`:moneybag:` draggable=`false` class=`emoji jumboable`>");
   (lit ":clown:",
    lit "<img src=`/assets/1beee7912bb5016975747a3086794957.svg` aria-label=`:clown:` alt=`:clown:` draggable=`false` class=`emoji jumboable`>");
   (lit ":smiley:",
    lit "<img src=`/assets/b731b88b6459090c02b8d1e31a552c5a.svg` aria-label=`:smiley:` alt=`:smiley:` draggable=`false` class=`emoji jumboable`>");
   (lit ":scream:",
    lit "<img src=`/assets/9bd8b85559466379744360f8c9841f39.svg` aria-label=`:scream:` alt=`:scream:` draggable=`false` class=`emoji jumboable`>");
   (lit ":wave:",
    lit "<img src=`/assets/593c4a3437fbb5b89fbb148f7b96424d.svg` aria-label=`:wave:` alt=`:wave:` draggable=`false` class=`emoji jumboable`>")
  ].

(** [loadEmojis]: the stored map, if any, then the built-in entries. *)
Definition loadEmojis (emojidata : option emojimap) (replacementarr : emojimap) : emojimap :=
  let m := match emojidata with Some d => d | None => replacementarr end in
  fold_left (fun m kv => assign m (fst kv) (snd kv)) default_emojis m.

(** [obj[key]] of the emoji table: [None] for [undefined]. *)
Fixpoint lookup (m : emojimap) (key : jsstring) : option jsstring :=
  match m with
  | [] => None
  | (k, v) :: t => if jsstring_eqb k key then Some v else lookup t key
  end.

(** An [img] element of the page: its [aria-label] attribute ([None] for
    [null]) and its [outerHTML]. *)
Record img : Type := Img { aria_label : option jsstring; outerHTML : jsstring }.

(** [intervalfunc], the body of the loop that learns the emojis of the page:
    an image is taken when it has a label and the label begins with a
    colon. *)
Definition learn_emoji (replacementarr : emojimap) (emojiToAdd : img) : emojimap :=
  match aria_label emojiToAdd with
  | Some (c :: r) =>
    if c =? 58 then assign replacementarr (c :: r) (outerHTML emojiToAdd) else replacementarr
  | _ => replacementarr
  end.

Definition learn_emojis (allemojis : list img) (replacementarr : emojimap) : emojimap :=
  fold_left learn_emoji allemojis replacementarr.

(** ** inject.js: setPassphrase *)

Definition stopkey : jsstring := [167].

(** The persisted key-value store, read as [obj[key]]; only its string
    entries (the secrets) are of interest. *)
Definition storage := jsstring -> option jsstring.

(** The scope identifiers [serverurl] and [channelurl] of a location. *)
Definition setPassphrase_scope (href : jsstring) : jsstring * jsstring :=
  let url := replace href (lit "https://") [] in
  let urlarr := split (lit "/") url in
  let serverurl := str_at urlarr 0 ++ lit "/" ++ str_at urlarr 1 ++ lit "/" ++ str_at urlarr 2 in
  let channelurl := url in
  (serverurl, channelurl).

Definition retardedClientSideSalt : jsstring := lit "9AK0Q4Ga0o".

(** The string that is hashed. *)
Definition passphrase_material (channelname url serverkey channelkey : jsstring) : jsstring :=
  channelname ++ url ++ serverkey ++ channelkey ++ retardedClientSideSalt.

(** [setPassphrase]: the new value of [passphrase].  [title] is the text of
    the first element of class [title-29uC1r]; reading it raises
    [TypeError] when there is no such element. *)
Definition setPassphrase (obj : storage) (href : jsstring) (title : option jsstring)
  : result jsstring :=
  let '(serverurl, channelurl) := setPassphrase_scope href in
  let url := channelurl in
  let serverkey := match obj serverurl with Some k => k | None => [] end in
  let channelkey := match obj channelurl with Some k => k | None => [] end in
  match title with
  | None => Throw TypeError
  | Some channelname =>
    Ok (Sha256.hash (passphrase_material channelname url serverkey channelkey))
  end.

(** ** inject.js: the keydown listener *)

Record keyevent : Type := KeyEvent { keyCode : Z; key : jsstring }.

(** The globals the listener reads and writes, the values of the page's
    [textarea] elements, and the position of the random source. *)
Record session : Type := Session {
  passphrase : jsstring;
  send : bool;
  lastKeyWasStopKey : bool;
  textareaarray : list jsstring;
  rnd_pos : nat }.

(** What a run of the listener leaves: whether [preventDefault] was called,
    the exception that ended it (if any), the state. *)
Record outcome : Type := Outcome {
  defaultPrevented : bool;
  raised : option exn;
  after : session }.

Definition keydown (rnd : nat -> Z) (event : keyevent) (s : session) : outcome :=
  let armed := if keyCode event =? 17 then false else lastKeyWasStopKey s in
  if armed && negb ((keyCode event =? 13) || (keyCode event =? 8)) then
    Outcome true None (Session (passphrase s) (send s) armed (textareaarray s) (rnd_pos s))
  else if jsstring_eqb (key event) stopkey then
    match textareaarray s with
    | [] =>
      Outcome false (Some TypeError) (Session (passphrase s) true true [] (rnd_pos s))
    | textToEncrypt :: others =>
      let '(r, pos) := CryptoJS_AES.encrypt textToEncrypt (passphrase s) rnd (rnd_pos s) in
      match r with
      | Ok c =>
        let str := stopkey ++ c in
        Outcome false None (Session (passphrase s) true true (str :: others) pos)
      | Throw e =>
        Outcome false (Some e) (Session (passphrase s) true true (textToEncrypt :: others) pos)
      end
    end
  else
    Outcome false None (Session (passphrase s) (send s) false (textareaarray s) (rnd_pos s)).

(** ** inject.js: decryptMessages *)

(** A message element of class [markup-2BOw-j]: its [innerHTML], its
    [style.color], and its fourth ancestor (an index into the class names of
    the page's containers; [None] when the chain of parents ends before). *)
Record node : Type := Node {
  innerHTML : jsstring;
  style_color : jsstring;
  container : option nat }.

(** The message elements in document order and the [className] of every
    container.  Two messages may share a container.  The list stands for
    the collection [getElementsByClassName] returns as a pass finds it, its
    elements side by side: an element of class [markup-2BOw-j] inside the
    markup that a turn assigns, which the live collection gains behind the
    element of that turn, is no part of it, and the statements below speak
    of the elements that a pass visits. *)
Record page : Type := Page { messages : list node; className : nat -> jsstring }.

Definition fallback : jsstring := lit "[could not be decrypted]".

(** An assignment to the element of index [i].  The [innerHTML] of the new
    node is the string assigned; what the browser returns when the property
    is read again, the serialisation of the markup it parsed, is not defined
    here: a statement about a later reading takes it as a parameter. *)
Definition set_node (i : nat) (m : node) (p : page) : page :=
  Page (firstn i (messages p) ++ m :: skipn (S i) (messages p)) (className p).

(** [parentcontainer.className += s]. *)
Definition add_class (c : nat) (s : jsstring) (p : page) : page :=
  Page (messages p) (fun k => if Nat.eqb k c then className p k ++ s else className p k).

(** The markup of one word of a message that contains [https]. *)
Definition render_word (decryptedWord : jsstring) : jsstring :=
  if includes (lit "youtube.com/watch") decryptedWord then
    let watchcode := str_at (split (lit "?v=") decryptedWord) 1 in
    lit "<a  href=`" ++ decryptedWord ++ lit "`>" ++ decryptedWord
    ++ lit "</a><br/><br/><iframe src=`https://www.youtube.com/embed/" ++ watchcode
    ++ lit "` style=`width: 99%; max-width:700px; height:400px;`>"
  else if includes (lit "bitchute.com/video/") decryptedWord then
    let watchcode := str_at (split (lit ".com/video/") decryptedWord) 1 in
    lit "<a href=`" ++ decryptedWord ++ lit "`>" ++ decryptedWord
    ++ lit "</a><br/><br/><iframe src=`https://www.bitchute.com/embed/" ++ watchcode
    ++ lit "` style=`width: 99%; max-width:700px; height:400px;`>"
  else if includes (lit "https") decryptedWord then
    lit "<a href=`" ++ decryptedWord ++ lit "`>" ++ decryptedWord
    ++ lit "</a><br/><br/><img alt=`` src=`" ++ decryptedWord
    ++ lit "` style=`max-height: 600px; max-width: 600px;`>"
  else decryptedWord.

(** The URL step: [containsImage] and the rewritten text. *)
Definition classify_urls (decrypted : jsstring) : bool * jsstring :=
  if includes (lit "https") decrypted then
    let decrypted := replace decrypted (lit "https://") (lit " https://") in
    let decrypted := replace decrypted (lit "= https://") (lit "=https://") in
    let decryptedWords := split (lit " ") decrypted in
    (true, fold_left (fun decrypted w => decrypted ++ lit " " ++ render_word w) decryptedWords [])
  else (false, decrypted).

(** The emoji step. *)
Definition substitute_emojis (replacementarr : emojimap) (decrypted : jsstring) : jsstring :=
  if (1 <? length (split (lit ":") decrypted))%nat then
    fold_left (fun decrypted kv => replace decrypted (fst kv) (snd kv)) replacementarr decrypted
  else decrypted.

(** The sizing hints appended to the container's class name. *)
Definition sizing_hints (decrypted : jsstring) : jsstring :=
  let cleanText := strip_tags decrypted in
  (if (80 <? length cleanText)%nat then lit " widermessage" else [])
  ++ (if (200 <? length cleanText)%nat then lit " evenwidermessage" else []).

(** The part of the [try] block after a non-empty decryption: the page when
    the block ends and the exception that ended it, if any. *)
Definition render_message (replacementarr : emojimap) (i : nat) (m : node)
    (decrypted : jsstring) (p : page) : page * option exn :=
  let '(containsImage, decrypted) := classify_urls decrypted in
  let decrypted := substitute_emojis replacementarr decrypted in
  let p := set_node i (Node decrypted (lit "#fff") (container m)) p in
  match container m with
  | None => (p, Some TypeError)
  | Some parentcontainer =>
    let p := add_class parentcontainer (lit " encryptedMessageContainer") p in
    let p := if containsImage then add_class parentcontainer (lit " containsImage") p else p in
    (add_class parentcontainer (sizing_hints decrypted) p, None)
  end.

(** One turn of the loop of [decryptMessages], for the element of index [i]. *)
Definition decrypt_message (replacementarr : emojimap) (passphrase : jsstring)
    (rnd : nat -> Z) (i : nat) (st : page * nat) : page * nat :=
  let '(p, pos) := st in
  match nth_error (messages p) i with
  | None => st
  | Some m =>
    match innerHTML m with
    | [] => st
    | c :: encrypted =>
      if c =? 167 then
        (* encrypted.substring(1), then substring(0, length - 1) *)
        let encrypted := firstn (length encrypted - 1) encrypted in
        let '(r, pos) := CryptoJS_AES.decrypt encrypted passphrase rnd pos in
        let '(p, e) :=
          match r with
          | Throw e => (p, Some e)
          | Ok decrypted =>
            if (length decrypted <? 1)%nat
            then (set_node i (Node fallback (style_color m) (container m)) p, None)
            else render_message replacementarr i m decrypted p
          end in
        match e with
        | Some _ =>
          (* catch (error): console.error(error), then the fallback text *)
          match nth_error (messages p) i with
          | Some m => (set_node i (Node fallback (style_color m) (container m)) p, pos)
          | None => (p, pos)
          end
        | None => (p, pos)
        end
      else st
    end
  end.

(** The element a turn leaves at its own index, as a function of the element
    it found there and of the position of the random source (a summary of
    [decrypt_message], justified by lemma [decrypt_message_at]). *)
Definition turn_result (emo : emojimap) (pass : jsstring) (rnd : nat -> Z) (pos : nat)
    (m : node) : node :=
  match innerHTML m with
  | [] => m
  | c :: encrypted =>
    if c =? 167 then
      match fst (CryptoJS_AES.decrypt (firstn (length encrypted - 1) encrypted) pass rnd pos) with
      | Throw _ => Node fallback (style_color m) (container m)
      | Ok d =>
        if (length d <? 1)%nat then Node fallback (style_color m) (container m)
        else match container m with
             | None => Node fallback (lit "#fff") None
             | Some _ => Node (substitute_emojis emo (snd (classify_urls d))) (lit "#fff")
                              (container m)
             end
      end
    else m
  end.

(** [decryptMessages]: the elements are visited from the last to the first. *)
Definition decryptMessages (replacementarr : emojimap) (passphrase : jsstring)
    (rnd : nat -> Z) (st : page * nat) : page * nat :=
  fold_left (fun st i => decrypt_message replacementarr passphrase rnd i st)
            (rev (seq 0 (length (messages (fst st))))) st.

(** ** The popup script: loadKeys and setKeys *)

(** [loadKeys]: the globals [serverurl] and [channelurl] from the URL of the
    active tab. *)
Definition loadKeys_scope (taburl : jsstring) : jsstring * jsstring :=
  let url := replace taburl (lit "https://") [] in
  let urlarr := split (lit "/") url in
  let serverurl := str_at urlarr 0 ++ lit "/" ++ str_at urlarr 1 ++ lit "/" ++ str_at urlarr 2 in
  let channelurl := url in
  (serverurl, channelurl).

(** What a click on the button does: the calls of [saveChrome] in order, the
    [alert] messages in order, and the text written to the [info] element. *)
Record popup_effects : Type := Effects {
  saved : list (jsstring * jsstring);
  alerts : list jsstring;
  info : option jsstring }.

Definition setKeys (serverurl channelurl server_key_value channel_key_value : jsstring)
  : popup_effects :=
  let serverkey := remove_whitespace server_key_value in
  if (5 <? length serverkey)%nat then
    let channelkey := remove_whitespace channel_key_value in
    let done := Some (lit "Done. Refresh your page and click the icon to activate.") in
    if negb (jsstring_eqb channelkey []) then
      if (5 <? length channelkey)%nat then
        Effects [(serverurl, serverkey); (channelurl, channelkey)] [] done
      else
        Effects [(serverurl, serverkey)] [lit "Your channel password is too short"] done
    else Effects [(serverurl, serverkey)] [] done
  else Effects [] [lit "Your server password is too short"] None.

(** [saveChrome(key, value)] and [removeChrome(key)], on the store. *)
Definition saveChrome (obj : storage) (key value : jsstring) : storage :=
  fun k => if jsstring_eqb k key then Some value else obj k.

Definition removeChrome (obj : storage) (key : jsstring) : storage :=
  fun k => if jsstring_eqb k key then None else obj k.

(** The store after the calls of [saveChrome] that a click on the button
    made, in their order. *)
Definition store_after (calls : list (jsstring * jsstring)) (obj : storage) : storage :=
  fold_left (fun o kv => saveChrome o (fst kv) (snd kv)) calls obj.

(** [removekeys]: the store it leaves and the text written to the [info]
    element. *)
Definition removekeys (serverurl channelurl : jsstring) (obj : storage) : storage * jsstring :=
  (removeChrome (removeChrome obj serverurl) channelurl,
   lit "Done. Your keys has been deleted.").

(** ** options.js: makeid and the generatekey button *)

Definition characters : jsstring :=
  lit "ABCDEFGHIJKLMNOPQRSTUVWXYZabcdefghijklmnopqrstuvwxyz0123456789".

(** [s.charAt(k)]: the empty string when [k] is out of range. *)
Definition charAt (s : jsstring) (k : Z) : jsstring :=
  if (0 <=? k) && (k <? Z.of_nat (length s)) then [s.[k]] else [].

(** [makeid(length)].  [rnd i] is the integer part of the product of the
    [i]-th draw, here [Math.floor(Math.random() * charactersLength)]. *)
Definition makeid (len : nat) (rnd : nat -> Z) (pos : nat) : jsstring * nat :=
  (for_loop 0 len
     (fun i result => result ++ charAt characters (rnd (pos + Z.to_nat i)%nat)) [],
   (pos + len)%nat).

(** The click on [generatekey]: the values written to the key field and to
    the [beforeencryption] field, for the values [urls] of the server field
    and [selecteditem] of the time selector. *)
Definition generatekey (urls selecteditem : jsstring) (rnd : nat -> Z) (pos : nat)
  : result (jsstring * jsstring) * nat :=
  let '(randompart, pos) := makeid 18 rnd pos in
  let beforeencryption := randompart ++ lit "_" ++ urls ++ lit "_" ++ selecteditem in
  let '(finalkey, pos) := CryptoJS_AES.encrypt beforeencryption (lit "xkrkey") rnd pos in
  (finalkey <- finalkey ;; Ok (finalkey, beforeencryption), pos).

(** ** Notions used in the statements and proofs of Part III *)

(** A number in the range of [ToInt32]. *)
Definition int32 (w : Z) : Prop := -2147483648 <= w < 2147483648.

(** The byte [k] of a word, [k = 0] for the most significant of the four. *)
Definition byteOf (k w : Z) : Z := (w / 2 ^ (24 - 8 * k)) mod 256.

(** The word of four bytes. *)
Definition pack (b0 b1 b2 b3 : Z) : Z :=
  JS.ToInt32 (b0 * 16777216 + b1 * 65536 + b2 * 256 + b3).

Definition bytes256 : list Z := Eval vm_compute in map Z.of_nat (seq 0 256).

(** The S-box, and the contribution of a byte at position [j] to the inverse
    column mix as the inverse key schedule computes it. *)
Definition Sb (x : Z) : Z := (AES.SBOX AES.tabs).[x].
Definition IM0 (y : Z) : Z := (AES.INV_SUB_MIX_0 AES.tabs).[Sb y].
Definition IM1 (y : Z) : Z := (AES.INV_SUB_MIX_1 AES.tabs).[Sb y].
Definition IM2 (y : Z) : Z := (AES.INV_SUB_MIX_2 AES.tabs).[Sb y].
Definition IM3 (y : Z) : Z := (AES.INV_SUB_MIX_3 AES.tabs).[Sb y].

(** The inverse column mix of a word. *)
Definition IMC (w : Z) : Z :=
  IM0 (byteOf 0 w) .^ IM1 (byteOf 1 w) .^ IM2 (byteOf 2 w) .^ IM3 (byteOf 3 w).

(** The combination of the values [c 0 .. c 7] selected by the bits of [x]. *)
Definition span (c : Z -> Z) (x : Z) : Z :=
  fold_right (fun i acc => Z.lxor (if Z.testbit x i then c i else 0) acc) 0
             [0; 1; 2; 3; 4; 5; 6; 7].

Definition spanned (f : Z -> Z) : bool :=
  forallb (fun x => f x =? span (fun i => f (2 ^ i)) x) bytes256.

(** The word made of the substituted bytes 0 of [a], 1 of [b], 2 of [c] and
    3 of [d]. *)
Definition SS (a b c d : Z) : Z :=
  pack (Sb (byteOf 0 a)) (Sb (byteOf 1 b)) (Sb (byteOf 2 c)) (Sb (byteOf 3 d)).

(** The state of the decryption rounds that corresponds to a state of the
    encryption rounds. *)
Definition Ustate (s : AES.rstate) (p' : Z) : AES.rstate :=
  AES.RState (SS (AES.rg s) (AES.rh s) (AES.rk s) (AES.rn s))
             (SS (AES.rn s) (AES.rg s) (AES.rh s) (AES.rk s))
             (SS (AES.rk s) (AES.rn s) (AES.rg s) (AES.rh s))
             (SS (AES.rh s) (AES.rk s) (AES.rn s) (AES.rg s)) p'.

(** The checks made of the tables, byte by byte. *)
Definition sbox_pred (x : Z) : bool :=
  (0 <=? Sb x) && (Sb x <? 256) && ((AES.INV_SBOX AES.tabs).[Sb x] =? x).

Definition mix_pred (x : Z) : bool :=
  (IMC (AES.SUB_MIX_0 AES.tabs).[x] =? pack (Sb x) 0 0 0)
  && (IMC (AES.SUB_MIX_1 AES.tabs).[x] =? pack 0 (Sb x) 0 0)
  && (IMC (AES.SUB_MIX_2 AES.tabs).[x] =? pack 0 0 (Sb x) 0)
  && (IMC (AES.SUB_MIX_3 AES.tabs).[x] =? pack 0 0 0 (Sb x)).

(** The block that the next [xorBlock] of a mode combines with. *)
Definition cur (m : CBC.t) : list Z :=
  match CBC._iv m with Some iv => iv | None => CBC._prevBlock m end.

(** CBC encryption and decryption of a list of words, four at a time,
    [prev] being the IV or the previous block of ciphertext. *)
Fixpoint cbc_enc (ks : AES.schedules) (prev W : list Z) {struct W} : list Z :=
  match W with
  | x0 :: x1 :: x2 :: x3 :: rest =>
    let y := AES.encryptBlock ks [x0 .^ prev.[0]; x1 .^ prev.[1]; x2 .^ prev.[2]; x3 .^ prev.[3]] 0 in
    y ++ cbc_enc ks y rest
  | _ => W
  end.

Fixpoint cbc_dec (ks : AES.schedules) (prev C : list Z) {struct C} : list Z :=
  match C with
  | y0 :: y1 :: y2 :: y3 :: rest =>
    let d := AES.decryptBlock ks [y0; y1; y2; y3] 0 in
    [d.[0] .^ prev.[0]; d.[1] .^ prev.[1]; d.[2] .^ prev.[2]; d.[3] .^ prev.[3]]
      ++ cbc_dec ks [y0; y1; y2; y3] rest
  | _ => C
  end.

(** The byte [j] of an array of words, [ws[j>>>2] >>> 24-8*(j%4) & 255]. *)
Definition wbyte (ws : list Z) (j : Z) : Z := byteOf (j mod 4) ws.[j / 4].

(** The first [n] bytes of an array of words. *)
Definition wbytes (ws : list Z) (n : nat) : list Z :=
  map (fun j => wbyte ws (Z.of_nat j)) (seq 0 n).

Definition is_byte (b : Z) : Prop := 0 <= b < 256.

(** [ws] is the array of 32-bit words that holds the bytes [bs], four to a
    word, the last word filled with zero bytes. *)
Definition packed (bs ws : list Z) : Prop :=
  Z.of_nat (length ws) = (Z.of_nat (length bs) + 3) / 4
  /\ Forall int32 ws
  /\ forall j, 0 <= j -> wbyte ws j = nth (Z.to_nat j) bs 0.

(** A hasher whose buffer and hash value have sound byte counts. *)
Definition hasher_ok (s : MD5.hasher) : Prop :=
  0 <= WordArray.sigBytes (MD5._data s) /\ WordArray.sigBytes (MD5._hash s) = 16.

(** Base64 reads the bytes of an array three at a time: the 24-bit value of
    the group [i], the six-bit digit [w] and the first [n] characters. *)
Definition b64_group (ws : list Z) (i : Z) : Z :=
  wbyte ws (3 * i) * 65536 + wbyte ws (3 * i + 1) * 256 + wbyte ws (3 * i + 2).

Definition b64_digit (ws : list Z) (w : Z) : Z :=
  (b64_group ws (w / 4) / 64 ^ (3 - w mod 4)) mod 64.

Definition b64_chars (ws : list Z) (n : nat) : jsstring :=
  map (fun w => Base64._map.[b64_digit ws (Z.of_nat w)]) (seq 0 n).

(** The number of digits that stand for [p] bytes. *)
Definition b64_count (p : Z) : Z :=
  if p mod 3 =? 0 then 4 * (p / 3) else 4 * (p / 3) + p mod 3 + 1.

(** The number of bytes that [Base64.parse] has written after [w] characters. *)
Definition b64_bytes (w : Z) : Z :=
  3 * (w / 4) + (if w mod 4 <=? 1 then 0 else w mod 4 - 1).

(** The checks made of the Base64 alphabet and of the shifts of [parse]. *)
Definition b64_map_pred (x : Z) : bool :=
  negb (Base64._map.[x] =? 61) && (Base64.indexOf Base64._map Base64._map.[x] =? x).

Definition b64_shift_pred (k d1 d2 : Z) : bool :=
  (d1 .<< 2 * k) .| (d2 .>>> 6 - 2 * k) =? d1 * 2 ^ (2 * k) + d2 / 2 ^ (6 - 2 * k).

Definition digits64 : list Z := Eval vm_compute in map Z.of_nat (seq 0 64).

(** A string of UTF-16 code units in which every surrogate is paired. *)
Definition well_formed (s : jsstring) : bool :=
  forallb (fun c => (0 <=? c) && (c <? 65536)) s
  && forallb (fun cp => match cp with Some _ => true | None => false end) (code_points s).

(** A string in which some surrogate is not part of a pair. *)
Definition lone_surrogate (s : jsstring) : bool :=
  existsb (fun cp => match cp with Some _ => false | None => true end) (code_points s).

(** The digest of one turn of the key derivation: MD5 of the digest of the
    turn before (if any), the password and the salt. *)
Definition kdf_digest (prev : option WA) (password : jsstring) (salt : WA) : result WA :=
  s <- match prev with
       | Some n => MD5.update MD5.reset n
       | None => Ok MD5.reset
       end ;;
  s <- MD5.update_string s password ;;
  MD5.finalize s salt.

(** The strings of [n] characters taken from [A]. *)
Fixpoint words (n : nat) (A : list Z) : list jsstring :=
  match n with
  | O => [[]]
  | S n => flat_map (fun c => map (cons c) (words n A)) A
  end.

(** The digits of a digest. *)
Definition hex_alphabet : list Z := lit "0123456789abcdef".

(** ** Sample data of the checks and of the witnesses *)

(** The hexadecimal text of a word array ([enc.Hex]-like, through
    [toString(16)]). *)
Definition hex_of_words (a : WA) : jsstring :=
  flat_map (fun b => slice_last 2 (lit "0" ++ toString16 b)) (Latin1.stringify a).

(** A random source: the integer parts of [4294967296 * Math.random()] that
    give the salt bytes 01 02 03 04 05 06 07 08. *)
Definition test_rnd (i : nat) : Z := match i with O => 16909060 | _ => 84281096 end.

(** [openssl enc -aes-256-cbc -md md5 -S 0102030405060708 -pass pass:secret]
    of the text [hello], in Base64. *)
Definition sample_transport : jsstring := lit "U2FsdGVkX18BAgMEBQYHCN4vTQH4jGLp+Wak1VrMt48=".

(** The same for a text of several blocks. *)
Definition sample_transport_long : jsstring :=
  lit "U2FsdGVkX18BAgMEBQYHCNtBfOHsrukFFxb3YE3H8r3WfbU9m/KCErH3lIdEIzatOveL2hanUlXZcOYCKv9WiC30Dezt/cnQsyqCqvUDFrE=".

(** A page of four message nodes. *)
Definition sample_page : page :=
  Page [Node (stopkey ++ sample_transport ++ stopkey) [] (Some 0%nat);
        Node (stopkey ++ sample_transport_long ++ stopkey) [] (Some 1%nat);
        Node (lit "plain text") [] (Some 2%nat);
        Node (stopkey ++ lit "U2FsdGVkX18BAgMEBQYHCNtBfOHsrukFFxb3YE3H8r3W" ++ stopkey) [] None]
       (fun _ => lit "c").


(* ====================================================================== *)
(** * Part II.  Checks of the embedding against published test vectors     *)
(* ====================================================================== *)

Example js_ops_sample :
  (1 .<< 31 = -2147483648) /\ ((-1) .>>> 28 = 15) /\ (4294967295 .<< 32 - 8 * (0 .% 4) = -1)
  /\ (.~ 5 = -6) /\ (aset [1; 2] 4 7 = [1; 2; 0; 0; 7]) /\ ([1; 2; 3].[5] = 0).
Proof. repeat split; reflexivity. Qed.

Example Sha256_hash_abc :
  Sha256.hash (lit "abc")
  = lit "ba7816bf8f01cfea414140de5dae2223b00361a396177a9cb410ff61f20015ad".
Proof. vm_compute. reflexivity. Qed.

Example MD5_abc :
  (s <- MD5.update_string MD5.reset (lit "abc") ;; Ok (hex_of_words (MD5._doFinalize s)))
  = Ok (lit "900150983cd24fb0d6963f7d28e17f72").
Proof. vm_compute. reflexivity. Qed.

Example encrypt_hello_openssl :
  CryptoJS_AES.encrypt (lit "hello") (lit "secret") test_rnd 0
  = (Ok (lit "U2FsdGVkX18BAgMEBQYHCN4vTQH4jGLp+Wak1VrMt48="), 2%nat).
Proof. vm_compute. reflexivity. Qed.

Example decrypt_hello_openssl :
  CryptoJS_AES.decrypt (lit "U2FsdGVkX18BAgMEBQYHCN4vTQH4jGLp+Wak1VrMt48=") (lit "secret") test_rnd 0
  = (Ok (lit "hello"), 0%nat).
Proof. vm_compute. reflexivity. Qed.

(* ====================================================================== *)
(** * Part III.  Properties                                                *)
(* ====================================================================== *)

(** ** Strings *)

Lemma jsstring_eqb_eq (s t : jsstring) : jsstring_eqb s t = true <-> s = t.
Proof.
  unfold jsstring_eqb. destruct (list_eq_dec Z.eq_dec s t); split; congruence.
Qed.

Lemma jsstring_eqb_refl (s : jsstring) : jsstring_eqb s s = true.
Proof. now apply jsstring_eqb_eq. Qed.

Lemma startsWith_app (p s : jsstring) : startsWith p (p ++ s) = true.
Proof.
  induction p as [|a p IH]; simpl; [reflexivity|].
  now rewrite Z.eqb_refl, IH.
Qed.

Lemma startsWith_spec (p s : jsstring) :
  startsWith p s = true <-> exists r, s = p ++ r.
Proof.
  revert s. induction p as [|a p IH]; intros s; simpl.
  - split; [exists s; reflexivity | reflexivity].
  - destruct s as [|b s].
    + split; [discriminate | intros [r Hr]; discriminate].
    + rewrite andb_true_iff, IH, Z.eqb_eq. split.
      * intros [-> [r ->]]. now exists r.
      * intros [r Hr]. injection Hr as -> ->. split; [reflexivity | now exists r].
Qed.

(** The result of [indexOf] is the first position at which [p] occurs. *)
Lemma indexOf_Some (p s : jsstring) (i : nat) :
  indexOf p s = Some i ->
  s = firstn i s ++ p ++ skipn (i + length p) s
  /\ forall j, (j < i)%nat -> startsWith p (skipn j s) = false.
Proof.
  revert i. induction s as [|c s IH]; intros i; simpl.
  - destruct (startsWith p []) eqn:E; [|discriminate].
    intros [= <-]. apply startsWith_spec in E as [r Hr].
    symmetry in Hr. apply app_eq_nil in Hr as [-> ->]. split; [reflexivity | lia].
  - destruct (startsWith p (c :: s)) eqn:E.
    + intros [= <-]. apply startsWith_spec in E as [r Hr]. split; [|lia].
      simpl. rewrite Hr at 2. rewrite skipn_app, Nat.sub_diag, skipn_all. now simpl.
    + destruct (indexOf p s) as [k|] eqn:Ek; [|discriminate].
      simpl. intros [= <-]. destruct (IH k eq_refl) as [H1 H2]. split.
      * simpl. now rewrite <- H1.
      * intros [|j] Hj; [exact E|]. simpl. apply H2. lia.
Qed.

Lemma indexOf_None (p s : jsstring) :
  indexOf p s = None -> forall j, startsWith p (skipn j s) = false.
Proof.
  induction s as [|c s IH]; simpl.
  - destruct (startsWith p []) eqn:E; [discriminate|]. intros _ j. now rewrite skipn_nil.
  - destruct (startsWith p (c :: s)) eqn:E; [discriminate|].
    destruct (indexOf p s); [discriminate|]. intros _ [|j]; [exact E|]. simpl. now apply IH.
Qed.

Lemma indexOf_prefix (p s : jsstring) : indexOf p (p ++ s) = Some O.
Proof.
  destruct (p ++ s) eqn:E; simpl; rewrite <- ?E, startsWith_app; reflexivity.
Qed.

Lemma replace_prefix_empty (p s : jsstring) : replace (p ++ s) p [] = s.
Proof.
  unfold replace. rewrite indexOf_prefix. simpl.
  now rewrite skipn_app, Nat.sub_diag, skipn_all.
Qed.

Lemma split_from_none (c : Z) (s cur : jsstring) :
  ~ In c s -> split_from [c] s 0 cur = [cur ++ s].
Proof.
  revert cur. induction s as [|x s IH]; intros cur H; cbn [split_from startsWith].
  - now rewrite app_nil_r.
  - destruct (Z.eqb_spec c x) as [->|_]; [exfalso; apply H; now left|].
    cbn [andb]. rewrite IH by (intros Hin; apply H; now right).
    now rewrite <- app_assoc.
Qed.

Lemma split_from_first (c : Z) (a s cur : jsstring) :
  ~ In c a -> split_from [c] (a ++ c :: s) 0 cur = (cur ++ a) :: split_from [c] s 0 [].
Proof.
  revert cur. induction a as [|x a IH]; intros cur H; cbn [app split_from startsWith].
  - rewrite Z.eqb_refl. cbn [andb length Nat.sub]. now rewrite app_nil_r.
  - destruct (Z.eqb_spec c x) as [->|_]; [exfalso; apply H; now left|].
    cbn [andb]. rewrite IH by (intros Hin; apply H; now right).
    now rewrite <- app_assoc.
Qed.

(** [s.replace(p, '')] leaves a string without [p] as it is, and removes the
    first occurrence of [p] from any other. *)
Lemma replace_absent (p s : jsstring) :
  (forall pre rest, s <> pre ++ p ++ rest) -> replace s p [] = s.
Proof.
  intros H. unfold replace. destruct (indexOf p s) as [i|] eqn:E; [|reflexivity].
  destruct (indexOf_Some p s i E) as [Hs _]. exfalso. exact (H _ _ Hs).
Qed.

Lemma replace_first (p pre rest : jsstring) :
  (forall pre' rest', pre ++ p ++ rest = pre' ++ p ++ rest' -> (length pre <= length pre')%nat) ->
  replace (pre ++ p ++ rest) p [] = pre ++ rest.
Proof.
  intros Hmin. unfold replace.
  assert (Hat : startsWith p (skipn (length pre) (pre ++ p ++ rest)) = true).
  { rewrite skipn_app, Nat.sub_diag, skipn_all. cbn [skipn app]. apply startsWith_app. }
  destruct (indexOf p (pre ++ p ++ rest)) as [i|] eqn:E.
  - destruct (indexOf_Some p _ i E) as [Hs Hfirst].
    assert (Hi : i = length pre).
    { pose proof (Hmin _ _ Hs) as Hle. rewrite length_firstn in Hle.
      destruct (Nat.lt_ge_cases (length pre) i) as [Hlt|Hge]; [|lia].
      rewrite (Hfirst _ Hlt) in Hat. discriminate. }
    subst i. cbn [GetSubstitution app].
    rewrite firstn_app, Nat.sub_diag, firstn_all. cbn [firstn]. rewrite app_nil_r.
    rewrite skipn_app, skipn_all2 by lia. cbn [app].
    replace (length pre + length p - length pre)%nat with (length p) by lia.
    now rewrite skipn_app, Nat.sub_diag, skipn_all.
  - rewrite (indexOf_None p _ E) in Hat. discriminate.
Qed.

(** Every string is a piece without slash, alone or followed by a slash. *)
Lemma first_segment (s : jsstring) :
  exists a, ~ In 47 a /\ (s = a \/ exists s', s = a ++ 47 :: s').
Proof.
  induction s as [|x s (a & Ha & IH)].
  - exists []. split; [intros []|now left].
  - destruct (Z.eq_dec x 47) as [->|Hx].
    + exists []. split; [intros []|]. right. now exists s.
    + exists (x :: a). split; [intros [E|Hin]; [now apply Hx|now apply Ha]|].
      destruct IH as [->|[s' ->]]; [now left|right; now exists s'].
Qed.

(** The join of the first three pieces of a string split at its slashes. *)
Lemma join_of_segments (a b c rest : jsstring)
    (J := fun u : jsstring =>
            str_at (split (lit "/") u) 0 ++ lit "/" ++ str_at (split (lit "/") u) 1
            ++ lit "/" ++ str_at (split (lit "/") u) 2) :
  ~ In 47 a -> ~ In 47 b -> ~ In 47 c ->
  J a = a ++ lit "/undefined/undefined"
  /\ J (a ++ lit "/" ++ b) = a ++ lit "/" ++ b ++ lit "/undefined"
  /\ J (a ++ lit "/" ++ b ++ lit "/" ++ c) = a ++ lit "/" ++ b ++ lit "/" ++ c
  /\ J (a ++ lit "/" ++ b ++ lit "/" ++ c ++ lit "/" ++ rest)
     = a ++ lit "/" ++ b ++ lit "/" ++ c.
Proof.
  intros Ha Hb Hc. unfold J, split. change (lit "/") with [47]. cbn [app].
  repeat split.
  - rewrite split_from_none by exact Ha. reflexivity.
  - rewrite split_from_first by exact Ha. rewrite split_from_none by exact Hb.
    cbn [str_at nth app]. rewrite <- ?app_assoc. reflexivity.
  - rewrite !split_from_first by assumption. rewrite split_from_none by exact Hc.
    cbn [str_at nth app]. rewrite <- ?app_assoc. reflexivity.
  - rewrite !split_from_first by assumption. cbn [str_at nth app].
    rewrite <- ?app_assoc. reflexivity.
Qed.

(** ** C9: derivation and storage address the same scopes *)

(** C9, a location with another scheme.  At [http://a/b/c] neither script
    strips the scheme prefix: the narrow scope is the whole location, and the
    broad scope is [http://a], not the join [a/b/c] of the first three path
    segments.  At [http://a/https://b/c] it is an inner [https://] that is
    removed. *)
Lemma scope_keeps_other_scheme :
  setPassphrase_scope (lit "http://a/b/c") = (lit "http://a", lit "http://a/b/c")
  /\ loadKeys_scope (lit "http://a/b/c") = (lit "http://a", lit "http://a/b/c")
  /\ setPassphrase_scope (lit "http://a/https://b/c") = (lit "http://a", lit "http://a/b/c")
  /\ loadKeys_scope (lit "http://a/https://b/c") = (lit "http://a", lit "http://a/b/c")
  /\ ~ (fst (setPassphrase_scope (lit "http://a/b/c")) = lit "a/b/c"
        /\ snd (setPassphrase_scope (lit "http://a/b/c")) = lit "a/b/c"
        /\ fst (loadKeys_scope (lit "http://a/b/c")) = lit "a/b/c"
        /\ snd (loadKeys_scope (lit "http://a/b/c")) = lit "a/b/c").
Proof.
  repeat (split; [reflexivity|]). intros [H _]. vm_compute in H. discriminate H.
Qed.

(** C9.  For every location, the popup script ([loadKeys], whose globals
    [setKeys] writes under) and the injected script ([setPassphrase]) compute
    the same broad-scope and narrow-scope identifiers.  The narrow identifier
    is the location without its first occurrence of [https://], wherever
    that is, and the location itself when it has none; so [https://rest]
    gives [rest].  The broad identifier joins the first three pieces of the
    narrow one between its slashes, which is the narrow identifier up to its
    third slash; a piece that is missing reads [undefined].  Every narrow
    identifier is of one of these four shapes.  [setKeys] saves under these
    two identifiers only. *)
Theorem scope_identifiers_agree (location sv cv : jsstring) :
  let serverurl := fst (setPassphrase_scope location) in
  let url := snd (setPassphrase_scope location) in
  loadKeys_scope location = setPassphrase_scope location
  /\ ((forall pre rest, location <> pre ++ lit "https://" ++ rest) -> url = location)
  /\ (forall pre rest,
        location = pre ++ lit "https://" ++ rest ->
        (forall pre' rest', location = pre' ++ lit "https://" ++ rest' ->
                            (length pre <= length pre')%nat) ->
        url = pre ++ rest)
  /\ (forall rest, snd (setPassphrase_scope (lit "https://" ++ rest)) = rest)
  /\ (forall a b c rest, ~ In 47 a -> ~ In 47 b -> ~ In 47 c ->
        (url = a -> serverurl = a ++ lit "/undefined/undefined")
        /\ (url = a ++ lit "/" ++ b -> serverurl = a ++ lit "/" ++ b ++ lit "/undefined")
        /\ (url = a ++ lit "/" ++ b ++ lit "/" ++ c -> serverurl = url)
        /\ (url = a ++ lit "/" ++ b ++ lit "/" ++ c ++ lit "/" ++ rest ->
            serverurl = a ++ lit "/" ++ b ++ lit "/" ++ c))
  /\ (exists a, ~ In 47 a /\ (url = a \/
      exists b, ~ In 47 b /\ (url = a ++ lit "/" ++ b \/
      exists c, ~ In 47 c /\ (url = a ++ lit "/" ++ b ++ lit "/" ++ c \/
      exists rest, url = a ++ lit "/" ++ b ++ lit "/" ++ c ++ lit "/" ++ rest))))
  /\ setPassphrase_scope (lit "https://discord.com/channels/81/42")
     = (lit "discord.com/channels/81", lit "discord.com/channels/81/42")
  /\ loadKeys_scope (lit "https://discord.com/channels/81/42")
     = (lit "discord.com/channels/81", lit "discord.com/channels/81/42")
  /\ setPassphrase_scope (lit "https://discord.com/login")
     = (lit "discord.com/login/undefined", lit "discord.com/login")
  /\ (forall k v : jsstring,
        In (k, v) (saved (setKeys (fst (loadKeys_scope location))
                                  (snd (loadKeys_scope location)) sv cv)) ->
        k = serverurl \/ k = url).
Proof.
  cbv zeta. split; [reflexivity|].
  split; [intros H; apply (replace_absent _ _ H)|].
  split; [intros pre rest -> H; apply (replace_first _ _ _ H)|].
  split; [intros rest; apply replace_prefix_empty|].
  split.
  { intros a b c rest Ha Hb Hc.
    destruct (join_of_segments a b c rest Ha Hb Hc) as (J1 & J2 & J3 & J4).
    unfold setPassphrase_scope. cbv zeta. cbn [fst snd].
    repeat split; intros ->; assumption. }
  split.
  { destruct (first_segment (snd (setPassphrase_scope location))) as (a & Ha & [E|[s1 E]]);
      exists a; (split; [exact Ha|]); [now left|right].
    destruct (first_segment s1) as (b & Hb & [E1|[s2 E1]]); subst s1;
      exists b; (split; [exact Hb|]); [now left|right].
    destruct (first_segment s2) as (c & Hc & [E2|[s3 E2]]); subst s2;
      exists c; (split; [exact Hc|]); [now left|right].
    now exists s3. }
  split; [reflexivity|]. split; [reflexivity|]. split; [reflexivity|].
  intros k v. unfold setKeys, loadKeys_scope, setPassphrase_scope. cbv zeta. cbn [fst snd].
  repeat match goal with |- context [if ?b then _ else _] => destruct b end;
    simpl; intros H; repeat destruct H as [H|H]; try contradiction;
    inversion H; subst; auto.
Qed.

(** ** C10: validation of the secrets at configuration time *)

Lemma remove_whitespace_clean (s : jsstring) :
  Forall (fun c => is_whitespace c = false) (remove_whitespace s).
Proof.
  unfold remove_whitespace. apply Forall_forall. intros c Hc.
  apply filter_In in Hc as [_ Hc]. now apply negb_true_iff in Hc.
Qed.

Lemma remove_whitespace_keeps (s : jsstring) (c : Z) :
  In c s -> is_whitespace c = false -> In c (remove_whitespace s).
Proof.
  intros Hin Hc. apply filter_In. split; [exact Hin | now rewrite Hc].
Qed.

Lemma remove_whitespace_app (a b : jsstring) :
  remove_whitespace (a ++ b) = remove_whitespace a ++ remove_whitespace b.
Proof. apply filter_app. Qed.

Lemma remove_whitespace_id (s : jsstring) :
  Forall (fun c => is_whitespace c = false) s -> remove_whitespace s = s.
Proof.
  unfold remove_whitespace. induction 1 as [|c s Hc _ IH]; cbn [filter]; [reflexivity|].
  rewrite Hc. cbn [negb]. now rewrite IH.
Qed.

Lemma is_whitespace_spec (c : Z) :
  is_whitespace c = true
  <-> (9 <= c <= 13 \/ c = 32 \/ c = 160 \/ c = 5760 \/ 8192 <= c <= 8202 \/ c = 8232
       \/ c = 8233 \/ c = 8239 \/ c = 8287 \/ c = 12288 \/ c = 65279).
Proof.
  unfold is_whitespace. rewrite !orb_true_iff, !andb_true_iff, !Z.leb_le, !Z.eqb_eq. lia.
Qed.

Lemma setKeys_cases (serverurl channelurl sv cv : jsstring) :
  let sk := remove_whitespace sv in
  let ck := remove_whitespace cv in
  let r := setKeys serverurl channelurl sv cv in
  ((length sk <= 5)%nat ->
     saved r = [] /\ alerts r = [lit "Your server password is too short"])
  /\ ((5 < length sk)%nat -> ck = [] ->
     saved r = [(serverurl, sk)] /\ alerts r = [])
  /\ ((5 < length sk)%nat -> (0 < length ck <= 5)%nat ->
     saved r = [(serverurl, sk)] /\ alerts r = [lit "Your channel password is too short"])
  /\ ((5 < length sk)%nat -> (5 < length ck)%nat ->
     saved r = [(serverurl, sk); (channelurl, ck)] /\ alerts r = [])
  /\ (forall k v, In (k, v) (saved r) ->
        (6 <= length v)%nat /\ Forall (fun c => is_whitespace c = false) v).
Proof.
  intros sk ck r.
  subst r. unfold setKeys. fold sk ck.
  pose proof (remove_whitespace_clean sv) as Csk. fold sk in Csk.
  pose proof (remove_whitespace_clean cv) as Cck. fold ck in Cck.
  assert (Hnil : jsstring_eqb ck [] = true -> length ck = O)
    by (intros E; apply jsstring_eqb_eq in E; now rewrite E).
  assert (Hcons : jsstring_eqb ck [] = false -> ck <> [])
    by (intros E1 E2; rewrite E2, jsstring_eqb_refl in E1; discriminate).
  destruct (Nat.ltb_spec 5 (length sk)) as [Hs|Hs];
    [destruct (jsstring_eqb ck []) eqn:Ec;
     [specialize (Hnil eq_refl) | specialize (Hcons eq_refl);
                                  destruct (Nat.ltb_spec 5 (length ck)) as [Hc|Hc]] |];
    simpl; repeat (repeat apply conj; intros);
    try (exfalso; lia); try contradiction; try reflexivity;
    repeat match goal with
           | H : _ \/ _ |- _ => destruct H
           | H : False |- _ => destruct H
           | H : (_, _) = (_, _) |- _ => inversion H; clear H
           end;
    subst; try assumption; try lia.
Qed.

(** C10.  [setKeys] strips all white space from both entries first: the
    characters of the class [\s] are left out, every other character is
    kept, in its place.  A server secret of five characters or fewer (after
    stripping) is refused with an alert and nothing is written.  Otherwise
    the server secret is written, and then the channel secret is: skipped
    silently when empty, refused with an alert and not written when shorter
    than six characters, written when longer.  Whatever is written is free
    of white space and at least six characters long; an entry without white
    space is written as it was entered. *)
Theorem setKeys_validation (serverurl channelurl sv cv : jsstring) :
  let sk := remove_whitespace sv in
  let ck := remove_whitespace cv in
  let r := setKeys serverurl channelurl sv cv in
  ((length sk <= 5)%nat ->
     saved r = [] /\ alerts r = [lit "Your server password is too short"])
  /\ ((5 < length sk)%nat -> ck = [] ->
     saved r = [(serverurl, sk)] /\ alerts r = [])
  /\ ((5 < length sk)%nat -> (0 < length ck <= 5)%nat ->
     saved r = [(serverurl, sk)] /\ alerts r = [lit "Your channel password is too short"])
  /\ ((5 < length sk)%nat -> (5 < length ck)%nat ->
     saved r = [(serverurl, sk); (channelurl, ck)] /\ alerts r = [])
  /\ (forall k v, In (k, v) (saved r) ->
        (6 <= length v)%nat /\ Forall (fun c => is_whitespace c = false) v)
  /\ (forall a b, remove_whitespace (a ++ b) = remove_whitespace a ++ remove_whitespace b)
  /\ (forall c, remove_whitespace [c] = if is_whitespace c then [] else [c])
  /\ (forall c, is_whitespace c = true
                <-> (9 <= c <= 13 \/ c = 32 \/ c = 160 \/ c = 5760 \/ 8192 <= c <= 8202
                     \/ c = 8232 \/ c = 8233 \/ c = 8239 \/ c = 8287 \/ c = 12288
                     \/ c = 65279))
  /\ (Forall (fun c => is_whitespace c = false) sv -> sk = sv)
  /\ (Forall (fun c => is_whitespace c = false) cv -> ck = cv)
  /\ setKeys (lit "s") (lit "c") ([32] ++ lit "my" ++ [9; 160] ++ lit "secret" ++ [10])
             (lit "chan nel")
     = Effects [(lit "s", lit "mysecret"); (lit "c", lit "channel")] []
               (Some (lit "Done. Refresh your page and click the icon to activate.")).
Proof.
  intros sk ck r.
  destruct (setKeys_cases serverurl channelurl sv cv) as (H1 & H2 & H3 & H4 & H5).
  do 5 (split; [assumption|]).
  split; [exact remove_whitespace_app|]. split.
  - intros c. unfold remove_whitespace. cbn [filter]. destruct (is_whitespace c); reflexivity.
  - split; [exact is_whitespace_spec|]. split; [apply remove_whitespace_id|].
    split; [apply remove_whitespace_id|]. vm_compute. reflexivity.
Qed.

(** ** C6 and C4: the keydown listener *)

(** C6, as stated, fails for the control key: it is none of the trigger, the
    commit key and the delete key, and while armed it is not suppressed. *)
Lemma control_key_passes_while_armed :
  let ev := KeyEvent 17 (lit "Control") in
  let s := Session (lit "secret") false true [lit "hello"] 0 in
  lastKeyWasStopKey s = true /\ key ev <> stopkey /\ keyCode ev <> 13 /\ keyCode ev <> 8
  /\ defaultPrevented (keydown test_rnd ev s) = false.
Proof. cbv zeta. repeat split; try discriminate; reflexivity. Qed.

(** C6, amended.  While armed, every key press other than the control key,
    the commit key (Enter) and the delete key (Backspace) is suppressed and
    changes nothing, the trigger key included; the control key and the
    commit key pass unsuppressed and reset the machine to idle. *)
Theorem armed_key_handling (rnd : nat -> Z) (ev : keyevent) (s : session) :
  lastKeyWasStopKey s = true ->
  (keyCode ev <> 17 -> keyCode ev <> 13 -> keyCode ev <> 8 ->
     keydown rnd ev s = Outcome true None s)
  /\ (keyCode ev = 17 \/ keyCode ev = 13 -> key ev <> stopkey ->
     keydown rnd ev s
     = Outcome false None (Session (passphrase s) (send s) false (textareaarray s) (rnd_pos s))).
Proof.
  intros Harmed. unfold keydown. rewrite Harmed. split.
  - intros H17 H13 H8.
    apply Z.eqb_neq in H17, H13, H8. rewrite H17, H13, H8. simpl.
    destruct s; simpl in *. now subst.
  - intros Hk Hne.
    assert (Hs : jsstring_eqb (key ev) stopkey = false).
    { destruct (jsstring_eqb (key ev) stopkey) eqn:E; [|reflexivity].
      apply jsstring_eqb_eq in E. contradiction. }
    destruct Hk as [Hk|Hk]; rewrite Hk; simpl; now rewrite Hs.
Qed.

Lemma armed_key_handling_witness :
  let s := Session (lit "secret") false true [lit "hello"] 0 in
  keydown test_rnd (KeyEvent 65 (lit "a")) s = Outcome true None s
  /\ lastKeyWasStopKey (after (keydown test_rnd (KeyEvent 13 (lit "Enter")) s)) = false.
Proof.
  cbv zeta.
  pose proof (armed_key_handling test_rnd (KeyEvent 65 (lit "a"))
                (Session (lit "secret") false true [lit "hello"] 0) eq_refl) as [H _].
  pose proof (armed_key_handling test_rnd (KeyEvent 13 (lit "Enter"))
                (Session (lit "secret") false true [lit "hello"] 0) eq_refl) as [_ H'].
  split.
  - apply H; simpl; lia.
  - rewrite H'; [reflexivity | now right | discriminate].
Defined.

(** C4, as stated, fails: after the listener has run, the input holds the
    delimiter and the transport string, with no closing delimiter. *)
Lemma trigger_writes_no_closing_delimiter :
  let s := Session (lit "secret") false false [lit "hello"] 0 in
  CryptoJS_AES.encrypt (lit "hello") (lit "secret") test_rnd 0 = (Ok sample_transport, 2%nat)
  /\ textareaarray (after (keydown test_rnd (KeyEvent 192 stopkey) s))
     = [stopkey ++ sample_transport]
  /\ stopkey ++ sample_transport <> stopkey ++ sample_transport ++ stopkey.
Proof.
  cbv zeta. split; [vm_compute; reflexivity|]. split; [vm_compute; reflexivity|].
  intros H. apply (f_equal (@List.length Z)) in H. vm_compute in H. discriminate.
Qed.

(** C4, amended.  On the trigger key while idle, the listener encrypts the
    value of the first text input under the session passphrase, arms the
    machine, flags a pending send and replaces the input's content with the
    delimiter followed by the transport string; it does not prevent the
    key's default action, and writes no closing delimiter itself. *)
Theorem trigger_key_encrypts (rnd : nat -> Z) (ev : keyevent) (s : session)
    (text T : jsstring) (others : list jsstring) (pos' : nat) :
  lastKeyWasStopKey s = false ->
  key ev = stopkey ->
  textareaarray s = text :: others ->
  CryptoJS_AES.encrypt text (passphrase s) rnd (rnd_pos s) = (Ok T, pos') ->
  keydown rnd ev s
  = Outcome false None (Session (passphrase s) true true ((stopkey ++ T) :: others) pos').
Proof.
  intros Hidle Hkey Htext Henc. unfold keydown.
  rewrite Hidle, Hkey, jsstring_eqb_refl, Htext, Henc.
  destruct (keyCode ev =? 17); reflexivity.
Qed.

Lemma trigger_key_encrypts_witness :
  keydown test_rnd (KeyEvent 192 stopkey) (Session (lit "secret") false false [lit "hello"] 0)
  = Outcome false None
      (Session (lit "secret") true true [stopkey ++ sample_transport] 2).
Proof.
  apply (trigger_key_encrypts test_rnd (KeyEvent 192 stopkey)
           (Session (lit "secret") false false [lit "hello"] 0)
           (lit "hello") sample_transport [] 2%nat);
    [reflexivity | reflexivity | reflexivity | vm_compute; reflexivity].
Defined.

(** ** C8: sizing classification *)

Lemma tag_match_other (c : Z) (t : jsstring) : c <> 60 -> tag_match (c :: t) = None.
Proof.
  intros H. unfold tag_match.
  destruct c as [|p|p]; try reflexivity.
  do 6 (destruct p as [p|p|]; try reflexivity). now contradiction H.
Qed.

Lemma strip_tags_from_length (s : jsstring) :
  forall skip, (length (strip_tags_from s skip) <= length s)%nat.
Proof.
  induction s as [|c s IH]; intros skip; cbn [strip_tags_from length]; [lia|].
  destruct skip as [|k]; [|specialize (IH k); lia].
  destruct (tag_match (c :: s)) as [n|]; [specialize (IH (n - 1)%nat); lia|].
  cbn [length]. specialize (IH 0%nat). lia.
Qed.

Lemma strip_tags_from_plain (s : jsstring) : ~ In 60 s -> strip_tags_from s 0 = s.
Proof.
  induction s as [|c s IH]; intros H; cbn [strip_tags_from]; [reflexivity|].
  rewrite tag_match_other by (intros ->; apply H; now left).
  rewrite IH; [reflexivity|]. intros Hin. apply H. now right.
Qed.

Lemma not_gt_run_run (t b : jsstring) :
  ~ In 62 t -> not_gt_run (t ++ 62 :: b) = length t /\ not_gt_run t = length t.
Proof.
  induction t as [|c t IH]; intros H; cbn [app not_gt_run length].
  - rewrite Z.eqb_refl. now split.
  - destruct (Z.eqb_spec c 62) as [->|_]; [exfalso; apply H; now left|].
    destruct IH as [IH1 IH2]; [intros Hin; apply H; now right|]. now rewrite IH1, IH2.
Qed.

Lemma tag_body_match_run (t b : jsstring) :
  t <> [] -> ~ In 62 t ->
  tag_body_match (t ++ 62 :: b) = Some (length t + 1)%nat
  /\ tag_body_match t = Some (length t).
Proof.
  intros Ht H. destruct (not_gt_run_run t b H) as [E1 E2]. unfold tag_body_match.
  rewrite E1, E2, skipn_app, Nat.sub_diag, !skipn_all. cbn [skipn app].
  destruct t as [|c t]; [contradiction|]. cbn [length]. split; f_equal; lia.
Qed.

Lemma tag_body_match_gt (b : jsstring) : tag_body_match (62 :: b) = None.
Proof. reflexivity. Qed.

(** A tag with a body, closed by [>] or running to the end of the text, is
    matched whole. *)
Lemma tag_match_tag (t b : jsstring) :
  t <> [] -> ~ In 62 t ->
  tag_match (60 :: t ++ 62 :: b) = Some (length t + 2)%nat
  /\ tag_match (60 :: t) = Some (length t + 1)%nat.
Proof.
  intros Ht H. destruct t as [|c t]; [contradiction|].
  assert (Hc : c <> 62) by (intros ->; apply H; now left).
  assert (Ht' : ~ In 62 t) by (intros Hin; apply H; now right).
  destruct (tag_body_match_run (c :: t) b ltac:(discriminate) H) as [B1 B2].
  assert (HB : option_map (fun n => (1 + n)%nat) (tag_body_match ((c :: t) ++ 62 :: b))
               = Some (length (c :: t) + 2)%nat
               /\ option_map (fun n => (1 + n)%nat) (tag_body_match (c :: t))
                  = Some (length (c :: t) + 1)%nat).
  { rewrite B1, B2. cbn [option_map]. split; f_equal; lia. }
  destruct (Z.eq_dec c 47) as [->|Hne].
  - cbn [app tag_match]. destruct t as [|d t].
    + split; reflexivity.
    + destruct (tag_body_match_run (d :: t) b ltac:(discriminate) Ht') as [C1 C2].
      rewrite C1, C2. cbn [length]. split; f_equal; lia.
  - cbn [app] in *. unfold tag_match.
    destruct c as [|q|q]; try exact HB.
    do 6 (destruct q as [q|q|]; try exact HB). now contradiction Hne.
Qed.

Lemma strip_tags_from_skip (l b : jsstring) :
  strip_tags_from (l ++ b) (length l) = strip_tags_from b 0.
Proof. induction l as [|c l IH]; [reflexivity|exact IH]. Qed.

Lemma strip_tags_from_keep (a s : jsstring) :
  ~ In 60 a -> strip_tags_from (a ++ s) 0 = a ++ strip_tags_from s 0.
Proof.
  induction a as [|c a IH]; intros H; [reflexivity|]. cbn [app strip_tags_from].
  rewrite tag_match_other by (intros ->; apply H; now left).
  rewrite IH; [reflexivity|]. intros Hin. apply H. now right.
Qed.

(** What [strip_tags] removes: a tag is [<], a non-empty body without [>],
    and the [>] that closes it or the end of the text. *)
Lemma strip_tags_tag (a t b : jsstring) :
  ~ In 60 a -> t <> [] -> ~ In 62 t ->
  strip_tags (a ++ [60] ++ t ++ [62] ++ b) = a ++ strip_tags b
  /\ strip_tags (a ++ [60] ++ t) = a.
Proof.
  intros Ha Ht H. unfold strip_tags. destruct (tag_match_tag t b Ht H) as [E1 E2]. split.
  - rewrite strip_tags_from_keep by exact Ha. cbn [app]. cbn [strip_tags_from]. rewrite E1.
    f_equal.
    replace (length t + 2 - 1)%nat with (length (t ++ [62])) by (rewrite length_app; cbn; lia).
    replace (t ++ 62 :: b) with ((t ++ [62]) ++ b) by (now rewrite <- app_assoc).
    apply strip_tags_from_skip.
  - rewrite strip_tags_from_keep by exact Ha. cbn [app]. cbn [strip_tags_from]. rewrite E2.
    replace (length t + 1 - 1)%nat with (length t) by lia.
    rewrite <- (app_nil_r t) at 1. rewrite strip_tags_from_skip. apply app_nil_r.
Qed.

(** C8.  The hints are appended to the class name of the message's
    container: the visible length [n] of the rendered text (tags stripped)
    adds the wide hint when [n > 80] and, besides it, the very-wide hint when
    [n > 200]; so 81 gives the wide hint alone, 201 both, 79 none.  The tags
    that are stripped are the runs from a [<] with a following character
    that is not [>] to the next [>] (or to the end); the text outside them
    is kept, so the markup does not count: 80 letters inside a pair of tags
    get no hint, 81 the wide one. *)
Theorem sizing_classification (emo : emojimap) (i : nat) (m : node)
    (decrypted : jsstring) (p : page) (c : nat) :
  container m = Some c ->
  let rendered := substitute_emojis emo (snd (classify_urls decrypted)) in
  let n := length (strip_tags rendered) in
  let p' := fst (render_message emo i m decrypted p) in
  className p' c
  = className p c ++ lit " encryptedMessageContainer"
    ++ (if fst (classify_urls decrypted) then lit " containsImage" else [])
    ++ (if (80 <? n)%nat then lit " widermessage" else [])
    ++ (if (200 <? n)%nat then lit " evenwidermessage" else [])
  /\ (n = 81%nat -> sizing_hints rendered = lit " widermessage")
  /\ (n = 201%nat -> sizing_hints rendered = lit " widermessage" ++ lit " evenwidermessage")
  /\ (n = 79%nat -> sizing_hints rendered = [])
  /\ (forall a t b, ~ In 60 a -> t <> [] -> ~ In 62 t ->
        strip_tags (a ++ [60] ++ t ++ [62] ++ b) = a ++ strip_tags b)
  /\ (forall a t, ~ In 60 a -> t <> [] -> ~ In 62 t -> strip_tags (a ++ [60] ++ t) = a)
  /\ (forall a, ~ In 60 a -> strip_tags a = a)
  /\ sizing_hints (lit "<b>" ++ repeat 97 79 ++ lit "</b>") = []
  /\ sizing_hints (lit "<b>" ++ repeat 97 80 ++ lit "</b>") = []
  /\ sizing_hints (lit "<b>" ++ repeat 97 81 ++ lit "</b>") = lit " widermessage"
  /\ sizing_hints (lit "<a href=`x`>" ++ repeat 97 200 ++ lit "</a>") = lit " widermessage"
  /\ sizing_hints (lit "<a href=`x`>" ++ repeat 97 201 ++ lit "</a>")
     = lit " widermessage" ++ lit " evenwidermessage".
Proof.
  intros Hc rendered n p'. split.
  - subst p'. unfold render_message.
    destruct (classify_urls decrypted) as [containsImage d] eqn:E.
    rewrite Hc. simpl fst; simpl snd in *.
    unfold sizing_hints. fold rendered. fold n.
    destruct containsImage; simpl; rewrite !Nat.eqb_refl; now rewrite <- !app_assoc.
  - split; [|split; [|split]].
    + unfold sizing_hints. fold n. intros ->. reflexivity.
    + unfold sizing_hints. fold n. intros ->. reflexivity.
    + unfold sizing_hints. fold n. intros ->. reflexivity.
    + split; [intros a t b Ha Ht H; apply (strip_tags_tag a t b Ha Ht H)|].
      split; [intros a t Ha Ht H; apply (strip_tags_tag a t [] Ha Ht H)|].
      split; [intros a Ha; apply strip_tags_from_plain, Ha|].
      repeat split; vm_compute; reflexivity.
Qed.

Lemma sizing_classification_witness :
  className
    (fst (render_message default_emojis 0 (Node [] [] (Some 0%nat))
            (lit "<b>" ++ repeat 97 81 ++ lit "</b>")
            (Page [Node [] [] (Some 0%nat)] (fun _ => lit "container"))))
    0%nat
  = lit "container encryptedMessageContainer widermessage".
Proof.
  pose proof (sizing_classification default_emojis 0 (Node [] [] (Some 0%nat))
                (lit "<b>" ++ repeat 97 81 ++ lit "</b>")
                (Page [Node [] [] (Some 0%nat)] (fun _ => lit "container")) 0%nat eq_refl)
    as [H _].
  rewrite H. vm_compute. reflexivity.
Defined.

(** ** C7: emoji substitution *)

Lemma GetSubstitution_literal (matched before after r : jsstring) :
  ~ In 36 r -> GetSubstitution matched before after r = r.
Proof.
  induction r as [|c r IH]; simpl; [reflexivity|]. intros H.
  destruct (Z.eqb_spec c 36) as [->|_]; [exfalso; apply H; now left|].
  rewrite IH; [reflexivity | intros Hin; apply H; now right].
Qed.

Lemma split_from_nonempty (sep s : jsstring) (skip : nat) (cur : jsstring) :
  (1 <= length (split_from sep s skip cur))%nat.
Proof.
  revert skip cur. induction s as [|c s IH]; intros skip cur; simpl; [lia|].
  destruct skip; [|apply IH]. destruct (startsWith sep (c :: s)); [simpl; lia | apply IH].
Qed.

(** The test [s.split(sep).length > 1] succeeds exactly when [sep] occurs. *)
Lemma split_length_includes (sep s : jsstring) :
  sep <> [] -> (1 <? length (split sep s))%nat = includes sep s.
Proof.
  intros Hsep. unfold split, includes. generalize (@nil Z) as cur.
  induction s as [|c s IH]; intros cur.
  - simpl. destruct sep; [contradiction | reflexivity].
  - simpl. destruct (startsWith sep (c :: s)).
    + simpl. pose proof (split_from_nonempty sep s (length sep - 1) []).
      destruct (split_from sep s (length sep - 1) []); simpl in *; [lia | reflexivity].
    + rewrite IH. destruct (indexOf sep s); reflexivity.
Qed.

(** C7, as stated, fails: in a message that is a link containing a shorthand
    code, the whole text after the URL step is inserted markup, and the
    code's first occurrence, inside the [href] attribute, is replaced. *)
Lemma emoji_replaced_inside_link_markup :
  let plaintext := lit "https://a/:joy:" in
  let joy := lit "<img src=`/assets/cae9e3b02af6e987442df2953de026fc.svg` aria-label=`:joy:` alt=`:joy:` draggable=`false` class=`emoji jumboable`>" in
  classify_urls plaintext
  = (true, lit "  <a href=`https://a/:joy:`>https://a/:joy:</a><br/><br/><img alt=`` src=`https://a/:joy:` style=`max-height: 600px; max-width: 600px;`>")
  /\ substitute_emojis default_emojis (snd (classify_urls plaintext))
     = lit "  <a href=`https://a/" ++ joy
       ++ lit "`>https://a/:joy:</a><br/><br/><img alt=`` src=`https://a/:joy:` style=`max-height: 600px; max-width: 600px;`>".
Proof. cbv zeta. split; vm_compute; reflexivity. Qed.

(** C7, amended.  The substitution is attempted exactly when the text, as
    the URL step left it, contains a colon; then the codes are taken in the
    table's order, and each is replaced once, at its first occurrence in the
    text as it then stands (markup inserted before included).  The
    replacement is the cached markup itself when that holds no dollar sign. *)
Theorem emoji_substitution (emo : emojimap) (d : jsstring) :
  (includes (lit ":") d = false -> substitute_emojis emo d = d)
  /\ (includes (lit ":") d = true ->
      substitute_emojis emo d
      = fold_left (fun d kv => replace d (fst kv) (snd kv)) emo d)
  /\ (forall s k v : jsstring, indexOf k s = None -> replace s k v = s)
  /\ (forall (s k v : jsstring) (i : nat),
        indexOf k s = Some i -> ~ In 36 v ->
        s = firstn i s ++ k ++ skipn (i + length k) s
        /\ replace s k v = firstn i s ++ v ++ skipn (i + length k) s
        /\ forall j, (j < i)%nat -> startsWith k (skipn j s) = false).
Proof.
  unfold substitute_emojis. rewrite split_length_includes by discriminate.
  repeat split.
  - now intros ->.
  - now intros ->.
  - intros s k v H. unfold replace. now rewrite H.
  - now apply indexOf_Some.
  - unfold replace. rewrite H. now rewrite GetSubstitution_literal.
  - now apply indexOf_Some.
Qed.

Example emoji_substitution_sample :
  substitute_emojis default_emojis (lit "so :wave: and :wave:")
  = lit "so <img src=`/assets/593c4a3437fbb5b89fbb148f7b96424d.svg` aria-label=`:wave:` alt=`:wave:` draggable=`false` class=`emoji jumboable`> and :wave:".
Proof. vm_compute. reflexivity. Qed.

(** ** The decrypt pass *)

Lemma set_node_length (i : nat) (m : node) (p : page) :
  (i < length (messages p))%nat ->
  length (messages (set_node i m p)) = length (messages p).
Proof.
  intros H. unfold set_node. cbn [messages].
  rewrite length_app. cbn [List.length]. rewrite length_firstn, length_skipn. lia.
Qed.

Lemma set_node_same (i : nat) (m : node) (p : page) :
  (i < length (messages p))%nat ->
  nth_error (messages (set_node i m p)) i = Some m.
Proof.
  intros H. unfold set_node. cbn [messages].
  rewrite nth_error_app2; rewrite length_firstn, Nat.min_l by lia; [|lia].
  now rewrite Nat.sub_diag.
Qed.

Lemma set_node_other (i j : nat) (m : node) (p : page) :
  (i < length (messages p))%nat -> i <> j ->
  nth_error (messages (set_node i m p)) j = nth_error (messages p) j.
Proof.
  intros Hi H. unfold set_node. cbn [messages].
  destruct (Nat.lt_ge_cases j i) as [Hlt|Hge].
  - rewrite nth_error_app1 by (rewrite length_firstn; lia).
    now rewrite nth_error_firstn, (proj2 (Nat.ltb_lt j i)).
  - rewrite nth_error_app2; rewrite length_firstn, Nat.min_l by lia; [|lia].
    destruct (j - i)%nat as [|k] eqn:E; [lia|]. cbn [nth_error].
    rewrite nth_error_skipn. f_equal. lia.
Qed.

Lemma add_class_messages (c : nat) (s : jsstring) (p : page) :
  messages (add_class c s p) = messages p.
Proof. reflexivity. Qed.

(** What [render_message] leaves of the elements: the element itself is
    rewritten, the others are not touched. *)
Lemma render_message_messages (emo : emojimap) (i : nat) (m : node) (d : jsstring) (p : page) :
  messages (fst (render_message emo i m d p))
  = messages (set_node i (Node (substitute_emojis emo (snd (classify_urls d)))
                               (lit "#fff") (container m)) p).
Proof.
  unfold render_message. destruct (classify_urls d) as [b d']. simpl snd.
  destruct (container m); [|reflexivity]. destruct b; reflexivity.
Qed.

Lemma decrypt_message_at (emo : emojimap) (pass : jsstring) (rnd : nat -> Z)
    (i : nat) (p : page) (pos : nat) (m : node) :
  nth_error (messages p) i = Some m ->
  nth_error (messages (fst (decrypt_message emo pass rnd i (p, pos)))) i
  = Some (turn_result emo pass rnd pos m).
Proof.
  intros Hm. assert (Hi : (i < length (messages p))%nat) by (apply nth_error_Some; congruence).
  unfold decrypt_message, turn_result. rewrite Hm.
  destruct (innerHTML m) as [|c enc]; [exact Hm|].
  destruct (c =? 167); [|exact Hm].
  destruct (CryptoJS_AES.decrypt _ pass rnd pos) as [[d|e] pos']; cbn [fst].
  - destruct (length d <? 1)%nat.
    + cbn [fst]. now apply set_node_same.
    + destruct (render_message emo i m d p) as [p' e] eqn:E.
      pose proof (render_message_messages emo i m d p) as Hr. rewrite E in Hr. cbn [fst snd] in Hr.
      unfold render_message in E. destruct (classify_urls d) as [b d']. simpl snd in *.
      destruct (container m) as [k|] eqn:Ek.
      * injection E as <- <-. cbn [fst]. rewrite Hr. now apply set_node_same.
      * injection E as <- <-.
        rewrite set_node_same by exact Hi. cbn [fst style_color container].
        rewrite set_node_same; [reflexivity|]. now rewrite set_node_length.
  - rewrite Hm. simpl. now apply set_node_same.
Qed.

Lemma decrypt_message_other (emo : emojimap) (pass : jsstring) (rnd : nat -> Z)
    (i j : nat) (st : page * nat) :
  i <> j ->
  nth_error (messages (fst (decrypt_message emo pass rnd i st))) j
  = nth_error (messages (fst st)) j.
Proof.
  intros Hij. destruct st as [p pos]. unfold decrypt_message.
  destruct (nth_error (messages p) i) as [m|] eqn:Hm; [|reflexivity].
  assert (Hi : (i < length (messages p))%nat) by (apply nth_error_Some; congruence).
  destruct (innerHTML m) as [|c enc]; [reflexivity|].
  destruct (c =? 167); [|reflexivity].
  destruct (CryptoJS_AES.decrypt _ pass rnd pos) as [[d|e] pos'].
  - destruct (length d <? 1)%nat.
    + simpl. now apply set_node_other.
    + destruct (render_message emo i m d p) as [p' e] eqn:E.
      pose proof (render_message_messages emo i m d p) as Hr. rewrite E in Hr. cbn [fst snd] in Hr.
      assert (Hi' : (i < length (messages p'))%nat) by (rewrite Hr, set_node_length; exact Hi).
      destruct e as [e|].
      * destruct (nth_error (messages p') i); cbn [fst];
          rewrite ?(set_node_other i j _ p') by assumption;
          rewrite Hr; now apply set_node_other.
      * cbn [fst]. rewrite Hr. now apply set_node_other.
  - rewrite Hm. simpl. now apply set_node_other.
Qed.

(** Over any list of distinct indices, a run of turns leaves every element
    as its own turn made it, and the elements off the list as they were. *)
Lemma turns_nodes (emo : emojimap) (pass : jsstring) (rnd : nat -> Z) (l : list nat) :
  NoDup l ->
  forall (st : page * nat) (i : nat) (m : node),
    nth_error (messages (fst st)) i = Some m ->
    let st' := fold_left (fun st i => decrypt_message emo pass rnd i st) l st in
    (In i l -> exists q, nth_error (messages (fst st')) i = Some (turn_result emo pass rnd q m))
    /\ (~ In i l -> nth_error (messages (fst st')) i = Some m).
Proof.
  induction l as [|a l IH]; intros Hnd st i m Hm; simpl.
  - split; [contradiction | intros _; exact Hm].
  - inversion Hnd as [|? ? Ha Hnd']; subst.
    destruct (Nat.eq_dec a i) as [->|Hai].
    + destruct st as [p pos].
      pose proof (decrypt_message_at emo pass rnd i p pos m Hm) as H1.
      destruct (IH Hnd' _ i _ H1) as [_ IH2]. split.
      * intros _. exists pos. now apply IH2.
      * intros H. exfalso. apply H. now left.
    + assert (H1 : nth_error (messages (fst (decrypt_message emo pass rnd a st))) i = Some m)
        by (rewrite decrypt_message_other by exact Hai; exact Hm).
      destruct (IH Hnd' _ i _ H1) as [IH1 IH2]. split.
      * intros [H|H]; [contradiction | now apply IH1].
      * intros H. apply IH2. intros H'. apply H. now right.
Qed.

Lemma decryptMessages_nodes (emo : emojimap) (pass : jsstring) (rnd : nat -> Z)
    (st : page * nat) (i : nat) (m : node) :
  nth_error (messages (fst st)) i = Some m ->
  exists q, nth_error (messages (fst (decryptMessages emo pass rnd st))) i
            = Some (turn_result emo pass rnd q m).
Proof.
  intros Hm. unfold decryptMessages.
  apply (turns_nodes emo pass rnd (rev (seq 0 (length (messages (fst st)))))).
  - apply NoDup_rev, seq_NoDup.
  - exact Hm.
  - apply in_rev. rewrite rev_involutive. apply in_seq.
    assert (i < length (messages (fst st)))%nat by (apply nth_error_Some; congruence). lia.
Qed.
Lemma length_by_nth_error {A : Type} (l1 l2 : list A) :
  (forall j, nth_error l1 j = None <-> nth_error l2 j = None) -> length l1 = length l2.
Proof.
  intros H.
  destruct (Nat.lt_trichotomy (length l1) (length l2)) as [Hlt|[Heq|Hgt]]; [|exact Heq|].
  - exfalso. assert (Hn : nth_error l1 (length l1) = None) by (apply nth_error_None; lia).
    apply H, nth_error_None in Hn. lia.
  - exfalso. assert (Hn : nth_error l2 (length l2) = None) by (apply nth_error_None; lia).
    apply H, nth_error_None in Hn. lia.
Qed.

Lemma decrypt_message_length (emo : emojimap) (pass : jsstring) (rnd : nat -> Z)
    (i : nat) (st : page * nat) :
  length (messages (fst (decrypt_message emo pass rnd i st))) = length (messages (fst st)).
Proof.
  destruct st as [p pos]. cbn [fst].
  destruct (nth_error (messages p) i) as [m|] eqn:Hm.
  - apply length_by_nth_error. intros j. destruct (Nat.eq_dec i j) as [<-|Hij].
    + rewrite (decrypt_message_at emo pass rnd i p pos m Hm), Hm. split; discriminate.
    + now rewrite decrypt_message_other.
  - unfold decrypt_message. now rewrite Hm.
Qed.

Lemma decryptMessages_length (emo : emojimap) (pass : jsstring) (rnd : nat -> Z)
    (st : page * nat) :
  length (messages (fst (decryptMessages emo pass rnd st))) = length (messages (fst st)).
Proof.
  unfold decryptMessages. generalize (rev (seq 0 (length (messages (fst st))))) as l.
  intros l. revert st. induction l as [|a l IH]; intros st; simpl; [reflexivity|].
  rewrite IH. apply decrypt_message_length.
Qed.

(** A turn whose decryption raises an exception or returns the empty string
    leaves the fallback text. *)
Lemma turn_result_failure (emo : emojimap) (pass : jsstring) (rnd : nat -> Z) (q : nat)
    (m : node) (enc : jsstring) :
  innerHTML m = 167 :: enc ->
  match fst (CryptoJS_AES.decrypt (firstn (length enc - 1) enc) pass rnd q) with
  | Throw _ => True
  | Ok d => d = []
  end ->
  turn_result emo pass rnd q m = Node fallback (style_color m) (container m).
Proof.
  intros Hm H. unfold turn_result. rewrite Hm. cbn [Z.eqb Pos.eqb].
  destruct (fst (CryptoJS_AES.decrypt _ pass rnd q)) as [d|e]; [|reflexivity].
  now rewrite H.
Qed.

(** ** C2: decode failures stay inside the decrypt pass *)

(** C2.  In a decrypt pass over any page, with any passphrase, a message
    that carries the marker and whose decryption raises an exception or
    yields the empty string is rewritten to the literal fallback text; the
    pass itself returns a page with the same messages, and every message is
    left as its own turn makes it, whatever happened to the others. *)
Theorem decode_failure_is_contained (emo : emojimap) (pass : jsstring) (rnd : nat -> Z)
    (st : page * nat) (i : nat) (m : node) (enc : jsstring) :
  nth_error (messages (fst st)) i = Some m ->
  innerHTML m = 167 :: enc ->
  (forall q, match fst (CryptoJS_AES.decrypt (firstn (length enc - 1) enc) pass rnd q) with
             | Throw _ => True
             | Ok d => d = []
             end) ->
  let st' := decryptMessages emo pass rnd st in
  nth_error (messages (fst st')) i = Some (Node fallback (style_color m) (container m))
  /\ length (messages (fst st')) = length (messages (fst st))
  /\ (forall j mj, nth_error (messages (fst st)) j = Some mj ->
        exists q, nth_error (messages (fst st')) j = Some (turn_result emo pass rnd q mj)).
Proof.
  intros Hm Hmark Hfail st'. subst st'. split; [|split].
  - destruct (decryptMessages_nodes emo pass rnd st i m Hm) as [q Hq].
    rewrite Hq. f_equal.
    apply turn_result_failure with (enc := enc); [exact Hmark | apply Hfail].
  - apply decryptMessages_length.
  - intros j mj Hj. now apply decryptMessages_nodes.
Qed.

Example decrypt_wrong_key_raises :
  CryptoJS_AES.decrypt sample_transport_long (lit "wrong") test_rnd 0
  = (Throw MalformedUtf8, 0%nat).
Proof. vm_compute. reflexivity. Qed.

Lemma decode_failure_is_contained_witness :
  nth_error (messages (fst (decryptMessages default_emojis (lit "wrong") test_rnd
                              (sample_page, 0%nat)))) 1
  = Some (Node fallback [] (Some 1%nat)).
Proof.
  apply (decode_failure_is_contained default_emojis (lit "wrong") test_rnd
           (sample_page, 0%nat) 1
           (Node (stopkey ++ sample_transport_long ++ stopkey) [] (Some 1%nat))
           (sample_transport_long ++ stopkey)
           eq_refl eq_refl).
  intros q. vm_compute. exact I.
Defined.

Example decrypt_pass_sample :
  map innerHTML (messages (fst (decryptMessages default_emojis (lit "secret") test_rnd
                                  (sample_page, 0%nat))))
  = [lit "hello";
     lit "h" ++ [233] ++ lit "llo w" ++ [246] ++ lit "rld " ++ [8212] ++ lit " encrypted mess"
     ++ [55357; 56832] ++ lit "ge test 12345";
     lit "plain text"; fallback]
  /\ map innerHTML (messages (fst (decryptMessages default_emojis (lit "wrong") test_rnd
                                     (sample_page, 0%nat))))
     = [fallback; fallback; lit "plain text"; fallback].
Proof. split; vm_compute; reflexivity. Qed.

(** ** C5: a second decrypt pass *)

Lemma decrypt_message_unmarked (emo : emojimap) (pass : jsstring) (rnd : nat -> Z)
    (i : nat) (st : page * nat) :
  (forall m, nth_error (messages (fst st)) i = Some m -> hd_error (innerHTML m) <> Some 167) ->
  decrypt_message emo pass rnd i st = st.
Proof.
  intros H. destruct st as [p pos]. unfold decrypt_message. cbn [fst] in H.
  destruct (nth_error (messages p) i) as [m|]; [|reflexivity].
  specialize (H m eq_refl). destruct (innerHTML m) as [|c enc]; [reflexivity|].
  destruct (Z.eqb_spec c 167) as [->|_]; [|reflexivity].
  exfalso. now apply H.
Qed.







(** The codes of the built-in table begin with a colon. *)
Example default_emojis_codes :
  Forall (fun kv => hd_error (fst kv) = Some 58) default_emojis.
Proof.
  apply Forall_forall. intros kv H.
  assert (E : forallb (fun kv => match fst kv with 58 :: _ => true | _ => false end)
                      default_emojis = true) by (vm_compute; reflexivity).
  rewrite forallb_forall in E. specialize (E kv H).
  destruct (fst kv) as [|c t]; [discriminate|].
  destruct (Z.eq_dec c 58) as [->|Hc]; [reflexivity|].
  exfalso. destruct c as [|c|c]; try discriminate.
  repeat (destruct c as [c|c|]; try discriminate). now apply Hc.
Qed.




(** ** Words and bytes *)

Ltac zarith := Z.div_mod_to_equations; lia.

Lemma ToInt32_range (x : Z) : int32 (JS.ToInt32 x).
Proof. unfold int32, JS.ToInt32. zarith. Qed.

Lemma ToInt32_id (w : Z) : int32 w -> JS.ToInt32 w = w.
Proof. unfold int32, JS.ToInt32. zarith. Qed.

Lemma ToInt32_eq_mod (x y : Z) :
  x mod 4294967296 = y mod 4294967296 -> JS.ToInt32 x = JS.ToInt32 y.
Proof. unfold JS.ToInt32. zarith. Qed.

Lemma byteOf_range (k w : Z) : 0 <= byteOf k w < 256.
Proof. unfold byteOf. apply Z.mod_pos_bound. lia. Qed.

Lemma byteOf_0 (w : Z) : byteOf 0 w = (w / 16777216) mod 256.
Proof. reflexivity. Qed.

Lemma byteOf_1 (w : Z) : byteOf 1 w = (w / 65536) mod 256.
Proof. reflexivity. Qed.

Lemma byteOf_2 (w : Z) : byteOf 2 w = (w / 256) mod 256.
Proof. reflexivity. Qed.

Lemma byteOf_3 (w : Z) : byteOf 3 w = w mod 256.
Proof. unfold byteOf. simpl. now rewrite Z.div_1_r. Qed.

Ltac byte_cases k :=
  let H := fresh in
  assert (H : k = 0 \/ k = 1 \/ k = 2 \/ k = 3) by lia;
  destruct H as [->|[->|[->| ->]]]; rewrite ?byteOf_0, ?byteOf_1, ?byteOf_2, ?byteOf_3.

Lemma byteOf_ToInt32 (k x : Z) : 0 <= k <= 3 -> byteOf k (JS.ToInt32 x) = byteOf k x.
Proof. intros Hk. byte_cases k; unfold JS.ToInt32; zarith. Qed.

Lemma byteOf_pack (k b0 b1 b2 b3 : Z) :
  0 <= b0 < 256 -> 0 <= b1 < 256 -> 0 <= b2 < 256 -> 0 <= b3 < 256 -> 0 <= k <= 3 ->
  byteOf k (pack b0 b1 b2 b3)
  = if k =? 0 then b0 else if k =? 1 then b1 else if k =? 2 then b2 else b3.
Proof.
  intros H0 H1 H2 H3 Hk. unfold pack. rewrite byteOf_ToInt32 by lia.
  byte_cases k; simpl; zarith.
Qed.

Lemma pack_byteOf (w : Z) :
  pack (byteOf 0 w) (byteOf 1 w) (byteOf 2 w) (byteOf 3 w) = JS.ToInt32 w.
Proof.
  unfold pack. apply ToInt32_eq_mod. rewrite byteOf_0, byteOf_1, byteOf_2, byteOf_3. zarith.
Qed.

(** Two 32-bit words with the same four bytes are equal. *)
Lemma word_ext (a b : Z) :
  int32 a -> int32 b -> (forall k, 0 <= k <= 3 -> byteOf k a = byteOf k b) -> a = b.
Proof.
  intros Ha Hb H. rewrite <- (ToInt32_id a Ha), <- (ToInt32_id b Hb), <- !pack_byteOf.
  now rewrite !H by lia.
Qed.

Lemma byteOf_land (k w : Z) :
  0 <= k <= 3 -> byteOf k w = Z.land (Z.shiftr w (24 - 8 * k)) (Z.ones 8).
Proof.
  intros Hk. unfold byteOf. rewrite Z.land_ones, Z.shiftr_div_pow2 by lia. reflexivity.
Qed.

Lemma byteOf_lxor (k a b : Z) :
  0 <= k <= 3 -> byteOf k (Z.lxor a b) = Z.lxor (byteOf k a) (byteOf k b).
Proof.
  intros Hk. rewrite !byteOf_land by lia.
  apply Z.bits_inj'. intros i Hi.
  rewrite !Z.lxor_spec, !Z.land_spec, !Z.shiftr_spec, Z.lxor_spec by lia.
  destruct (Z.testbit (Z.ones 8) i); [now rewrite !andb_true_r | now rewrite !andb_false_r].
Qed.

Lemma byteOf_lor (k a b : Z) :
  0 <= k <= 3 -> byteOf k (Z.lor a b) = Z.lor (byteOf k a) (byteOf k b).
Proof.
  intros Hk. rewrite !byteOf_land by lia.
  apply Z.bits_inj'. intros i Hi.
  rewrite !Z.lor_spec, !Z.land_spec, !Z.shiftr_spec, Z.lor_spec by lia.
  destruct (Z.testbit (Z.ones 8) i); [now rewrite !andb_true_r | now rewrite !andb_false_r].
Qed.

Lemma byteOf_bxor (k a b : Z) :
  0 <= k <= 3 -> byteOf k (a .^ b) = Z.lxor (byteOf k a) (byteOf k b).
Proof. intros Hk. unfold JS.bxor. now rewrite byteOf_ToInt32, byteOf_lxor. Qed.

Lemma byteOf_bor (k a b : Z) :
  0 <= k <= 3 -> byteOf k (a .| b) = Z.lor (byteOf k a) (byteOf k b).
Proof. intros Hk. unfold JS.bor. now rewrite byteOf_ToInt32, byteOf_lor. Qed.

Lemma bxor_int32 (a b : Z) : int32 (a .^ b).
Proof. apply ToInt32_range. Qed.

Lemma bor_int32 (a b : Z) : int32 (a .| b).
Proof. apply ToInt32_range. Qed.

Lemma pack_int32 (b0 b1 b2 b3 : Z) : int32 (pack b0 b1 b2 b3).
Proof. apply ToInt32_range. Qed.

(** The ways the code reads the bytes of a word. *)
Lemma shru_24 (w : Z) : w .>>> 24 = byteOf 0 w.
Proof.
  unfold JS.shru, JS.ToUint32. change (24 mod 32) with 24.
  rewrite Z.shiftr_div_pow2, byteOf_0 by lia. change (2 ^ 24) with 16777216. zarith.
Qed.

Lemma band_255 (x : Z) : x .& 255 = x mod 256.
Proof.
  unfold JS.band. change 255 with (Z.ones 8). rewrite Z.land_ones by lia.
  change (2 ^ 8) with 256. apply ToInt32_id. unfold int32. zarith.
Qed.

Lemma shru_16_255 (w : Z) : w .>>> 16 .& 255 = byteOf 1 w.
Proof.
  rewrite band_255. unfold JS.shru, JS.ToUint32. change (16 mod 32) with 16.
  rewrite Z.shiftr_div_pow2, byteOf_1 by lia. change (2 ^ 16) with 65536. zarith.
Qed.

Lemma shru_8_255 (w : Z) : w .>>> 8 .& 255 = byteOf 2 w.
Proof.
  rewrite band_255. unfold JS.shru, JS.ToUint32. change (8 mod 32) with 8.
  rewrite Z.shiftr_div_pow2, byteOf_2 by lia. change (2 ^ 8) with 256. zarith.
Qed.

Lemma band_255_byte (w : Z) : w .& 255 = byteOf 3 w.
Proof. now rewrite band_255, byteOf_3. Qed.

(** [w >>> 24-8*k & 255] for a byte position [k]. *)
Lemma byte_read (k w : Z) : 0 <= k <= 3 -> w .>>> 24 - 8 * k .& 255 = byteOf k w.
Proof.
  intros Hk. rewrite band_255. unfold JS.shru, JS.ToUint32.
  assert (H : k = 0 \/ k = 1 \/ k = 2 \/ k = 3) by lia.
  destruct H as [->|[->|[->| ->]]].
  - change ((24 - 8 * 0) mod 32) with 24. rewrite Z.shiftr_div_pow2, byteOf_0 by lia.
    change (2 ^ 24) with 16777216. zarith.
  - change ((24 - 8 * 1) mod 32) with 16. rewrite Z.shiftr_div_pow2, byteOf_1 by lia.
    change (2 ^ 16) with 65536. zarith.
  - change ((24 - 8 * 2) mod 32) with 8. rewrite Z.shiftr_div_pow2, byteOf_2 by lia.
    change (2 ^ 8) with 256. zarith.
  - change ((24 - 8 * 3) mod 32) with 0. rewrite Z.shiftr_0_r, byteOf_3. zarith.
Qed.

(** [b << 24-8*k] for a byte [b]. *)
Lemma byteOf_shl_byte (k j b : Z) :
  0 <= k <= 3 -> 0 <= j <= 3 -> 0 <= b < 256 ->
  byteOf k (b .<< 24 - 8 * j) = if k =? j then b else 0.
Proof.
  intros Hk Hj Hb. unfold JS.shl. rewrite byteOf_ToInt32 by lia.
  assert (Hj' : j = 0 \/ j = 1 \/ j = 2 \/ j = 3) by lia.
  destruct Hj' as [->|[->|[->| ->]]].
  - change ((24 - 8 * 0) mod 32) with 24. rewrite Z.shiftl_mul_pow2 by lia.
    change (2 ^ 24) with 16777216. byte_cases k; simpl; zarith.
  - change ((24 - 8 * 1) mod 32) with 16. rewrite Z.shiftl_mul_pow2 by lia.
    change (2 ^ 16) with 65536. byte_cases k; simpl; zarith.
  - change ((24 - 8 * 2) mod 32) with 8. rewrite Z.shiftl_mul_pow2 by lia.
    change (2 ^ 8) with 256. byte_cases k; simpl; zarith.
  - change ((24 - 8 * 3) mod 32) with 0. rewrite Z.shiftl_0_r.
    byte_cases k; simpl; zarith.
Qed.

Lemma byteOf_shl24 (k b : Z) :
  0 <= k <= 3 -> 0 <= b < 256 -> byteOf k (b .<< 24) = if k =? 0 then b else 0.
Proof. intros Hk Hb. apply (byteOf_shl_byte k 0 b); lia. Qed.

Lemma byteOf_shl16 (k b : Z) :
  0 <= k <= 3 -> 0 <= b < 256 -> byteOf k (b .<< 16) = if k =? 1 then b else 0.
Proof. intros Hk Hb. apply (byteOf_shl_byte k 1 b); lia. Qed.

Lemma byteOf_shl8 (k b : Z) :
  0 <= k <= 3 -> 0 <= b < 256 -> byteOf k (b .<< 8) = if k =? 2 then b else 0.
Proof. intros Hk Hb. apply (byteOf_shl_byte k 2 b); lia. Qed.

Lemma byteOf_byte (k b : Z) :
  0 <= k <= 3 -> 0 <= b < 256 -> byteOf k b = if k =? 3 then b else 0.
Proof. intros Hk Hb. byte_cases k; simpl; zarith. Qed.

(** [(b0<<24) | (b1<<16) | (b2<<8) | b3] for bytes. *)
Lemma bor_bytes (b0 b1 b2 b3 : Z) :
  0 <= b0 < 256 -> 0 <= b1 < 256 -> 0 <= b2 < 256 -> 0 <= b3 < 256 ->
  (b0 .<< 24) .| (b1 .<< 16) .| (b2 .<< 8) .| b3 = pack b0 b1 b2 b3.
Proof.
  intros H0 H1 H2 H3. apply word_ext; [apply bor_int32 | apply pack_int32 |].
  intros k Hk. rewrite !byteOf_bor, byteOf_pack by lia.
  rewrite byteOf_shl24, byteOf_shl16, byteOf_shl8, (byteOf_byte k b3) by lia.
  assert (H : k = 0 \/ k = 1 \/ k = 2 \/ k = 3) by lia.
  destruct H as [->|[->|[->| ->]]]; simpl; rewrite ?Z.lor_0_r, ?Z.lor_0_l; reflexivity.
Qed.

Ltac xor_ac :=
  apply Z.bits_inj'; intros ?i _; rewrite ?Z.lxor_spec, ?Z.bits_0; btauto.

Lemma bxor_cancel (a b : Z) : int32 a -> a .^ b .^ b = a.
Proof.
  intros Ha. apply word_ext; [apply bxor_int32 | exact Ha |].
  intros k Hk. rewrite !byteOf_bxor by lia. xor_ac.
Qed.

(** ** The AES tables *)

Lemma bytes256_forall (P : Z -> bool) :
  forallb P bytes256 = true -> forall x, 0 <= x < 256 -> P x = true.
Proof.
  intros H x Hx. rewrite forallb_forall in H. apply H.
  replace bytes256 with (map Z.of_nat (seq 0 256)) by (vm_compute; reflexivity).
  apply in_map_iff. exists (Z.to_nat x). split; [lia|]. apply in_seq. lia.
Qed.

Lemma span_term (a b : bool) (c : Z) :
  (if xorb a b then c else 0) = Z.lxor (if a then c else 0) (if b then c else 0).
Proof. destruct a, b; simpl; now rewrite ?Z.lxor_nilpotent, ?Z.lxor_0_r. Qed.

Lemma span_lxor (c : Z -> Z) (x y : Z) :
  span c (Z.lxor x y) = Z.lxor (span c x) (span c y).
Proof.
  unfold span. cbn [fold_right]. rewrite !Z.lxor_spec, !span_term. xor_ac.
Qed.

Lemma lxor_byte (x y : Z) : 0 <= x < 256 -> 0 <= y < 256 -> 0 <= Z.lxor x y < 256.
Proof.
  intros Hx Hy. split; [apply Z.lxor_nonneg; lia|].
  destruct (Z.eq_dec (Z.lxor x y) 0) as [->|Hne]; [lia|].
  apply (Z.log2_lt_cancel _ 256). change (Z.log2 256) with 8.
  assert (Hl : forall z, 0 <= z < 256 -> Z.log2 z < 8).
  { intros z Hz. destruct (Z.eq_dec z 0) as [->|Hz0]; [now compute|].
    apply Z.log2_lt_pow2; lia. }
  pose proof (Z.log2_lxor x y ltac:(lia) ltac:(lia)).
  pose proof (Hl x Hx). pose proof (Hl y Hy). lia.
Qed.

(** A table that agrees with a span on all bytes is linear, byte by byte. *)
Lemma spanned_linear (f : Z -> Z) (k x y : Z) :
  spanned f = true -> 0 <= k <= 3 -> 0 <= x < 256 -> 0 <= y < 256 ->
  byteOf k (f (Z.lxor x y)) = Z.lxor (byteOf k (f x)) (byteOf k (f y)).
Proof.
  intros Hf Hk Hx Hy. unfold spanned in Hf.
  pose proof (bytes256_forall _ Hf) as H.
  rewrite (proj1 (Z.eqb_eq _ _) (H x Hx)), (proj1 (Z.eqb_eq _ _) (H y Hy)).
  rewrite (proj1 (Z.eqb_eq _ _) (H _ (lxor_byte x y Hx Hy))).
  now rewrite span_lxor, byteOf_lxor.
Qed.

Lemma IM0_spanned : spanned IM0 = true.
Proof. vm_compute. reflexivity. Qed.
Lemma IM1_spanned : spanned IM1 = true.
Proof. vm_compute. reflexivity. Qed.
Lemma IM2_spanned : spanned IM2 = true.
Proof. vm_compute. reflexivity. Qed.
Lemma IM3_spanned : spanned IM3 = true.
Proof. vm_compute. reflexivity. Qed.

(** The inverse column mix is linear. *)
Lemma IMC_bxor (a b : Z) : IMC (a .^ b) = IMC a .^ IMC b.
Proof.
  apply word_ext; [apply bxor_int32 | apply bxor_int32 |].
  intros k Hk. unfold IMC. rewrite !byteOf_bxor by lia.
  rewrite (spanned_linear IM0 k _ _ IM0_spanned), (spanned_linear IM1 k _ _ IM1_spanned),
    (spanned_linear IM2 k _ _ IM2_spanned), (spanned_linear IM3 k _ _ IM3_spanned)
    by (try lia; apply byteOf_range).
  xor_ac.
Qed.

(** ** Arrays and loops *)

Lemma for_loop_S {S : Type} (lo : Z) (n : nat) (body : Z -> S -> S) (s : S) :
  for_loop lo (Datatypes.S n) body s = body (lo + Z.of_nat n) (for_loop lo n body s).
Proof.
  unfold for_loop. rewrite seq_S, fold_left_app. reflexivity.
Qed.

Lemma for_loop_0 {S : Type} (lo : Z) (body : Z -> S -> S) (s : S) :
  for_loop lo 0 body s = s.
Proof. reflexivity. Qed.

Lemma for_loop_ext {S : Type} (lo : Z) (n : nat) (f g : Z -> S -> S) (s : S) :
  (forall i x, lo <= i < lo + Z.of_nat n -> f i x = g i x) ->
  for_loop lo n f s = for_loop lo n g s.
Proof.
  induction n as [|n IH]; intros H; [reflexivity|].
  rewrite !for_loop_S, IH by (intros; apply H; lia). apply H. lia.
Qed.

Lemma aget_in (a : list Z) (i : Z) :
  0 <= i < Z.of_nat (length a) -> a.[i] = nth (Z.to_nat i) a 0.
Proof.
  intros H. unfold aget.
  now rewrite (proj2 (Z.leb_le 0 i)), (proj2 (Z.ltb_lt i _)) by lia.
Qed.

Lemma aget_out (a : list Z) (i : Z) :
  i < 0 \/ Z.of_nat (length a) <= i -> a.[i] = 0.
Proof.
  intros H. unfold aget.
  destruct (Z.leb_spec 0 i); [|reflexivity]. destruct (Z.ltb_spec i (Z.of_nat (length a))); [lia|].
  reflexivity.
Qed.

Lemma aget_nth (a : list Z) (i : Z) : 0 <= i -> a.[i] = nth (Z.to_nat i) a 0.
Proof.
  intros H. destruct (Z.lt_ge_cases i (Z.of_nat (length a))).
  - apply aget_in. lia.
  - rewrite aget_out by lia. symmetry. apply nth_overflow. lia.
Qed.

Lemma length_aset (a : list Z) (i v : Z) :
  0 <= i -> length (aset a i v) = Nat.max (length a) (Z.to_nat i + 1).
Proof.
  intros H. unfold aset. destruct (Z.ltb_spec i 0); [lia|].
  destruct (Z.ltb_spec i (Z.of_nat (length a))).
  - rewrite length_app. cbn [List.length]. rewrite length_firstn, length_skipn. lia.
  - rewrite !length_app, repeat_length. cbn [List.length]. lia.
Qed.

Lemma aget_aset (a : list Z) (i v j : Z) :
  0 <= i -> (aset a i v).[j] = if j =? i then v else a.[j].
Proof.
  intros Hi. destruct (Z.eqb_spec j i) as [->|Hne].
  - rewrite aget_nth by lia. unfold aset. destruct (Z.ltb_spec i 0); [lia|].
    destruct (Z.ltb_spec i (Z.of_nat (length a))).
    + rewrite app_nth2; rewrite length_firstn, Nat.min_l by lia; [|lia].
      now rewrite Nat.sub_diag.
    + rewrite app_nth2 by lia. rewrite app_nth2; rewrite repeat_length; [|lia].
      replace (Z.to_nat i - length a - (Z.to_nat i - length a))%nat with 0%nat by lia.
      reflexivity.
  - destruct (Z.lt_ge_cases j 0); [now rewrite !aget_out by lia|].
    rewrite !aget_nth by lia. unfold aset. destruct (Z.ltb_spec i 0); [lia|].
    destruct (Z.ltb_spec i (Z.of_nat (length a))).
    + destruct (Z.lt_ge_cases j i).
      * rewrite app_nth1 by (rewrite length_firstn; lia). now rewrite nth_firstn, (proj2 (Nat.ltb_lt _ _)) by lia.
      * rewrite app_nth2; rewrite length_firstn, Nat.min_l by lia; [|lia].
        destruct (Z.to_nat j - Z.to_nat i)%nat as [|d] eqn:E; [lia|]. cbn [nth].
        rewrite nth_skipn. f_equal. lia.
    + destruct (Z.lt_ge_cases j (Z.of_nat (length a))).
      * now rewrite app_nth1 by lia.
      * rewrite app_nth2 by lia. rewrite (nth_overflow a) by lia.
        destruct (Z.lt_ge_cases j i).
        -- rewrite app_nth1 by (rewrite repeat_length; lia). apply nth_repeat.
        -- rewrite app_nth2; rewrite repeat_length; [|lia].
           destruct (Z.to_nat j - length a - (Z.to_nat i - length a))%nat as [|d] eqn:E; [lia|].
           cbn [nth]. now destruct d.
Qed.

(** Two arrays of the same length with the same elements are equal. *)
Lemma array_ext (a b : list Z) :
  length a = length b -> (forall i, 0 <= i < Z.of_nat (length a) -> a.[i] = b.[i]) -> a = b.
Proof.
  intros Hl H. apply (nth_ext a b 0 0 Hl). intros n Hn.
  specialize (H (Z.of_nat n) ltac:(lia)). rewrite !aget_nth, Nat2Z.id in H by lia. exact H.
Qed.

Lemma aget_app1 (a b : list Z) (i : Z) : i < Z.of_nat (length a) -> (a ++ b).[i] = a.[i].
Proof.
  intros H. destruct (Z.lt_ge_cases i 0); [now rewrite !aget_out by lia|].
  rewrite !aget_nth by lia. apply app_nth1. lia.
Qed.

Lemma aget_app2 (a b : list Z) (i : Z) :
  Z.of_nat (length a) <= i -> (a ++ b).[i] = b.[i - Z.of_nat (length a)].
Proof.
  intros H. rewrite !aget_nth by lia. rewrite app_nth2 by lia. f_equal. lia.
Qed.

(** A loop that writes [G d] at every index [d] tabulates [G]. *)
Lemma for_loop_tabulate (G : Z -> Z) (n : nat) (i : Z) :
  (for_loop 0 n (fun d c => aset c d (G d)) []).[i]
  = if (0 <=? i) && (i <? Z.of_nat n) then G i else 0.
Proof.
  induction n as [|n IH].
  - cbn. rewrite aget_out by (cbn; lia).
    destruct (Z.leb_spec 0 i), (Z.ltb_spec i 0); try reflexivity; lia.
  - rewrite for_loop_S, aget_aset by lia. rewrite IH. cbn [Z.add].
    destruct (Z.eqb_spec i (Z.of_nat n)) as [->|Hne].
    + now rewrite (proj2 (Z.leb_le 0 _)), (proj2 (Z.ltb_lt _ _)) by lia.
    + destruct (Z.leb_spec 0 i); [|reflexivity]. cbn [andb].
      destruct (Z.ltb_spec i (Z.of_nat n)), (Z.ltb_spec i (Z.of_nat (S n))); try reflexivity; lia.
Qed.

(** ** The AES block functions are inverse to each other *)

Lemma sbox_all : forallb sbox_pred bytes256 = true.
Proof. vm_compute. reflexivity. Qed.

Lemma mix_all : forallb mix_pred bytes256 = true.
Proof. vm_compute. reflexivity. Qed.

Lemma sbox_facts (x : Z) :
  0 <= x < 256 -> 0 <= Sb x < 256 /\ (AES.INV_SBOX AES.tabs).[Sb x] = x.
Proof.
  intros Hx. pose proof (bytes256_forall sbox_pred sbox_all x Hx) as Hb.
  unfold sbox_pred in Hb.
  apply andb_true_iff in Hb as [Hb H3]. apply andb_true_iff in Hb as [H1 H2].
  apply Z.leb_le in H1. apply Z.ltb_lt in H2. apply Z.eqb_eq in H3. auto.
Qed.

Lemma mix_facts (x : Z) :
  0 <= x < 256 ->
  IMC (AES.SUB_MIX_0 AES.tabs).[x] = pack (Sb x) 0 0 0
  /\ IMC (AES.SUB_MIX_1 AES.tabs).[x] = pack 0 (Sb x) 0 0
  /\ IMC (AES.SUB_MIX_2 AES.tabs).[x] = pack 0 0 (Sb x) 0
  /\ IMC (AES.SUB_MIX_3 AES.tabs).[x] = pack 0 0 0 (Sb x).
Proof.
  intros Hx. pose proof (bytes256_forall mix_pred mix_all x Hx) as Hb.
  unfold mix_pred in Hb.
  apply andb_true_iff in Hb as [Hb H4]. apply andb_true_iff in Hb as [Hb H3].
  apply andb_true_iff in Hb as [H1 H2].
  apply Z.eqb_eq in H1, H2, H3, H4. auto.
Qed.

Lemma Sb_byte (k w : Z) : 0 <= Sb (byteOf k w) < 256.
Proof. apply sbox_facts, byteOf_range. Qed.

Lemma pack_xor4 (a b c d : Z) :
  0 <= a < 256 -> 0 <= b < 256 -> 0 <= c < 256 -> 0 <= d < 256 ->
  pack a 0 0 0 .^ pack 0 b 0 0 .^ pack 0 0 c 0 .^ pack 0 0 0 d = pack a b c d.
Proof.
  intros Ha Hb Hc Hd. apply word_ext; [apply bxor_int32 | apply pack_int32 |].
  intros k Hk. rewrite !byteOf_bxor, !byteOf_pack by lia.
  assert (H : k = 0 \/ k = 1 \/ k = 2 \/ k = 3) by lia.
  destruct H as [->|[->|[->| ->]]]; simpl; rewrite ?Z.lxor_0_r, ?Z.lxor_0_l; reflexivity.
Qed.

(** The inverse column mix of a word of an encryption round. *)
Lemma IMC_round_word (g h k n key : Z) :
  IMC ((AES.SUB_MIX_0 AES.tabs).[byteOf 0 g] .^ (AES.SUB_MIX_1 AES.tabs).[byteOf 1 h]
       .^ (AES.SUB_MIX_2 AES.tabs).[byteOf 2 k] .^ (AES.SUB_MIX_3 AES.tabs).[byteOf 3 n] .^ key)
  = SS g h k n .^ IMC key.
Proof.
  rewrite !IMC_bxor.
  rewrite (proj1 (mix_facts _ (byteOf_range 0 g))).
  rewrite (proj1 (proj2 (mix_facts _ (byteOf_range 1 h)))).
  rewrite (proj1 (proj2 (proj2 (mix_facts _ (byteOf_range 2 k))))).
  rewrite (proj2 (proj2 (proj2 (mix_facts _ (byteOf_range 3 n))))).
  rewrite pack_xor4 by apply Sb_byte. reflexivity.
Qed.

Lemma crypt_round_bytes (c d e j l : list Z) (g h k n p : Z) :
  AES.crypt_round c d e j l (AES.RState g h k n p)
  = AES.RState
      (d.[byteOf 0 g] .^ e.[byteOf 1 h] .^ j.[byteOf 2 k] .^ l.[byteOf 3 n] .^ c.[p])
      (d.[byteOf 0 h] .^ e.[byteOf 1 k] .^ j.[byteOf 2 n] .^ l.[byteOf 3 g] .^ c.[p + 1])
      (d.[byteOf 0 k] .^ e.[byteOf 1 n] .^ j.[byteOf 2 g] .^ l.[byteOf 3 h] .^ c.[p + 2])
      (d.[byteOf 0 n] .^ e.[byteOf 1 g] .^ j.[byteOf 2 h] .^ l.[byteOf 3 k] .^ c.[p + 3])
      (p + 4).
Proof.
  unfold AES.crypt_round.
  now rewrite !shru_24, !shru_16_255, !shru_8_255, !band_255_byte.
Qed.

Lemma byteOf_SS (a b c d : Z) :
  byteOf 0 (SS a b c d) = Sb (byteOf 0 a) /\ byteOf 1 (SS a b c d) = Sb (byteOf 1 b)
  /\ byteOf 2 (SS a b c d) = Sb (byteOf 2 c) /\ byteOf 3 (SS a b c d) = Sb (byteOf 3 d).
Proof.
  unfold SS. repeat split; rewrite byteOf_pack by (try apply Sb_byte; lia); reflexivity.
Qed.

Lemma byteOf_SS0 (a b c d : Z) : byteOf 0 (SS a b c d) = Sb (byteOf 0 a).
Proof. apply byteOf_SS. Qed.
Lemma byteOf_SS1 (a b c d : Z) : byteOf 1 (SS a b c d) = Sb (byteOf 1 b).
Proof. apply byteOf_SS. Qed.
Lemma byteOf_SS2 (a b c d : Z) : byteOf 2 (SS a b c d) = Sb (byteOf 2 c).
Proof. apply byteOf_SS. Qed.
Lemma byteOf_SS3 (a b c d : Z) : byteOf 3 (SS a b c d) = Sb (byteOf 3 d).
Proof. apply byteOf_SS. Qed.

(** A word of a decryption round, taken at corresponding states. *)
Lemma inv_round_word (g' ik x : Z) (G H K N : Z) :
  byteOf 0 G = Sb (byteOf 0 g') -> byteOf 1 H = Sb (byteOf 1 g') ->
  byteOf 2 K = Sb (byteOf 2 g') -> byteOf 3 N = Sb (byteOf 3 g') ->
  IMC g' = x .^ ik -> int32 x ->
  (AES.INV_SUB_MIX_0 AES.tabs).[byteOf 0 G] .^ (AES.INV_SUB_MIX_1 AES.tabs).[byteOf 1 H]
  .^ (AES.INV_SUB_MIX_2 AES.tabs).[byteOf 2 K] .^ (AES.INV_SUB_MIX_3 AES.tabs).[byteOf 3 N] .^ ik
  = x.
Proof.
  intros -> -> -> -> E Hx.
  change ((AES.INV_SUB_MIX_0 AES.tabs).[Sb (byteOf 0 g')]) with (IM0 (byteOf 0 g')).
  change ((AES.INV_SUB_MIX_1 AES.tabs).[Sb (byteOf 1 g')]) with (IM1 (byteOf 1 g')).
  change ((AES.INV_SUB_MIX_2 AES.tabs).[Sb (byteOf 2 g')]) with (IM2 (byteOf 2 g')).
  change ((AES.INV_SUB_MIX_3 AES.tabs).[Sb (byteOf 3 g')]) with (IM3 (byteOf 3 g')).
  fold (IMC g'). rewrite E. now apply bxor_cancel.
Qed.

(** A decryption round undoes an encryption round, between corresponding
    states, when the four words of the inverse key schedule it uses are the
    inverse column mixes of the four words the encryption round used. *)
Lemma inv_round (KS IKS : list Z) (s : AES.rstate) (p' : Z) :
  IKS.[p'] = IMC KS.[AES.rp s] ->
  IKS.[p' + 1] = IMC KS.[AES.rp s + 3] ->
  IKS.[p' + 2] = IMC KS.[AES.rp s + 2] ->
  IKS.[p' + 3] = IMC KS.[AES.rp s + 1] ->
  AES.crypt_round IKS (AES.INV_SUB_MIX_0 AES.tabs) (AES.INV_SUB_MIX_1 AES.tabs)
    (AES.INV_SUB_MIX_2 AES.tabs) (AES.INV_SUB_MIX_3 AES.tabs)
    (Ustate (AES.crypt_round KS (AES.SUB_MIX_0 AES.tabs) (AES.SUB_MIX_1 AES.tabs)
               (AES.SUB_MIX_2 AES.tabs) (AES.SUB_MIX_3 AES.tabs) s) p')
  = Ustate s (p' + 4).
Proof.
  destruct s as [g h k n p]. cbn [AES.rp]. intros H0 H1 H2 H3.
  rewrite (crypt_round_bytes KS). unfold Ustate. cbn [AES.rg AES.rh AES.rk AES.rn].
  rewrite crypt_round_bytes, H0, H1, H2, H3.
  f_equal; (eapply inv_round_word;
            [apply byteOf_SS0 | apply byteOf_SS1 | apply byteOf_SS2 | apply byteOf_SS3
            | apply IMC_round_word | apply pack_int32]).
Qed.
Lemma bxor_cancel' (a b : Z) : a .^ b .^ b = JS.ToInt32 a.
Proof.
  apply word_ext; [apply bxor_int32 | apply ToInt32_range |].
  intros k Hk. rewrite !byteOf_bxor, byteOf_ToInt32 by lia. xor_ac.
Qed.

Lemma rem4 (d : Z) : 0 <= d -> d .% 4 = d mod 4.
Proof. intros H. apply Z.rem_mod_nonneg; lia. Qed.
(** The inverse key schedule, word by word, in terms of the key schedule. *)
Lemma invKeySchedule_get (key : WA) (d : Z) :
  let ks := AES._doReset key in
  let a := 4 * (AES._nRounds ks + 1) in
  0 <= d < a ->
  (AES._invKeySchedule ks).[d]
  = let j := a - d in
    let k := if d mod 4 =? 0 then (AES._keySchedule ks).[j - 4] else (AES._keySchedule ks).[j] in
    if (d <? 4) || (j <=? 4) then k else IMC k.
Proof.
  intros ks a Hd. subst ks a. unfold AES._doReset in *.
  cbn [AES._nRounds AES._keySchedule AES._invKeySchedule] in *.
  set (N := WordArray.sigBytes key / 4 + 6) in *.
  match goal with |- context [for_loop 0 _ ?f [] ] =>
    match f with (fun j e => if _ then _ else _) => set (e := for_loop 0 (Z.to_nat (4 * (N + 1))) f []) end
  end.
  rewrite for_loop_tabulate.
  rewrite (proj2 (Z.leb_le 0 d)), (proj2 (Z.ltb_lt d _)) by lia. cbn [andb].
  rewrite rem4 by lia. cbv zeta.
  replace (4 >? d) with (d <? 4) by (rewrite Z.gtb_ltb; reflexivity).
  replace (4 >=? 4 * (N + 1) - d) with (4 * (N + 1) - d <=? 4) by (rewrite Z.geb_leb; reflexivity).
  rewrite !shru_24, !shru_16_255, !shru_8_255, !band_255_byte.
  unfold IMC, IM0, IM1, IM2, IM3, Sb.
  destruct (d mod 4 =? 0); cbn [negb]; reflexivity.
Qed.

Section AES_block.

Variable key : WA.

Let ks := AES._doReset key.
Let N := AES._nRounds ks.
Let KS := AES._keySchedule ks.
Let IKS := AES._invKeySchedule ks.

Hypothesis HN : 1 <= N.

Let enc_round := AES.crypt_round KS (AES.SUB_MIX_0 AES.tabs) (AES.SUB_MIX_1 AES.tabs)
                                 (AES.SUB_MIX_2 AES.tabs) (AES.SUB_MIX_3 AES.tabs).
Let dec_round := AES.crypt_round IKS (AES.INV_SUB_MIX_0 AES.tabs) (AES.INV_SUB_MIX_1 AES.tabs)
                                 (AES.INV_SUB_MIX_2 AES.tabs) (AES.INV_SUB_MIX_3 AES.tabs).

Lemma crypt_round_rp (c d e j l : list Z) (s : AES.rstate) :
  AES.rp (AES.crypt_round c d e j l s) = AES.rp s + 4.
Proof. destruct s. now rewrite crypt_round_bytes. Qed.

Lemma enc_rounds_rp (r : nat) (s0 : AES.rstate) :
  AES.rp (for_loop 1 r (fun _ s => enc_round s) s0) = AES.rp s0 + 4 * Z.of_nat r.
Proof.
  induction r as [|r IH]; [rewrite for_loop_0; lia|].
  rewrite for_loop_S. unfold enc_round at 1. rewrite crypt_round_rp. fold enc_round. lia.
Qed.

Lemma IKS_get (d : Z) :
  0 <= d < 4 * (N + 1) ->
  IKS.[d] = if (d <? 4) || (4 * (N + 1) - d <=? 4)
            then (if d mod 4 =? 0 then KS.[4 * (N + 1) - d - 4] else KS.[4 * (N + 1) - d])
            else IMC (if d mod 4 =? 0 then KS.[4 * (N + 1) - d - 4] else KS.[4 * (N + 1) - d]).
Proof. exact (invKeySchedule_get key d). Qed.

(** The words of the inverse key schedule used by the middle rounds. *)
Lemma inv_schedule_middle (t : Z) :
  0 <= t < N - 1 ->
  IKS.[4 + 4 * t] = IMC KS.[4 * (N - 1 - t)]
  /\ IKS.[4 + 4 * t + 1] = IMC KS.[4 * (N - 1 - t) + 3]
  /\ IKS.[4 + 4 * t + 2] = IMC KS.[4 * (N - 1 - t) + 2]
  /\ IKS.[4 + 4 * t + 3] = IMC KS.[4 * (N - 1 - t) + 1].
Proof.
  intros Ht. repeat split; rewrite IKS_get by lia.
  - replace ((4 + 4 * t) mod 4) with 0 by zarith. cbn [Z.eqb].
    destruct (Z.ltb_spec (4 + 4 * t) 4); [lia|].
    destruct (Z.leb_spec (4 * (N + 1) - (4 + 4 * t)) 4); [lia|]. cbn [orb].
    do 2 f_equal. lia.
  - replace ((4 + 4 * t + 1) mod 4) with 1 by zarith. cbn [Z.eqb Pos.eqb].
    destruct (Z.ltb_spec (4 + 4 * t + 1) 4); [lia|].
    destruct (Z.leb_spec (4 * (N + 1) - (4 + 4 * t + 1)) 4); [lia|]. cbn [orb].
    do 2 f_equal. lia.
  - replace ((4 + 4 * t + 2) mod 4) with 2 by zarith. cbn [Z.eqb Pos.eqb].
    destruct (Z.ltb_spec (4 + 4 * t + 2) 4); [lia|].
    destruct (Z.leb_spec (4 * (N + 1) - (4 + 4 * t + 2)) 4); [lia|]. cbn [orb].
    do 2 f_equal. lia.
  - replace ((4 + 4 * t + 3) mod 4) with 3 by zarith. cbn [Z.eqb Pos.eqb].
    destruct (Z.ltb_spec (4 + 4 * t + 3) 4); [lia|].
    destruct (Z.leb_spec (4 * (N + 1) - (4 + 4 * t + 3)) 4); [lia|]. cbn [orb].
    do 2 f_equal. lia.
Qed.

(** The first and the last four words of the inverse key schedule. *)
Lemma inv_schedule_ends :
  IKS.[0] = KS.[4 * N] /\ IKS.[1] = KS.[4 * N + 3] /\ IKS.[2] = KS.[4 * N + 2]
  /\ IKS.[3] = KS.[4 * N + 1]
  /\ IKS.[4 * N] = KS.[0] /\ IKS.[4 * N + 1] = KS.[3] /\ IKS.[4 * N + 2] = KS.[2]
  /\ IKS.[4 * N + 3] = KS.[1].
Proof.
  repeat split; rewrite IKS_get by lia.
  - change (0 mod 4) with 0. change (0 <? 4) with true. cbn [orb Z.eqb]. f_equal. lia.
  - change (1 mod 4) with 1. change (1 <? 4) with true. cbn [orb Z.eqb]. f_equal. lia.
  - change (2 mod 4) with 2. change (2 <? 4) with true. cbn [orb Z.eqb]. f_equal. lia.
  - change (3 mod 4) with 3. change (3 <? 4) with true. cbn [orb Z.eqb]. f_equal. lia.
  - replace ((4 * N) mod 4) with 0 by zarith. cbn [Z.eqb].
    destruct (Z.leb_spec (4 * (N + 1) - 4 * N) 4); [|lia]. rewrite orb_true_r. f_equal. lia.
  - replace ((4 * N + 1) mod 4) with 1 by zarith. cbn [Z.eqb Pos.eqb].
    destruct (Z.leb_spec (4 * (N + 1) - (4 * N + 1)) 4); [|lia]. rewrite orb_true_r. f_equal. lia.
  - replace ((4 * N + 2) mod 4) with 2 by zarith. cbn [Z.eqb Pos.eqb].
    destruct (Z.leb_spec (4 * (N + 1) - (4 * N + 2)) 4); [|lia]. rewrite orb_true_r. f_equal. lia.
  - replace ((4 * N + 3) mod 4) with 3 by zarith. cbn [Z.eqb Pos.eqb].
    destruct (Z.leb_spec (4 * (N + 1) - (4 * N + 3)) 4); [|lia]. rewrite orb_true_r. f_equal. lia.
Qed.

(** The decryption rounds walk back through the states of the encryption
    rounds. *)
Lemma rounds_lockstep (R t : nat) (s0 : AES.rstate) :
  Z.of_nat R = N - 1 -> AES.rp s0 = 4 -> (t <= R)%nat ->
  for_loop 1 t (fun _ s => dec_round s)
    (Ustate (for_loop 1 R (fun _ s => enc_round s) s0) 4)
  = Ustate (for_loop 1 (R - t) (fun _ s => enc_round s) s0) (4 + 4 * Z.of_nat t).
Proof.
  intros HR Hp. induction t as [|t IH]; intros Ht.
  - rewrite for_loop_0, Nat.sub_0_r. do 2 f_equal.
  - rewrite for_loop_S, IH by lia.
    replace (R - t)%nat with (S (R - S t)) by lia. rewrite for_loop_S.
    set (s := for_loop 1 (R - S t) (fun _ s => enc_round s) s0).
    assert (Hs : AES.rp s = 4 * (N - 1 - Z.of_nat t)).
    { unfold s. rewrite enc_rounds_rp, Hp. lia. }
    destruct (inv_schedule_middle (Z.of_nat t) ltac:(lia)) as (H0 & H1 & H2 & H3).
    unfold dec_round, enc_round.
    rewrite inv_round by (rewrite Hs; assumption).
    f_equal. lia.
Qed.

Lemma aget4 (a b c d : Z) :
  [a; b; c; d].[0] = a /\ [a; b; c; d].[1] = b /\ [a; b; c; d].[2] = c /\ [a; b; c; d].[3] = d
  /\ [a; b; c; d].[0 + 1] = b /\ [a; b; c; d].[0 + 2] = c /\ [a; b; c; d].[0 + 3] = d.
Proof. repeat split; reflexivity. Qed.

Lemma aset4 (a b c d q s t n : Z) :
  aset (aset (aset (aset [a; b; c; d] 0 q) (0 + 1) s) (0 + 2) t) (0 + 3) n = [q; s; t; n].
Proof. reflexivity. Qed.

(** The last round. *)
Lemma last_round_word (f : list Z) (g h k n kw : Z) :
  (forall x, 0 <= x < 256 -> 0 <= f.[x] < 256) ->
  ((f.[g .>>> 24] .<< 24) .| (f.[h .>>> 16 .& 255] .<< 16) .| (f.[k .>>> 8 .& 255] .<< 8)
   .| f.[n .& 255]) .^ kw
  = pack f.[byteOf 0 g] f.[byteOf 1 h] f.[byteOf 2 k] f.[byteOf 3 n] .^ kw.
Proof.
  intros Hf. rewrite shru_24, shru_16_255, shru_8_255, band_255_byte.
  rewrite bor_bytes by (apply Hf, byteOf_range). reflexivity.
Qed.

Lemma SBOX_range (x : Z) : 0 <= x < 256 -> 0 <= (AES.SBOX AES.tabs).[x] < 256.
Proof. intros Hx. apply (sbox_facts x Hx). Qed.

Lemma INV_SBOX_range (x : Z) : 0 <= x < 256 -> 0 <= (AES.INV_SBOX AES.tabs).[x] < 256.
Proof.
  intros Hx.
  assert (H : forallb (fun x => (0 <=? (AES.INV_SBOX AES.tabs).[x])
                                && ((AES.INV_SBOX AES.tabs).[x] <? 256)) bytes256 = true)
    by (vm_compute; reflexivity).
  pose proof (bytes256_forall _ H x Hx) as Hb. cbv beta in Hb.
  apply andb_true_iff in Hb as [H1 H2]. lia.
Qed.

Let enc_state (x0 x1 x2 x3 : Z) : AES.rstate :=
  for_loop 1 (Z.to_nat (N - 1)) (fun _ s => enc_round s)
           (AES.RState (x0 .^ KS.[0]) (x1 .^ KS.[1]) (x2 .^ KS.[2]) (x3 .^ KS.[3]) 4).

Lemma encryptBlock4 (x0 x1 x2 x3 : Z) :
  AES.encryptBlock ks [x0; x1; x2; x3] 0
  = let s := enc_state x0 x1 x2 x3 in
    [SS (AES.rg s) (AES.rh s) (AES.rk s) (AES.rn s) .^ KS.[4 * N];
     SS (AES.rh s) (AES.rk s) (AES.rn s) (AES.rg s) .^ KS.[4 * N + 1];
     SS (AES.rk s) (AES.rn s) (AES.rg s) (AES.rh s) .^ KS.[4 * N + 2];
     SS (AES.rn s) (AES.rg s) (AES.rh s) (AES.rk s) .^ KS.[4 * N + 3]].
Proof.
  unfold AES.encryptBlock, AES._doCryptBlock. fold ks N KS.
  destruct (aget4 x0 x1 x2 x3) as (-> & _ & _ & _ & -> & -> & ->).
  fold enc_round. fold (enc_state x0 x1 x2 x3).
  pose proof (enc_rounds_rp (Z.to_nat (N - 1))
                (AES.RState (x0 .^ KS.[0]) (x1 .^ KS.[1]) (x2 .^ KS.[2]) (x3 .^ KS.[3]) 4)) as Hp.
  fold (enc_state x0 x1 x2 x3) in Hp. cbn [AES.rp] in Hp.
  destruct (enc_state x0 x1 x2 x3) as [g h k n p]. cbn [AES.rp AES.rg AES.rh AES.rk AES.rn] in *.
  rewrite !last_round_word by apply SBOX_range.
  replace p with (4 * N) by lia. cbv zeta. apply aset4.
Qed.

Lemma swap4 (a b c d : Z) :
  aset (aset [a; b; c; d] (0 + 1) [a; b; c; d].[0 + 3]) (0 + 3) [a; b; c; d].[0 + 1]
  = [a; d; c; b].
Proof. reflexivity. Qed.

Lemma last_inv_word (g kw a1 a2 a3 b0 b2 b3 c0 c1 c3 d0 d1 d2 : Z) :
  pack (AES.INV_SBOX AES.tabs).[byteOf 0 (SS g b0 c0 d0)]
       (AES.INV_SBOX AES.tabs).[byteOf 1 (SS a1 g c1 d1)]
       (AES.INV_SBOX AES.tabs).[byteOf 2 (SS a2 b2 g d2)]
       (AES.INV_SBOX AES.tabs).[byteOf 3 (SS a3 b3 c3 g)] .^ kw
  = g .^ kw.
Proof.
  rewrite byteOf_SS0, byteOf_SS1, byteOf_SS2, byteOf_SS3.
  rewrite !(proj2 (sbox_facts _ (byteOf_range _ _))).
  rewrite pack_byteOf. apply word_ext; try apply bxor_int32.
  intros i Hi. rewrite !byteOf_bxor, byteOf_ToInt32 by lia. reflexivity.
Qed.

Lemma block4_inverse (x0 x1 x2 x3 : Z) :
  AES.decryptBlock ks (AES.encryptBlock ks [x0; x1; x2; x3] 0) 0
  = [JS.ToInt32 x0; JS.ToInt32 x1; JS.ToInt32 x2; JS.ToInt32 x3].
Proof.
  rewrite encryptBlock4. cbv zeta.
  pose proof (rounds_lockstep (Z.to_nat (N - 1)) (Z.to_nat (N - 1))
    (AES.RState (x0 .^ KS.[0]) (x1 .^ KS.[1]) (x2 .^ KS.[2]) (x3 .^ KS.[3]) 4)) as Hl.
  fold (enc_state x0 x1 x2 x3) in Hl.
  specialize (Hl ltac:(lia) eq_refl (le_n _)).
  rewrite Nat.sub_diag, for_loop_0 in Hl.
  destruct inv_schedule_ends as (E0 & E1 & E2 & E3 & E4 & E5 & E6 & E7).
  unfold AES.decryptBlock.
  set (y0 := SS _ _ _ _ .^ _). set (y1 := SS _ _ _ _ .^ _).
  set (y2 := SS _ _ _ _ .^ _). set (y3 := SS _ _ _ _ .^ _).
  cbv zeta. rewrite swap4.
  unfold AES._doCryptBlock. fold ks N IKS.
  destruct (aget4 y0 y3 y2 y1) as (-> & _ & _ & _ & -> & -> & ->).
  rewrite E0, E1, E2, E3.
  subst y0 y1 y2 y3. rewrite !bxor_cancel', !ToInt32_id by apply pack_int32.
  fold (Ustate (enc_state x0 x1 x2 x3) 4).
  fold dec_round. rewrite Hl.
  unfold Ustate. cbn [AES.rg AES.rh AES.rk AES.rn AES.rp].
  rewrite !last_round_word by apply INV_SBOX_range.
  replace (4 + 4 * Z.of_nat (Z.to_nat (N - 1))) with (4 * N) by lia.
  rewrite E4, E5, E6, E7.
  rewrite !last_inv_word, !bxor_cancel'. reflexivity.
Qed.

End AES_block.

(** *** Blocks inside an array *)

Lemma for_loop_shift {S : Type} (lo : Z) (n : nat) (body : Z -> S -> S) (s : S) :
  for_loop lo (Datatypes.S n) body s = for_loop (lo + 1) n body (body lo s).
Proof.
  unfold for_loop. rewrite <- cons_seq, <- seq_shift. cbn [fold_left].
  rewrite Z.add_0_r. generalize (body lo s) as s'. 
  induction (seq 0 n) as [|t l IH]; intros s'; cbn [map fold_left]; [reflexivity|].
  rewrite IH. do 2 f_equal. lia.
Qed.

Lemma aset_mid (pre rest : list Z) (x v i : Z) :
  i = Z.of_nat (length pre) -> aset (pre ++ x :: rest) i v = pre ++ v :: rest.
Proof.
  intros ->. unfold aset.
  destruct (Z.ltb_spec (Z.of_nat (length pre)) 0) as [H|_]; [lia|].
  rewrite length_app. cbn [length].
  destruct (Z.ltb_spec (Z.of_nat (length pre)) (Z.of_nat (length pre + Datatypes.S (length rest))))
    as [_|H]; [|lia].
  rewrite Nat2Z.id, firstn_app, firstn_all, Nat.sub_diag. cbn [firstn].
  rewrite app_nil_r. f_equal. f_equal.
  rewrite skipn_app, skipn_all2 by lia.
  replace (Datatypes.S (length pre) - length pre)%nat with 1%nat by lia. reflexivity.
Qed.

Lemma aget_mid (pre rest : list Z) (x i : Z) :
  i = Z.of_nat (length pre) -> (pre ++ x :: rest).[i] = x.
Proof.
  intros ->. rewrite aget_app2 by lia. rewrite Z.sub_diag. reflexivity.
Qed.

Lemma app_snoc (pre l : list Z) (x : Z) : pre ++ x :: l = (pre ++ [x]) ++ l.
Proof. rewrite <- app_assoc. reflexivity. Qed.

Lemma length_snoc (pre : list Z) (x : Z) : Z.of_nat (length (pre ++ [x])) = Z.of_nat (length pre) + 1.
Proof. rewrite length_app. cbn [length]. lia. Qed.

Lemma aget_block (pre rest : list Z) (x0 x1 x2 x3 b : Z) :
  b = Z.of_nat (length pre) ->
  let a := pre ++ x0 :: x1 :: x2 :: x3 :: rest in
  a.[b] = x0 /\ a.[b + 1] = x1 /\ a.[b + 2] = x2 /\ a.[b + 3] = x3.
Proof.
  intros ->. cbv zeta. split; [apply aget_mid; reflexivity|].
  rewrite (app_snoc pre). split; [apply aget_mid; rewrite length_snoc; lia|].
  rewrite (app_snoc (pre ++ [x0])). split; [apply aget_mid; rewrite !length_snoc; lia|].
  rewrite (app_snoc ((pre ++ [x0]) ++ [x1])). apply aget_mid; rewrite !length_snoc; lia.
Qed.

Lemma aset_block (pre rest : list Z) (x0 x1 x2 x3 v0 v1 v2 v3 b : Z) :
  b = Z.of_nat (length pre) ->
  aset (aset (aset (aset (pre ++ x0 :: x1 :: x2 :: x3 :: rest) b v0) (b + 1) v1) (b + 2) v2)
       (b + 3) v3
  = pre ++ v0 :: v1 :: v2 :: v3 :: rest.
Proof.
  intros ->. rewrite (aset_mid pre) by reflexivity.
  rewrite (app_snoc pre), (aset_mid (pre ++ [v0])) by (rewrite !length_snoc; lia).
  rewrite (app_snoc (pre ++ [v0])), (aset_mid ((pre ++ [v0]) ++ [v1]))
    by (rewrite !length_snoc; lia).
  rewrite (app_snoc ((pre ++ [v0]) ++ [v1])), (aset_mid (((pre ++ [v0]) ++ [v1]) ++ [v2]))
    by (rewrite !length_snoc; lia).
  rewrite <- !app_assoc. reflexivity.
Qed.

Lemma aset_swap (pre rest : list Z) (x0 x1 x2 x3 v1 v3 b : Z) :
  b = Z.of_nat (length pre) ->
  aset (aset (pre ++ x0 :: x1 :: x2 :: x3 :: rest) (b + 1) v1) (b + 3) v3
  = pre ++ x0 :: v1 :: x2 :: v3 :: rest.
Proof.
  intros ->.
  rewrite (app_snoc pre), (aset_mid (pre ++ [x0])) by (rewrite !length_snoc; lia).
  rewrite (app_snoc (pre ++ [x0])), (app_snoc ((pre ++ [x0]) ++ [v1])),
    (aset_mid (((pre ++ [x0]) ++ [v1]) ++ [x2])) by (rewrite !length_snoc; lia).
  rewrite <- !app_assoc. reflexivity.
Qed.

Lemma slice_block (pre rest : list Z) (x0 x1 x2 x3 b : Z) :
  b = Z.of_nat (length pre) ->
  slice (pre ++ x0 :: x1 :: x2 :: x3 :: rest) b (b + 4) = [x0; x1; x2; x3].
Proof.
  intros ->. unfold slice. rewrite Nat2Z.id.
  replace (Z.to_nat (Z.of_nat (length pre) + 4) - length pre)%nat with 4%nat by lia.
  rewrite skipn_app, skipn_all, Nat.sub_diag. reflexivity.
Qed.

(** The block functions rewrite one block and read nothing else. *)
Lemma doCryptBlock_block (nRounds : Z) (pre rest : list Z) (x0 x1 x2 x3 b : Z)
    (c d e j l f : list Z) :
  b = Z.of_nat (length pre) ->
  AES._doCryptBlock nRounds (pre ++ x0 :: x1 :: x2 :: x3 :: rest) b c d e j l f
  = pre ++ AES._doCryptBlock nRounds [x0; x1; x2; x3] 0 c d e j l f ++ rest.
Proof.
  intros Hb. unfold AES._doCryptBlock.
  destruct (aget_block pre rest x0 x1 x2 x3 b Hb) as (-> & -> & -> & ->).
  destruct (aget4 x0 x1 x2 x3) as (-> & _ & _ & _ & -> & -> & ->).
  destruct (for_loop _ _ _ _) as [g h k n p]. cbv zeta.
  rewrite aset4, aset_block by exact Hb. reflexivity.
Qed.

Lemma doCryptBlock_4 (nRounds : Z) (x0 x1 x2 x3 : Z) (c d e j l f : list Z) :
  exists y0 y1 y2 y3,
    AES._doCryptBlock nRounds [x0; x1; x2; x3] 0 c d e j l f = [y0; y1; y2; y3]
    /\ int32 y0 /\ int32 y1 /\ int32 y2 /\ int32 y3.
Proof.
  unfold AES._doCryptBlock.
  destruct (for_loop _ _ _ _) as [g h k n p]. cbv zeta.
  rewrite aset4. do 4 eexists. split; [reflexivity|]. repeat split; apply bxor_int32.
Qed.

Lemma encryptBlock_block (ks : AES.schedules) (pre rest : list Z) (x0 x1 x2 x3 b : Z) :
  b = Z.of_nat (length pre) ->
  AES.encryptBlock ks (pre ++ x0 :: x1 :: x2 :: x3 :: rest) b
  = pre ++ AES.encryptBlock ks [x0; x1; x2; x3] 0 ++ rest.
Proof. intros Hb. unfold AES.encryptBlock. apply doCryptBlock_block, Hb. Qed.

Lemma decryptBlock_block (ks : AES.schedules) (pre rest : list Z) (x0 x1 x2 x3 b : Z) :
  b = Z.of_nat (length pre) ->
  AES.decryptBlock ks (pre ++ x0 :: x1 :: x2 :: x3 :: rest) b
  = pre ++ AES.decryptBlock ks [x0; x1; x2; x3] 0 ++ rest.
Proof.
  intros Hb. unfold AES.decryptBlock. cbv zeta.
  destruct (aget_block pre rest x0 x1 x2 x3 b Hb) as (_ & -> & _ & ->).
  rewrite swap4, aset_swap, doCryptBlock_block by exact Hb.
  destruct (doCryptBlock_4 (AES._nRounds ks) x0 x3 x2 x1 (AES._invKeySchedule ks)
              (AES.INV_SUB_MIX_0 AES.tabs) (AES.INV_SUB_MIX_1 AES.tabs)
              (AES.INV_SUB_MIX_2 AES.tabs) (AES.INV_SUB_MIX_3 AES.tabs) (AES.INV_SBOX AES.tabs))
    as (y0 & y1 & y2 & y3 & -> & _).
  cbn [app].
  destruct (aget_block pre rest y0 y1 y2 y3 b Hb) as (_ & -> & _ & ->).
  rewrite swap4, aset_swap by exact Hb. reflexivity.
Qed.

Lemma encryptBlock_4 (ks : AES.schedules) (x0 x1 x2 x3 : Z) :
  exists y0 y1 y2 y3,
    AES.encryptBlock ks [x0; x1; x2; x3] 0 = [y0; y1; y2; y3]
    /\ int32 y0 /\ int32 y1 /\ int32 y2 /\ int32 y3.
Proof. unfold AES.encryptBlock. apply doCryptBlock_4. Qed.

Lemma decryptBlock_4 (ks : AES.schedules) (x0 x1 x2 x3 : Z) :
  exists y0 y1 y2 y3, AES.decryptBlock ks [x0; x1; x2; x3] 0 = [y0; y1; y2; y3].
Proof.
  unfold AES.decryptBlock. cbv zeta. rewrite swap4.
  destruct (doCryptBlock_4 (AES._nRounds ks) x0 x3 x2 x1 (AES._invKeySchedule ks)
              (AES.INV_SUB_MIX_0 AES.tabs) (AES.INV_SUB_MIX_1 AES.tabs)
              (AES.INV_SUB_MIX_2 AES.tabs) (AES.INV_SUB_MIX_3 AES.tabs) (AES.INV_SBOX AES.tabs))
    as (y0 & y1 & y2 & y3 & -> & _).
  rewrite swap4. do 4 eexists. reflexivity.
Qed.

(** *** The CBC mode *)

Lemma xorBlock_block (m : CBC.t) (pre rest : list Z) (x0 x1 x2 x3 b : Z) :
  b = Z.of_nat (length pre) ->
  CBC.xorBlock m (pre ++ x0 :: x1 :: x2 :: x3 :: rest) b 4
  = (pre ++ (x0 .^ (cur m).[0]) :: (x1 .^ (cur m).[1]) :: (x2 .^ (cur m).[2])
         :: (x3 .^ (cur m).[3]) :: rest,
     CBC.Build None (CBC._prevBlock m)).
Proof.
  intros Hb. unfold CBC.xorBlock, cur.
  assert (E : forall c : list Z,
    for_loop 0 (Z.to_nat 4)
      (fun d e => aset e (b + d) (e.[b + d] .^ c.[d])) (pre ++ x0 :: x1 :: x2 :: x3 :: rest)
    = pre ++ (x0 .^ c.[0]) :: (x1 .^ c.[1]) :: (x2 .^ c.[2]) :: (x3 .^ c.[3]) :: rest).
  { intros c. change (Z.to_nat 4) with 4%nat. unfold for_loop. cbn [seq fold_left Z.of_nat].
    change (0 + 0) with 0. change (0 + Z.of_nat 1) with 1. change (0 + Z.of_nat 2) with 2.
    change (0 + Z.of_nat 3) with 3. rewrite Z.add_0_r.
    subst b.
    rewrite (aget_mid pre), (aset_mid pre) by reflexivity.
    rewrite (app_snoc pre), (aget_mid (pre ++ [_])), (aset_mid (pre ++ [_]))
      by (rewrite !length_snoc; lia).
    rewrite (app_snoc (pre ++ [_])), (aget_mid ((pre ++ [_]) ++ [_])),
      (aset_mid ((pre ++ [_]) ++ [_])) by (rewrite !length_snoc; lia).
    rewrite (app_snoc ((pre ++ [_]) ++ [_])), (aget_mid (((pre ++ [_]) ++ [_]) ++ [_])),
      (aset_mid (((pre ++ [_]) ++ [_]) ++ [_])) by (rewrite !length_snoc; lia).
    rewrite <- !app_assoc. reflexivity. }
  destruct m as [[iv|] pb]; cbn [CBC._iv CBC._prevBlock]; rewrite E; reflexivity.
Qed.

Lemma Encryptor_processBlock_block (ks : AES.schedules) (m : CBC.t) (pre rest : list Z)
    (x0 x1 x2 x3 b : Z) :
  b = Z.of_nat (length pre) ->
  CBC.Encryptor_processBlock ks (pre ++ x0 :: x1 :: x2 :: x3 :: rest) b m
  = (pre ++ AES.encryptBlock ks
              [x0 .^ (cur m).[0]; x1 .^ (cur m).[1]; x2 .^ (cur m).[2]; x3 .^ (cur m).[3]] 0
         ++ rest,
     CBC.Build None
       (AES.encryptBlock ks
          [x0 .^ (cur m).[0]; x1 .^ (cur m).[1]; x2 .^ (cur m).[2]; x3 .^ (cur m).[3]] 0)).
Proof.
  intros Hb. set (y := AES.encryptBlock ks _ 0). unfold CBC.Encryptor_processBlock. cbv zeta.
  change AES.blockSize with 4. rewrite xorBlock_block by exact Hb.
  rewrite encryptBlock_block by exact Hb. fold y.
  destruct (encryptBlock_4 ks (x0 .^ (cur m).[0]) (x1 .^ (cur m).[1]) (x2 .^ (cur m).[2])
              (x3 .^ (cur m).[3])) as (y0 & y1 & y2 & y3 & E & _).
  fold y in E. rewrite E. cbn [app CBC._iv]. rewrite slice_block by exact Hb. reflexivity.
Qed.

Lemma Decryptor_processBlock_block (ks : AES.schedules) (m : CBC.t) (pre rest : list Z)
    (y0 y1 y2 y3 b : Z) :
  b = Z.of_nat (length pre) ->
  CBC.Decryptor_processBlock ks (pre ++ y0 :: y1 :: y2 :: y3 :: rest) b m
  = (pre ++ [(AES.decryptBlock ks [y0; y1; y2; y3] 0).[0] .^ (cur m).[0];
             (AES.decryptBlock ks [y0; y1; y2; y3] 0).[1] .^ (cur m).[1];
             (AES.decryptBlock ks [y0; y1; y2; y3] 0).[2] .^ (cur m).[2];
             (AES.decryptBlock ks [y0; y1; y2; y3] 0).[3] .^ (cur m).[3]] ++ rest,
     CBC.Build None [y0; y1; y2; y3]).
Proof.
  intros Hb. set (d := AES.decryptBlock ks _ 0). unfold CBC.Decryptor_processBlock. cbv zeta.
  change AES.blockSize with 4. rewrite slice_block by exact Hb.
  rewrite decryptBlock_block by exact Hb. fold d.
  destruct (decryptBlock_4 ks y0 y1 y2 y3) as (d0 & d1 & d2 & d3 & E).
  fold d in E. rewrite E. cbn [app]. rewrite xorBlock_block by exact Hb.
  destruct (aget4 d0 d1 d2 d3) as (-> & -> & -> & -> & _). reflexivity.
Qed.

Lemma cbc_enc_loop (ks : AES.schedules) (m : nat) :
  forall (lo : Z) (pre W : list Z) (mode : CBC.t),
    Z.of_nat (length pre) = 4 * lo -> length W = (4 * m)%nat ->
    fst (for_loop lo m (fun i '(e, st) => CBC.Encryptor_processBlock ks e (i * 4) st)
           (pre ++ W, mode))
    = pre ++ cbc_enc ks (cur mode) W.
Proof.
  induction m as [|m IH]; intros lo pre W mode Hpre HW.
  - destruct W; [|discriminate]. reflexivity.
  - destruct W as [|x0 [|x1 [|x2 [|x3 rest]]]]; try (exfalso; cbn [length] in HW; lia).
    rewrite for_loop_shift. cbv beta iota. rewrite Encryptor_processBlock_block by lia.
    cbn [cbc_enc]. cbv zeta.
    set (y := AES.encryptBlock ks _ 0).
    rewrite app_assoc. rewrite IH.
    + cbn [cur CBC._iv CBC._prevBlock]. rewrite <- app_assoc. reflexivity.
    + rewrite length_app. subst y.
      destruct (encryptBlock_4 ks (x0 .^ (cur mode).[0]) (x1 .^ (cur mode).[1])
                  (x2 .^ (cur mode).[2]) (x3 .^ (cur mode).[3])) as (y0 & y1 & y2 & y3 & -> & _).
      cbn [length]. lia.
    + cbn [length] in HW. lia.
Qed.

Lemma cbc_dec_loop (ks : AES.schedules) (m : nat) :
  forall (lo : Z) (pre C : list Z) (mode : CBC.t),
    Z.of_nat (length pre) = 4 * lo -> length C = (4 * m)%nat ->
    fst (for_loop lo m (fun i '(e, st) => CBC.Decryptor_processBlock ks e (i * 4) st)
           (pre ++ C, mode))
    = pre ++ cbc_dec ks (cur mode) C.
Proof.
  induction m as [|m IH]; intros lo pre C mode Hpre HC.
  - destruct C; [|discriminate]. reflexivity.
  - destruct C as [|y0 [|y1 [|y2 [|y3 rest]]]]; try (exfalso; cbn [length] in HC; lia).
    rewrite for_loop_shift. cbv beta iota. rewrite Decryptor_processBlock_block by lia.
    cbn [cbc_dec]. cbv zeta.
    set (d := AES.decryptBlock ks _ 0).
    rewrite app_assoc. rewrite IH.
    + cbn [cur CBC._iv CBC._prevBlock]. rewrite <- app_assoc. reflexivity.
    + rewrite length_app. cbn [length]. lia.
    + cbn [length] in HC. lia.
Qed.

Lemma cbc_enc_length (ks : AES.schedules) (n : nat) :
  forall W prev, (length W <= n)%nat -> length (cbc_enc ks prev W) = length W.
Proof.
  induction n as [|n IH]; intros W prev Hn.
  - destruct W; [reflexivity|cbn [length] in Hn; lia].
  - destruct W as [|x0 [|x1 [|x2 [|x3 rest]]]]; try reflexivity.
    cbn [cbc_enc]. cbv zeta.
    destruct (encryptBlock_4 ks (x0 .^ prev.[0]) (x1 .^ prev.[1]) (x2 .^ prev.[2])
                (x3 .^ prev.[3])) as (y0 & y1 & y2 & y3 & -> & _).
    cbn [app length]. rewrite IH; [reflexivity|]. cbn [length] in Hn. lia.
Qed.

Lemma cbc_enc_int32 (ks : AES.schedules) (n : nat) :
  forall W prev, (length W <= n)%nat -> Forall int32 W -> Forall int32 (cbc_enc ks prev W).
Proof.
  induction n as [|n IH]; intros W prev Hn HW.
  - destruct W; [exact HW|cbn [length] in Hn; lia].
  - destruct W as [|x0 [|x1 [|x2 [|x3 rest]]]]; try exact HW.
    cbn [cbc_enc]. cbv zeta.
    destruct (encryptBlock_4 ks (x0 .^ prev.[0]) (x1 .^ prev.[1]) (x2 .^ prev.[2])
                (x3 .^ prev.[3])) as (y0 & y1 & y2 & y3 & -> & H0 & H1 & H2 & H3).
    cbn [app]. repeat (apply Forall_cons; [assumption|]).
    apply IH; [cbn [length] in Hn; lia|].
    do 4 (apply Forall_inv_tail in HW). exact HW.
Qed.

Lemma bxor_twice (x c : Z) : int32 x -> JS.ToInt32 (x .^ c) .^ c = x.
Proof.
  intros Hx. rewrite (ToInt32_id (x .^ c)) by apply bxor_int32.
  rewrite bxor_cancel'. apply ToInt32_id, Hx.
Qed.

Lemma cbc_roundtrip (key : WA) (n : nat) :
  1 <= AES._nRounds (AES._doReset key) ->
  forall W prev, (length W <= n)%nat -> Forall int32 W ->
    cbc_dec (AES._doReset key) prev (cbc_enc (AES._doReset key) prev W) = W.
Proof.
  intros HN. induction n as [|n IH]; intros W prev Hn HW.
  - destruct W; [reflexivity|cbn [length] in Hn; lia].
  - destruct W as [|x0 [|x1 [|x2 [|x3 rest]]]]; try reflexivity.
    cbn [cbc_enc]. cbv zeta.
    pose proof (block4_inverse key HN (x0 .^ prev.[0]) (x1 .^ prev.[1]) (x2 .^ prev.[2])
                  (x3 .^ prev.[3])) as Hinv.
    destruct (encryptBlock_4 (AES._doReset key) (x0 .^ prev.[0]) (x1 .^ prev.[1])
                (x2 .^ prev.[2]) (x3 .^ prev.[3])) as (y0 & y1 & y2 & y3 & E & _).
    rewrite E in Hinv |- *. cbn [app cbc_dec]. cbv zeta. rewrite Hinv.
    destruct (aget4 (JS.ToInt32 (x0 .^ prev.[0])) (JS.ToInt32 (x1 .^ prev.[1]))
                (JS.ToInt32 (x2 .^ prev.[2])) (JS.ToInt32 (x3 .^ prev.[3])))
      as (-> & -> & -> & -> & _).
    pose proof (Forall_inv HW) as H0. apply Forall_inv_tail in HW.
    pose proof (Forall_inv HW) as H1. apply Forall_inv_tail in HW.
    pose proof (Forall_inv HW) as H2. apply Forall_inv_tail in HW.
    pose proof (Forall_inv HW) as H3. apply Forall_inv_tail in HW.
    rewrite !bxor_twice by assumption. cbn [app]. do 4 f_equal.
    apply IH; [cbn [length] in Hn; lia|exact HW].
Qed.

(** *** The cipher's [_process] *)

Lemma ceil_div_exact (m k : Z) : 0 < k -> JS.ceil_div (k * m) k = m.
Proof.
  intros Hk. unfold JS.ceil_div.
  replace (- (k * m)) with ((- m) * k) by lia. rewrite Z.div_mul by lia. lia.
Qed.

Lemma process_cbc (f : list Z -> Z -> CBC.t -> list Z * CBC.t)
    (spec : list Z -> list Z -> list Z) (mb : Z) (W : list Z) (m : nat) (mode : CBC.t) :
  (forall lo pre W mode, Z.of_nat (length pre) = 4 * lo -> length W = (4 * m)%nat ->
     fst (for_loop lo m (fun i '(e, st) => f e (i * 4) st) (pre ++ W, mode))
     = pre ++ spec (cur mode) W) ->
  length W = (4 * m)%nat -> length (spec (cur mode) W) = length W ->
  fst (fst (_process f AES.blockSize mb true (WordArray.Build W (16 * Z.of_nat m)) mode))
  = WordArray.Build (spec (cur mode) W) (16 * Z.of_nat m).
Proof.
  intros Hloop HW Hlen. unfold _process. cbv zeta.
  cbn [WordArray.words WordArray.sigBytes]. change AES.blockSize with 4.
  change (4 * 4) with 16. rewrite ceil_div_exact by lia.
  replace (Z.min (4 * (Z.of_nat m * 4)) (16 * Z.of_nat m)) with (16 * Z.of_nat m) by lia.
  destruct (Z.eqb_spec (Z.of_nat m * 4) 0) as [E|E].
  - destruct m; [|lia]. destruct W; [|discriminate]. cbn [fst].
    destruct (spec (cur mode) []); [reflexivity|discriminate].
  - specialize (Hloop 0 [] W mode eq_refl HW). cbn [app] in Hloop.
    rewrite Nat2Z.id.
    destruct (for_loop 0 _ _ _) as [e st]. cbn [fst] in Hloop |- *. subst e.
    rewrite firstn_all2; [reflexivity|]. lia.
Qed.

Section CBC_roundtrip.

Variable key iv : WA.
Variable W : list Z.
Variable m : nat.
Hypothesis Hkey : 1 <= AES._nRounds (AES._doReset key).
Hypothesis HW : Forall int32 W.
Hypothesis Hlen : length W = (4 * m)%nat.

Let ks := AES._doReset key.
Let mode := CBC.create (WordArray.words iv).
Let C := cbc_enc ks (WordArray.words iv) W.

Lemma process_encrypt :
  fst (fst (_process (CBC.Encryptor_processBlock ks) AES.blockSize 0 true
              (WordArray.Build W (16 * Z.of_nat m)) mode))
  = WordArray.Build C (16 * Z.of_nat m).
Proof.
  apply (process_cbc (CBC.Encryptor_processBlock ks) (cbc_enc ks) 0 W m mode).
  - apply cbc_enc_loop.
  - exact Hlen.
  - apply (cbc_enc_length ks (length W)). lia.
Qed.

Lemma ciphertext_shape : length C = (4 * m)%nat /\ Forall int32 C.
Proof.
  split.
  - unfold C. rewrite (cbc_enc_length ks (length W)) by lia. exact Hlen.
  - apply (cbc_enc_int32 ks (length W)); [lia|exact HW].
Qed.

Lemma process_decrypt :
  fst (fst (_process (CBC.Decryptor_processBlock ks) AES.blockSize 1 true
              (WordArray.Build C (16 * Z.of_nat m)) mode))
  = WordArray.Build W (16 * Z.of_nat m).
Proof.
  destruct ciphertext_shape as [HC _].
  rewrite (process_cbc (CBC.Decryptor_processBlock ks) (cbc_dec ks) 1 C m mode).
  - f_equal. apply (cbc_roundtrip key (length W) Hkey); [lia|exact HW].
  - apply cbc_dec_loop.
  - exact HC.
  - change (cur mode) with (WordArray.words iv). unfold C, ks.
    rewrite (cbc_roundtrip key (length W) Hkey) by (try lia; exact HW).
    rewrite (cbc_enc_length _ (length W)); lia.
Qed.

End CBC_roundtrip.

(** ** Bytes in arrays of words *)

Lemma shru_2 (r : Z) : 0 <= r < 4294967296 -> r .>>> 2 = r / 4.
Proof.
  intros Hr. unfold JS.shru, JS.ToUint32. change (2 mod 32) with 2.
  rewrite Z.shiftr_div_pow2 by lia. rewrite Z.mod_small by lia. reflexivity.
Qed.

Lemma byte_at_wbyte (l : list Z) (r : Z) :
  0 <= r < 4294967296 -> l.[r .>>> 2] .>>> 24 - 8 * (r .% 4) .& 255 = wbyte l r.
Proof.
  intros Hr. rewrite shru_2, rem4 by lia. apply byte_read.
  pose proof (Z.mod_pos_bound r 4). lia.
Qed.

Lemma byteOf_zero (k : Z) : byteOf k 0 = 0.
Proof. unfold byteOf. apply Z.mod_0_l. lia. Qed.

Lemma wbyte_out (ws : list Z) (j : Z) : 4 * Z.of_nat (length ws) <= j -> wbyte ws j = 0.
Proof.
  intros Hj. unfold wbyte. rewrite aget_out; [apply byteOf_zero|]. right. zarith.
Qed.

Lemma wbyte_range (ws : list Z) (j : Z) : 0 <= wbyte ws j < 256.
Proof. apply byteOf_range. Qed.

Ltac eval_eqb :=
  repeat match goal with
         | |- context [?a =? ?b] =>
           let c := eval vm_compute in (a =? b) in change (a =? b) with c
         end;
  cbv iota.

(** The bytes of [X << 24-8*k] for [X] of at most twelve bits: what exceeds a
    byte lands in the byte before. *)
Lemma byteOf_shl_spill (X k k' : Z) :
  0 <= X < 4096 -> 0 <= k <= 3 -> 0 <= k' <= 3 ->
  byteOf k' (X .<< 24 - 8 * k)
  = if k' =? k then X mod 256 else if k' =? k - 1 then X / 256 else 0.
Proof.
  intros HX Hk Hk'. unfold JS.shl. rewrite byteOf_ToInt32 by lia.
  assert (Hc : k = 0 \/ k = 1 \/ k = 2 \/ k = 3) by lia.
  destruct Hc as [->|[->|[->| ->]]].
  - change ((24 - 8 * 0) mod 32) with 24. rewrite Z.shiftl_mul_pow2 by lia.
    change (2 ^ 24) with 16777216. byte_cases k'; eval_eqb; zarith.
  - change ((24 - 8 * 1) mod 32) with 16. rewrite Z.shiftl_mul_pow2 by lia.
    change (2 ^ 16) with 65536. byte_cases k'; eval_eqb; zarith.
  - change ((24 - 8 * 2) mod 32) with 8. rewrite Z.shiftl_mul_pow2 by lia.
    change (2 ^ 8) with 256. byte_cases k'; eval_eqb; zarith.
  - change ((24 - 8 * 3) mod 32) with 0. rewrite Z.shiftl_mul_pow2 by lia.
    change (2 ^ 0) with 1. byte_cases k'; eval_eqb; zarith.
Qed.

Lemma Forall_firstn (P : Z -> Prop) (n : nat) (l : list Z) : Forall P l -> Forall P (firstn n l).
Proof.
  intros H. revert n. induction H as [|x l Hx Hl IH]; intros [|n]; cbn [firstn]; auto.
Qed.

Lemma Forall_skipn (P : Z -> Prop) (n : nat) (l : list Z) : Forall P l -> Forall P (skipn n l).
Proof.
  intros H. revert n. induction H as [|x l Hx Hl IH]; intros [|n]; cbn [skipn]; auto.
Qed.

Lemma Forall_repeat (P : Z -> Prop) (n : nat) (x : Z) : P x -> Forall P (repeat x n).
Proof. intros H. induction n; cbn [repeat]; auto. Qed.

Lemma Forall_aset (P : Z -> Prop) (e : list Z) (i v : Z) :
  Forall P e -> P 0 -> P v -> Forall P (aset e i v).
Proof.
  intros He H0 Hv. unfold aset.
  destruct (i <? 0); [exact He|].
  destruct (i <? Z.of_nat (length e)).
  - apply Forall_app. split; [apply Forall_firstn, He|].
    apply Forall_cons; [exact Hv|apply Forall_skipn, He].
  - apply Forall_app. split; [exact He|]. apply Forall_app. split.
    + apply Forall_repeat, H0.
    + apply Forall_cons; [exact Hv|constructor].
Qed.

Lemma int32_0 : int32 0.
Proof. unfold int32. lia. Qed.

Lemma wbyte_aset (e : list Z) (q v j : Z) :
  0 <= q -> 0 <= j ->
  wbyte (aset e q v) j = if j / 4 =? q then byteOf (j mod 4) v else wbyte e j.
Proof. intros Hq Hj. unfold wbyte. rewrite aget_aset by lia. now destruct (j / 4 =? q). Qed.

(** The update [e[r>>>2] |= X << 24-8*(r%4)] writes the byte [r]. *)
Lemma or_byte (e : list Z) (r X : Z) :
  0 <= r < 4294967296 -> 0 <= X < 4096 -> Forall int32 e ->
  wbyte e r = 0 ->
  (1 <= r mod 4 -> Z.lor (wbyte e (r - 1)) (X / 256) = wbyte e (r - 1)) ->
  let e' := aset e (r .>>> 2) (e.[r .>>> 2] .| (X .<< 24 - 8 * (r .% 4))) in
  Forall int32 e'
  /\ length e' = Nat.max (length e) (Z.to_nat (r / 4) + 1)
  /\ forall j, 0 <= j -> wbyte e' j = if j =? r then X mod 256 else wbyte e j.
Proof.
  intros Hr HX He Hz Hs. rewrite shru_2, rem4 by lia. cbv zeta.
  pose proof (Z.mod_pos_bound r 4 ltac:(lia)) as Hk.
  split; [apply Forall_aset; [exact He|exact int32_0|apply bor_int32]|].
  split; [apply length_aset; zarith|].
  intros j Hj. rewrite wbyte_aset by zarith.
  pose proof (Z.mod_pos_bound j 4 ltac:(lia)) as Hk'.
  destruct (Z.eqb_spec (j / 4) (r / 4)) as [E|E].
  - rewrite byteOf_bor, byteOf_shl_spill by lia.
    fold (wbyte e j) || idtac.
    destruct (Z.eqb_spec (j mod 4) (r mod 4)) as [E1|E1].
    + assert (j = r) by zarith. subst j. rewrite Z.eqb_refl.
      unfold wbyte in Hz. rewrite Hz. apply Z.lor_0_l.
    + destruct (Z.eqb_spec j r) as [->|Hne]; [congruence|].
      destruct (Z.eqb_spec (j mod 4) (r mod 4 - 1)) as [E2|E2].
      * assert (j = r - 1) by zarith. subst j. rewrite <- E. apply Hs. lia.
      * rewrite Z.lor_0_r. rewrite <- E. reflexivity.
  - destruct (Z.eqb_spec j r) as [->|Hne]; [congruence|reflexivity].
Qed.

(** *** [enc.Latin1] *)

Lemma Latin1_parse_loop (a : list Z) (k : nat) :
  Forall is_byte a -> Z.of_nat (length a) < 4294967296 -> (k <= length a)%nat ->
  let e := for_loop 0 k
             (fun j e => aset e (j .>>> 2)
                           (e.[j .>>> 2] .| ((a.[j] .& 255) .<< 24 - 8 * (j .% 4)))) [] in
  Forall int32 e
  /\ Z.of_nat (length e) = (Z.of_nat k + 3) / 4
  /\ forall j, 0 <= j -> wbyte e j = if j <? Z.of_nat k then nth (Z.to_nat j) a 0 else 0.
Proof.
  intros Ha Hlen. induction k as [|k IH]; intros Hk; cbv zeta.
  - rewrite for_loop_0. split; [constructor|]. split; [reflexivity|].
    intros j Hj. rewrite wbyte_out by (cbn [length]; lia).
    destruct (Z.ltb_spec j (Z.of_nat 0)); [lia|reflexivity].
  - rewrite for_loop_S. rewrite Z.add_0_l.
    destruct (IH ltac:(lia)) as (He & Hl & Hb). clear IH.
    set (e := for_loop 0 k _ []) in *.
    assert (Hbyte : is_byte (nth k a 0)).
    { apply (proj1 (Forall_forall _ _) Ha), nth_In. lia. }
    unfold is_byte in Hbyte.
    assert (Hget : a.[Z.of_nat k] .& 255 = nth k a 0).
    { rewrite band_255, aget_nth, Nat2Z.id by lia. apply Z.mod_small, Hbyte. }
    rewrite Hget.
    destruct (or_byte e (Z.of_nat k) (nth k a 0)) as (He' & Hl' & Hb'); try lia; try assumption.
    + rewrite Hb by lia. destruct (Z.ltb_spec (Z.of_nat k) (Z.of_nat k)); [lia|reflexivity].
    + intros _. rewrite Z.div_small by lia. apply Z.lor_0_r.
    + split; [exact He'|]. split.
      * rewrite Hl'. zarith.
      * intros j Hj. rewrite Hb' by lia. rewrite Hb by lia.
        rewrite Z.mod_small by lia.
        destruct (Z.eqb_spec j (Z.of_nat k)) as [->|Hne].
        -- rewrite Nat2Z.id. destruct (Z.ltb_spec (Z.of_nat k) (Z.of_nat (S k))); [reflexivity|lia].
        -- destruct (Z.ltb_spec j (Z.of_nat k)), (Z.ltb_spec j (Z.of_nat (S k))); try lia; reflexivity.
Qed.

Lemma Latin1_parse_packed (bs : list Z) :
  Forall is_byte bs -> Z.of_nat (length bs) < 4294967296 ->
  packed bs (WordArray.words (Latin1.parse bs))
  /\ WordArray.sigBytes (Latin1.parse bs) = Z.of_nat (length bs).
Proof.
  intros Hb Hlen. split; [|reflexivity].
  destruct (Latin1_parse_loop bs (length bs) Hb Hlen (le_n _)) as (He & Hl & Hj).
  unfold Latin1.parse. cbn [WordArray.words]. split; [exact Hl|]. split; [exact He|].
  intros j H0. rewrite Hj by lia.
  destruct (Z.ltb_spec j (Z.of_nat (length bs))); [reflexivity|].
  rewrite nth_overflow by lia. reflexivity.
Qed.

Lemma for_loop_snoc {A : Type} (f : Z -> A) (n : nat) (lo : Z) :
  for_loop lo n (fun j e => e ++ [f j]) [] = map (fun t => f (lo + Z.of_nat t)) (seq 0 n).
Proof.
  induction n as [|n IH]; [reflexivity|].
  rewrite for_loop_S, IH, seq_S, map_app. reflexivity.
Qed.

Lemma Latin1_stringify_wbytes (ws : list Z) (n : Z) :
  0 <= n <= 4294967296 ->
  Latin1.stringify (WordArray.Build ws n) = wbytes ws (Z.to_nat n).
Proof.
  intros Hn. unfold Latin1.stringify, wbytes. cbn [WordArray.words WordArray.sigBytes].
  rewrite (for_loop_snoc (fun j => ws.[j .>>> 2] .>>> 24 - 8 * (j .% 4) .& 255)).
  apply map_ext_in. intros t Ht. apply in_seq in Ht.
  rewrite Z.add_0_l. apply byte_at_wbyte. lia.
Qed.

Lemma wbytes_packed (bs rest ws : list Z) :
  packed (bs ++ rest) ws -> wbytes ws (length bs) = bs.
Proof.
  intros (_ & _ & Hj). unfold wbytes.
  apply nth_ext with (d := 0) (d' := 0); [now rewrite length_map, length_seq|].
  intros t Ht. rewrite length_map, length_seq in Ht.
  rewrite (nth_indep _ 0 (wbyte ws (Z.of_nat 0%nat))) by (now rewrite length_map, length_seq).
  rewrite (map_nth (fun j => wbyte ws (Z.of_nat j))), seq_nth by exact Ht.
  rewrite Hj, Nat2Z.id by lia. apply app_nth1, Ht.
Qed.

(** *** [WordArray.clamp] and [WordArray.concat] *)

Lemma ceil_div_4 (c : Z) : JS.ceil_div c 4 = (c + 3) / 4.
Proof. unfold JS.ceil_div. zarith. Qed.

Lemma clamp_ok (w : WA) :
  -4 < WordArray.sigBytes w ->
  exists ws, WordArray.clamp w = Ok (WordArray.Build ws (WordArray.sigBytes w)).
Proof.
  intros H. unfold WordArray.clamp. cbv zeta. rewrite ceil_div_4.
  destruct (Z.ltb_spec ((WordArray.sigBytes w + 3) / 4) 0) as [Hn|Hn]; [zarith|].
  eexists. reflexivity.
Qed.

Lemma concat_ok (this a : WA) :
  -4 < WordArray.sigBytes this ->
  exists ws, WordArray.concat this a
             = Ok (WordArray.Build ws (WordArray.sigBytes this + WordArray.sigBytes a)).
Proof.
  intros H. unfold WordArray.concat. cbv zeta.
  destruct (clamp_ok this H) as (ws & ->). cbn [bind WordArray.words].
  eexists. reflexivity.
Qed.

Lemma aset_end (l : list Z) (i v : Z) : i = Z.of_nat (length l) -> aset l i v = l ++ [v].
Proof.
  intros ->. unfold aset.
  destruct (Z.ltb_spec (Z.of_nat (length l)) 0); [lia|].
  destruct (Z.ltb_spec (Z.of_nat (length l)) (Z.of_nat (length l))); [lia|].
  rewrite Nat2Z.id, Nat.sub_diag. reflexivity.
Qed.

Lemma set_length_snoc (l : list Z) (v n : Z) :
  n = Z.of_nat (length l) -> set_length (l ++ [v]) n = l.
Proof.
  intros ->. unfold set_length. rewrite Nat2Z.id, firstn_app, firstn_all, Nat.sub_diag.
  rewrite length_app. cbn [firstn length].
  replace (length l - (length l + 1))%nat with 0%nat by lia. cbn [repeat].
  now rewrite !app_nil_r.
Qed.

Lemma set_length_same (l : list Z) (n : Z) : n = Z.of_nat (length l) -> set_length l n = l.
Proof.
  intros ->. unfold set_length. rewrite Nat2Z.id, firstn_all, Nat.sub_diag. apply app_nil_r.
Qed.

Lemma aset_same (l : list Z) (i : Z) : 0 <= i < Z.of_nat (length l) -> aset l i l.[i] = l.
Proof.
  intros Hi. apply array_ext.
  - rewrite length_aset by lia. lia.
  - intros j Hj. rewrite aget_aset by lia. destruct (Z.eqb_spec j i); [now subst|reflexivity].
Qed.

(** An array of whole words is left as it is. *)
Lemma clamp_exact (ws : list Z) (c : Z) :
  c = 4 * Z.of_nat (length ws) -> c < 4294967296 ->
  WordArray.clamp (WordArray.Build ws c) = Ok (WordArray.Build ws c).
Proof.
  intros Hc Hlt. unfold WordArray.clamp. cbv zeta. cbn [WordArray.words WordArray.sigBytes].
  rewrite ceil_div_4, shru_2 by lia.
  replace ((c + 3) / 4) with (Z.of_nat (length ws)) by zarith.
  replace (c / 4) with (Z.of_nat (length ws)) by zarith.
  destruct (Z.ltb_spec (Z.of_nat (length ws)) 0); [lia|].
  rewrite aset_end, set_length_snoc by reflexivity. reflexivity.
Qed.

Lemma byteOf_band (k a b : Z) :
  0 <= k <= 3 -> byteOf k (a .& b) = Z.land (byteOf k a) (byteOf k b).
Proof.
  intros Hk. unfold JS.band. rewrite byteOf_ToInt32 by lia.
  rewrite !byteOf_land by lia.
  apply Z.bits_inj'. intros i Hi.
  rewrite !Z.land_spec, !Z.shiftr_spec, Z.land_spec by lia.
  destruct (Z.testbit (Z.ones 8) i); [now rewrite !andb_true_r | now rewrite !andb_false_r].
Qed.

Lemma band_int32 (a b : Z) : int32 (a .& b).
Proof. apply ToInt32_range. Qed.

Lemma land_byte_255 (x : Z) : 0 <= x < 256 -> Z.land x 255 = x.
Proof.
  intros Hx. change 255 with (Z.ones 8). rewrite Z.land_ones by lia. apply Z.mod_small. exact Hx.
Qed.

(** The mask of [clamp] keeps a word whose bytes from [k] on are zero. *)
Lemma clamp_mask (w k : Z) :
  int32 w -> 1 <= k <= 3 -> (forall k', k <= k' <= 3 -> byteOf k' w = 0) ->
  w .& (4294967295 .<< 32 - 8 * k) = w.
Proof.
  intros Hw Hk Hz. apply word_ext; [apply band_int32|exact Hw|].
  intros k' Hk'. rewrite byteOf_band by lia.
  assert (Hm : byteOf k' (4294967295 .<< 32 - 8 * k) = if k' <? k then 255 else 0).
  { assert (Hc : k = 1 \/ k = 2 \/ k = 3) by lia.
    assert (Hc' : k' = 0 \/ k' = 1 \/ k' = 2 \/ k' = 3) by lia.
    destruct Hc as [->|[->| ->]], Hc' as [->|[->|[->| ->]]]; reflexivity. }
  rewrite Hm. destruct (Z.ltb_spec k' k).
  - apply land_byte_255, byteOf_range.
  - rewrite Hz by lia. reflexivity.
Qed.

Lemma packed_length (bs ws : list Z) :
  packed bs ws -> Z.of_nat (length ws) = (Z.of_nat (length bs) + 3) / 4.
Proof. now intros (H & _). Qed.

Lemma packed_int32 (bs ws : list Z) (i : Z) : packed bs ws -> int32 ws.[i].
Proof.
  intros (_ & H & _). destruct (Z.ltb_spec i 0); [rewrite aget_out by lia; apply int32_0|].
  destruct (Z.ltb_spec i (Z.of_nat (length ws))); [|rewrite aget_out by lia; apply int32_0].
  rewrite aget_in by lia. apply (proj1 (Forall_forall _ _) H), nth_In. lia.
Qed.

Lemma clamp_packed (bs ws : list Z) (c : Z) :
  packed bs ws -> c = Z.of_nat (length bs) -> c < 4294967296 ->
  WordArray.clamp (WordArray.Build ws c) = Ok (WordArray.Build ws c).
Proof.
  intros Hp Hc Hlt. pose proof (packed_length _ _ Hp) as Hl.
  destruct (Z.eq_dec (c mod 4) 0) as [E|E].
  - apply clamp_exact; [zarith|exact Hlt].
  - unfold WordArray.clamp. cbv zeta. cbn [WordArray.words WordArray.sigBytes].
    rewrite ceil_div_4, shru_2, rem4 by lia.
    replace ((c + 3) / 4) with (Z.of_nat (length ws)) by zarith.
    destruct (Z.ltb_spec (Z.of_nat (length ws)) 0); [lia|].
    rewrite clamp_mask.
    + rewrite aset_same by zarith. rewrite set_length_same by reflexivity. reflexivity.
    + apply (packed_int32 bs), Hp.
    + pose proof (Z.mod_pos_bound c 4). lia.
    + intros k' Hk'. destruct Hp as (_ & _ & Hj).
      specialize (Hj (4 * (c / 4) + k') ltac:(zarith)). unfold wbyte in Hj.
      replace ((4 * (c / 4) + k') / 4) with (c / 4) in Hj by zarith.
      replace ((4 * (c / 4) + k') mod 4) with k' in Hj by zarith.
      rewrite Hj. apply nth_overflow. zarith.
Qed.

Lemma firstn_snoc (e : list Z) (i : nat) :
  (i < length e)%nat -> firstn (S i) e = firstn i e ++ [nth i e 0].
Proof.
  revert i. induction e as [|x e IH]; intros i Hi; [cbn [length] in Hi; lia|].
  destruct i as [|i]; [reflexivity|].
  cbn [firstn app nth]. f_equal. apply IH. cbn [length] in Hi. lia.
Qed.

(** [concat] onto an array of whole words. *)
Lemma concat_aligned (ws e : list Z) (j n : Z) :
  j = 4 * Z.of_nat (length ws) -> 0 <= n -> Z.of_nat (length e) = (n + 3) / 4 ->
  j + n < 4294967296 ->
  WordArray.concat (WordArray.Build ws j) (WordArray.Build e n)
  = Ok (WordArray.Build (ws ++ e) (j + n)).
Proof.
  intros Hj Hn He Hlt. unfold WordArray.concat. cbv zeta.
  cbn [WordArray.words WordArray.sigBytes].
  rewrite clamp_exact by lia. cbn [bind WordArray.words].
  rewrite rem4 by lia. replace (j mod 4) with 0 by zarith. cbn [Z.eqb negb].
  destruct (65535 <? Z.of_nat (length e)); [|reflexivity].
  do 2 f_equal. rewrite ceil_div_4, <- He, Nat2Z.id.
  assert (H : forall i, (i <= length e)%nat ->
            for_loop 0 i (fun i c => let k := 4 * i in aset c (j + k .>>> 2) e.[k .>>> 2]) ws
            = ws ++ firstn i e).
  { induction i as [|i IH]; intros Hi.
    - rewrite for_loop_0. cbn [firstn]. now rewrite app_nil_r.
    - rewrite for_loop_S, IH by lia. rewrite Z.add_0_l. cbv zeta.
      rewrite !shru_2 by zarith.
      replace (4 * Z.of_nat i / 4) with (Z.of_nat i) by zarith.
      rewrite aset_end.
      + rewrite firstn_snoc by lia. rewrite aget_nth, Nat2Z.id by lia. now rewrite app_assoc.
      + rewrite length_app, length_firstn. zarith. }
  rewrite H by lia. now rewrite firstn_all.
Qed.

(** [concat] onto an array that ends inside a word: the bytes are added one
    by one. *)
Lemma concat_unaligned (bs ws bs' e : list Z) (j n : Z) :
  packed bs ws -> j = Z.of_nat (length bs) -> j mod 4 <> 0 ->
  n = Z.of_nat (length bs') -> Forall is_byte bs' ->
  (forall k, 0 <= k < n -> wbyte e k = nth (Z.to_nat k) bs' 0) ->
  j + n < 4294967296 ->
  exists ws', WordArray.concat (WordArray.Build ws j) (WordArray.Build e n)
              = Ok (WordArray.Build ws' (j + n))
              /\ packed (bs ++ bs') ws'.
Proof.
  intros Hp Hj Hu Hn Hb' He Hlt. unfold WordArray.concat. cbv zeta.
  cbn [WordArray.words WordArray.sigBytes].
  rewrite (clamp_packed bs) by (try assumption; lia). cbn [bind WordArray.words].
  rewrite rem4 by lia. destruct (Z.eqb_spec (j mod 4) 0) as [E|_]; [contradiction|].
  cbn [negb]. eexists. split; [reflexivity|].
  assert (H : forall t, (t <= length bs')%nat ->
    let c := for_loop 0 t
      (fun k c => aset c (j + k .>>> 2)
         (c.[j + k .>>> 2]
          .| ((e.[k .>>> 2] .>>> 24 - 8 * (k .% 4) .& 255) .<< 24 - 8 * ((j + k) .% 4)))) ws in
    Forall int32 c /\ Z.of_nat (length c) = (j + Z.of_nat t + 3) / 4
    /\ forall i, 0 <= i -> wbyte c i = if i <? j + Z.of_nat t
                                       then nth (Z.to_nat i) (bs ++ bs') 0 else 0).
  { induction t as [|t IH]; intros Ht; cbv zeta.
    - rewrite for_loop_0. destruct Hp as (Hl & Hi & Hw).
      split; [exact Hi|]. split; [rewrite Hl; f_equal; lia|].
      intros i Hi0. rewrite Hw by lia. destruct (Z.ltb_spec i (j + Z.of_nat 0)).
      + rewrite app_nth1 by lia. reflexivity.
      + apply nth_overflow. lia.
    - rewrite for_loop_S, Z.add_0_l.
      destruct (IH ltac:(lia)) as (Hc & Hl & Hw). clear IH.
      set (c := for_loop 0 t _ ws) in *.
      rewrite byte_at_wbyte by lia. rewrite He by lia. rewrite Nat2Z.id.
      assert (Hbyte : is_byte (nth t bs' 0)).
      { apply (proj1 (Forall_forall _ _) Hb'), nth_In. lia. }
      unfold is_byte in Hbyte.
      destruct (or_byte c (j + Z.of_nat t) (nth t bs' 0)) as (Hc' & Hl' & Hw');
        try lia; try assumption.
      + rewrite Hw by lia.
        destruct (Z.ltb_spec (j + Z.of_nat t) (j + Z.of_nat t)); [lia|reflexivity].
      + intros _. rewrite Z.div_small by lia. apply Z.lor_0_r.
      + split; [exact Hc'|]. split; [rewrite Hl'; zarith|].
        intros i Hi0. rewrite Hw' by lia. rewrite Hw by lia. rewrite Z.mod_small by lia.
        destruct (Z.eqb_spec i (j + Z.of_nat t)) as [->|Hne].
        * destruct (Z.ltb_spec (j + Z.of_nat t) (j + Z.of_nat (S t))); [|lia].
          rewrite app_nth2 by lia. f_equal. lia.
        * destruct (Z.ltb_spec i (j + Z.of_nat t)), (Z.ltb_spec i (j + Z.of_nat (S t)));
            try lia; reflexivity. }
  rewrite Hn, Nat2Z.id. destruct (H (length bs') (le_n _)) as (Hc & Hl & Hw).
  split; [rewrite Hl, length_app; f_equal; lia|]. split; [exact Hc|].
  intros i Hi. rewrite Hw by lia. destruct (Z.ltb_spec i (j + Z.of_nat (length bs'))).
  - reflexivity.
  - symmetry. apply nth_overflow. rewrite length_app. lia.
Qed.

(** *** [pad.Pkcs7] *)

Lemma packed_app (bs ws bs' e : list Z) :
  packed bs ws -> Z.of_nat (length bs) mod 4 = 0 -> packed bs' e -> packed (bs ++ bs') (ws ++ e).
Proof.
  intros (Hl & Hi & Hw) Ha (Hl' & Hi' & Hw'). split; [|split].
  - rewrite !length_app. zarith.
  - apply Forall_app. now split.
  - intros j Hj. unfold wbyte.
    destruct (Z.ltb_spec j (Z.of_nat (length bs))).
    + rewrite aget_app1 by zarith. fold (wbyte ws j). rewrite Hw by lia.
      now rewrite app_nth1 by lia.
    + rewrite aget_app2 by zarith. rewrite app_nth2 by lia.
      specialize (Hw' (j - Z.of_nat (length bs)) ltac:(lia)). unfold wbyte in Hw'.
      replace ((j - Z.of_nat (length bs)) / 4) with (j / 4 - Z.of_nat (length ws)) in Hw' by zarith.
      replace ((j - Z.of_nat (length bs)) mod 4) with (j mod 4) in Hw' by zarith.
      rewrite Hw'. f_equal. lia.
Qed.

Lemma byteOf_pack_same (k c : Z) : 0 <= c < 256 -> 0 <= k <= 3 -> byteOf k (pack c c c c) = c.
Proof.
  intros Hc Hk. rewrite byteOf_pack by lia.
  destruct (k =? 0), (k =? 1), (k =? 2); reflexivity.
Qed.

Lemma wbyte_repeat (c i : Z) (k : nat) :
  0 <= c < 256 -> 0 <= i < 4 * Z.of_nat k -> wbyte (repeat (pack c c c c) k) i = c.
Proof.
  intros Hc Hi. unfold wbyte. rewrite aget_in by (rewrite repeat_length; zarith).
  rewrite nth_repeat_lt by zarith. apply byteOf_pack_same; [exact Hc|].
  pose proof (Z.mod_pos_bound i 4). lia.
Qed.

Lemma packed_repeat (c : Z) :
  0 <= c < 256 -> c mod 4 = 0 ->
  packed (repeat c (Z.to_nat c)) (repeat (pack c c c c) (Z.to_nat ((c + 3) / 4))).
Proof.
  intros Hc Ha. split; [|split].
  - rewrite !repeat_length. zarith.
  - apply Forall_repeat, pack_int32.
  - intros j Hj. destruct (Z.ltb_spec j c).
    + rewrite wbyte_repeat by zarith. now rewrite nth_repeat_lt by lia.
    + rewrite wbyte_out by (rewrite repeat_length; zarith).
      symmetry. apply nth_overflow. rewrite repeat_length. lia.
Qed.

Lemma rem16 (n : Z) : 0 <= n -> n .% (4 * AES.blockSize) = n mod 16.
Proof. intros Hn. change (4 * AES.blockSize) with 16. apply Z.rem_mod_nonneg; lia. Qed.

Lemma Pkcs7_pad_packed (bs ws : list Z) (n : Z) :
  packed bs ws -> n = Z.of_nat (length bs) -> n + 16 < 4294967296 ->
  exists ws',
    Pkcs7.pad (WordArray.Build ws n) AES.blockSize
    = Ok (WordArray.Build ws' (n + (16 - n mod 16)))
    /\ packed (bs ++ repeat (16 - n mod 16) (Z.to_nat (16 - n mod 16))) ws'.
Proof.
  intros Hp Hn Hlt. unfold Pkcs7.pad. cbv zeta. cbn [WordArray.sigBytes].
  rewrite rem16 by lia. change (4 * AES.blockSize) with 16.
  pose proof (Z.mod_pos_bound n 16 ltac:(lia)) as Hm.
  set (c := 16 - n mod 16) in *.
  rewrite bor_bytes by lia. rewrite ceil_div_4.
  destruct (Z.eq_dec (n mod 4) 0) as [E|E].
  - assert (Hc4 : c mod 4 = 0) by (subst c; zarith).
    exists (ws ++ repeat (pack c c c c) (Z.to_nat ((c + 3) / 4))). split.
    + apply concat_aligned; try lia.
      * pose proof (packed_length _ _ Hp). zarith.
      * rewrite repeat_length. zarith.
    + apply packed_app; [exact Hp|now rewrite <- Hn|]. apply packed_repeat; [lia|exact Hc4].
  - apply (concat_unaligned bs ws (repeat c (Z.to_nat c))); try assumption; try lia.
    + rewrite repeat_length. lia.
    + apply Forall_repeat. unfold is_byte. lia.
    + intros k Hk. rewrite wbyte_repeat by zarith. now rewrite nth_repeat_lt by lia.
Qed.

Lemma Pkcs7_unpad_packed (bs ws : list Z) (n : Z) :
  n = Z.of_nat (length bs) -> n + 16 < 4294967296 ->
  packed (bs ++ repeat (16 - n mod 16) (Z.to_nat (16 - n mod 16))) ws ->
  Pkcs7.unpad (WordArray.Build ws (n + (16 - n mod 16))) = WordArray.Build ws n.
Proof.
  intros Hn Hlt (_ & _ & Hw). unfold Pkcs7.unpad. cbn [WordArray.words WordArray.sigBytes].
  pose proof (Z.mod_pos_bound n 16 ltac:(lia)) as Hm.
  set (c := 16 - n mod 16) in *.
  rewrite shru_2, band_255_byte by lia.
  specialize (Hw (n + c - 1) ltac:(lia)). unfold wbyte in Hw.
  replace ((n + c - 1) mod 4) with 3 in Hw by (subst c; zarith).
  rewrite Hw. rewrite app_nth2 by lia. rewrite nth_repeat_lt by lia. f_equal. lia.
Qed.

(** *** [lib.BlockCipher] *)

Lemma concat_empty (e : list Z) (n : Z) :
  0 <= n < 4294967296 -> Z.of_nat (length e) = (n + 3) / 4 ->
  WordArray.concat WordArray.empty (WordArray.Build e n) = Ok (WordArray.Build e n).
Proof.
  intros Hn He. unfold WordArray.empty, WordArray.init. cbn [length].
  change (4 * Z.of_nat 0) with 0.
  rewrite (concat_aligned [] e 0 n) by (cbn [length]; lia). reflexivity.
Qed.

Lemma let_first {A B C D : Type} (p : A * B * C) (f : A -> D) :
  (let '(b, _, _) := p in f b) = f (fst (fst p)).
Proof. destruct p as [[a b] c]. reflexivity. Qed.

Lemma BlockCipher_roundtrip (key iv : WA) (message bs : jsstring) :
  1 <= AES._nRounds (AES._doReset key) ->
  unescape_encodeURIComponent message = Ok bs ->
  Forall is_byte bs -> Z.of_nat (length bs) + 16 < 4294967296 ->
  exists (C : list Z) (m : nat),
    BlockCipher.encryptor_finalize key iv message = Ok (WordArray.Build C (16 * Z.of_nat m))
    /\ length C = (4 * m)%nat /\ Forall int32 C
    /\ 16 * Z.of_nat m <= Z.of_nat (length bs) + 16
    /\ exists b, BlockCipher.decryptor_finalize key iv (WordArray.Build C (16 * Z.of_nat m)) = Ok b
                 /\ Latin1.stringify b = bs.
Proof.
  intros Hkey Hutf Hbs Hlen.
  destruct (Latin1_parse_packed bs Hbs ltac:(lia)) as [Hp Hsig].
  destruct (Latin1.parse bs) as [e n] eqn:Hparse. cbn [WordArray.words WordArray.sigBytes] in *.
  destruct (Pkcs7_pad_packed bs e n Hp Hsig ltac:(lia)) as (W & Hpad & HpW).
  pose proof (Z.mod_pos_bound n 16 ltac:(lia)) as Hm.
  set (c := 16 - n mod 16) in *.
  pose proof (packed_length _ _ HpW) as HlW. rewrite length_app, repeat_length in HlW.
  set (m := Z.to_nat ((n + c) / 16)).
  assert (Hnc : n + c = 16 * Z.of_nat m) by (subst m c; zarith).
  assert (HWlen : length W = (4 * m)%nat) by zarith.
  assert (HW32 : Forall int32 W) by apply HpW.
  pose proof (process_encrypt key iv W m HWlen) as Henc.
  pose proof (ciphertext_shape key iv W m HW32 HWlen) as [HCl HC32].
  pose proof (process_decrypt key iv W m Hkey HW32 HWlen) as Hdec.
  cbv zeta in Henc, HCl, HC32, Hdec.
  set (C := cbc_enc (AES._doReset key) (WordArray.words iv) W) in *.
  exists C, m. split; [|split; [exact HCl|split; [exact HC32|split; [lia|]]]].
  - unfold BlockCipher.encryptor_finalize, Utf8.parse. cbv zeta.
    rewrite Hutf. cbn [bind]. rewrite Hparse.
    rewrite concat_empty by (try lia; rewrite Hsig; apply (packed_length _ _ Hp)).
    cbn [bind]. rewrite Hpad. cbn [bind]. rewrite Hnc.
    rewrite (let_first _ (fun b => Ok b)), Henc. reflexivity.
  - exists (WordArray.Build W n). split.
    + unfold BlockCipher.decryptor_finalize. cbv zeta.
      rewrite concat_empty by zarith. cbn [bind].
      rewrite (let_first _ (fun b => Ok (Pkcs7.unpad b))), Hdec.
      rewrite <- Hnc. unfold c. rewrite (Pkcs7_unpad_packed bs) by (try assumption; lia).
      reflexivity.
    + rewrite Latin1_stringify_wbytes by lia. rewrite Hsig, Nat2Z.id.
      apply (wbytes_packed bs _ W HpW).
Qed.

(** *** The key derivation returns *)

Lemma process_data_sigBytes {S : Type} (f : list Z -> Z -> S -> list Z * S)
    (k mb : Z) (flush : bool) (data : WA) (st : S) :
  0 <= WordArray.sigBytes data ->
  0 <= WordArray.sigBytes (snd (fst (_process f k mb flush data st))).
Proof.
  intros H. unfold _process. cbv zeta.
  destruct (_ =? 0); [exact H|].
  destruct (for_loop _ _ _ _) as [e st']. cbn [fst snd WordArray.sigBytes]. lia.
Qed.

Lemma process_state {S : Type} (P : S -> Prop) (f : list Z -> Z -> S -> list Z * S)
    (k mb : Z) (flush : bool) (data : WA) (st : S) :
  (forall e i st, P st -> P (snd (f e i st))) -> P st ->
  P (snd (_process f k mb flush data st)).
Proof.
  intros Hf H. unfold _process. cbv zeta.
  destruct (_ =? 0); [exact H|].
  destruct (for_loop _ _ _ _) as [e st'] eqn:E. cbn [snd].
  change st' with (snd (e, st')). rewrite <- E. clear E.
  generalize (Z.to_nat (if flush
                        then JS.ceil_div (WordArray.sigBytes data) (4 * k)
                        else Z.max (JS.trunc_div (WordArray.sigBytes data) (4 * k) - mb) 0)).
  intros n. induction n as [|n IH]; [exact H|].
  rewrite for_loop_S. destruct (for_loop 0 n _ _) as [e1 st1]. apply Hf, IH.
Qed.

Lemma MD5_doProcessBlock_sigBytes (q : list Z) (n : Z) (h : WA) :
  WordArray.sigBytes (snd (MD5._doProcessBlock q n h)) = WordArray.sigBytes h.
Proof. reflexivity. Qed.

Lemma MD5_reset_ok : hasher_ok MD5.reset.
Proof. split; [cbn; lia|reflexivity]. Qed.

Lemma MD5_process_ok (s : MD5.hasher) : hasher_ok s -> hasher_ok (MD5.process s).
Proof.
  intros [Hd Hh]. unfold MD5.process.
  pose proof (process_data_sigBytes MD5._doProcessBlock MD5.blockSize 0 false
                (MD5._data s) (MD5._hash s) Hd) as H1.
  pose proof (process_state (fun h => WordArray.sigBytes h = 16) MD5._doProcessBlock
                MD5.blockSize 0 false (MD5._data s) (MD5._hash s)) as H2.
  cbv beta in H2.
  specialize (H2 ltac:(intros e i st Hst; now rewrite MD5_doProcessBlock_sigBytes) Hh).
  destruct (_process _ _ _ _ _ _) as [[x d] h]. cbn [fst snd] in H1, H2.
  split; assumption.
Qed.

Lemma MD5_append_ok (s : MD5.hasher) (a : WA) :
  hasher_ok s -> 0 <= WordArray.sigBytes a ->
  exists s', MD5._append s a = Ok s' /\ hasher_ok s'.
Proof.
  intros [Hd Hh] Ha. unfold MD5._append.
  destruct (concat_ok (MD5._data s) a ltac:(lia)) as (ws & ->). cbn [bind].
  eexists. split; [reflexivity|]. split; cbn [MD5._data MD5._hash WordArray.sigBytes]; lia.
Qed.

Lemma MD5_update_ok (s : MD5.hasher) (a : WA) :
  hasher_ok s -> 0 <= WordArray.sigBytes a ->
  exists s', MD5.update s a = Ok s' /\ hasher_ok s'.
Proof.
  intros Hs Ha. unfold MD5.update.
  destruct (MD5_append_ok s a Hs Ha) as (s' & -> & Hs'). cbn [bind].
  eexists. split; [reflexivity|]. apply MD5_process_ok, Hs'.
Qed.

Lemma MD5_update_string_ok (s : MD5.hasher) (a bs : jsstring) :
  hasher_ok s -> unescape_encodeURIComponent a = Ok bs ->
  exists s', MD5.update_string s a = Ok s' /\ hasher_ok s'.
Proof.
  intros Hs Ha. unfold MD5.update_string, MD5._append_string, Utf8.parse.
  rewrite Ha. cbn [bind].
  destruct (MD5_append_ok s (Latin1.parse bs) Hs) as (s' & -> & Hs'); [cbn; lia|].
  cbn [bind]. eexists. split; [reflexivity|]. apply MD5_process_ok, Hs'.
Qed.

Lemma MD5_finalize_ok (s : MD5.hasher) (a : WA) :
  hasher_ok s -> 0 <= WordArray.sigBytes a ->
  exists n, MD5.finalize s a = Ok n /\ WordArray.sigBytes n = 16.
Proof.
  intros Hs Ha. unfold MD5.finalize.
  destruct (MD5_append_ok s a Hs Ha) as (s' & -> & [Hd Hh]). cbn [bind].
  eexists. split; [reflexivity|].
  unfold MD5._doFinalize. cbv zeta. cbn [WordArray.sigBytes].
  unfold MD5.process. cbn [MD5._data MD5._hash MD5._nDataBytes].
  pose proof (process_state (fun h => WordArray.sigBytes h = 16) MD5._doProcessBlock
                MD5.blockSize 0 false) as H2.
  cbv beta in H2.
  match goal with
  | |- context [_process _ _ _ _ ?d ?h] =>
    specialize (H2 d h ltac:(intros e i st Hst; now rewrite MD5_doProcessBlock_sigBytes) Hh);
    destruct (_process MD5._doProcessBlock MD5.blockSize 0 false d h) as [[x y] z]
  end.
  exact H2.
Qed.

Lemma EvpKDF_derive_ok (password bs : jsstring) (salt : WA) (keySize : Z) (fuel : nat) :
  unescape_encodeURIComponent password = Ok bs -> 0 <= WordArray.sigBytes salt ->
  forall (n : option WA) (b : WA),
    match n with Some n => WordArray.sigBytes n = 16 | None => True end ->
    0 <= WordArray.sigBytes b ->
    exists r, EvpKDF.derive fuel keySize password salt n b = Ok r.
Proof.
  intros Hp Hs. induction fuel as [|fuel IH]; intros n b Hn Hb; cbn [EvpKDF.derive].
  - eexists. reflexivity.
  - destruct (_ <? keySize); [|eexists; reflexivity].
    assert (H1 : exists s, match n with
                           | Some n => MD5.update MD5.reset n
                           | None => Ok MD5.reset
                           end = Ok s /\ hasher_ok s).
    { destruct n as [n|].
      - apply MD5_update_ok; [apply MD5_reset_ok|lia].
      - eexists. split; [reflexivity|apply MD5_reset_ok]. }
    destruct H1 as (s & -> & Hs1). cbn [bind].
    destruct (MD5_update_string_ok s password bs Hs1 Hp) as (s2 & -> & Hs2). cbn [bind].
    destruct (MD5_finalize_ok s2 salt Hs2 Hs) as (n' & -> & Hn'). cbn [bind].
    change (Z.to_nat (EvpKDF.iterations - 1)) with 0%nat. rewrite for_loop_0. cbn [bind].
    destruct (concat_ok b n' ltac:(lia)) as (ws & ->). cbn [bind].
    apply IH; [exact Hn'|cbn [WordArray.sigBytes]; lia].
Qed.

Lemma EvpKDF_compute_ok (password bs : jsstring) (salt : WA) (keySize : Z) :
  unescape_encodeURIComponent password = Ok bs -> 0 <= WordArray.sigBytes salt ->
  exists ws, EvpKDF.compute keySize password salt = Ok (WordArray.Build ws (4 * keySize)).
Proof.
  intros Hp Hs. unfold EvpKDF.compute.
  destruct (EvpKDF_derive_ok password bs salt keySize (Z.to_nat keySize) Hp Hs None
              WordArray.empty I ltac:(cbn; lia)) as (r & ->).
  cbn [bind]. eexists. reflexivity.
Qed.

(** *** [enc.Base64] *)

Lemma bor3_bytes (a b c : Z) :
  0 <= a < 256 -> 0 <= b < 256 -> 0 <= c < 256 ->
  (a .<< 16) .| (b .<< 8) .| c = a * 65536 + b * 256 + c.
Proof.
  intros Ha Hb Hc. apply word_ext; [apply bor_int32|unfold int32; lia|].
  intros k Hk. rewrite !byteOf_bor, byteOf_shl16, byteOf_shl8, byteOf_byte by lia.
  byte_cases k; eval_eqb; rewrite ?Z.lor_0_l, ?Z.lor_0_r; zarith.
Qed.

Lemma b64_digit_read (w v : Z) :
  0 <= w < 16777216 -> 0 <= v <= 3 -> w .>>> 6 * (3 - v) .& 63 = (w / 64 ^ (3 - v)) mod 64.
Proof.
  intros Hw Hv. unfold JS.band, JS.shru, JS.ToUint32.
  change 63 with (Z.ones 6). rewrite Z.land_ones by lia. change (2 ^ 6) with 64.
  rewrite (Z.mod_small w) by lia.
  assert (Hc : v = 0 \/ v = 1 \/ v = 2 \/ v = 3) by lia.
  destruct Hc as [->|[->|[->| ->]]].
  - change (6 * (3 - 0) mod 32) with 18. change (64 ^ (3 - 0)) with (2 ^ 18).
    rewrite Z.shiftr_div_pow2 by lia. apply ToInt32_id. unfold int32. zarith.
  - change (6 * (3 - 1) mod 32) with 12. change (64 ^ (3 - 1)) with (2 ^ 12).
    rewrite Z.shiftr_div_pow2 by lia. apply ToInt32_id. unfold int32. zarith.
  - change (6 * (3 - 2) mod 32) with 6. change (64 ^ (3 - 2)) with (2 ^ 6).
    rewrite Z.shiftr_div_pow2 by lia. apply ToInt32_id. unfold int32. zarith.
  - change (6 * (3 - 3) mod 32) with 0. change (64 ^ (3 - 3)) with (2 ^ 0).
    rewrite Z.shiftr_div_pow2 by lia. apply ToInt32_id. unfold int32. zarith.
Qed.

Lemma b64_group_range (ws : list Z) (i : Z) : 0 <= b64_group ws i < 16777216.
Proof.
  unfold b64_group.
  pose proof (wbyte_range ws (3 * i)). pose proof (wbyte_range ws (3 * i + 1)).
  pose proof (wbyte_range ws (3 * i + 2)). lia.
Qed.

Lemma b64_group_word (l : list Z) (i : Z) :
  0 <= i -> 3 * i + 2 < 4294967296 ->
  (Base64.byte_at l (3 * i) .<< 16) .| (Base64.byte_at l (3 * i + 1) .<< 8)
  .| Base64.byte_at l (3 * i + 2)
  = b64_group l i.
Proof.
  intros Hi Hlt. unfold Base64.byte_at. rewrite !byte_at_wbyte by lia.
  apply bor3_bytes; apply wbyte_range.
Qed.

Lemma b64_digit_at (ws : list Z) (i v : Z) :
  0 <= i -> 0 <= v <= 3 ->
  b64_digit ws (4 * i + v) = (b64_group ws i / 64 ^ (3 - v)) mod 64.
Proof.
  intros Hi Hv. unfold b64_digit.
  replace ((4 * i + v) / 4) with i by zarith. replace ((4 * i + v) mod 4) with v by zarith.
  reflexivity.
Qed.

Lemma b64_chars_S (ws : list Z) (n : nat) :
  b64_chars ws (S n) = b64_chars ws n ++ [Base64._map.[b64_digit ws (Z.of_nat n)]].
Proof. unfold b64_chars. rewrite seq_S, map_app. reflexivity. Qed.

(** One turn of the outer loop of [stringify]. *)
Lemma b64_stringify_group (ws : list Z) (p : Z) (i : nat) :
  3 * Z.of_nat i < p -> p + 4 < 4294967296 ->
  (let r := 3 * Z.of_nat i in
   let w := (Base64.byte_at ws r .<< 16) .| (Base64.byte_at ws (r + 1) .<< 8)
            .| Base64.byte_at ws (r + 2) in
   for_loop 0 4
     (fun v d => if 4 * r + 3 * v <? 4 * p
                 then d ++ [Base64._map.[w .>>> 6 * (3 - v) .& 63]] else d)
     (b64_chars ws (4 * i)))
  = b64_chars ws (Z.to_nat (Z.min (4 * Z.of_nat i + 4) (b64_count p))).
Proof.
  intros Hi Hp. cbv zeta. rewrite b64_group_word by lia.
  pose proof (b64_group_range ws (Z.of_nat i)) as Hg.
  unfold for_loop. cbn [seq fold_left].
  rewrite !b64_digit_read by (try exact Hg; cbn; lia).
  rewrite <- !b64_digit_at by (cbn; lia).
  change (0 + Z.of_nat 0) with 0. change (0 + Z.of_nat 1) with 1.
  change (0 + Z.of_nat 2) with 2. change (0 + Z.of_nat 3) with 3.
  destruct (Z.ltb_spec (4 * (3 * Z.of_nat i) + 3 * 0) (4 * p)); [|lia].
  destruct (Z.ltb_spec (4 * (3 * Z.of_nat i) + 3 * 1) (4 * p)); [|lia].
  replace (4 * Z.of_nat i + 0) with (Z.of_nat (4 * i)) by lia.
  replace (4 * Z.of_nat i + 1) with (Z.of_nat (S (4 * i))) by lia.
  replace (4 * Z.of_nat i + 2) with (Z.of_nat (S (S (4 * i)))) by lia.
  replace (4 * Z.of_nat i + 3) with (Z.of_nat (S (S (S (4 * i))))) by lia.
  rewrite <- !b64_chars_S.
  unfold b64_count.
  destruct (Z.ltb_spec (4 * (3 * Z.of_nat i) + 3 * 2) (4 * p)).
  - rewrite <- ?b64_chars_S.
    destruct (Z.ltb_spec (4 * (3 * Z.of_nat i) + 3 * 3) (4 * p)).
    + rewrite <- ?b64_chars_S.
      f_equal. destruct (Z.eqb_spec (p mod 3) 0).
      * zarith.
      * zarith.
    + f_equal. destruct (Z.eqb_spec (p mod 3) 0); zarith.
  - destruct (Z.ltb_spec (4 * (3 * Z.of_nat i) + 3 * 3) (4 * p)); [lia|].
    f_equal. destruct (Z.eqb_spec (p mod 3) 0); zarith.
Qed.

Lemma b64_count_bounds (p : Z) : 0 <= p -> 4 * (p / 3) <= b64_count p <= 4 * ((p + 2) / 3).
Proof. intros Hp. unfold b64_count. destruct (Z.eqb_spec (p mod 3) 0); zarith. Qed.

Lemma b64_stringify_loop (ws : list Z) (p : Z) (i : nat) :
  0 <= p -> 3 * Z.of_nat i <= p + 2 -> p + 4 < 4294967296 ->
  for_loop 0 i
    (fun i d =>
       let r := 3 * i in
       let w := (Base64.byte_at ws r .<< 16) .| (Base64.byte_at ws (r + 1) .<< 8)
                .| Base64.byte_at ws (r + 2) in
       for_loop 0 4
         (fun v d => if 4 * r + 3 * v <? 4 * p
                     then d ++ [Base64._map.[w .>>> 6 * (3 - v) .& 63]] else d)
         d)
    []
  = b64_chars ws (Z.to_nat (Z.min (4 * Z.of_nat i) (b64_count p))).
Proof.
  intros H0 Hi Hp. induction i as [|i IH].
  - rewrite for_loop_0. pose proof (b64_count_bounds p H0).
    replace (Z.to_nat _) with 0%nat by zarith. reflexivity.
  - rewrite for_loop_S, IH by lia. rewrite Z.add_0_l.
    pose proof (b64_count_bounds p H0).
    replace (Z.to_nat (Z.min (4 * Z.of_nat i) (b64_count p))) with (4 * i)%nat by zarith.
    rewrite b64_stringify_group by lia. f_equal. lia.
Qed.

Lemma length_b64_chars (ws : list Z) (n : nat) : length (b64_chars ws n) = n.
Proof. unfold b64_chars. now rewrite length_map, length_seq. Qed.

Lemma Base64_stringify_chars (ws : list Z) (p : Z) :
  p = 4 * Z.of_nat (length ws) -> p + 4 < 4294967296 ->
  Base64.stringify (WordArray.Build ws p)
  = Ok (b64_chars ws (Z.to_nat (b64_count p))
        ++ repeat 61 (Z.to_nat ((4 - b64_count p mod 4) mod 4))).
Proof.
  intros Hp Hlt. unfold Base64.stringify. cbv zeta. cbn [WordArray.sigBytes].
  rewrite clamp_exact by lia. cbn [bind WordArray.words].
  assert (Hc : JS.ceil_div p 3 = (p + 2) / 3) by (unfold JS.ceil_div; zarith).
  rewrite Hc. pose proof (b64_count_bounds p ltac:(lia)) as Hb.
  rewrite b64_stringify_loop by zarith.
  replace (Z.min (4 * Z.of_nat (Z.to_nat ((p + 2) / 3))) (b64_count p)) with (b64_count p)
    by zarith.
  rewrite length_b64_chars. rewrite Z2Nat.id by zarith. reflexivity.
Qed.

Lemma digits64_forall (P : Z -> bool) :
  forallb P digits64 = true -> forall x, 0 <= x < 64 -> P x = true.
Proof.
  intros H x Hx. rewrite forallb_forall in H. apply H.
  change digits64 with (map Z.of_nat (seq 0 64)).
  apply in_map_iff. exists (Z.to_nat x). split; [lia|]. apply in_seq. lia.
Qed.

Lemma b64_map_facts (x : Z) :
  0 <= x < 64 -> Base64._map.[x] <> 61 /\ Base64.indexOf Base64._map Base64._map.[x] = x.
Proof.
  intros Hx.
  assert (H : forallb b64_map_pred digits64 = true) by (vm_compute; reflexivity).
  pose proof (digits64_forall _ H x Hx) as Hp. unfold b64_map_pred in Hp.
  apply andb_true_iff in Hp as [H1 H2]. split; [|lia].
  apply negb_true_iff in H1. lia.
Qed.

Lemma b64_shift_facts (k d1 d2 : Z) :
  1 <= k <= 3 -> 0 <= d1 < 64 -> 0 <= d2 < 64 ->
  (d1 .<< 2 * k) .| (d2 .>>> 6 - 2 * k) = d1 * 2 ^ (2 * k) + d2 / 2 ^ (6 - 2 * k).
Proof.
  intros Hk H1 H2.
  assert (H : forallb (fun k => forallb (fun d1 => forallb (b64_shift_pred k d1) digits64)
                                        digits64) [1; 2; 3] = true)
    by (vm_compute; reflexivity).
  rewrite forallb_forall in H. specialize (H k).
  assert (Hin : In k [1; 2; 3]) by (cbn [In]; lia).
  specialize (H Hin).
  pose proof (digits64_forall _ H d1 H1) as Hd1. cbv beta in Hd1.
  pose proof (digits64_forall _ Hd1 d2 H2) as Hd2. unfold b64_shift_pred in Hd2. lia.
Qed.

Lemma b64_digit_range (ws : list Z) (w : Z) : 0 <= b64_digit ws w < 64.
Proof. unfold b64_digit. apply Z.mod_pos_bound. lia. Qed.

Lemma lor_mod_pow2 (a n : Z) : 0 <= n -> Z.lor a (a mod 2 ^ n) = a.
Proof.
  intros Hn. rewrite <- Z.land_ones by lia.
  apply Z.bits_inj'. intros i Hi. rewrite Z.lor_spec, Z.land_spec.
  destruct (Z.testbit a i), (Z.testbit (Z.ones n) i); reflexivity.
Qed.

Ltac eval_leb :=
  repeat match goal with
         | |- context [?a <=? ?b] =>
           let c := eval vm_compute in (a <=? b) in
           match c with true => idtac | false => idtac end;
           change (a <=? b) with c
         end;
  cbv iota.

(** The value that [parse] writes for the character [w] of a group. *)
Lemma b64_parse_value (ws : list Z) (w X : Z) :
  0 <= w -> 1 <= w mod 4 ->
  X = b64_digit ws (w - 1) * 2 ^ (2 * (w mod 4)) + b64_digit ws w / 2 ^ (6 - 2 * (w mod 4)) ->
  0 <= X < 4096
  /\ X mod 256 = wbyte ws (b64_bytes w)
  /\ (X / 256 = 0
      \/ exists n, 0 <= n /\ 1 <= b64_bytes w
                   /\ X / 256 = wbyte ws (b64_bytes w - 1) mod 2 ^ n).
Proof.
  intros Hw Hk HX. unfold b64_bytes.
  pose proof (Z.mod_pos_bound w 4 ltac:(lia)) as Hm.
  assert (Hw' : w = 4 * (w / 4) + w mod 4) by zarith.
  set (i := w / 4) in *. assert (Hi : 0 <= i) by (subst i; zarith).
  set (k := w mod 4) in *.
  assert (D1 : b64_digit ws (w - 1) = (b64_group ws i / 64 ^ (3 - (k - 1))) mod 64).
  { replace (w - 1) with (4 * i + (k - 1)) by lia. apply b64_digit_at; lia. }
  assert (D2 : b64_digit ws w = (b64_group ws i / 64 ^ (3 - k)) mod 64).
  { rewrite Hw' at 1. apply b64_digit_at; lia. }
  rewrite D1, D2 in HX. clear D1 D2. unfold b64_group in HX.
  pose proof (wbyte_range ws (3 * i)) as Ha. pose proof (wbyte_range ws (3 * i + 1)) as Hb.
  pose proof (wbyte_range ws (3 * i + 2)) as Hc'.
  remember (wbyte ws (3 * i)) as a eqn:Ea. remember (wbyte ws (3 * i + 1)) as b eqn:Eb.
  remember (wbyte ws (3 * i + 2)) as c eqn:Ec.
  assert (Hc : k = 1 \/ k = 2 \/ k = 3) by lia. clearbody k.
  destruct Hc as [->|[-> | ->]]; eval_leb.
  - replace (3 * i + 0) with (3 * i) by lia. rewrite <- Ea.
    change (3 - (1 - 1)) with 3 in HX. change (3 - 1) with 2 in HX.
    change (2 ^ (2 * 1)) with 4 in HX. change (2 ^ (6 - 2 * 1)) with 16 in HX.
    change (64 ^ 3) with 262144 in HX. change (64 ^ 2) with 4096 in HX.
    clear Ea Eb Ec. split; [zarith|]. split; [zarith|left; zarith].
  - replace (3 * i + (2 - 1)) with (3 * i + 1) by lia. rewrite <- Eb.
    replace (3 * i + 1 - 1) with (3 * i) by lia. rewrite <- Ea.
    change (3 - (2 - 1)) with 2 in HX. change (3 - 2) with 1 in HX.
    change (2 ^ (2 * 2)) with 16 in HX. change (2 ^ (6 - 2 * 2)) with 4 in HX.
    change (64 ^ 2) with 4096 in HX. change (64 ^ 1) with 64 in HX.
    clear Ea Eb Ec. split; [zarith|]. split; [zarith|]. right. exists 2. change (2 ^ 2) with 4.
    split; [lia|]. split; [lia|]. zarith.
  - replace (3 * i + (3 - 1)) with (3 * i + 2) by lia. rewrite <- Ec.
    replace (3 * i + 2 - 1) with (3 * i + 1) by lia. rewrite <- Eb.
    change (3 - (3 - 1)) with 1 in HX. change (3 - 3) with 0 in HX.
    change (2 ^ (2 * 3)) with 64 in HX. change (2 ^ (6 - 2 * 3)) with 1 in HX.
    change (64 ^ 1) with 64 in HX. change (64 ^ 0) with 1 in HX.
    clear Ea Eb Ec. split; [zarith|]. split; [zarith|]. right. exists 4. change (2 ^ 4) with 16.
    split; [lia|]. split; [lia|]. zarith.
Qed.

Lemma Forall_aget (P : Z -> Prop) (l : list Z) (i : Z) : Forall P l -> P 0 -> P l.[i].
Proof.
  intros H H0. destruct (Z.ltb_spec i 0); [now rewrite aget_out by lia|].
  destruct (Z.ltb_spec i (Z.of_nat (length l))); [|now rewrite aget_out by lia].
  rewrite aget_in by lia. apply (proj1 (Forall_forall _ _) H), nth_In. lia.
Qed.

(** Arrays of 32-bit words with the same bytes are equal. *)
Lemma words_ext (a b : list Z) :
  Forall int32 a -> Forall int32 b -> length a = length b ->
  (forall j, 0 <= j -> wbyte a j = wbyte b j) -> a = b.
Proof.
  intros Ha Hb Hl Hw. apply array_ext; [exact Hl|].
  intros i Hi. apply word_ext; try (apply Forall_aget; [assumption|exact int32_0]).
  intros k Hk. specialize (Hw (4 * i + k) ltac:(lia)). unfold wbyte in Hw.
  replace ((4 * i + k) / 4) with i in Hw by zarith.
  replace ((4 * i + k) mod 4) with k in Hw by zarith. exact Hw.
Qed.

Lemma Base64_indexOf_pad (E : jsstring) (k : nat) :
  Forall (fun c => c <> 61) E ->
  Base64.indexOf (E ++ repeat 61 k) 61
  = match k with O => -1 | S _ => Z.of_nat (length E) end.
Proof.
  intros HE. induction HE as [|c E Hc HE IH].
  - destruct k; reflexivity.
  - cbn [app Base64.indexOf length]. destruct (Z.eqb_spec c 61) as [->|_]; [contradiction|].
    rewrite IH. cbv zeta. destruct k.
    + reflexivity.
    + destruct (Z.ltb_spec (Z.of_nat (length E)) 0); lia.
Qed.

Lemma b64_chars_not_pad (ws : list Z) (n : nat) : Forall (fun c => c <> 61) (b64_chars ws n).
Proof.
  apply Forall_forall. intros c Hc. unfold b64_chars in Hc.
  apply in_map_iff in Hc as (w & <- & _). apply b64_map_facts, b64_digit_range.
Qed.

Lemma b64_chars_get (ws pad : list Z) (n : nat) (w : Z) :
  0 <= w < Z.of_nat n -> (b64_chars ws n ++ pad).[w] = Base64._map.[b64_digit ws w].
Proof.
  intros Hw. rewrite aget_app1 by (rewrite length_b64_chars; lia).
  rewrite aget_in by (rewrite length_b64_chars; lia). unfold b64_chars.
  rewrite (nth_indep _ 0 (Base64._map.[b64_digit ws (Z.of_nat 0%nat)]))
    by (rewrite length_map, length_seq; lia).
  rewrite (map_nth (fun w => Base64._map.[b64_digit ws (Z.of_nat w)])).
  rewrite seq_nth by lia. cbn [Nat.add]. now rewrite Z2Nat.id by lia.
Qed.

Lemma b64_bytes_next (w : Z) :
  0 <= w -> b64_bytes (w + 1) = if w mod 4 =? 0 then b64_bytes w else b64_bytes w + 1.
Proof.
  intros Hw. unfold b64_bytes.
  destruct (Z.eqb_spec (w mod 4) 0), (Z.leb_spec (w mod 4) 1), (Z.leb_spec ((w + 1) mod 4) 1);
    zarith.
Qed.

Lemma Base64_parse_loop (ws T : list Z) (p : Z) (n : nat) :
  p = 4 * Z.of_nat (length ws) -> p + 4 < 4294967296 ->
  (forall w, 0 <= w < b64_count p -> T.[w] = Base64._map.[b64_digit ws w]) ->
  Z.of_nat n <= b64_count p ->
  let '(t, r) :=
    for_loop 0 n
      (fun w '(t, r) =>
         if negb (w .% 4 =? 0) then
           let v := Base64.indexOf Base64._map T.[w - 1] .<< 2 * (w .% 4) in
           let b := Base64.indexOf Base64._map T.[w] .>>> 6 - 2 * (w .% 4) in
           (aset t (r .>>> 2) (t.[r .>>> 2] .| ((v .| b) .<< 24 - 8 * (r .% 4))), r + 1)
         else (t, r))
      ([], 0) in
  r = b64_bytes (Z.of_nat n) /\ Forall int32 t
  /\ Z.of_nat (length t) = (r + 3) / 4
  /\ forall j, 0 <= j -> wbyte t j = if j <? r then wbyte ws j else 0.
Proof.
  intros Hp Hlt HT. induction n as [|n IH]; intros Hn.
  - rewrite for_loop_0. split; [reflexivity|]. split; [constructor|]. split; [reflexivity|].
    intros j Hj. rewrite wbyte_out by (cbn [length]; lia).
    destruct (Z.ltb_spec j 0); [lia|reflexivity].
  - rewrite for_loop_S. specialize (IH ltac:(lia)).
    destruct (for_loop 0 n _ _) as [t r]. destruct IH as (Hr & Ht & Hl & Hw).
    rewrite Z.add_0_l. rewrite !rem4 by lia.
    replace (Z.of_nat (S n)) with (Z.of_nat n + 1) by lia.
    rewrite b64_bytes_next by lia.
    pose proof (b64_count_bounds p ltac:(lia)) as Hcb.
    assert (Hrp : 0 <= r <= p).
    { subst r. unfold b64_bytes, b64_count in *.
      destruct (Z.eqb_spec (p mod 3) 0), (Z.leb_spec (Z.of_nat n mod 4) 1); zarith. }
    destruct (Z.eqb_spec (Z.of_nat n mod 4) 0) as [E|E]; cbn [negb].
    + split; [exact Hr|]. split; [exact Ht|]. split; [exact Hl|exact Hw].
    + cbv zeta. pose proof (Z.mod_pos_bound (Z.of_nat n) 4 ltac:(lia)) as Hk.
      rewrite !HT by zarith.
      rewrite !(proj2 (b64_map_facts _ (b64_digit_range ws _))).
      rewrite b64_shift_facts by (try apply b64_digit_range; lia).
      set (X := _ + _ / _).
      destruct (b64_parse_value ws (Z.of_nat n) X ltac:(lia) ltac:(lia) eq_refl)
        as (HX & Hlow & Hhigh).
      rewrite <- Hr in Hlow, Hhigh.
      destruct (or_byte t r X) as (Ht' & Hl' & Hw'); try lia; try assumption.
      * rewrite Hw by lia. destruct (Z.ltb_spec r r); [lia|reflexivity].
      * intros _. destruct Hhigh as [->|(m & Hm & Hr1 & ->)]; [apply Z.lor_0_r|].
        rewrite Hw by lia. destruct (Z.ltb_spec (r - 1) r); [|lia].
        apply lor_mod_pow2, Hm.
      * split; [lia|]. split; [exact Ht'|]. split; [rewrite Hl'; zarith|].
        intros j Hj. rewrite Hw' by lia. rewrite Hw by lia. rewrite Hlow.
        destruct (Z.eqb_spec j r) as [->|Hne].
        -- destruct (Z.ltb_spec r (r + 1)); [reflexivity|lia].
        -- destruct (Z.ltb_spec j r), (Z.ltb_spec j (r + 1)); try lia; reflexivity.
Qed.

Lemma b64_bytes_count (p : Z) : 0 <= p -> b64_bytes (b64_count p) = p.
Proof.
  intros Hp. unfold b64_bytes, b64_count.
  destruct (Z.eqb_spec (p mod 3) 0).
  - destruct (Z.leb_spec ((4 * (p / 3)) mod 4) 1); zarith.
  - destruct (Z.leb_spec ((4 * (p / 3) + p mod 3 + 1) mod 4) 1); zarith.
Qed.

(** [parse] reads back what [stringify] wrote. *)
Lemma Base64_roundtrip (ws : list Z) (p : Z) :
  Forall int32 ws -> p = 4 * Z.of_nat (length ws) -> p + 4 < 4294967296 ->
  exists T, Base64.stringify (WordArray.Build ws p) = Ok T
            /\ Base64.parse T = WordArray.Build ws p.
Proof.
  intros Hws Hp Hlt. rewrite Base64_stringify_chars by assumption.
  eexists. split; [reflexivity|].
  pose proof (b64_count_bounds p ltac:(lia)) as Hcb.
  set (n := Z.to_nat (b64_count p)). set (k := Z.to_nat ((4 - b64_count p mod 4) mod 4)).
  set (T := b64_chars ws n ++ repeat 61 k).
  unfold Base64.parse. change (Base64._map.[64]) with 61. cbv zeta.
  assert (Hl : (if negb (Base64.indexOf T 61 =? -1)
                then Base64.indexOf T 61 else Z.of_nat (length T)) = Z.of_nat n).
  { unfold T. rewrite Base64_indexOf_pad by apply b64_chars_not_pad.
    rewrite length_app, repeat_length, length_b64_chars. destruct k.
    - change (-1 =? -1) with true. cbn [negb]. lia.
    - destruct (Z.eqb_spec (Z.of_nat n) (-1)); [lia|reflexivity]. }
  rewrite Hl, Nat2Z.id.
  pose proof (Base64_parse_loop ws T p n Hp Hlt) as H.
  specialize (H ltac:(intros w Hw; apply b64_chars_get; unfold n; zarith)
                ltac:(unfold n; zarith)).
  destruct (for_loop 0 n _ _) as [t r]. destruct H as (Hr & Ht & Hlen & Hw).
  assert (Hrp : r = p).
  { rewrite Hr. unfold n. rewrite Z2Nat.id by zarith. apply b64_bytes_count. lia. }
  clear Hr. subst r. f_equal. apply words_ext; try assumption; [zarith|].
  intros j Hj. rewrite Hw by lia. destruct (Z.ltb_spec j p); [reflexivity|].
  symmetry. apply wbyte_out. lia.
Qed.

(** *** [format.OpenSSL] *)

Lemma OpenSSL_roundtrip (C : list Z) (m : nat) (s0 s1 : Z) :
  Forall int32 C -> length C = (4 * m)%nat -> int32 s0 -> int32 s1 ->
  16 * Z.of_nat m + 20 < 4294967296 ->
  exists T,
    OpenSSL.stringify (WordArray.Build C (16 * Z.of_nat m)) (Some (WordArray.Build [s0; s1] 8))
    = Ok T
    /\ OpenSSL.parse T
       = (WordArray.Build C (16 * Z.of_nat m), Some (WordArray.Build [s0; s1] 8)).
Proof.
  intros HC Hlen H0 H1 Hlt. unfold OpenSSL.stringify, WordArray.init. cbn [length].
  change (4 * Z.of_nat 2) with 8.
  rewrite (concat_aligned [1398893684; 1701076831] [s0; s1] 8 8) by (cbn [length]; zarith).
  cbn [bind app]. change (8 + 8) with 16.
  rewrite (concat_aligned [1398893684; 1701076831; s0; s1] C 16 (16 * Z.of_nat m))
    by (cbn [length]; zarith).
  cbn [bind app].
  destruct (Base64_roundtrip (1398893684 :: 1701076831 :: s0 :: s1 :: C) (16 + 16 * Z.of_nat m))
    as (T & HT & HP).
  - repeat (apply Forall_cons; [first [assumption|unfold int32; lia]|]). exact HC.
  - cbn [length]. lia.
  - lia.
  - exists T. split; [exact HT|]. unfold OpenSSL.parse. rewrite HP.
    cbn [WordArray.words WordArray.sigBytes skipn]. unfold WordArray.init.
    replace (16 + 16 * Z.of_nat m - 16) with (16 * Z.of_nat m) by lia. reflexivity.
Qed.

(** *** UTF-8 *)

Ltac decide_cmp :=
  repeat match goal with
         | |- context [?a <? ?b] => destruct (Z.ltb_spec a b); try (exfalso; zarith)
         | |- context [?a <=? ?b] => destruct (Z.leb_spec a b); try (exfalso; zarith)
         end.

Lemma utf8_octets_bytes (cp : Z) : 0 <= cp < 1114112 -> Forall is_byte (utf8_octets cp).
Proof.
  intros Hcp. unfold utf8_octets, is_byte.
  decide_cmp; repeat (apply Forall_cons; [zarith|]); constructor.
Qed.

Lemma utf8_octets_length (cp : Z) : (1 <= length (utf8_octets cp) <= 4)%nat.
Proof. unfold utf8_octets. decide_cmp; cbn [length]; lia. Qed.

(** One step of the decoder. *)
Lemma decode_cons (b0 : Z) (t0 : jsstring) :
  decodeURIComponent_escape (b0 :: t0)
  = (if b0 <? 128 then r <- decodeURIComponent_escape t0 ;; Ok (b0 :: r)
    else if b0 <? 192 then Throw URIError
    else if b0 <? 224 then
      match t0 with
      | b1 :: t1 =>
        let cp := (b0 - 192) * 64 + (b1 - 128) in
        if is_continuation b1 && (128 <=? cp)
        then r <- decodeURIComponent_escape t1 ;; Ok (utf16_units cp ++ r)
        else Throw URIError
      | _ => Throw URIError
      end
    else if b0 <? 240 then
      match t0 with
      | b1 :: b2 :: t2 =>
        let cp := (b0 - 224) * 4096 + (b1 - 128) * 64 + (b2 - 128) in
        if is_continuation b1 && is_continuation b2 && (2048 <=? cp)
           && negb ((55296 <=? cp) && (cp <=? 57343))
        then r <- decodeURIComponent_escape t2 ;; Ok (utf16_units cp ++ r)
        else Throw URIError
      | _ => Throw URIError
      end
    else if b0 <? 248 then
      match t0 with
      | b1 :: b2 :: b3 :: t3 =>
        let cp := (b0 - 240) * 262144 + (b1 - 128) * 4096 + (b2 - 128) * 64 + (b3 - 128) in
        if is_continuation b1 && is_continuation b2 && is_continuation b3
           && (65536 <=? cp) && (cp <=? 1114111)
        then r <- decodeURIComponent_escape t3 ;; Ok (utf16_units cp ++ r)
        else Throw URIError
      | _ => Throw URIError
      end
    else Throw URIError).
Proof. reflexivity. Qed.

Lemma decode_octets (cp : Z) (rest : jsstring) :
  0 <= cp < 1114112 -> ~ 55296 <= cp <= 57343 ->
  decodeURIComponent_escape (utf8_octets cp ++ rest)
  = (r <- decodeURIComponent_escape rest ;; Ok (utf16_units cp ++ r)).
Proof.
  intros Hcp Hs. unfold utf8_octets.
  destruct (Z.ltb_spec cp 128); [|destruct (Z.ltb_spec cp 2048); [|destruct (Z.ltb_spec cp 65536)]];
    cbn [app]; rewrite decode_cons; cbv beta iota zeta; unfold is_continuation, utf16_units.
  - decide_cmp; reflexivity.
  - replace ((192 + cp / 64 - 192) * 64 + (128 + cp mod 64 - 128)) with cp by zarith.
    decide_cmp; reflexivity.
  - replace ((224 + cp / 4096 - 224) * 4096 + (128 + (cp / 64) mod 64 - 128) * 64
             + (128 + cp mod 64 - 128)) with cp by zarith.
    decide_cmp; reflexivity.
  - replace ((240 + cp / 262144 - 240) * 262144 + (128 + (cp / 4096) mod 64 - 128) * 4096
             + (128 + (cp / 64) mod 64 - 128) * 64 + (128 + cp mod 64 - 128)) with cp by zarith.
    decide_cmp; reflexivity.
Qed.

Lemma well_formed_cons (c : Z) (s : jsstring) :
  well_formed (c :: s) = true ->
  0 <= c < 65536
  /\ ((is_high_surrogate c = false /\ is_low_surrogate c = false /\ well_formed s = true)
      \/ (is_high_surrogate c = true
          /\ exists d s', s = d :: s' /\ is_low_surrogate d = true /\ 0 <= d < 65536
                          /\ well_formed s' = true)).
Proof.
  unfold well_formed. cbn [forallb code_points]. intros H.
  apply andb_true_iff in H as [H1 H2]. apply andb_true_iff in H1 as [Hc H1].
  split; [lia|].
  destruct (is_high_surrogate c) eqn:Eh.
  - right. split; [reflexivity|]. destruct s as [|d s']; [discriminate|].
    cbn [forallb] in H1. apply andb_true_iff in H1 as [Hd H1].
    destruct (is_low_surrogate d) eqn:El; [|discriminate].
    cbn [forallb] in H2. exists d, s'. rewrite H1, H2.
    repeat split; try reflexivity; try assumption; lia.
  - left. destruct (is_low_surrogate c) eqn:El; [discriminate|].
    cbn [forallb] in H2. rewrite H1, H2. repeat split; reflexivity.
Qed.

Lemma utf8_roundtrip (n : nat) :
  forall s, (length s <= n)%nat -> well_formed s = true ->
  exists bs, unescape_encodeURIComponent s = Ok bs
             /\ Forall is_byte bs
             /\ (length bs <= 3 * length s)%nat
             /\ decodeURIComponent_escape bs = Ok s.
Proof.
  unfold unescape_encodeURIComponent.
  induction n as [|n IH]; intros s Hn Hwf.
  - destruct s; [|cbn [length] in Hn; lia]. exists []. repeat split; [constructor|cbn; lia].
  - destruct s as [|c s]; [exists []; repeat split; [constructor|cbn; lia]|].
    apply well_formed_cons in Hwf as [Hc [(Eh & El & Hwf)|(Eh & d & s' & -> & El & Hd & Hwf)]].
    + destruct (IH s ltac:(cbn [length] in Hn; lia) Hwf) as (bs & Hbs & Hb & Hl & Hdec).
      cbn [code_points]. rewrite Eh, El. cbn [utf8_of_code_points]. rewrite Hbs. cbn [bind].
      unfold is_high_surrogate, is_low_surrogate in Eh, El.
      exists (utf8_octets c ++ bs). split; [reflexivity|]. split; [|split].
      * apply Forall_app. split; [apply utf8_octets_bytes; lia|exact Hb].
      * rewrite length_app. cbn [length].
        assert (length (utf8_octets c) <= 3)%nat
          by (unfold utf8_octets; decide_cmp; cbn [length]; lia).
        lia.
      * rewrite decode_octets by lia. rewrite Hdec. cbn [bind].
        unfold utf16_units. decide_cmp; reflexivity.
    + destruct (IH s' ltac:(cbn [length] in Hn; lia) Hwf) as (bs & Hbs & Hb & Hl & Hdec).
      cbn [code_points]. rewrite Eh, El. cbn [utf8_of_code_points]. rewrite Hbs. cbn [bind].
      unfold is_high_surrogate, is_low_surrogate in Eh, El.
      set (cp := 65536 + (c - 55296) * 1024 + (d - 56320)).
      assert (Hcp : 65536 <= cp < 1114112) by (subst cp; lia).
      exists (utf8_octets cp ++ bs). split; [reflexivity|]. split; [|split].
      * apply Forall_app. split; [apply utf8_octets_bytes; lia|exact Hb].
      * rewrite length_app. cbn [length]. pose proof (utf8_octets_length cp). lia.
      * rewrite decode_octets by lia. rewrite Hdec. cbn [bind].
        unfold utf16_units. destruct (Z.ltb_spec cp 65536); [lia|].
        replace (55296 + (cp - 65536) / 1024) with c by (subst cp; zarith).
        replace (56320 + (cp - 65536) mod 1024) with d by (subst cp; zarith). reflexivity.
Qed.

(** *** The transport string *)

Lemma nRounds_doReset (key : WA) :
  AES._nRounds (AES._doReset key) = WordArray.sigBytes key / 4 + 6.
Proof. reflexivity. Qed.

Lemma execute_ok (password bs : jsstring) (salt : WA) :
  unescape_encodeURIComponent password = Ok bs -> 0 <= WordArray.sigBytes salt ->
  exists ws,
    (forall rnd pos,
       OpenSSL.execute password AES.keySize AES.ivSize (Some salt) rnd pos
       = (Ok (WordArray.Build ws 32, WordArray.Build (skipn 8 ws) 16, salt), pos))
    /\ (forall rnd pos,
          WordArray.random rnd pos 8 = (salt, (pos + 2)%nat) ->
          OpenSSL.execute password AES.keySize AES.ivSize None rnd pos
          = (Ok (WordArray.Build ws 32, WordArray.Build (skipn 8 ws) 16, salt), (pos + 2)%nat)).
Proof.
  intros Hp Hs.
  destruct (EvpKDF_compute_ok password bs salt (AES.keySize + AES.ivSize) Hp Hs) as (ws & Hc).
  exists ws. split.
  - intros rnd pos. unfold OpenSSL.execute. rewrite Hc. reflexivity.
  - intros rnd pos Hr. unfold OpenSSL.execute. rewrite Hr, Hc. reflexivity.
Qed.

(** C1, as stated, fails for a plaintext with an unpaired surrogate (here
    the one-character string of code unit D800): [encodeURIComponent] raises
    [URIError] once the salt is drawn, and no transport string is produced. *)
Lemma unpaired_surrogate_is_not_encoded :
  CryptoJS_AES.encrypt [55296] (lit "secret") test_rnd 0 = (Throw URIError, 2%nat).
Proof. vm_compute. reflexivity. Qed.

(** C1, amended.  For every plaintext [P] and passphrase [K] in which no
    surrogate is unpaired, [P] of at most 2^30 code units (no engine has
    longer strings), [encrypt] returns a transport string [T] after two
    draws of the random source (the salt), and [decrypt] of [T] with [K]
    returns exactly [P] whatever the random source and without drawing from
    it: the salt is read from the transport string. *)
Theorem codec_round_trip (P K : jsstring) (rnd : nat -> Z) (pos : nat) :
  well_formed P = true -> well_formed K = true -> Z.of_nat (length P) <= 1073741824 ->
  exists T,
    CryptoJS_AES.encrypt P K rnd pos = (Ok T, (pos + 2)%nat)
    /\ forall rnd' pos', CryptoJS_AES.decrypt T K rnd' pos' = (Ok P, pos').
Proof.
  intros HP HK Hlen.
  destruct (utf8_roundtrip (length P) P (le_n _) HP) as (bs & Hbs & Hb & Hl & Hdec).
  destruct (utf8_roundtrip (length K) K (le_n _) HK) as (kb & Hkb & _).
  set (salt := WordArray.Build [rnd (pos + 0)%nat .| 0; rnd (pos + 1)%nat .| 0] 8).
  assert (Hr : WordArray.random rnd pos 8 = (salt, (pos + 2)%nat)) by reflexivity.
  destruct (execute_ok K kb salt Hkb ltac:(cbn; lia)) as (ws & Hex & Hex0).
  set (key := WordArray.Build ws 32) in *. set (iv := WordArray.Build (skipn 8 ws) 16) in *.
  assert (Hkey : 1 <= AES._nRounds (AES._doReset key)).
  { rewrite nRounds_doReset. unfold key. cbn [WordArray.sigBytes]. zarith. }
  destruct (BlockCipher_roundtrip key iv P bs Hkey Hbs Hb ltac:(lia))
    as (C & m & Henc & HCl & HC32 & Hm & b & Hdecf & Hstr).
  destruct (OpenSSL_roundtrip C m (rnd (pos + 0)%nat .| 0) (rnd (pos + 1)%nat .| 0)
              HC32 HCl (bor_int32 _ _) (bor_int32 _ _) ltac:(lia)) as (T & HT & HPa).
  fold salt in HT, HPa.
  exists T. split.
  - unfold CryptoJS_AES.encrypt. rewrite (Hex0 rnd pos Hr). cbn [bind]. cbv beta iota.
    rewrite Henc. cbn [bind]. rewrite HT. reflexivity.
  - intros rnd' pos'. unfold CryptoJS_AES.decrypt. rewrite HPa, Hex. cbn [bind]. cbv beta iota.
    rewrite Hdecf. cbn [bind]. unfold Utf8.stringify. rewrite Hstr, Hdec. reflexivity.
Qed.

Lemma codec_round_trip_witness :
  exists T,
    CryptoJS_AES.encrypt (lit "hello") (lit "secret") test_rnd 0 = (Ok T, 2%nat)
    /\ forall rnd' pos', CryptoJS_AES.decrypt T (lit "secret") rnd' pos' = (Ok (lit "hello"), pos').
Proof.
  apply (codec_round_trip (lit "hello") (lit "secret") test_rnd 0);
    [reflexivity | reflexivity | simpl; lia].
Defined.

(** ** The digests of [Sha256.hash] *)

Lemma hex_digit_char (d : Z) :
  0 <= d < 16 -> 48 <= hex_digit d <= 57 \/ 97 <= hex_digit d <= 102.
Proof. intros H. unfold hex_digit. destruct (Z.ltb_spec d 10); lia. Qed.

Lemma hex_digits_chars (fuel : nat) :
  forall (x : Z) (acc : jsstring),
    0 <= x -> Forall (fun c => 48 <= c <= 57 \/ 97 <= c <= 102) acc ->
    Forall (fun c => 48 <= c <= 57 \/ 97 <= c <= 102) (hex_digits fuel x acc).
Proof.
  induction fuel as [|f IH]; intros x acc Hx Hacc; cbn [hex_digits]; [exact Hacc|].
  destruct (Z.ltb_spec x 16).
  - apply Forall_cons; [apply hex_digit_char; lia|exact Hacc].
  - apply IH; [zarith|]. apply Forall_cons; [apply hex_digit_char; zarith|exact Hacc].
Qed.

Lemma hex8_chars (x : Z) :
  0 <= x ->
  length (Sha256.hex8 x) = 8%nat
  /\ Forall (fun c => 48 <= c <= 57 \/ 97 <= c <= 102) (Sha256.hex8 x).
Proof.
  intros Hx. unfold Sha256.hex8, slice_last. split.
  - rewrite length_skipn, length_app. change (length (lit "00000000")) with 8%nat. lia.
  - apply Forall_skipn. apply Forall_app. split.
    + change (lit "00000000") with (repeat 48 8). apply Forall_repeat. lia.
    + apply hex_digits_chars; [exact Hx|constructor].
Qed.

Lemma shru_0_range (x : Z) : 0 <= x .>>> 0 < 4294967296.
Proof.
  unfold JS.shru, JS.ToUint32. change (0 mod 32) with 0. rewrite Z.shiftr_0_r. zarith.
Qed.

Lemma compress_words (H Mi : list Z) :
  length (Sha256.compress H Mi) = 8%nat /\ Forall (fun w => 0 <= w) (Sha256.compress H Mi).
Proof.
  unfold Sha256.compress. cbv zeta. split; [reflexivity|].
  repeat (apply Forall_cons; [apply shru_0_range|]). constructor.
Qed.

Lemma fold_compress_words (M : list (list Z)) :
  forall H, length H = 8%nat -> Forall (fun w => 0 <= w) H ->
  length (fold_left Sha256.compress M H) = 8%nat
  /\ Forall (fun w => 0 <= w) (fold_left Sha256.compress M H).
Proof.
  induction M as [|Mi M IH]; intros H Hl Hp; cbn [fold_left]; [now split|].
  apply IH; apply compress_words.
Qed.

Lemma concat_hex8 (H : list Z) :
  Forall (fun w => 0 <= w) H ->
  length (List.concat (map Sha256.hex8 H)) = (8 * length H)%nat
  /\ Forall (fun c => 48 <= c <= 57 \/ 97 <= c <= 102) (List.concat (map Sha256.hex8 H)).
Proof.
  induction 1 as [|w H Hw _ [IH1 IH2]]; cbn [map List.concat length]; [split; [reflexivity|constructor]|].
  destruct (hex8_chars w Hw) as [Hl Hc]. split.
  - rewrite length_app, Hl, IH1. lia.
  - apply Forall_app. now split.
Qed.

Lemma ascii_well_formed (s : jsstring) :
  Forall (fun c => 0 <= c < 128) s -> well_formed s = true.
Proof.
  unfold well_formed. induction 1 as [|c s Hc _ IH]; [reflexivity|].
  apply andb_true_iff in IH as [IH1 IH2]. cbn [forallb code_points].
  assert (Eh : is_high_surrogate c = false) by (unfold is_high_surrogate; lia).
  assert (El : is_low_surrogate c = false) by (unfold is_low_surrogate; lia).
  rewrite Eh, El. cbn [forallb]. rewrite IH1, IH2.
  destruct (Z.leb_spec 0 c); [|lia]. destruct (Z.ltb_spec c 65536); [reflexivity|lia].
Qed.

Lemma Sha256_hash_digits (msg : jsstring) :
  length (Sha256.hash msg) = 64%nat
  /\ Forall (fun c => 48 <= c <= 57 \/ 97 <= c <= 102) (Sha256.hash msg).
Proof.
  unfold Sha256.hash. cbv zeta.
  set (M := Sha256.set_length_words _ _ _).
  destruct (fold_compress_words M Sha256.H_init eq_refl) as [Hl Hp].
  - unfold Sha256.H_init. repeat (apply Forall_cons; [lia|]). constructor.
  - destruct (concat_hex8 _ Hp) as [Hl' Hc]. rewrite Hl in Hl'. split; assumption.
Qed.

Lemma Sha256_hash_well_formed (msg : jsstring) : well_formed (Sha256.hash msg) = true.
Proof.
  destruct (Sha256_hash_digits msg) as [_ Hc].
  apply ascii_well_formed. eapply Forall_impl; [|exact Hc]. cbv beta. intros c Hcc. lia.
Qed.

(** *** Two messages with one digest *)

Lemma words_length (n : nat) (A : list Z) : length (words n A) = (length A ^ n)%nat.
Proof.
  induction n as [|n IH]; [reflexivity|].
  cbn [words]. rewrite Nat.pow_succ_r', <- IH.
  generalize (words n A) as W. clear IH. intros W.
  induction A as [|b B IHB]; [reflexivity|].
  cbn [flat_map length]. rewrite length_app, length_map. unfold jsstring in *. lia.
Qed.

Lemma words_In (A : list Z) (w : jsstring) :
  Forall (fun c => In c A) w -> In w (words (length w) A).
Proof.
  induction 1 as [|c w Hc _ IH]; [now left|].
  cbn [length words]. apply in_flat_map. exists c. split; [exact Hc|].
  now apply in_map.
Qed.

Lemma words_NoDup (n : nat) (A : list Z) : NoDup A -> NoDup (words n A).
Proof.
  intros HA. induction n as [|n IH]; [repeat constructor; intros []|].
  cbn [words]. generalize (words n A) IH. clear IH. intros W HW.
  induction HA as [|a B Ha _ IHB]; [constructor|].
  cbn [flat_map]. apply NoDup_app.
  - apply NoDup_map_NoDup_ForallPairs; [|exact HW].
    intros x y _ _ E. now injection E.
  - exact IHB.
  - intros w Hw Hw'. apply in_map_iff in Hw as (x & <- & _).
    apply in_flat_map in Hw' as (b & Hb & Hw'). apply in_map_iff in Hw' as (y & E & _).
    injection E as -> _. contradiction.
Qed.

(** More arguments than values: two arguments have one value. *)
Lemma two_with_one_value (f : jsstring -> jsstring) (l : list jsstring) :
  NoDup l ->
  forall T : list jsstring,
    (forall x, In x l -> In (f x) T) -> (length T < length l)%nat ->
    exists x y, x <> y /\ f x = f y.
Proof.
  induction 1 as [|a l Ha Hl IH]; intros T HT Hlen; [cbn in Hlen; lia|].
  destruct (in_dec (list_eq_dec Z.eq_dec) (f a) (map f l)) as [Hin|Hout].
  - apply in_map_iff in Hin as (y & Hy & Hyl). exists a, y. split; [|now symmetry].
    intros ->. contradiction.
  - apply (IH (remove (list_eq_dec Z.eq_dec) (f a) T)).
    + intros x Hx. apply in_in_remove; [|apply HT; now right].
      intros E. apply Hout. rewrite <- E. now apply in_map.
    + pose proof (remove_length_lt (list_eq_dec Z.eq_dec) T (f a) (HT a (or_introl eq_refl))).
      cbn [length] in Hlen. unfold jsstring in *. lia.
Qed.

Lemma hex_alphabet_digits (s : jsstring) :
  Forall (fun c => 48 <= c <= 57 \/ 97 <= c <= 102) s -> Forall (fun c => In c hex_alphabet) s.
Proof.
  apply Forall_impl. intros c Hc. vm_compute. lia.
Qed.

(** Whatever the message is made of, two different ingredients give one
    digest: there are more strings of 65 characters than digests. *)
Lemma Sha256_hash_collision (g : jsstring -> jsstring) :
  exists w w', w <> w' /\ Sha256.hash (g w) = Sha256.hash (g w').
Proof.
  assert (G : forall n, (forall x, length (Sha256.hash (g x)) = n) ->
                        exists w w', w <> w' /\ Sha256.hash (g w) = Sha256.hash (g w')).
  { intros n Hn.
    apply (two_with_one_value (fun w => Sha256.hash (g w)) (words (S n) hex_alphabet))
      with (T := words n hex_alphabet).
    - apply words_NoDup. let v := eval vm_compute in hex_alphabet in change hex_alphabet with v.
      repeat (constructor; [cbn [In]; lia|]). constructor.
    - intros x _. rewrite <- (Hn x). apply words_In, hex_alphabet_digits.
      apply Sha256_hash_digits.
    - rewrite !words_length. apply Nat.pow_lt_mono_r; [|lia].
      change (length hex_alphabet) with 16%nat. lia. }
  apply (G 64%nat). intros x. apply Sha256_hash_digits.
Qed.

(** ** C3: passphrase derivation *)

(** C3, as stated, fails.  A change of the location alone can keep the
    passphrase: two locations that differ by an embedded [https://] are
    stripped to the same identity, whatever the store; and two [https]
    locations of one server keep it when the narrow secrets stored for them
    make up for the difference.  A change of the displayed name alone, or of
    one secret alone, keeps the passphrase for some pairs of names, or of
    secrets, whatever the other inputs are: the digests are finitely many. *)
Lemma passphrase_kept_under_change :
  (lit "http://a/https://b/c" <> lit "http://a/b/c"
   /\ forall (obj : storage) (title : option jsstring),
        setPassphrase obj (lit "http://a/https://b/c") title
        = setPassphrase obj (lit "http://a/b/c") title)
  /\ (let obj := saveChrome (saveChrome (fun _ => None) (lit "a/b/c/x") (lit "ysecret"))
                            (lit "a/b/c/xy") (lit "secret") in
      lit "https://a/b/c/x" <> lit "https://a/b/c/xy"
      /\ forall title : option jsstring,
           setPassphrase obj (lit "https://a/b/c/x") title
           = setPassphrase obj (lit "https://a/b/c/xy") title)
  /\ (forall (obj : storage) (href : jsstring),
        exists name name',
          name <> name'
          /\ setPassphrase obj href (Some name) = setPassphrase obj href (Some name'))
  /\ (forall (obj : storage) (href name : jsstring),
        exists sk sk',
          sk <> sk'
          /\ setPassphrase (saveChrome obj (fst (setPassphrase_scope href)) sk) href (Some name)
             = setPassphrase (saveChrome obj (fst (setPassphrase_scope href)) sk') href
                 (Some name))
  /\ (forall (obj : storage) (href name : jsstring),
        exists ck ck',
          ck <> ck'
          /\ setPassphrase (saveChrome obj (snd (setPassphrase_scope href)) ck) href (Some name)
             = setPassphrase (saveChrome obj (snd (setPassphrase_scope href)) ck') href
                 (Some name)).
Proof.
  split; [|split; [|split; [|split]]].
  - split; [discriminate|]. intros obj title. unfold setPassphrase.
    replace (setPassphrase_scope (lit "http://a/https://b/c"))
      with (setPassphrase_scope (lit "http://a/b/c")) by (vm_compute; reflexivity).
    reflexivity.
  - cbv zeta. split; [discriminate|]. intros [name|]; [|reflexivity].
    unfold setPassphrase, passphrase_material.
    replace (setPassphrase_scope (lit "https://a/b/c/x"))
      with (lit "a/b/c", lit "a/b/c/x") by (vm_compute; reflexivity).
    replace (setPassphrase_scope (lit "https://a/b/c/xy"))
      with (lit "a/b/c", lit "a/b/c/xy") by (vm_compute; reflexivity).
    cbv iota beta. do 2 f_equal; try (vm_compute; reflexivity).
  - intros obj href. unfold setPassphrase.
    destruct (setPassphrase_scope href) as [serverurl url].
    destruct (Sha256_hash_collision
                (fun w => passphrase_material w url
                            (match obj serverurl with Some k => k | None => [] end)
                            (match obj url with Some k => k | None => [] end)))
      as (w & w' & Hw & E).
    exists w, w'. split; [exact Hw|]. now rewrite E.
  - intros obj href name. unfold setPassphrase.
    destruct (setPassphrase_scope href) as [serverurl url]. cbn [fst].
    destruct (Sha256_hash_collision
                (fun w => passphrase_material name url
                            (match saveChrome obj serverurl w serverurl
                             with Some k => k | None => [] end)
                            (match saveChrome obj serverurl w url
                             with Some k => k | None => [] end)))
      as (w & w' & Hw & E).
    exists w, w'. split; [exact Hw|]. now rewrite E.
  - intros obj href name. unfold setPassphrase.
    destruct (setPassphrase_scope href) as [serverurl url]. cbn [snd].
    destruct (Sha256_hash_collision
                (fun w => passphrase_material name url
                            (match saveChrome obj url w serverurl
                             with Some k => k | None => [] end)
                            (match saveChrome obj url w url
                             with Some k => k | None => [] end)))
      as (w & w' & Hw & E).
    exists w, w'. split; [exact Hw|]. now rewrite E.
Qed.

Lemma Ok_neq {A : Type} (x y : A) : x <> y -> Ok x <> Ok y.
Proof. intros H E. apply H. now injection E. Qed.

(** C3, amended.  The session passphrase is [Sha256.hash] of the
    concatenation, in this order, of the displayed name, the location
    without its first [https://], the broad secret, the narrow secret and the
    static salt, an absent secret counting as the empty string; with the
    element that shows the name on the page the derivation returns, and it
    depends on the store through these two entries only, so identical inputs
    give identical passphrases.  Changing the displayed name alone, the
    broad secret alone or the narrow secret alone changes the string that is
    hashed, so that the passphrase changes exactly when [Sha256.hash]
    tells the two strings apart; it does for the values tried here, where
    the location is changed as well. *)
Theorem passphrase_derivation (obj obj' : storage) (href name : jsstring) :
  let serverurl := fst (setPassphrase_scope href) in
  let url := snd (setPassphrase_scope href) in
  let secret (o : storage) k := match o k with Some v => v | None => [] end in
  let sk := secret obj serverurl in
  let ck := secret obj url in
  let hashed (name url sk ck : jsstring) := name ++ url ++ sk ++ ck ++ lit "9AK0Q4Ga0o" in
  let tried := saveChrome (saveChrome (fun _ => None) (lit "a/b/c") (lit "serverkey"))
                          (lit "a/b/c/d") (lit "channelkey") in
  setPassphrase obj href (Some name) = Ok (Sha256.hash (hashed name url sk ck))
  /\ (secret obj' serverurl = sk -> secret obj' url = ck ->
      setPassphrase obj' href (Some name) = setPassphrase obj href (Some name))
  /\ (forall name', name' <> name ->
        hashed name' url sk ck <> hashed name url sk ck
        /\ setPassphrase obj href (Some name') = Ok (Sha256.hash (hashed name' url sk ck))
        /\ (setPassphrase obj href (Some name') <> setPassphrase obj href (Some name)
            <-> Sha256.hash (hashed name' url sk ck) <> Sha256.hash (hashed name url sk ck)))
  /\ (forall sk', sk' <> sk -> secret obj' serverurl = sk' -> secret obj' url = ck ->
        hashed name url sk' ck <> hashed name url sk ck
        /\ setPassphrase obj' href (Some name) = Ok (Sha256.hash (hashed name url sk' ck))
        /\ (setPassphrase obj' href (Some name) <> setPassphrase obj href (Some name)
            <-> Sha256.hash (hashed name url sk' ck) <> Sha256.hash (hashed name url sk ck)))
  /\ (forall ck', ck' <> ck -> secret obj' serverurl = sk -> secret obj' url = ck' ->
        hashed name url sk ck' <> hashed name url sk ck
        /\ setPassphrase obj' href (Some name) = Ok (Sha256.hash (hashed name url sk ck'))
        /\ (setPassphrase obj' href (Some name) <> setPassphrase obj href (Some name)
            <-> Sha256.hash (hashed name url sk ck') <> Sha256.hash (hashed name url sk ck)))
  /\ setPassphrase tried (lit "https://a/b/c/d") (Some (lit "general"))
     = Ok (lit "cbc4eba3c4069fad3b919c0120b313c9f7b7dee2a86c1d07011c02a2d2ac304c")
  /\ setPassphrase tried (lit "https://a/b/c/d") (Some (lit "random"))
     = Ok (lit "23ab55db1bc5c59ff748ed515208d77fae0c6673a42b19dc5fc46601a7bc4b55")
  /\ setPassphrase (saveChrome tried (lit "a/b/c") (lit "serverkez")) (lit "https://a/b/c/d")
       (Some (lit "general"))
     = Ok (lit "6b280421cbd4bdf041daf21ca0ca610d2d6ae4b7fece22ba08cc3bc5a1208fcf")
  /\ setPassphrase (saveChrome tried (lit "a/b/c/d") (lit "channelkez")) (lit "https://a/b/c/d")
       (Some (lit "general"))
     = Ok (lit "b5d4a3559953fc3a94bb952f709b970110893ff0593e63e0b6f29c99a0a9d8ab")
  /\ setPassphrase tried (lit "https://a/b/c/e") (Some (lit "general"))
     = Ok (lit "847d545caf3edb4a2a33538797aa0b3a7b081ce55b3b8859188381fd69162e6e")
  /\ setPassphrase (fun _ => None) (lit "https://a/b/c/d") (Some (lit "general"))
     = Ok (lit "a5cfc19fe80922dee3016d7e31e6201109a92976979a42c4f014729330e9fd27").
Proof.
  intros serverurl url secret sk ck hashed tried.
  assert (Hset : forall o n, setPassphrase o href (Some n)
                             = Ok (Sha256.hash (hashed n url (secret o serverurl) (secret o url)))).
  { intros o n. subst serverurl url secret hashed. unfold setPassphrase, passphrase_material.
    destruct (setPassphrase_scope href) as [su u]. reflexivity. }
  assert (Hiff : forall x y : jsstring, Ok x <> Ok y <-> x <> y).
  { intros x y. split; [intros H E; apply H; now rewrite E|apply Ok_neq]. }
  split; [apply Hset|].
  split; [intros E1 E2; rewrite !Hset, E1, E2; reflexivity|].
  split; [|split; [|split]].
  - intros name' Hn. split; [|split; [apply Hset|rewrite !Hset; apply Hiff]].
    intros E. apply Hn. unfold hashed in E. now apply app_inv_tail in E.
  - intros sk' Hs E1 E2. rewrite !Hset, E1, E2. fold sk ck.
    split; [|split; [reflexivity|apply Hiff]].
    intros E. apply Hs. unfold hashed in E. do 2 apply app_inv_head in E.
    now apply app_inv_tail in E.
  - intros ck' Hc E1 E2. rewrite !Hset, E1, E2. fold sk ck.
    split; [|split; [reflexivity|apply Hiff]].
    intros E. apply Hc. unfold hashed in E. do 3 apply app_inv_head in E.
    now apply app_inv_tail in E.
  - subst tried. repeat split; vm_compute; reflexivity.
Qed.

(* ====================================================================== *)
(** * Part IV.  Further properties of the code                             *)
(* ====================================================================== *)

(** ** inject.js: CryptoJS, AES *)

Lemma block_split (a : list Z) (b : Z) :
  0 <= b -> b + 4 <= Z.of_nat (length a) ->
  exists pre x0 x1 x2 x3 rest,
    a = pre ++ x0 :: x1 :: x2 :: x3 :: rest /\ b = Z.of_nat (length pre).
Proof.
  intros Hb Hlen. exists (firstn (Z.to_nat b) a).
  pose proof (firstn_skipn (Z.to_nat b) a) as Hs.
  pose proof (length_skipn (Z.to_nat b) a) as Hl.
  destruct (skipn (Z.to_nat b) a) as [|x0 [|x1 [|x2 [|x3 rest]]]];
    cbn [length] in Hl; try lia.
  exists x0, x1, x2, x3, rest. split; [now rewrite Hs|].
  rewrite length_firstn. lia.
Qed.

Lemma aget_cons (x : Z) (l : list Z) (i : Z) : 1 <= i -> (x :: l).[i] = l.[i - 1].
Proof.
  intros Hi. change (x :: l) with ([x] ++ l). rewrite aget_app2 by (cbn [length]; lia).
  reflexivity.
Qed.

(** X1.  [encryptBlock] rewrites the four words at the offset and nothing
    else, and [decryptBlock] at the same offset, under the same key, puts
    the four words back: the array is as it was.  This holds for every key
    of a whole number of words, at least one (128, 192 and 256 bits among
    them), and every array whose four words at the offset are 32-bit
    integers. *)
Theorem AES_decryptBlock_encryptBlock (key : WA) (a : list Z) (b : Z) :
  0 < WordArray.sigBytes key -> WordArray.sigBytes key mod 4 = 0 ->
  0 <= b -> b + 4 <= Z.of_nat (length a) ->
  Forall int32 (slice a b (b + 4)) ->
  AES.decryptBlock (AES._doReset key) (AES.encryptBlock (AES._doReset key) a b) b = a
  /\ length (AES.encryptBlock (AES._doReset key) a b) = length a
  /\ (forall i, i < b \/ b + 4 <= i -> (AES.encryptBlock (AES._doReset key) a b).[i] = a.[i]).
Proof.
  intros Hkey _ Hb Hlen Hw.
  assert (HN : 1 <= AES._nRounds (AES._doReset key)) by (rewrite nRounds_doReset; zarith).
  destruct (block_split a b Hb Hlen) as (pre & x0 & x1 & x2 & x3 & rest & -> & Hpre).
  rewrite slice_block in Hw by exact Hpre.
  rewrite encryptBlock_block by exact Hpre.
  pose proof (block4_inverse key HN x0 x1 x2 x3) as Hinv.
  destruct (encryptBlock_4 (AES._doReset key) x0 x1 x2 x3) as (y0 & y1 & y2 & y3 & E & _).
  rewrite E in Hinv |- *. cbn [app].
  split; [|split].
  - rewrite decryptBlock_block by exact Hpre. rewrite Hinv. cbn [app].
    inversion Hw as [|? ? H0 Hw1]; subst. inversion Hw1 as [|? ? H1 Hw2]; subst.
    inversion Hw2 as [|? ? H2 Hw3]; subst. inversion Hw3 as [|? ? H3 _]; subst.
    now rewrite !ToInt32_id by assumption.
  - rewrite !length_app. reflexivity.
  - intros i [Hi|Hi].
    + destruct (Z.ltb_spec i 0); [now rewrite !aget_out by lia|].
      now rewrite !aget_app1 by lia.
    + rewrite !aget_app2 by lia.
      rewrite !aget_cons by lia. reflexivity.
Qed.

Lemma AES_decryptBlock_encryptBlock_witness :
  AES.decryptBlock (AES._doReset (WordArray.Build [1; 2; 3; 4] 16))
    (AES.encryptBlock (AES._doReset (WordArray.Build [1; 2; 3; 4] 16)) [7; 5; -6; 9; 0; 4] 1) 1
  = [7; 5; -6; 9; 0; 4].
Proof.
  apply (AES_decryptBlock_encryptBlock (WordArray.Build [1; 2; 3; 4] 16) [7; 5; -6; 9; 0; 4] 1);
    [simpl; lia | reflexivity | lia | simpl; lia | repeat constructor; unfold int32; lia].
Defined.

(** ** inject.js: CryptoJS, the block cipher with CBC and Pkcs7 *)

Lemma encryptor_finalize_size (key iv : WA) (message bs : jsstring) (c : WA) :
  unescape_encodeURIComponent message = Ok bs ->
  Forall is_byte bs -> Z.of_nat (length bs) + 16 < 4294967296 ->
  BlockCipher.encryptor_finalize key iv message = Ok c ->
  WordArray.sigBytes c = 16 * (Z.of_nat (length bs) / 16 + 1).
Proof.
  intros Hutf Hbs Hlen.
  destruct (Latin1_parse_packed bs Hbs ltac:(lia)) as [Hp Hsig].
  destruct (Latin1.parse bs) as [e n] eqn:Hparse. cbn [WordArray.words WordArray.sigBytes] in *.
  destruct (Pkcs7_pad_packed bs e n Hp Hsig ltac:(lia)) as (W & Hpad & HpW).
  pose proof (packed_length _ _ HpW) as HlW. rewrite length_app, repeat_length in HlW.
  pose proof (Z.mod_pos_bound n 16 ltac:(lia)) as Hm.
  set (m := Z.to_nat ((n + (16 - n mod 16)) / 16)).
  assert (Hnc : n + (16 - n mod 16) = 16 * Z.of_nat m) by (subst m; zarith).
  assert (HWlen : length W = (4 * m)%nat) by zarith.
  pose proof (process_encrypt key iv W m HWlen) as Henc. cbv zeta in Henc.
  unfold BlockCipher.encryptor_finalize, Utf8.parse. cbv zeta.
  rewrite Hutf. cbn [bind]. rewrite Hparse.
  rewrite concat_empty by (try lia; rewrite Hsig; apply (packed_length _ _ Hp)).
  cbn [bind]. rewrite Hpad. cbn [bind]. rewrite Hnc.
  rewrite (let_first _ (fun b => Ok b)), Henc.
  intros [= <-]. change (16 * Z.of_nat m = 16 * (Z.of_nat (length bs) / 16 + 1)).
  rewrite <- Hnc. clear Henc Hnc HWlen. zarith.
Qed.

(** X2.  With any key of a whole number of words, at least one, and any IV,
    the encryptor's [finalize] of a string with no unpaired surrogate
    returns whole blocks: 16 bytes for every 16 bytes of
    the UTF-8 text and one block more (Pkcs7 always pads), in as many words.
    The decryptor's [finalize] of that ciphertext, under the same key and
    IV, returns the UTF-8 bytes, which [Utf8.stringify] reads back as the
    string. *)
Theorem BlockCipher_finalize_roundtrip (key iv : WA) (message : jsstring) :
  0 < WordArray.sigBytes key -> WordArray.sigBytes key mod 4 = 0 ->
  well_formed message = true ->
  Z.of_nat (length message) <= 1073741824 ->
  exists bs C b,
    unescape_encodeURIComponent message = Ok bs
    /\ BlockCipher.encryptor_finalize key iv message
       = Ok (WordArray.Build C (16 * (Z.of_nat (length bs) / 16 + 1)))
    /\ Z.of_nat (length C) = 4 * (Z.of_nat (length bs) / 16 + 1)
    /\ BlockCipher.decryptor_finalize key iv
         (WordArray.Build C (16 * (Z.of_nat (length bs) / 16 + 1))) = Ok b
    /\ Utf8.stringify b = Ok message.
Proof.
  intros Hk _ Hwf Hlen.
  destruct (utf8_roundtrip (length message) message (le_n _) Hwf) as (bs & Hbs & Hb & Hl & Hdec).
  assert (HN : 1 <= AES._nRounds (AES._doReset key)) by (rewrite nRounds_doReset; zarith).
  destruct (BlockCipher_roundtrip key iv message bs HN Hbs Hb ltac:(lia))
    as (C & m & Henc & HCl & HC32 & Hm & b & Hdecf & Hstr).
  pose proof (encryptor_finalize_size key iv message bs _ Hbs Hb ltac:(lia) Henc) as Hs.
  cbn [WordArray.sigBytes] in Hs.
  exists bs, C, b. rewrite <- Hs.
  split; [exact Hbs|]. split; [exact Henc|]. split; [lia|]. split; [exact Hdecf|].
  unfold Utf8.stringify. now rewrite Hstr, Hdec.
Qed.

Lemma BlockCipher_finalize_roundtrip_witness :
  exists bs C b,
    unescape_encodeURIComponent (lit "hello") = Ok bs
    /\ BlockCipher.encryptor_finalize (WordArray.Build [1; 2; 3; 4] 16) (WordArray.Build [] 0)
         (lit "hello")
       = Ok (WordArray.Build C (16 * (Z.of_nat (length bs) / 16 + 1)))
    /\ Z.of_nat (length C) = 4 * (Z.of_nat (length bs) / 16 + 1)
    /\ BlockCipher.decryptor_finalize (WordArray.Build [1; 2; 3; 4] 16) (WordArray.Build [] 0)
         (WordArray.Build C (16 * (Z.of_nat (length bs) / 16 + 1))) = Ok b
    /\ Utf8.stringify b = Ok (lit "hello").
Proof.
  apply (BlockCipher_finalize_roundtrip (WordArray.Build [1; 2; 3; 4] 16) (WordArray.Build [] 0)
           (lit "hello")); [simpl; lia | reflexivity | reflexivity | simpl; lia].
Defined.

(** ** inject.js: CryptoJS, WordArray *)

Lemma length_wbytes (ws : list Z) (n : nat) : length (wbytes ws n) = n.
Proof. unfold wbytes. now rewrite length_map, length_seq. Qed.

Lemma nth_wbytes (ws : list Z) (n : nat) (j : nat) :
  nth j (wbytes ws n) 0 = if (j <? n)%nat then wbyte ws (Z.of_nat j) else 0.
Proof.
  destruct (Nat.ltb_spec j n) as [H|H].
  - unfold wbytes.
    rewrite (nth_indep _ 0 (wbyte ws (Z.of_nat 0%nat))) by (now rewrite length_map, length_seq).
    rewrite (map_nth (fun j => wbyte ws (Z.of_nat j))), seq_nth by exact H. reflexivity.
  - apply nth_overflow. now rewrite length_wbytes.
Qed.

Lemma wbytes_bytes (ws : list Z) (n : nat) : Forall is_byte (wbytes ws n).
Proof.
  apply Forall_forall. intros b Hb. unfold wbytes in Hb.
  apply in_map_iff in Hb as (j & <- & _). apply wbyte_range.
Qed.

Lemma wbytes_ext (a b : list Z) (n : nat) :
  (forall j, 0 <= j < Z.of_nat n -> wbyte a j = wbyte b j) -> wbytes a n = wbytes b n.
Proof.
  intros H. unfold wbytes. apply map_ext_in. intros j Hj. apply in_seq in Hj. apply H. lia.
Qed.

Lemma wbyte_firstn (l : list Z) (m : nat) (j : Z) :
  0 <= j -> wbyte (firstn m l) j = if j / 4 <? Z.of_nat m then wbyte l j else 0.
Proof.
  intros Hj. unfold wbyte.
  assert (Hq : 0 <= j / 4) by zarith.
  destruct (Z.ltb_spec (j / 4) (Z.of_nat m)) as [H|H].
  - f_equal. rewrite !aget_nth by lia.
    rewrite <- (firstn_skipn m l) at 2.
    destruct (Nat.ltb_spec (Z.to_nat (j / 4)) (length (firstn m l))) as [H1|H1].
    + now rewrite app_nth1 by exact H1.
    + rewrite (nth_overflow (firstn m l)) by exact H1.
      rewrite length_firstn in H1.
      symmetry. apply nth_overflow. rewrite length_app, length_firstn, length_skipn. lia.
  - rewrite aget_out; [apply byteOf_zero|]. right. rewrite length_firstn. lia.
Qed.

Lemma set_length_firstn (l : list Z) (n : Z) :
  0 <= n <= Z.of_nat (length l) -> set_length l n = firstn (Z.to_nat n) l.
Proof.
  intros Hn. unfold set_length.
  replace (Z.to_nat n - length l)%nat with 0%nat by lia. apply app_nil_r.
Qed.

Lemma byteOf_mask (k k' : Z) :
  0 <= k <= 3 -> 0 <= k' <= 3 ->
  byteOf k' (4294967295 .<< 32 - 8 * k) = if (k =? 0) || (k' <? k) then 255 else 0.
Proof.
  intros Hk Hk'.
  assert (Hc : k = 0 \/ k = 1 \/ k = 2 \/ k = 3) by lia.
  assert (Hc' : k' = 0 \/ k' = 1 \/ k' = 2 \/ k' = 3) by lia.
  destruct Hc as [->|[->|[->| ->]]], Hc' as [->|[->|[->| ->]]]; reflexivity.
Qed.

(** What [clamp] leaves: as many words as the bytes need, the bytes
    themselves, and zero bytes after them. *)
Lemma clamp_any (ws : list Z) (c : Z) :
  Forall int32 ws -> 0 <= c <= 4 * Z.of_nat (length ws) -> c < 4294967296 ->
  exists ws', WordArray.clamp (WordArray.Build ws c) = Ok (WordArray.Build ws' c)
              /\ packed (wbytes ws (Z.to_nat c)) ws'.
Proof.
  intros Hws Hc Hlt. unfold WordArray.clamp. cbv zeta. cbn [WordArray.words WordArray.sigBytes].
  rewrite ceil_div_4, shru_2, rem4 by lia.
  destruct (Z.ltb_spec ((c + 3) / 4) 0) as [H|_]; [zarith|].
  eexists. split; [reflexivity|].
  pose proof (Z.mod_pos_bound c 4 ltac:(lia)) as Hk.
  set (w := ws.[c / 4] .& (4294967295 .<< 32 - 8 * (c mod 4))).
  assert (Hlen : Z.of_nat (length (aset ws (c / 4) w)) >= (c + 3) / 4).
  { rewrite length_aset by zarith. zarith. }
  rewrite set_length_firstn by zarith.
  split; [|split].
  - rewrite length_firstn, length_wbytes. zarith.
  - apply Forall_firstn, Forall_aset; [exact Hws|exact int32_0|apply band_int32].
  - intros j Hj. rewrite nth_wbytes, wbyte_firstn by lia.
    rewrite wbyte_aset by zarith.
    destruct (Nat.ltb_spec (Z.to_nat j) (Z.to_nat c)) as [H1|H1].
    + rewrite (Z2Nat.id j) by lia.
      destruct (Z.ltb_spec (j / 4) (Z.of_nat (Z.to_nat ((c + 3) / 4)))); [|zarith].
      destruct (Z.eqb_spec (j / 4) (c / 4)) as [E|E]; [|reflexivity].
      unfold w. rewrite byteOf_band, byteOf_mask by zarith.
      destruct (Z.eqb_spec (c mod 4) 0); [zarith|].
      destruct (Z.ltb_spec (j mod 4) (c mod 4)); [|zarith].
      cbn [orb]. unfold wbyte. rewrite E. apply land_byte_255, byteOf_range.
    + destruct (Z.ltb_spec (j / 4) (Z.of_nat (Z.to_nat ((c + 3) / 4)))); [|reflexivity].
      destruct (Z.eqb_spec (j / 4) (c / 4)) as [E|E]; [|zarith].
      unfold w. rewrite byteOf_band, byteOf_mask by zarith.
      destruct (Z.eqb_spec (c mod 4) 0); [zarith|].
      destruct (Z.ltb_spec (j mod 4) (c mod 4)); [zarith|].
      cbn [orb]. apply Z.land_0_r.
Qed.

Lemma packed_wbytes (bs ws : list Z) : packed bs ws -> wbytes ws (length bs) = bs.
Proof. intros H. apply (wbytes_packed bs [] ws). now rewrite app_nil_r. Qed.

Lemma packed_zero (bs ws : list Z) (j : Z) :
  packed bs ws -> Z.of_nat (length bs) <= j -> wbyte ws j = 0.
Proof. intros (_ & _ & H) Hj. rewrite H by lia. apply nth_overflow. lia. Qed.

(** X3.  [clamp] of a word array whose byte count is within its words cuts
    the array to the words the bytes need, keeps every byte that counts and
    clears the bytes of the last word that do not; a second [clamp] changes
    nothing. *)
Theorem WordArray_clamp_bytes (ws : list Z) (c : Z) :
  Forall int32 ws -> 0 <= c <= 4 * Z.of_nat (length ws) -> c < 4294967296 ->
  exists ws',
    WordArray.clamp (WordArray.Build ws c) = Ok (WordArray.Build ws' c)
    /\ Z.of_nat (length ws') = (c + 3) / 4
    /\ wbytes ws' (Z.to_nat c) = wbytes ws (Z.to_nat c)
    /\ (forall j, c <= j -> wbyte ws' j = 0)
    /\ WordArray.clamp (WordArray.Build ws' c) = Ok (WordArray.Build ws' c).
Proof.
  intros Hws Hc Hlt. destruct (clamp_any ws c Hws Hc Hlt) as (ws' & E & Hp).
  exists ws'. split; [exact E|].
  pose proof (packed_length _ _ Hp) as Hl. rewrite length_wbytes in Hl.
  split; [rewrite Hl; f_equal; lia|]. split; [|split].
  - pose proof (packed_wbytes _ _ Hp) as H. now rewrite length_wbytes in H.
  - intros j Hj. apply (packed_zero _ _ j Hp). rewrite length_wbytes. lia.
  - apply (clamp_packed _ _ c Hp); [rewrite length_wbytes; lia|exact Hlt].
Qed.

Lemma WordArray_clamp_bytes_witness :
  exists ws',
    WordArray.clamp (WordArray.Build [16909060; 84281096] 5) = Ok (WordArray.Build ws' 5)
    /\ Z.of_nat (length ws') = (5 + 3) / 4
    /\ wbytes ws' (Z.to_nat 5) = wbytes [16909060; 84281096] (Z.to_nat 5)
    /\ (forall j, 5 <= j -> wbyte ws' j = 0)
    /\ WordArray.clamp (WordArray.Build ws' 5) = Ok (WordArray.Build ws' 5).
Proof.
  apply (WordArray_clamp_bytes [16909060; 84281096] 5);
    [repeat constructor; unfold int32; lia | simpl; lia | lia].
Defined.

Lemma concat_clamped (ws ws' : list Z) (n : Z) (a : WA) :
  WordArray.clamp (WordArray.Build ws n) = Ok (WordArray.Build ws' n) ->
  WordArray.clamp (WordArray.Build ws' n) = Ok (WordArray.Build ws' n) ->
  WordArray.concat (WordArray.Build ws n) a = WordArray.concat (WordArray.Build ws' n) a.
Proof.
  intros H1 H2. unfold WordArray.concat. cbv zeta. cbn [WordArray.sigBytes].
  now rewrite H1, H2.
Qed.

Lemma concat_aligned_any (ws e : list Z) (j n : Z) :
  j = 4 * Z.of_nat (length ws) -> 0 <= n <= 4 * Z.of_nat (length e) ->
  j + n < 4294967296 ->
  WordArray.concat (WordArray.Build ws j) (WordArray.Build e n)
  = Ok (WordArray.Build
          (ws ++ if 65535 <? Z.of_nat (length e) then firstn (Z.to_nat ((n + 3) / 4)) e else e)
          (j + n)).
Proof.
  intros Hj Hn Hlt. unfold WordArray.concat. cbv zeta.
  cbn [WordArray.words WordArray.sigBytes].
  rewrite clamp_exact by lia. cbn [bind WordArray.words].
  rewrite rem4 by lia. replace (j mod 4) with 0 by zarith. cbn [Z.eqb negb].
  destruct (65535 <? Z.of_nat (length e)); [|reflexivity].
  do 2 f_equal. rewrite ceil_div_4.
  assert (H : forall i, (i <= length e)%nat -> 4 * Z.of_nat i <= n + 3 ->
            for_loop 0 i (fun i c => let k := 4 * i in aset c (j + k .>>> 2) e.[k .>>> 2]) ws
            = ws ++ firstn i e).
  { induction i as [|i IH]; intros Hi Hi4.
    - rewrite for_loop_0. cbn [firstn]. now rewrite app_nil_r.
    - rewrite for_loop_S, IH by lia. rewrite Z.add_0_l. cbv zeta.
      rewrite !shru_2 by zarith.
      replace (4 * Z.of_nat i / 4) with (Z.of_nat i) by zarith.
      rewrite aset_end.
      + rewrite firstn_snoc by lia. rewrite aget_nth, Nat2Z.id by lia. now rewrite app_assoc.
      + rewrite length_app, length_firstn. zarith. }
  apply H; zarith.
Qed.

Lemma wbyte_app (a b : list Z) (j : Z) :
  0 <= j ->
  wbyte (a ++ b) j
  = if j <? 4 * Z.of_nat (length a) then wbyte a j else wbyte b (j - 4 * Z.of_nat (length a)).
Proof.
  intros Hj. unfold wbyte. destruct (Z.ltb_spec j (4 * Z.of_nat (length a))).
  - now rewrite aget_app1 by zarith.
  - rewrite aget_app2 by zarith.
    replace ((j - 4 * Z.of_nat (length a)) / 4) with (j / 4 - Z.of_nat (length a)) by zarith.
    replace ((j - 4 * Z.of_nat (length a)) mod 4) with (j mod 4) by zarith. reflexivity.
Qed.

Lemma map_seq_shift {A : Type} (f : nat -> A) (n m : nat) :
  map f (seq n m) = map (fun j => f (n + j)%nat) (seq 0 m).
Proof.
  induction m as [|m IH]; [reflexivity|].
  rewrite !seq_S, !map_app, IH. reflexivity.
Qed.

Lemma wbytes_app_ext (r ws e : list Z) (n m : nat) :
  (forall j, 0 <= j < Z.of_nat n -> wbyte r j = wbyte ws j) ->
  (forall j, 0 <= j < Z.of_nat m -> wbyte r (Z.of_nat n + j) = wbyte e j) ->
  wbytes r (n + m) = wbytes ws n ++ wbytes e m.
Proof.
  intros H1 H2. unfold wbytes. rewrite seq_app, map_app. f_equal.
  - apply map_ext_in. intros j Hj. apply in_seq in Hj. apply H1. lia.
  - cbn [Nat.add]. rewrite map_seq_shift. apply map_ext_in. intros j Hj. apply in_seq in Hj.
    rewrite Nat2Z.inj_add. apply H2. lia.
Qed.

(** X4.  [concat] adds the byte counts and leaves, in the first bytes of the
    result, the bytes of the receiver followed by the bytes of the argument,
    whether the receiver ends on a word boundary or inside a word. *)
Theorem WordArray_concat_bytes (ws e : list Z) (n m : Z) :
  Forall int32 ws -> 0 <= n <= 4 * Z.of_nat (length ws) ->
  0 <= m <= 4 * Z.of_nat (length e) -> n + m < 4294967296 ->
  exists r,
    WordArray.concat (WordArray.Build ws n) (WordArray.Build e m)
    = Ok (WordArray.Build r (n + m))
    /\ wbytes r (Z.to_nat (n + m)) = wbytes ws (Z.to_nat n) ++ wbytes e (Z.to_nat m).
Proof.
  intros Hws Hn Hm Hlt.
  destruct (clamp_any ws n Hws Hn ltac:(lia)) as (ws' & E & Hp).
  pose proof (packed_length _ _ Hp) as Hl. rewrite length_wbytes in Hl.
  assert (E' : WordArray.clamp (WordArray.Build ws' n) = Ok (WordArray.Build ws' n))
    by (apply (clamp_packed _ _ n Hp); [rewrite length_wbytes; lia|lia]).
  rewrite (concat_clamped ws ws' n _ E E').
  replace (Z.to_nat (n + m)) with (Z.to_nat n + Z.to_nat m)%nat by lia.
  destruct (Z.eq_dec (n mod 4) 0) as [Ha|Ha].
  - rewrite concat_aligned_any by zarith. eexists. split; [reflexivity|].
    apply wbytes_app_ext.
    + intros j Hj. rewrite wbyte_app by lia.
      destruct (Z.ltb_spec j (4 * Z.of_nat (length ws'))); [|zarith].
      destruct Hp as (_ & _ & Hw). rewrite Hw, nth_wbytes by lia.
      destruct (Nat.ltb_spec (Z.to_nat j) (Z.to_nat n)); [|lia]. now rewrite Z2Nat.id by lia.
    + intros j Hj. rewrite wbyte_app by lia.
      destruct (Z.ltb_spec (Z.of_nat (Z.to_nat n) + j) (4 * Z.of_nat (length ws'))); [zarith|].
      replace (Z.of_nat (Z.to_nat n) + j - 4 * Z.of_nat (length ws')) with j by zarith.
      destruct (65535 <? Z.of_nat (length e)); [|reflexivity].
      rewrite wbyte_firstn by lia.
      destruct (Z.ltb_spec (j / 4) (Z.of_nat (Z.to_nat ((m + 3) / 4)))); [reflexivity|zarith].
  - destruct (concat_unaligned (wbytes ws (Z.to_nat n)) ws' (wbytes e (Z.to_nat m)) e n m Hp)
      as (r & Er & Hr).
    + rewrite length_wbytes. lia.
    + exact Ha.
    + rewrite length_wbytes. lia.
    + apply wbytes_bytes.
    + intros k Hk. rewrite nth_wbytes.
      destruct (Nat.ltb_spec (Z.to_nat k) (Z.to_nat m)); [|lia]. now rewrite Z2Nat.id by lia.
    + exact Hlt.
    + exists r. split; [exact Er|].
      pose proof (packed_wbytes _ _ Hr) as H. now rewrite length_app, !length_wbytes in H.
Qed.

Lemma WordArray_concat_bytes_witness :
  exists r,
    WordArray.concat (WordArray.Build [16909060; 84281096] 5) (WordArray.Build [-1; 7] 6)
    = Ok (WordArray.Build r (5 + 6))
    /\ wbytes r (Z.to_nat (5 + 6))
       = wbytes [16909060; 84281096] (Z.to_nat 5) ++ wbytes [-1; 7] (Z.to_nat 6).
Proof.
  apply (WordArray_concat_bytes [16909060; 84281096] [-1; 7] 5 6);
    [repeat constructor; unfold int32; lia | simpl; lia | simpl; lia | lia].
Defined.

(** ** inject.js: CryptoJS, Pkcs7 *)

(** X5.  [Pkcs7.pad] to the 16-byte block of AES always adds between 1 and
    16 bytes, each equal to the number added, so that the byte count becomes
    the next multiple of 16 strictly above the old one; the bytes of the
    data are kept, and [unpad] gives the old byte count back. *)
Theorem Pkcs7_pad_unpad (ws : list Z) (n : Z) :
  Forall int32 ws -> 0 <= n <= 4 * Z.of_nat (length ws) -> n + 16 < 4294967296 ->
  exists ws',
    Pkcs7.pad (WordArray.Build ws n) AES.blockSize
    = Ok (WordArray.Build ws' (16 * (n / 16 + 1)))
    /\ Z.of_nat (length ws') = 4 * (n / 16 + 1)
    /\ wbytes ws' (Z.to_nat (16 * (n / 16 + 1)))
       = wbytes ws (Z.to_nat n) ++ repeat (16 - n mod 16) (Z.to_nat (16 - n mod 16))
    /\ Pkcs7.unpad (WordArray.Build ws' (16 * (n / 16 + 1))) = WordArray.Build ws' n.
Proof.
  intros Hws Hn Hlt.
  destruct (clamp_any ws n Hws Hn ltac:(lia)) as (ws1 & E & Hp).
  assert (Hl1 : n = Z.of_nat (length (wbytes ws (Z.to_nat n))))
    by (rewrite length_wbytes; lia).
  assert (E' : WordArray.clamp (WordArray.Build ws1 n) = Ok (WordArray.Build ws1 n))
    by (apply (clamp_packed _ _ n Hp); [exact Hl1|lia]).
  destruct (Pkcs7_pad_packed _ ws1 n Hp Hl1 Hlt) as (ws' & Hpad & Hp').
  assert (Hsz : n + (16 - n mod 16) = 16 * (n / 16 + 1)) by zarith.
  exists ws'. rewrite <- Hsz. split; [|split; [|split]].
  - rewrite <- Hpad. unfold Pkcs7.pad. cbv zeta. cbn [WordArray.sigBytes].
    apply (concat_clamped ws ws1 n _ E E').
  - pose proof (packed_length _ _ Hp') as Hl. rewrite length_app, repeat_length, length_wbytes in Hl.
    pose proof (Z.mod_pos_bound n 16 ltac:(lia)). zarith.
  - pose proof (packed_wbytes _ _ Hp') as H.
    rewrite length_app, repeat_length, length_wbytes in H.
    pose proof (Z.mod_pos_bound n 16 ltac:(lia)).
    replace (Z.to_nat (n + (16 - n mod 16))) with (Z.to_nat n + Z.to_nat (16 - n mod 16))%nat
      by lia.
    exact H.
  - apply (Pkcs7_unpad_packed _ ws' n Hl1 Hlt Hp').
Qed.

Lemma Pkcs7_pad_unpad_witness :
  exists ws',
    Pkcs7.pad (WordArray.Build [16909060; 84281096] 5) AES.blockSize
    = Ok (WordArray.Build ws' (16 * (5 / 16 + 1)))
    /\ Z.of_nat (length ws') = 4 * (5 / 16 + 1)
    /\ wbytes ws' (Z.to_nat (16 * (5 / 16 + 1)))
       = wbytes [16909060; 84281096] (Z.to_nat 5)
         ++ repeat (16 - 5 mod 16) (Z.to_nat (16 - 5 mod 16))
    /\ Pkcs7.unpad (WordArray.Build ws' (16 * (5 / 16 + 1))) = WordArray.Build ws' 5.
Proof.
  apply (Pkcs7_pad_unpad [16909060; 84281096] 5);
    [repeat constructor; unfold int32; lia | simpl; lia | lia].
Defined.

(** ** inject.js: CryptoJS, the Latin1 and Utf8 encoders *)

Lemma aget_map (f : Z -> Z) (s : list Z) (j : Z) :
  0 <= j < Z.of_nat (length s) -> (map f s).[j] = f s.[j].
Proof.
  intros Hj. rewrite !aget_in by (rewrite ?length_map; lia).
  rewrite (nth_indep _ 0 (f 0)) by (rewrite length_map; lia). apply map_nth.
Qed.

Lemma Latin1_parse_low_bytes (s : jsstring) :
  Latin1.parse s = Latin1.parse (map (fun c => c mod 256) s).
Proof.
  unfold Latin1.parse. rewrite length_map. f_equal.
  apply for_loop_ext. intros j e Hj.
  rewrite aget_map by lia. rewrite !band_255. now rewrite Z.mod_mod by lia.
Qed.

Lemma map_mod_bytes (s : jsstring) : Forall is_byte (map (fun c => c mod 256) s).
Proof.
  apply Forall_forall. intros b Hb. apply in_map_iff in Hb as (c & <- & _).
  apply Z.mod_pos_bound. lia.
Qed.

(** X6.  [Latin1.parse] keeps the low byte of every character and packs the
    bytes four to a word; [Latin1.stringify] of the result is the string of
    these low bytes, so a string of characters below 256 is read back as it
    was. *)
Theorem Latin1_parse_stringify (s : jsstring) :
  Z.of_nat (length s) < 4294967296 ->
  Latin1.stringify (Latin1.parse s) = map (fun c => c mod 256) s
  /\ WordArray.sigBytes (Latin1.parse s) = Z.of_nat (length s)
  /\ Z.of_nat (length (WordArray.words (Latin1.parse s))) = (Z.of_nat (length s) + 3) / 4
  /\ (Forall is_byte s -> Latin1.stringify (Latin1.parse s) = s).
Proof.
  intros Hlen.
  assert (H : Latin1.stringify (Latin1.parse s) = map (fun c => c mod 256) s
              /\ Z.of_nat (length (WordArray.words (Latin1.parse s)))
                 = (Z.of_nat (length s) + 3) / 4).
  { rewrite Latin1_parse_low_bytes.
    destruct (Latin1_parse_packed _ (map_mod_bytes s)) as [Hp Hsig];
      [rewrite length_map; exact Hlen|].
    destruct (Latin1.parse (map (fun c => c mod 256) s)) as [e n].
    cbn [WordArray.words WordArray.sigBytes] in *. split.
    - rewrite Latin1_stringify_wbytes by (rewrite Hsig, length_map; lia).
      rewrite Hsig, Nat2Z.id. apply packed_wbytes, Hp.
    - rewrite (packed_length _ _ Hp), length_map. reflexivity. }
  destruct H as [H1 H2]. split; [exact H1|]. split; [reflexivity|]. split; [exact H2|].
  intros Hb. rewrite H1. rewrite <- (map_id s) at 2. apply map_ext_in.
  intros c Hc. apply Z.mod_small. apply (proj1 (Forall_forall _ _) Hb c Hc).
Qed.

Lemma Latin1_parse_stringify_witness :
  Latin1.stringify (Latin1.parse (lit "hello")) = map (fun c => c mod 256) (lit "hello").
Proof. apply (proj1 (Latin1_parse_stringify (lit "hello") ltac:(simpl; lia))). Defined.

Lemma packed_unique (bs ws ws' : list Z) : packed bs ws -> packed bs ws' -> ws = ws'.
Proof.
  intros (Hl & Hi & Hw) (Hl' & Hi' & Hw'). apply words_ext; try assumption; [lia|].
  intros j Hj. now rewrite Hw, Hw'.
Qed.

(** X7.  [Latin1.parse] of [Latin1.stringify] is [clamp]: the byte count is
    kept and the words are those that [clamp] leaves. *)
Theorem Latin1_stringify_parse (ws : list Z) (n : Z) :
  Forall int32 ws -> 0 <= n <= 4 * Z.of_nat (length ws) -> n < 4294967296 ->
  Ok (Latin1.parse (Latin1.stringify (WordArray.Build ws n)))
  = WordArray.clamp (WordArray.Build ws n).
Proof.
  intros Hws Hn Hlt. destruct (clamp_any ws n Hws Hn Hlt) as (ws' & -> & Hp).
  rewrite Latin1_stringify_wbytes by lia.
  destruct (Latin1_parse_packed _ (wbytes_bytes ws (Z.to_nat n))) as [Hq Hsig];
    [rewrite length_wbytes; lia|].
  destruct (Latin1.parse (wbytes ws (Z.to_nat n))) as [e k].
  cbn [WordArray.words WordArray.sigBytes] in *. rewrite length_wbytes in Hsig.
  f_equal. f_equal; [apply (packed_unique _ _ _ Hq Hp)|lia].
Qed.

Lemma Latin1_stringify_parse_witness :
  Ok (Latin1.parse (Latin1.stringify (WordArray.Build [16909060; 84281096] 5)))
  = WordArray.clamp (WordArray.Build [16909060; 84281096] 5).
Proof.
  apply (Latin1_stringify_parse [16909060; 84281096] 5);
    [repeat constructor; unfold int32; lia | simpl; lia | lia].
Defined.

Lemma code_points_cons (c : Z) (t : jsstring) :
  code_points (c :: t)
  = if is_high_surrogate c then
      match t with
      | d :: t' =>
        if is_low_surrogate d
        then Some (65536 + (c - 55296) * 1024 + (d - 56320)) :: code_points t'
        else None :: code_points t
      | [] => [None]
      end
    else if is_low_surrogate c then None :: code_points t
    else Some c :: code_points t.
Proof. reflexivity. Qed.

Lemma utf8_of_code_points_cons (cp : Z) (t : list (option Z)) :
  utf8_of_code_points (Some cp :: t)
  = (r <- utf8_of_code_points t ;; Ok (utf8_octets cp ++ r)).
Proof. reflexivity. Qed.

Lemma Ok_inj {A : Type} (a b : A) : Ok a = Ok b -> a = b.
Proof. congruence. Qed.

Lemma utf8_length_lower (n : nat) :
  forall s bs, (length s <= n)%nat -> unescape_encodeURIComponent s = Ok bs ->
               (length s <= length bs)%nat.
Proof.
  unfold unescape_encodeURIComponent.
  induction n as [|n IH]; intros s bs Hn H.
  - destruct s; [cbn [length]; lia|cbn [length] in Hn; lia].
  - destruct s as [|c s]; [cbn [length]; lia|].
    rewrite code_points_cons in H. destruct (is_high_surrogate c) eqn:Eh.
    + destruct s as [|d s']; [discriminate|].
      destruct (is_low_surrogate d) eqn:El; [|discriminate].
      rewrite utf8_of_code_points_cons in H.
      destruct (utf8_of_code_points (code_points s')) as [r|] eqn:Er; [|discriminate].
      unfold bind in H. apply Ok_inj in H. subst bs.
      specialize (IH s' r ltac:(cbn [length] in Hn; lia) Er).
      rewrite length_app. change (length (c :: d :: s')) with (S (S (length s'))).
      unfold is_high_surrogate, is_low_surrogate in Eh, El.
      assert (length (utf8_octets (65536 + (c - 55296) * 1024 + (d - 56320))) = 4%nat)
        by (unfold utf8_octets; decide_cmp; reflexivity).
      lia.
    + destruct (is_low_surrogate c); [discriminate|].
      rewrite utf8_of_code_points_cons in H.
      destruct (utf8_of_code_points (code_points s)) as [r|] eqn:Er; [|discriminate].
      unfold bind in H. apply Ok_inj in H. subst bs.
      specialize (IH s r ltac:(cbn [length] in Hn; lia) Er).
      rewrite length_app. change (length (c :: s)) with (S (length s)).
      pose proof (utf8_octets_length c). lia.
Qed.

(** X8.  [Utf8.parse] of a string with no unpaired surrogate returns a word
    array of at least one byte and at most three bytes per code unit, and
    [Utf8.stringify] reads it back as the same string. *)
Theorem Utf8_parse_stringify (s : jsstring) :
  well_formed s = true -> Z.of_nat (length s) <= 1073741824 ->
  exists w, Utf8.parse s = Ok w
            /\ Utf8.stringify w = Ok s
            /\ Z.of_nat (length s) <= WordArray.sigBytes w <= 3 * Z.of_nat (length s).
Proof.
  intros Hwf Hlen.
  destruct (utf8_roundtrip (length s) s (le_n _) Hwf) as (bs & Hbs & Hb & Hl & Hdec).
  pose proof (utf8_length_lower (length s) s bs (le_n _) Hbs) as Hlow.
  exists (Latin1.parse bs). unfold Utf8.parse, Utf8.stringify. rewrite Hbs. cbn [bind].
  split; [reflexivity|].
  destruct (Latin1_parse_packed bs Hb ltac:(lia)) as [Hp Hsig].
  destruct (Latin1.parse bs) as [e n]. cbn [WordArray.words WordArray.sigBytes] in *.
  rewrite Latin1_stringify_wbytes by lia. rewrite Hsig, Nat2Z.id.
  rewrite (packed_wbytes _ _ Hp), Hdec. split; [reflexivity|lia].
Qed.

Lemma Utf8_parse_stringify_witness :
  exists w, Utf8.parse (lit "hello") = Ok w
            /\ Utf8.stringify w = Ok (lit "hello")
            /\ Z.of_nat (length (lit "hello")) <= WordArray.sigBytes w
               <= 3 * Z.of_nat (length (lit "hello")).
Proof. apply (Utf8_parse_stringify (lit "hello")); [reflexivity | simpl; lia]. Defined.

(** ** inject.js: CryptoJS, Base64 *)

Lemma b64_count_mono (p q : Z) : 0 <= p <= q -> b64_count p <= b64_count q.
Proof.
  intros H. unfold b64_count.
  destruct (Z.eqb_spec (p mod 3) 0), (Z.eqb_spec (q mod 3) 0); zarith.
Qed.

Lemma Base64_stringify_packed (bs ws : list Z) (p : Z) :
  packed bs ws -> p = Z.of_nat (length bs) -> p + 4 < 4294967296 ->
  Base64.stringify (WordArray.Build ws p)
  = Ok (b64_chars ws (Z.to_nat (b64_count p))
        ++ repeat 61 (Z.to_nat ((4 - b64_count p mod 4) mod 4))).
Proof.
  intros Hpk Hp Hlt. unfold Base64.stringify. cbv zeta. cbn [WordArray.sigBytes].
  rewrite (clamp_packed bs) by (try assumption; lia). cbn [bind WordArray.words].
  assert (Hc : JS.ceil_div p 3 = (p + 2) / 3) by (unfold JS.ceil_div; zarith).
  rewrite Hc. pose proof (b64_count_bounds p ltac:(lia)) as Hb.
  rewrite b64_stringify_loop by zarith.
  replace (Z.min (4 * Z.of_nat (Z.to_nat ((p + 2) / 3))) (b64_count p)) with (b64_count p)
    by zarith.
  rewrite length_b64_chars. rewrite Z2Nat.id by zarith. reflexivity.
Qed.

Lemma Base64_parse_packed (bs ws : list Z) (p : Z) :
  packed bs ws -> p = Z.of_nat (length bs) -> p + 8 < 4294967296 ->
  Base64.parse (b64_chars ws (Z.to_nat (b64_count p))
                ++ repeat 61 (Z.to_nat ((4 - b64_count p mod 4) mod 4)))
  = WordArray.Build ws p.
Proof.
  intros Hpk Hp Hlt.
  pose proof (b64_count_bounds p ltac:(lia)) as Hcb.
  pose proof (packed_length _ _ Hpk) as Hlen.
  set (n := Z.to_nat (b64_count p)). set (k := Z.to_nat ((4 - b64_count p mod 4) mod 4)).
  set (T := b64_chars ws n ++ repeat 61 k).
  unfold Base64.parse. change (Base64._map.[64]) with 61. cbv zeta.
  assert (Hl : (if negb (Base64.indexOf T 61 =? -1)
                then Base64.indexOf T 61 else Z.of_nat (length T)) = Z.of_nat n).
  { unfold T. rewrite Base64_indexOf_pad by apply b64_chars_not_pad.
    rewrite length_app, repeat_length, length_b64_chars. destruct k.
    - change (-1 =? -1) with true. cbn [negb]. lia.
    - destruct (Z.eqb_spec (Z.of_nat n) (-1)); [lia|reflexivity]. }
  rewrite Hl, Nat2Z.id.
  set (p' := 4 * Z.of_nat (length ws)).
  set (T' := b64_chars ws (Z.to_nat (b64_count p')) ++ []).
  assert (Hmono : b64_count p <= b64_count p') by (apply b64_count_mono; unfold p'; zarith).
  pose proof (Base64_parse_loop ws T' p' n eq_refl ltac:(unfold p'; zarith)) as H.
  specialize (H ltac:(intros w Hw; apply b64_chars_get; lia) ltac:(unfold n; zarith)).
  assert (HTT : forall w, 0 <= w < Z.of_nat n -> T.[w] = T'.[w]).
  { intros w Hw. unfold T, T'. rewrite !b64_chars_get by (unfold n; zarith). reflexivity. }
  clearbody T T'.
  rewrite (for_loop_ext 0 n _
             (fun w '(t, r) =>
                if negb (w .% 4 =? 0) then
                  let v := Base64.indexOf Base64._map T'.[w - 1] .<< 2 * (w .% 4) in
                  let b := Base64.indexOf Base64._map T'.[w] .>>> 6 - 2 * (w .% 4) in
                  (aset t (r .>>> 2) (t.[r .>>> 2] .| ((v .| b) .<< 24 - 8 * (r .% 4))), r + 1)
                else (t, r))).
  - destruct (for_loop 0 n _ _) as [t r]. destruct H as (Hr & Ht & Hlt' & Hw).
    assert (Hrp : r = p).
    { rewrite Hr. unfold n. rewrite Z2Nat.id by zarith. apply b64_bytes_count. lia. }
    clear Hr. subst r. f_equal.
    apply (packed_unique bs); [|exact Hpk]. split; [rewrite Hlt'; f_equal; lia|].
    split; [exact Ht|].
    intros j Hj. rewrite Hw by lia. destruct Hpk as (_ & _ & Hpw). rewrite <- Hpw by lia.
    destruct (Z.ltb_spec j p); [reflexivity|]. symmetry. rewrite Hpw by lia.
    apply nth_overflow. lia.
  - intros w [t r] Hw. rewrite Z.add_0_l in Hw. rewrite rem4 by lia.
    destruct (Z.eqb_spec (w mod 4) 0) as [E|E]; cbn [negb]; [reflexivity|].
    rewrite !HTT by zarith. reflexivity.
Qed.

Lemma aget_In (l : list Z) (i : Z) : 0 <= i < Z.of_nat (length l) -> In l.[i] l.
Proof. intros Hi. rewrite aget_in by lia. apply nth_In. lia. Qed.

(** X9.  [Base64.stringify] of a word array writes four characters of the
    alphabet for every three bytes, the last group filled with [=], and
    [Base64.parse] of that text gives the byte count and the words back, as
    [clamp] leaves them. *)
Theorem Base64_stringify_parse (ws : list Z) (p : Z) :
  Forall int32 ws -> 0 <= p <= 4 * Z.of_nat (length ws) -> p + 8 < 4294967296 ->
  exists T,
    Base64.stringify (WordArray.Build ws p) = Ok T
    /\ Z.of_nat (length T) = 4 * ((p + 2) / 3)
    /\ Forall (fun c => In c Base64._map) T
    /\ Ok (Base64.parse T) = WordArray.clamp (WordArray.Build ws p).
Proof.
  intros Hws Hp Hlt. destruct (clamp_any ws p Hws Hp ltac:(lia)) as (ws' & E & Hpk).
  assert (Hl : p = Z.of_nat (length (wbytes ws (Z.to_nat p)))) by (rewrite length_wbytes; lia).
  assert (E' : WordArray.clamp (WordArray.Build ws' p) = Ok (WordArray.Build ws' p))
    by (apply (clamp_packed _ _ p Hpk); [exact Hl|lia]).
  assert (Hs : Base64.stringify (WordArray.Build ws p) = Base64.stringify (WordArray.Build ws' p)).
  { unfold Base64.stringify. cbv zeta. cbn [WordArray.sigBytes]. now rewrite E, E'. }
  rewrite Hs, E, (Base64_stringify_packed _ ws' p Hpk Hl) by lia.
  eexists. split; [reflexivity|].
  pose proof (b64_count_bounds p ltac:(lia)) as Hcb.
  split; [|split].
  - rewrite length_app, repeat_length, length_b64_chars. unfold b64_count in *.
    destruct (Z.eqb_spec (p mod 3) 0); zarith.
  - apply Forall_app. split.
    + apply Forall_forall. intros c Hc. unfold b64_chars in Hc.
      apply in_map_iff in Hc as (w & <- & _). apply aget_In.
      pose proof (b64_digit_range ws' (Z.of_nat w)). change (length Base64._map) with 65%nat. lia.
    + apply Forall_repeat. change 61 with (Base64._map.[64]). apply aget_In.
      change (length Base64._map) with 65%nat. lia.
  - f_equal. apply (Base64_parse_packed _ ws' p Hpk Hl Hlt).
Qed.

Lemma Base64_stringify_parse_witness :
  exists T,
    Base64.stringify (WordArray.Build [16909060; 84281096] 5) = Ok T
    /\ Z.of_nat (length T) = 4 * ((5 + 2) / 3)
    /\ Forall (fun c => In c Base64._map) T
    /\ Ok (Base64.parse T) = WordArray.clamp (WordArray.Build [16909060; 84281096] 5).
Proof.
  apply (Base64_stringify_parse [16909060; 84281096] 5);
    [repeat constructor; unfold int32; lia | simpl; lia | lia].
Defined.

Lemma Base64_indexOf_range (s : jsstring) (ch : Z) :
  -1 <= Base64.indexOf s ch <= Z.of_nat (length s).
Proof.
  induction s as [|c s IH]; cbn [Base64.indexOf length]; [lia|].
  destruct (c =? ch); [lia|]. cbv zeta. destruct (Base64.indexOf s ch <? 0); lia.
Qed.

(** X10.  [Base64.parse] accepts any string and never fails: it reads up to
    the first [=] (or to the end), and the byte count of the result is three
    for every four characters read, plus one for a rest of two and two for a
    rest of three characters, whatever the characters are. *)
Theorem Base64_parse_size (d : jsstring) :
  let l := if Base64.indexOf d 61 =? -1 then Z.of_nat (length d) else Base64.indexOf d 61 in
  WordArray.sigBytes (Base64.parse d) = b64_bytes l
  /\ 0 <= l <= Z.of_nat (length d)
  /\ 4 * WordArray.sigBytes (Base64.parse d) <= 3 * Z.of_nat (length d).
Proof.
  cbv zeta. pose proof (Base64_indexOf_range d 61) as Hr.
  set (l := if Base64.indexOf d 61 =? -1 then _ else _).
  assert (Hl : 0 <= l <= Z.of_nat (length d)).
  { unfold l. destruct (Z.eqb_spec (Base64.indexOf d 61) (-1)); lia. }
  assert (H : WordArray.sigBytes (Base64.parse d) = b64_bytes l).
  { unfold Base64.parse. change (Base64._map.[64]) with 61. cbv zeta.
    replace (if negb (Base64.indexOf d 61 =? -1) then Base64.indexOf d 61
             else Z.of_nat (length d)) with l
      by (unfold l; destruct (Base64.indexOf d 61 =? -1); reflexivity).
    rewrite <- (Z2Nat.id l) at 2 by lia. generalize (Z.to_nat l) as n. intros n.
    induction n as [|n IH].
    - rewrite for_loop_0. reflexivity.
    - rewrite for_loop_S. destruct (for_loop 0 n _ _) as [t r].
      cbn [WordArray.sigBytes] in IH. rewrite Z.add_0_l, rem4 by lia.
      replace (Z.of_nat (S n)) with (Z.of_nat n + 1) by lia.
      rewrite b64_bytes_next by lia.
      destruct (Z.of_nat n mod 4 =? 0); cbn [negb WordArray.sigBytes]; lia. }
  split; [exact H|]. split; [exact Hl|]. rewrite H. unfold b64_bytes.
  destruct (Z.leb_spec (l mod 4) 1); zarith.
Qed.

(** ** inject.js: class Sha256 *)

(** X11.  Whatever the message, [Sha256.hash] returns 64 characters, each a
    digit or a lower-case letter from [a] to [f]; so the digest is a string
    without surrogates, as the codec needs its passphrase to be. *)
Theorem Sha256_hash_hex (msg : jsstring) :
  length (Sha256.hash msg) = 64%nat
  /\ Forall (fun c => 48 <= c <= 57 \/ 97 <= c <= 102) (Sha256.hash msg)
  /\ well_formed (Sha256.hash msg) = true.
Proof.
  destruct (Sha256_hash_digits msg) as [Hl Hc]. split; [exact Hl|]. split; [exact Hc|].
  apply Sha256_hash_well_formed.
Qed.

(** ** inject.js: CryptoJS.AES.encrypt and decrypt, the transport string *)

Lemma OpenSSL_stringify_chars (C : list Z) (m : nat) (s0 s1 : Z) :
  length C = (4 * m)%nat -> 16 * Z.of_nat m + 20 < 4294967296 ->
  OpenSSL.stringify (WordArray.Build C (16 * Z.of_nat m)) (Some (WordArray.Build [s0; s1] 8))
  = Ok (b64_chars (1398893684 :: 1701076831 :: s0 :: s1 :: C)
          (Z.to_nat (b64_count (16 + 16 * Z.of_nat m)))
        ++ repeat 61 (Z.to_nat ((4 - b64_count (16 + 16 * Z.of_nat m) mod 4) mod 4))).
Proof.
  intros Hlen Hlt. unfold OpenSSL.stringify, WordArray.init. cbn [length].
  change (4 * Z.of_nat 2) with 8.
  rewrite (concat_aligned [1398893684; 1701076831] [s0; s1] 8 8) by (cbn [length]; zarith).
  cbn [bind app]. change (8 + 8) with 16.
  rewrite (concat_aligned [1398893684; 1701076831; s0; s1] C 16 (16 * Z.of_nat m))
    by (cbn [length]; zarith).
  cbn [bind app]. apply Base64_stringify_chars; [cbn [length]; lia|lia].
Qed.

(** The transport string of a plaintext, by its characters, and its
    decryption. *)
Lemma encrypt_transport (P K : jsstring) (rnd : nat -> Z) (pos : nat) :
  well_formed P = true -> well_formed K = true -> Z.of_nat (length P) <= 1073741824 ->
  exists (bs C T : list Z) (m : nat),
    unescape_encodeURIComponent P = Ok bs
    /\ (length bs <= 3 * length P)%nat
    /\ Z.of_nat m = Z.of_nat (length bs) / 16 + 1
    /\ T = b64_chars (1398893684 :: 1701076831 :: (rnd (pos + 0)%nat .| 0)
                      :: (rnd (pos + 1)%nat .| 0) :: C)
             (Z.to_nat (b64_count (16 + 16 * Z.of_nat m)))
           ++ repeat 61 (Z.to_nat ((4 - b64_count (16 + 16 * Z.of_nat m) mod 4) mod 4))
    /\ CryptoJS_AES.encrypt P K rnd pos = (Ok T, (pos + 2)%nat)
    /\ forall rnd' pos', CryptoJS_AES.decrypt T K rnd' pos' = (Ok P, pos').
Proof.
  intros HP HK Hlen.
  destruct (utf8_roundtrip (length P) P (le_n _) HP) as (bs & Hbs & Hb & Hl & Hdec).
  destruct (utf8_roundtrip (length K) K (le_n _) HK) as (kb & Hkb & _).
  set (salt := WordArray.Build [rnd (pos + 0)%nat .| 0; rnd (pos + 1)%nat .| 0] 8).
  assert (Hr : WordArray.random rnd pos 8 = (salt, (pos + 2)%nat)) by reflexivity.
  destruct (execute_ok K kb salt Hkb ltac:(cbn; lia)) as (ws & Hex & Hex0).
  set (key := WordArray.Build ws 32) in *. set (iv := WordArray.Build (skipn 8 ws) 16) in *.
  assert (Hkey : 1 <= AES._nRounds (AES._doReset key)).
  { rewrite nRounds_doReset. unfold key. cbn [WordArray.sigBytes]. zarith. }
  destruct (BlockCipher_roundtrip key iv P bs Hkey Hbs Hb ltac:(lia))
    as (C & m & Henc & HCl & HC32 & Hm & b & Hdecf & Hstr).
  pose proof (encryptor_finalize_size key iv P bs _ Hbs Hb ltac:(lia) Henc) as Hsz.
  cbn [WordArray.sigBytes] in Hsz.
  destruct (OpenSSL_roundtrip C m (rnd (pos + 0)%nat .| 0) (rnd (pos + 1)%nat .| 0)
              HC32 HCl (bor_int32 _ _) (bor_int32 _ _) ltac:(lia)) as (T & HT & HPa).
  pose proof (OpenSSL_stringify_chars C m (rnd (pos + 0)%nat .| 0) (rnd (pos + 1)%nat .| 0)
                HCl ltac:(lia)) as HT'.
  rewrite HT in HT'. apply Ok_inj in HT'.
  fold salt in HT, HPa.
  exists bs, C, T, m. split; [exact Hbs|]. split; [exact Hl|]. split; [lia|].
  split; [exact HT'|]. split.
  - unfold CryptoJS_AES.encrypt. rewrite (Hex0 rnd pos Hr). cbn [bind]. cbv beta iota.
    rewrite Henc. cbn [bind]. rewrite HT. reflexivity.
  - intros rnd' pos'. unfold CryptoJS_AES.decrypt. rewrite HPa, Hex. cbn [bind]. cbv beta iota.
    rewrite Hdecf. cbn [bind]. unfold Utf8.stringify. rewrite Hstr, Hdec. reflexivity.
Qed.

Lemma salted_digits (s0 : Z) (rest : list Z) :
  b64_chars (1398893684 :: 1701076831 :: s0 :: rest) 10 = lit "U2FsdGVkX1".
Proof.
  set (W := 1398893684 :: 1701076831 :: s0 :: rest).
  assert (E : forall j, 0 <= j < 8 -> wbyte W j = wbyte [1398893684; 1701076831] j).
  { intros j Hj. unfold wbyte. rewrite !aget_nth by zarith.
    assert (Hq : j / 4 = 0 \/ j / 4 = 1) by zarith. destruct Hq as [-> | ->]; reflexivity. }
  assert (E8 : b64_chars W 8 = lit "U2FsdGVk").
  { transitivity (b64_chars [1398893684; 1701076831] 8); [|vm_compute; reflexivity].
    unfold b64_chars. apply map_ext_in. intros w Hw. apply in_seq in Hw. f_equal.
    unfold b64_digit, b64_group. rewrite !E by zarith. reflexivity. }
  pose proof (wbyte_range W 8) as H8.
  assert (D8 : b64_digit W 8 = 23).
  { unfold b64_digit, b64_group. change (3 * (8 / 4)) with 6. change (6 + 1) with 7.
    change (6 + 2) with 8. rewrite !E by lia. change (64 ^ (3 - 8 mod 4)) with 262144.
    change (wbyte [1398893684; 1701076831] 6) with 95.
    change (wbyte [1398893684; 1701076831] 7) with 95. zarith. }
  assert (D9 : b64_digit W 9 = 53).
  { unfold b64_digit, b64_group. change (3 * (9 / 4)) with 6. change (6 + 1) with 7.
    change (6 + 2) with 8. rewrite !E by lia. change (64 ^ (3 - 9 mod 4)) with 4096.
    change (wbyte [1398893684; 1701076831] 6) with 95.
    change (wbyte [1398893684; 1701076831] 7) with 95. zarith. }
  do 2 rewrite b64_chars_S. rewrite E8. change (Z.of_nat 8) with 8. change (Z.of_nat 9) with 9.
  rewrite D8, D9. reflexivity.
Qed.

Lemma b64_chars_prefix (W : list Z) (n k : nat) :
  (k <= n)%nat -> exists r, b64_chars W n = b64_chars W k ++ r.
Proof.
  intros H. unfold b64_chars. replace n with (k + (n - k))%nat by lia.
  rewrite seq_app, map_app. eexists. reflexivity.
Qed.

Lemma Base64_map_ascii : Forall (fun c => 43 <= c <= 122) Base64._map.
Proof. unfold Base64._map. apply Forall_forall. intros c H. vm_compute in H.
  repeat (destruct H as [<-|H]; [lia|]). destruct H. Qed.

(** X12.  The transport string of [encrypt], for a plaintext and a
    passphrase with no unpaired surrogate: it begins with [U2FsdGVkX1] (the
    Base64 text of the header [Salted__]), has four characters for every
    three bytes of header, salt and padded ciphertext, and consists of
    characters of the Base64 alphabet only; so the delimiter does not occur
    in it. *)
Theorem encrypt_transport_format (P K : jsstring) (rnd : nat -> Z) (pos : nat) :
  well_formed P = true -> well_formed K = true -> Z.of_nat (length P) <= 1073741824 ->
  exists T bs,
    CryptoJS_AES.encrypt P K rnd pos = (Ok T, (pos + 2)%nat)
    /\ unescape_encodeURIComponent P = Ok bs
    /\ startsWith (lit "U2FsdGVkX1") T = true
    /\ Z.of_nat (length T) = 4 * ((16 + 16 * (Z.of_nat (length bs) / 16 + 1) + 2) / 3)
    /\ Forall (fun c => In c Base64._map) T
    /\ ~ In 167 T.
Proof.
  intros HP HK Hlen.
  destruct (encrypt_transport P K rnd pos HP HK Hlen)
    as (bs & C & T & m & Hbs & Hl & Hm & HT & Henc & _).
  exists T, bs. split; [exact Henc|]. split; [exact Hbs|].
  set (W := 1398893684 :: 1701076831 :: _) in HT.
  set (p := 16 + 16 * Z.of_nat m) in HT.
  pose proof (b64_count_bounds p ltac:(lia)) as Hcb.
  assert (HF : Forall (fun c => In c Base64._map) T).
  { rewrite HT. apply Forall_app. split.
    - apply Forall_forall. intros c Hc. unfold b64_chars in Hc.
      apply in_map_iff in Hc as (w & <- & _). apply aget_In.
      pose proof (b64_digit_range W (Z.of_nat w)). change (length Base64._map) with 65%nat. lia.
    - apply Forall_repeat. change 61 with (Base64._map.[64]). apply aget_In.
      change (length Base64._map) with 65%nat. lia. }
  split; [|split; [|split; [exact HF|]]].
  - destruct (b64_chars_prefix W (Z.to_nat (b64_count p)) 10 ltac:(unfold p in *; zarith))
      as (r & Hr).
    rewrite HT, Hr. unfold W. rewrite salted_digits, <- app_assoc. apply startsWith_app.
  - rewrite HT, length_app, repeat_length, length_b64_chars. rewrite <- Hm. fold p.
    unfold b64_count in *. destruct (Z.eqb_spec (p mod 3) 0); zarith.
  - intros Hin. rewrite Forall_forall in HF. apply HF in Hin.
    pose proof Base64_map_ascii as Ha. rewrite Forall_forall in Ha. apply Ha in Hin. lia.
Qed.

Lemma encrypt_transport_format_witness :
  exists T bs,
    CryptoJS_AES.encrypt (lit "hello") (lit "secret") test_rnd 0 = (Ok T, 2%nat)
    /\ unescape_encodeURIComponent (lit "hello") = Ok bs
    /\ startsWith (lit "U2FsdGVkX1") T = true
    /\ Z.of_nat (length T) = 4 * ((16 + 16 * (Z.of_nat (length bs) / 16 + 1) + 2) / 3)
    /\ Forall (fun c => In c Base64._map) T
    /\ ~ In 167 T.
Proof.
  apply (encrypt_transport_format (lit "hello") (lit "secret") test_rnd 0);
    [reflexivity | reflexivity | simpl; lia].
Defined.

Lemma utf8_of_code_points_lone (l : list (option Z)) :
  existsb (fun cp => match cp with Some _ => false | None => true end) l = true ->
  utf8_of_code_points l = Throw URIError.
Proof.
  induction l as [|[cp|] l IH]; cbn [existsb utf8_of_code_points]; intros H.
  - discriminate.
  - rewrite (IH H). reflexivity.
  - reflexivity.
Qed.

Lemma utf8_of_code_points_paired (l : list (option Z)) :
  existsb (fun cp => match cp with Some _ => false | None => true end) l = false ->
  exists bs, utf8_of_code_points l = Ok bs.
Proof.
  induction l as [|[cp|] l IH]; cbn [existsb utf8_of_code_points]; intros H.
  - eexists. reflexivity.
  - destruct (IH H) as (bs & ->). eexists. reflexivity.
  - discriminate.
Qed.

Lemma execute_lone (K : jsstring) (salt : option WA) (rnd : nat -> Z) (pos : nat) :
  lone_surrogate K = true ->
  fst (OpenSSL.execute K AES.keySize AES.ivSize salt rnd pos) = Throw URIError.
Proof.
  intros HK. unfold OpenSSL.execute.
  destruct (match salt with Some d => (d, pos) | None => WordArray.random rnd pos 8 end)
    as [s pos'].
  cbn [fst]. unfold EvpKDF.compute.
  change (Z.to_nat (AES.keySize + AES.ivSize)) with 12%nat. cbn [EvpKDF.derive].
  change (Z.of_nat (length (WordArray.words WordArray.empty)) <? AES.keySize + AES.ivSize)
    with true.
  cbv iota. cbn [bind]. unfold MD5.update_string, MD5._append_string, Utf8.parse.
  unfold unescape_encodeURIComponent. rewrite (utf8_of_code_points_lone _ HK). reflexivity.
Qed.

Lemma encrypt_lone (P K : jsstring) (rnd : nat -> Z) (pos : nat) :
  lone_surrogate P = true \/ lone_surrogate K = true ->
  CryptoJS_AES.encrypt P K rnd pos = (Throw URIError, (pos + 2)%nat).
Proof.
  intros H. unfold CryptoJS_AES.encrypt. destruct (lone_surrogate K) eqn:HK.
  - pose proof (execute_lone K None rnd pos HK) as He.
    assert (Hp : snd (OpenSSL.execute K AES.keySize AES.ivSize None rnd pos) = (pos + 2)%nat)
      by reflexivity.
    destruct (OpenSSL.execute K AES.keySize AES.ivSize None rnd pos) as [d pos'].
    cbn [fst snd] in He, Hp. subst d pos'. reflexivity.
  - destruct H as [HP|HP]; [|discriminate].
    destruct (utf8_of_code_points_paired _ HK) as (kb & Hkb).
    set (salt := WordArray.Build [rnd (pos + 0)%nat .| 0; rnd (pos + 1)%nat .| 0] 8).
    assert (Hr : WordArray.random rnd pos 8 = (salt, (pos + 2)%nat)) by reflexivity.
    destruct (execute_ok K kb salt Hkb ltac:(cbn; lia)) as (ws & _ & Hex0).
    rewrite (Hex0 rnd pos Hr). cbn [bind]. cbv beta iota.
    unfold BlockCipher.encryptor_finalize, Utf8.parse, unescape_encodeURIComponent. cbv zeta.
    rewrite (utf8_of_code_points_lone _ HP). reflexivity.
Qed.

(** X13.  [encrypt] raises [URIError], after the two draws of the salt, as
    soon as the plaintext or the passphrase has a surrogate that is not part
    of a pair, and returns nothing; [decrypt] under such a passphrase raises
    [URIError] whatever the text. *)
Theorem encrypt_lone_surrogate (P K : jsstring) (rnd : nat -> Z) (pos : nat) :
  lone_surrogate P = true \/ lone_surrogate K = true ->
  CryptoJS_AES.encrypt P K rnd pos = (Throw URIError, (pos + 2)%nat)
  /\ (lone_surrogate K = true ->
      forall T, fst (CryptoJS_AES.decrypt T K rnd pos) = Throw URIError).
Proof.
  intros H. split; [now apply encrypt_lone|].
  intros HK T. unfold CryptoJS_AES.decrypt.
  destruct (OpenSSL.parse T) as [c salt].
  pose proof (execute_lone K salt rnd pos HK) as He.
  destruct (OpenSSL.execute K AES.keySize AES.ivSize salt rnd pos) as [d pos'].
  cbn [fst] in He. subst d. reflexivity.
Qed.

Lemma encrypt_lone_surrogate_witness :
  CryptoJS_AES.encrypt [104; 55357] (lit "secret") test_rnd 0 = (Throw URIError, 2%nat).
Proof.
  destruct (encrypt_lone_surrogate [104; 55357] (lit "secret") test_rnd 0) as [H _];
    [left; reflexivity | exact H].
Defined.

(** ** inject.js: from the keydown listener to decryptMessages *)

Lemma firstn_drop_last (T : jsstring) (x : Z) :
  firstn (length (T ++ [x]) - 1) (T ++ [x]) = T.
Proof.
  rewrite length_app. cbn [length]. replace (length T + 1 - 1)%nat with (length T) by lia.
  rewrite firstn_app, Nat.sub_diag, firstn_all. cbn [firstn]. apply app_nil_r.
Qed.

Lemma classify_urls_plain (d : jsstring) :
  includes (lit "https") d = false -> classify_urls d = (false, d).
Proof. intros H. unfold classify_urls. now rewrite H. Qed.

Lemma substitute_emojis_plain (emo : emojimap) (d : jsstring) :
  includes (lit ":") d = false -> substitute_emojis emo d = d.
Proof.
  intros H. unfold substitute_emojis. rewrite split_length_includes by discriminate.
  now rewrite H.
Qed.

(** X14.  End to end.  When the trigger key is pressed on an idle machine,
    the first input holding a text [P] with no unpaired surrogate, the
    listener leaves the delimiter and a transport string in the input.  A
    message whose markup is that content followed by one more character
    (the closing delimiter) is rewritten, by a decrypt pass under the same
    passphrase, to the rendering of [P]; to [P] itself when [P] contains
    neither [https] nor a colon; and to the fallback text when [P] is
    empty. *)
Theorem keydown_then_decryptMessages (rnd0 : nat -> Z) (ev : keyevent) (s : session)
    (P : jsstring) (others : list jsstring) (emo : emojimap) (rnd : nat -> Z)
    (st : page * nat) (i : nat) (m : node) (x : Z) (c : nat) :
  lastKeyWasStopKey s = false -> key ev = stopkey -> textareaarray s = P :: others ->
  well_formed P = true -> well_formed (passphrase s) = true ->
  Z.of_nat (length P) <= 1073741824 ->
  nth_error (messages (fst st)) i = Some m ->
  innerHTML m = hd [] (textareaarray (after (keydown rnd0 ev s))) ++ [x] ->
  container m = Some c ->
  exists m',
    nth_error (messages (fst (decryptMessages emo (passphrase s) rnd st))) i = Some m'
    /\ m' = match P with
            | [] => Node fallback (style_color m) (Some c)
            | _ :: _ => Node (substitute_emojis emo (snd (classify_urls P))) (lit "#fff") (Some c)
            end
    /\ (P <> [] -> includes (lit "https") P = false -> includes (lit ":") P = false ->
        innerHTML m' = P).
Proof.
  intros Hidle Hkey Htext HP HK Hlen Hm Hhtml Hc.
  destruct (encrypt_transport P (passphrase s) rnd0 (rnd_pos s) HP HK Hlen)
    as (bs & C & T & n & _ & _ & _ & _ & Henc & Hdec).
  assert (Hk : keydown rnd0 ev s
               = Outcome false None
                   (Session (passphrase s) true true ((stopkey ++ T) :: others)
                            (rnd_pos s + 2)%nat)).
  { unfold keydown. rewrite Hidle, Hkey, jsstring_eqb_refl, Htext, Henc.
    destruct (keyCode ev =? 17); reflexivity. }
  rewrite Hk in Hhtml. cbn [after textareaarray hd] in Hhtml.
  change (stopkey ++ T) with (167 :: T) in Hhtml. cbn [app] in Hhtml.
  destruct (decryptMessages_nodes emo (passphrase s) rnd st i m Hm) as [q Hq].
  eexists. split; [exact Hq|].
  assert (Ht : turn_result emo (passphrase s) rnd q m
               = match P with
                 | [] => Node fallback (style_color m) (Some c)
                 | _ :: _ => Node (substitute_emojis emo (snd (classify_urls P))) (lit "#fff")
                                  (Some c)
                 end).
  { unfold turn_result. rewrite Hhtml. change (167 =? 167) with true. cbv iota.
    rewrite firstn_drop_last, Hdec. cbn [fst]. rewrite Hc.
    destruct P; reflexivity. }
  split; [exact Ht|].
  intros Hne Hu He. rewrite Ht. destruct P as [|a P']; [contradiction|].
  cbn [innerHTML]. rewrite classify_urls_plain by exact Hu. cbn [snd].
  apply substitute_emojis_plain. exact He.
Qed.

Lemma keydown_then_decryptMessages_witness :
  exists m',
    nth_error (messages (fst (decryptMessages default_emojis (lit "secret") test_rnd
                                (Page [Node (stopkey ++ sample_transport ++ stopkey) []
                                            (Some 0%nat)] (fun _ => []), 0%nat)))) 0
    = Some m'
    /\ m' = Node (substitute_emojis default_emojis (snd (classify_urls (lit "hello"))))
                 (lit "#fff") (Some 0%nat)
    /\ (lit "hello" <> [] -> includes (lit "https") (lit "hello") = false ->
        includes (lit ":") (lit "hello") = false -> innerHTML m' = lit "hello").
Proof.
  apply (keydown_then_decryptMessages test_rnd (KeyEvent 192 stopkey)
           (Session (lit "secret") false false [lit "hello"] 0) (lit "hello") []
           default_emojis test_rnd
           (Page [Node (stopkey ++ sample_transport ++ stopkey) [] (Some 0%nat)] (fun _ => []),
            0%nat)
           0 (Node (stopkey ++ sample_transport ++ stopkey) [] (Some 0%nat)) 167 0);
    [reflexivity | reflexivity | reflexivity | reflexivity | reflexivity | simpl; lia
     | reflexivity | vm_compute; reflexivity | reflexivity].
Defined.

(** ** inject.js: decryptMessages, what a pass leaves alone *)

Lemma render_message_className (emo : emojimap) (i : nat) (m : node) (d : jsstring)
    (p : page) (k : nat) :
  exists suffix,
    className (fst (render_message emo i m d p)) k = className p k ++ suffix
    /\ (container m <> Some k -> suffix = []).
Proof.
  unfold render_message. destruct (classify_urls d) as [b d'].
  destruct (container m) as [c|].
  - destruct (Nat.eq_dec c k) as [->|Hck].
    + destruct b; cbn [fst className add_class set_node]; rewrite Nat.eqb_refl;
        rewrite <- ?app_assoc; eexists; (split; [reflexivity|]); intros H; now contradiction H.
    + apply Nat.eqb_neq in Hck. rewrite Nat.eqb_sym in Hck.
      destruct b; cbn [fst className add_class set_node]; rewrite Hck;
        exists []; (split; [now rewrite app_nil_r|reflexivity]).
  - exists []. cbn [fst className set_node]. split; [now rewrite app_nil_r|reflexivity].
Qed.

Lemma decrypt_message_className (emo : emojimap) (pass : jsstring) (rnd : nat -> Z)
    (i : nat) (st : page * nat) (k : nat) :
  exists suffix,
    className (fst (decrypt_message emo pass rnd i st)) k = className (fst st) k ++ suffix
    /\ ((forall m, nth_error (messages (fst st)) i = Some m ->
                   hd_error (innerHTML m) = Some 167 -> container m <> Some k) ->
        suffix = []).
Proof.
  destruct st as [p pos]. cbn [fst].
  assert (Hnil : exists suffix : jsstring,
             className p k = className p k ++ suffix /\ (True -> suffix = [])).
  { exists []. split; [now rewrite app_nil_r|reflexivity]. }
  unfold decrypt_message.
  destruct (nth_error (messages p) i) as [m|] eqn:Hm;
    [|destruct Hnil as (x & H1 & H2); exists x; cbn [fst]; split; [exact H1|intros _; now apply H2]].
  destruct (innerHTML m) as [|ch enc] eqn:Eh;
    [destruct Hnil as (x & H1 & H2); exists x; cbn [fst]; split; [exact H1|intros _; now apply H2]|].
  destruct (Z.eqb_spec ch 167) as [->|Hne];
    [|destruct Hnil as (x & H1 & H2); exists x; cbn [fst]; split; [exact H1|intros _; now apply H2]].
  destruct (CryptoJS_AES.decrypt _ pass rnd pos) as [[d|e] pos'].
  - destruct (length d <? 1)%nat.
    + exists []. cbn [fst className set_node]. split; [now rewrite app_nil_r|reflexivity].
    + destruct (render_message_className emo i m d p k) as (suffix & Hs & Hz).
      destruct (render_message emo i m d p) as [p' e]. cbn [fst] in Hs.
      exists suffix. split.
      * destruct e as [e|]; [destruct (nth_error (messages p') i)|]; cbn [fst className set_node];
          exact Hs.
      * intros H. apply Hz. apply (H m eq_refl). rewrite Eh. reflexivity.
  - rewrite Hm. exists []. cbn [fst className set_node]. split; [now rewrite app_nil_r|reflexivity].
Qed.

Lemma turns_className (emo : emojimap) (pass : jsstring) (rnd : nat -> Z) (k : nat)
    (l : list nat) :
  NoDup l ->
  forall st : page * nat,
    exists suffix,
      className (fst (fold_left (fun st i => decrypt_message emo pass rnd i st) l st)) k
      = className (fst st) k ++ suffix
      /\ ((forall i m, In i l -> nth_error (messages (fst st)) i = Some m ->
                       hd_error (innerHTML m) = Some 167 -> container m <> Some k) ->
          suffix = []).
Proof.
  induction l as [|a l IH]; intros Hnd st; cbn [fold_left].
  - exists []. split; [now rewrite app_nil_r|reflexivity].
  - inversion Hnd as [|? ? Ha Hnd']; subst.
    destruct (decrypt_message_className emo pass rnd a st k) as (s1 & H1 & Z1).
    destruct (IH Hnd' (decrypt_message emo pass rnd a st)) as (s2 & H2 & Z2).
    exists (s1 ++ s2). split; [now rewrite H2, H1, app_assoc|].
    intros H. rewrite Z1, Z2; [reflexivity| |].
    + intros i m Hi Hm. rewrite decrypt_message_other in Hm by (intros ->; contradiction).
      apply (H i m); [now right|exact Hm].
    + intros m. apply H. now left.
Qed.

(** X15.  What a decrypt pass leaves alone, with any passphrase.  The turn
    at a message that does not begin with the delimiter changes nothing on
    the page: no message, no class name, no draw from the random source.  To
    the class names a pass only appends; and it leaves the class name of a
    container as it is when none of the messages that the pass starts with
    and that begin with the delimiter has that container. *)
Theorem decryptMessages_frame (emo : emojimap) (pass : jsstring) (rnd : nat -> Z)
    (st : page * nat) :
  let st' := decryptMessages emo pass rnd st in
  (forall i p pos,
     (forall m, nth_error (messages p) i = Some m -> hd_error (innerHTML m) <> Some 167) ->
     decrypt_message emo pass rnd i (p, pos) = (p, pos))
  /\ (forall k, exists suffix, className (fst st') k = className (fst st) k ++ suffix)
  /\ (forall k,
        (forall m, In m (messages (fst st)) -> hd_error (innerHTML m) = Some 167 ->
                   container m <> Some k) ->
        className (fst st') k = className (fst st) k).
Proof.
  cbv zeta. split; [|split].
  - intros i p pos H. now apply decrypt_message_unmarked.
  - intros k. unfold decryptMessages.
    destruct (turns_className emo pass rnd k (rev (seq 0 (length (messages (fst st)))))
                ltac:(apply NoDup_rev, seq_NoDup) st) as (suffix & Hs & _).
    exists suffix. exact Hs.
  - intros k H. unfold decryptMessages.
    destruct (turns_className emo pass rnd k (rev (seq 0 (length (messages (fst st)))))
                ltac:(apply NoDup_rev, seq_NoDup) st) as (suffix & Hs & Hz).
    rewrite Hs, Hz; [apply app_nil_r|].
    intros i m _ Hm. apply H. eapply nth_error_In; exact Hm.
Qed.

(** ** inject.js: the emoji table, loadEmojis and the learning loop *)

Lemma lookup_assign (m : emojimap) (k v key : jsstring) :
  lookup (assign m k v) key = if jsstring_eqb k key then Some v else lookup m key.
Proof.
  induction m as [|[k0 v0] m IH]; cbn [assign lookup]; [reflexivity|].
  destruct (jsstring_eqb k0 k) eqn:E.
  - apply jsstring_eqb_eq in E. subst k0. cbn [lookup].
    destruct (jsstring_eqb k key); reflexivity.
  - cbn [lookup]. rewrite IH. destruct (jsstring_eqb k0 key) eqn:E0; [|reflexivity].
    apply jsstring_eqb_eq in E0. subst k0. destruct (jsstring_eqb k key) eqn:E1; [|reflexivity].
    apply jsstring_eqb_eq in E1. subst k. rewrite jsstring_eqb_refl in E. discriminate.
Qed.

Lemma lookup_app (a b : emojimap) (key : jsstring) :
  lookup (a ++ b) key = match lookup a key with Some v => Some v | None => lookup b key end.
Proof.
  induction a as [|[k v] a IH]; cbn [app lookup]; [reflexivity|].
  destruct (jsstring_eqb k key); [reflexivity|exact IH].
Qed.

Lemma lookup_absent (m : emojimap) (key : jsstring) :
  ~ In key (map fst m) -> lookup m key = None.
Proof.
  induction m as [|[k v] m IH]; cbn [map fst lookup In]; intros H; [reflexivity|].
  destruct (jsstring_eqb k key) eqn:E.
  - apply jsstring_eqb_eq in E. exfalso. apply H. now left.
  - apply IH. intros Hin. apply H. now right.
Qed.

(** After a run of assignments the last one to a key is read; a key that was
    not assigned reads as before. *)
Lemma lookup_fold_assign (L m : emojimap) (key : jsstring) :
  lookup (fold_left (fun m kv => assign m (fst kv) (snd kv)) L m) key
  = match lookup (rev L) key with Some v => Some v | None => lookup m key end.
Proof.
  revert m. induction L as [|[k v] L IH]; intros m; cbn [fold_left rev]; [reflexivity|].
  rewrite IH, lookup_app, lookup_assign. cbn [fst snd lookup].
  destruct (lookup (rev L) key); [reflexivity|]. destruct (jsstring_eqb k key); reflexivity.
Qed.

Lemma assign_keys (m : emojimap) (k v : jsstring) :
  exists l, map fst (assign m k v) = map fst m ++ l
            /\ (l = [] \/ (l = [k] /\ ~ In k (map fst m))).
Proof.
  induction m as [|[k0 v0] m IH]; cbn [assign map fst].
  - exists [k]. split; [reflexivity|]. right. split; [reflexivity|intros []].
  - destruct (jsstring_eqb k0 k) eqn:E.
    + exists []. cbn [map fst]. split; [now rewrite app_nil_r|now left].
    + destruct IH as (l & Hl & Hc). exists l. cbn [map fst app]. rewrite Hl.
      split; [reflexivity|]. destruct Hc as [Hc|[Hc Hn]]; [now left|right].
      split; [exact Hc|]. intros [H|H]; [|now apply Hn].
      subst k0. rewrite jsstring_eqb_refl in E. discriminate.
Qed.

Lemma fold_assign_keys (L m : emojimap) :
  exists l, map fst (fold_left (fun m kv => assign m (fst kv) (snd kv)) L m) = map fst m ++ l
            /\ (NoDup (map fst m) ->
                NoDup (map fst (fold_left (fun m kv => assign m (fst kv) (snd kv)) L m))).
Proof.
  revert m. induction L as [|[k v] L IH]; intros m; cbn [fold_left fst snd].
  - exists []. split; [now rewrite app_nil_r|trivial].
  - destruct (IH (assign m k v)) as (l & Hl & Hn).
    destruct (assign_keys m k v) as (l0 & Hl0 & Hc).
    exists (l0 ++ l). split; [now rewrite Hl, Hl0, app_assoc|].
    intros Hm. apply Hn. rewrite Hl0. destruct Hc as [->|[-> Hk]]; [now rewrite app_nil_r|].
    apply NoDup_app; [exact Hm|repeat constructor; intros []|].
    intros x Hx [<-|[]]. now apply Hk.
Qed.

Lemma default_emojis_read :
  forallb (fun kv => match lookup (rev default_emojis) (fst kv) with
                     | Some v => jsstring_eqb v (snd kv)
                     | None => false
                     end) default_emojis = true.
Proof. vm_compute. reflexivity. Qed.

(** X16.  The table that [loadEmojis] leaves: every built-in code reads as
    its built-in markup, whatever was stored or learned for it; every other
    code reads as in the stored table (or, when none is stored, as in the
    table before); the codes already there keep their places in the order
    of substitution, new ones come after them, and no code gets a second
    entry. *)
Theorem loadEmojis_table (emojidata : option emojimap) (replacementarr : emojimap) :
  let m0 := match emojidata with Some d => d | None => replacementarr end in
  let m := loadEmojis emojidata replacementarr in
  (forall k v, In (k, v) default_emojis -> lookup m k = Some v)
  /\ (forall k, ~ In k (map fst default_emojis) -> lookup m k = lookup m0 k)
  /\ (exists l, map fst m = map fst m0 ++ l)
  /\ (NoDup (map fst m0) -> NoDup (map fst m)).
Proof.
  cbv zeta. unfold loadEmojis. cbv zeta.
  set (m0 := match emojidata with Some d => d | None => replacementarr end).
  split; [|split; [|split]].
  - intros k v Hin. rewrite lookup_fold_assign.
    pose proof default_emojis_read as H. rewrite forallb_forall in H.
    specialize (H (k, v) Hin). cbn [fst snd] in H.
    destruct (lookup (rev default_emojis) k) as [v'|]; [|discriminate].
    apply jsstring_eqb_eq in H. now subst v'.
  - intros k Hk. rewrite lookup_fold_assign, lookup_absent; [reflexivity|].
    rewrite map_rev. intros Hin. apply Hk. now apply in_rev.
  - destruct (fold_assign_keys default_emojis m0) as (l & Hl & _). now exists l.
  - destruct (fold_assign_keys default_emojis m0) as (l & _ & Hn). exact Hn.
Qed.

Lemma lookup_learn_emoji (m : emojimap) (e : img) (l : jsstring) :
  lookup (learn_emoji m e) l
  = if match aria_label e with Some a => jsstring_eqb a l | None => false end
       && match hd_error l with Some c => c =? 58 | None => false end
    then Some (outerHTML e) else lookup m l.
Proof.
  unfold learn_emoji. destruct (aria_label e) as [[|c r]|]; cbn [andb].
  - destruct (jsstring_eqb [] l) eqn:E; [|reflexivity].
    apply jsstring_eqb_eq in E. subst l. reflexivity.
  - destruct (jsstring_eqb (c :: r) l) eqn:E.
    + apply jsstring_eqb_eq in E. subst l. cbn [hd_error andb].
      destruct (c =? 58); [|reflexivity]. now rewrite lookup_assign, jsstring_eqb_refl.
    + cbn [andb]. destruct (c =? 58); [|reflexivity]. now rewrite lookup_assign, E.
  - reflexivity.
Qed.

(** X17.  The learning loop of [intervalfunc]: a code is learned from the
    images whose label it is, provided it begins with a colon, and then
    reads as the markup of the last of them; every other code reads as
    before. *)
Theorem learn_emojis_table (allemojis : list img) (replacementarr : emojimap) (l : jsstring) :
  (hd_error l <> Some 58 ->
     lookup (learn_emojis allemojis replacementarr) l = lookup replacementarr l)
  /\ ((forall e, In e allemojis -> aria_label e <> Some l) ->
      lookup (learn_emojis allemojis replacementarr) l = lookup replacementarr l)
  /\ (forall pre e post,
        allemojis = pre ++ e :: post -> aria_label e = Some l -> hd_error l = Some 58 ->
        (forall e', In e' post -> aria_label e' <> Some l) ->
        lookup (learn_emojis allemojis replacementarr) l = Some (outerHTML e)).
Proof.
  unfold learn_emojis.
  assert (Hkeep : forall imgs m,
             (forall e, In e imgs ->
                        match aria_label e with Some a => jsstring_eqb a l | None => false end
                        && match hd_error l with Some c => c =? 58 | None => false end = false) ->
             lookup (fold_left learn_emoji imgs m) l = lookup m l).
  { induction imgs as [|e imgs IH]; intros m H; cbn [fold_left]; [reflexivity|].
    rewrite IH by (intros e' He'; apply H; now right).
    rewrite lookup_learn_emoji, (H e) by now left. reflexivity. }
  split; [|split].
  - intros Hl. apply Hkeep. intros e _. destruct (hd_error l) as [c|]; [|apply andb_false_r].
    destruct (Z.eqb_spec c 58) as [E|_]; [exfalso; apply Hl; now rewrite E|apply andb_false_r].
  - intros H. apply Hkeep. intros e He. specialize (H e He).
    destruct (aria_label e) as [a|]; [|reflexivity].
    destruct (jsstring_eqb a l) eqn:E; [|reflexivity].
    apply jsstring_eqb_eq in E. subst a. now contradiction H.
  - intros pre e post -> Ha Hl Hpost. rewrite fold_left_app. cbn [fold_left].
    rewrite Hkeep.
    + rewrite lookup_learn_emoji, Ha, jsstring_eqb_refl, Hl. reflexivity.
    + intros e' He'. specialize (Hpost e' He').
      destruct (aria_label e') as [a|]; [|reflexivity].
      destruct (jsstring_eqb a l) eqn:E; [|reflexivity].
      apply jsstring_eqb_eq in E. subst a. now contradiction Hpost.
Qed.

(** ** The popup script and setPassphrase: the store *)

Lemma jsstring_eqb_neq (s t : jsstring) : s <> t -> jsstring_eqb s t = false.
Proof.
  intros H. destruct (jsstring_eqb s t) eqn:E; [|reflexivity].
  apply jsstring_eqb_eq in E. contradiction.
Qed.

(** X18.  From the popup to the page.  After a click on the button with a
    server secret and a channel secret of more than five characters each
    (white space stripped), [setPassphrase] on the same location hashes the
    displayed name, the stripped location, the two stripped secrets and the
    static salt; when the location has no more than its three first
    segments, both scopes are the same entry of the store and the channel
    secret is read for both.  A click with a server secret too short leaves
    the store as it was.  No other entry of the store is touched.  After
    [removekeys] both secrets read as empty. *)
Theorem popup_keys_reach_setPassphrase (obj : storage) (location sv cv name : jsstring) :
  let serverurl := fst (loadKeys_scope location) in
  let channelurl := snd (loadKeys_scope location) in
  let sk := remove_whitespace sv in
  let ck := remove_whitespace cv in
  let obj' := store_after (saved (setKeys serverurl channelurl sv cv)) obj in
  ((5 < length sk)%nat -> (5 < length ck)%nat ->
     setPassphrase obj' location (Some name)
     = Ok (Sha256.hash (name ++ channelurl
                        ++ (if jsstring_eqb serverurl channelurl then ck else sk)
                        ++ ck ++ lit "9AK0Q4Ga0o")))
  /\ ((length sk <= 5)%nat -> forall k, obj' k = obj k)
  /\ (forall k, k <> serverurl -> k <> channelurl -> obj' k = obj k)
  /\ setPassphrase (fst (removekeys serverurl channelurl obj')) location (Some name)
     = Ok (Sha256.hash (name ++ channelurl ++ lit "9AK0Q4Ga0o")).
Proof.
  cbv zeta.
  assert (Hscope : setPassphrase_scope location = loadKeys_scope location) by reflexivity.
  destruct (loadKeys_scope location) as [serverurl channelurl] eqn:Es. cbn [fst snd].
  set (sk := remove_whitespace sv). set (ck := remove_whitespace cv).
  split; [|split; [|split]].
  - intros Hs Hc. unfold setPassphrase. rewrite Hscope. unfold setKeys. fold sk ck.
    apply Nat.ltb_lt in Hs, Hc. rewrite Hs, Hc.
    assert (Hne : jsstring_eqb ck [] = false).
    { apply jsstring_eqb_neq. intros E. rewrite E in Hc. discriminate. }
    rewrite Hne. cbn [negb saved store_after fold_left fst snd]. unfold saveChrome.
    rewrite !jsstring_eqb_refl. unfold passphrase_material.
    destruct (jsstring_eqb serverurl channelurl); reflexivity.
  - intros Hs k. unfold setKeys. fold sk ck.
    apply Nat.ltb_ge in Hs. rewrite Hs. reflexivity.
  - intros k Hk1 Hk2. unfold setKeys. fold sk ck.
    apply jsstring_eqb_neq in Hk1, Hk2.
    destruct (5 <? length sk)%nat; [|reflexivity].
    destruct (negb (jsstring_eqb ck [])); [destruct (5 <? length ck)%nat|];
      cbn [saved store_after fold_left fst snd]; unfold saveChrome; now rewrite ?Hk1, ?Hk2.
  - unfold setPassphrase. rewrite Hscope. unfold removekeys. cbn [fst]. unfold removeChrome.
    rewrite !jsstring_eqb_refl. destruct (jsstring_eqb serverurl channelurl); reflexivity.
Qed.

(** ** inject.js: strip_tags and the sizing hints *)

(** X19.  Stripping the tags never lengthens a text and leaves a text with
    no [<] as it is; so a rendered text of at most 80 characters, markup
    included, gets no sizing hint, one of at most 200 characters not the
    very-wide hint, and a text of more than 80 (200) characters with no [<]
    always gets the wide hint (both hints). *)
Theorem strip_tags_sizing (d : jsstring) :
  (length (strip_tags d) <= length d)%nat
  /\ (~ In 60 d -> strip_tags d = d)
  /\ ((length d <= 80)%nat -> sizing_hints d = [])
  /\ ((length d <= 200)%nat -> sizing_hints d = [] \/ sizing_hints d = lit " widermessage")
  /\ (~ In 60 d -> (80 < length d <= 200)%nat -> sizing_hints d = lit " widermessage")
  /\ (~ In 60 d -> (200 < length d)%nat ->
      sizing_hints d = lit " widermessage" ++ lit " evenwidermessage").
Proof.
  pose proof (strip_tags_from_length d 0) as Hl. fold (strip_tags d) in Hl.
  split; [exact Hl|]. split; [apply strip_tags_from_plain|].
  unfold sizing_hints. cbv zeta. split; [|split; [|split]].
  - intros H. destruct (Nat.ltb_spec 80 (length (strip_tags d))); [lia|].
    destruct (Nat.ltb_spec 200 (length (strip_tags d))); [lia|]. reflexivity.
  - intros H. destruct (Nat.ltb_spec 200 (length (strip_tags d))); [lia|].
    destruct (Nat.ltb_spec 80 (length (strip_tags d))); [right|left]; now rewrite app_nil_r.
  - intros Hp H. unfold strip_tags. rewrite strip_tags_from_plain by exact Hp.
    destruct (Nat.ltb_spec 80 (length d)); [|lia].
    destruct (Nat.ltb_spec 200 (length d)); [lia|]. now rewrite app_nil_r.
  - intros Hp H. unfold strip_tags. rewrite strip_tags_from_plain by exact Hp.
    destruct (Nat.ltb_spec 80 (length d)); [|lia].
    destruct (Nat.ltb_spec 200 (length d)); [reflexivity|lia].
Qed.

(** ** setPassphrase and loadKeys: the scopes of a location *)

Lemma first_occurrence (c : Z) (s : jsstring) :
  (0 < count_occ Z.eq_dec s c)%nat ->
  exists a s', s = a ++ c :: s' /\ ~ In c a
               /\ count_occ Z.eq_dec s c = S (count_occ Z.eq_dec s' c).
Proof.
  induction s as [|x s IH]; cbn [count_occ]; [lia|].
  destruct (Z.eq_dec x c) as [->|Hx].
  - intros _. exists [], s. split; [reflexivity|]. split; [intros []|reflexivity].
  - intros H. destruct (IH H) as (a & s' & -> & Ha & Hc).
    exists (x :: a), s'. split; [reflexivity|]. split; [|exact Hc].
    intros [E|Hin]; [now apply Hx|now apply Ha].
Qed.

(** X20.  The scopes of a location.  The narrow scope is the location
    without its first [https://]; the broad scope is the narrow one up to
    its third slash, and the narrow one itself when it has exactly two
    slashes.  With fewer than two slashes the missing segments read as
    [undefined]. *)
Theorem scopes_of_location (href : jsstring) :
  let serverurl := fst (setPassphrase_scope href) in
  let url := snd (setPassphrase_scope href) in
  let slashes := count_occ Z.eq_dec url 47 in
  url = replace href (lit "https://") []
  /\ (slashes = 0%nat -> serverurl = url ++ lit "/undefined/undefined")
  /\ (slashes = 1%nat -> serverurl = url ++ lit "/undefined")
  /\ (slashes = 2%nat -> serverurl = url)
  /\ ((2 < slashes)%nat ->
      exists rest, url = serverurl ++ 47 :: rest
                   /\ count_occ Z.eq_dec serverurl 47 = 2%nat).
Proof.
  cbv zeta. unfold setPassphrase_scope. cbv zeta. cbn [fst snd].
  set (url := replace href (lit "https://") []). unfold split.
  change (lit "/") with [47].
  split; [reflexivity|].
  assert (H0 : forall s, count_occ Z.eq_dec s 47 = 0%nat -> ~ In 47 s)
    by (intros s; apply count_occ_not_In).
  split; [|split; [|split]].
  - intros Hc. rewrite split_from_none by now apply H0.
    cbn [str_at nth app]. reflexivity.
  - intros Hc. destruct (first_occurrence 47 url ltac:(lia)) as (a & s1 & -> & Ha & Hc1).
    rewrite split_from_first by exact Ha.
    rewrite split_from_none by (apply H0; lia).
    cbn [str_at nth app]. rewrite <- ?app_assoc. reflexivity.
  - intros Hc. destruct (first_occurrence 47 url ltac:(lia)) as (a & s1 & -> & Ha & Hc1).
    destruct (first_occurrence 47 s1 ltac:(lia)) as (b & s2 & -> & Hb & Hc2).
    rewrite !split_from_first by assumption.
    rewrite split_from_none by (apply H0; lia).
    cbn [str_at nth app]. rewrite <- ?app_assoc. reflexivity.
  - intros Hc. destruct (first_occurrence 47 url ltac:(lia)) as (a & s1 & -> & Ha & Hc1).
    destruct (first_occurrence 47 s1 ltac:(lia)) as (b & s2 & -> & Hb & Hc2).
    destruct (first_occurrence 47 s2 ltac:(lia)) as (c & s3 & -> & Hcc & Hc3).
    rewrite !split_from_first by assumption.
    cbn [str_at nth app]. exists s3. split; [repeat (rewrite <- app_assoc || rewrite <- app_comm_cons); reflexivity|].
    repeat (rewrite count_occ_app || rewrite count_occ_cons_eq by reflexivity).
    rewrite (proj1 (count_occ_not_In Z.eq_dec a 47) Ha),
            (proj1 (count_occ_not_In Z.eq_dec b 47) Hb),
            (proj1 (count_occ_not_In Z.eq_dec c 47) Hcc).
    reflexivity.
Qed.

(** X21.  Every passphrase that [setPassphrase] derives is a digest of 64
    hexadecimal digits, so the codec accepts it: under it, every text with
    no unpaired surrogate is encrypted, and decrypted to itself.  Without
    the element that shows the name, [setPassphrase] raises [TypeError]. *)
Theorem derived_passphrase_round_trip (obj : storage) (href name P : jsstring)
    (rnd : nat -> Z) (pos : nat) :
  well_formed P = true -> Z.of_nat (length P) <= 1073741824 ->
  setPassphrase obj href None = Throw TypeError
  /\ exists K T,
       setPassphrase obj href (Some name) = Ok K
       /\ length K = 64%nat
       /\ CryptoJS_AES.encrypt P K rnd pos = (Ok T, (pos + 2)%nat)
       /\ forall rnd' pos', CryptoJS_AES.decrypt T K rnd' pos' = (Ok P, pos').
Proof.
  intros HP Hlen. unfold setPassphrase.
  destruct (setPassphrase_scope href) as [serverurl channelurl].
  split; [reflexivity|].
  set (K := Sha256.hash _).
  destruct (Sha256_hash_digits (passphrase_material name channelurl
              (match obj serverurl with Some k => k | None => [] end)
              (match obj channelurl with Some k => k | None => [] end))) as [HK64 _].
  pose proof (Sha256_hash_well_formed (passphrase_material name channelurl
              (match obj serverurl with Some k => k | None => [] end)
              (match obj channelurl with Some k => k | None => [] end))) as HKwf.
  fold K in HK64, HKwf.
  destruct (encrypt_transport P K rnd pos HP HKwf Hlen)
    as (bs & C & T & m & _ & _ & _ & _ & Henc & Hdec).
  exists K, T. repeat split; assumption.
Qed.

Lemma derived_passphrase_round_trip_witness :
  exists K T,
    setPassphrase (fun _ => None) (lit "https://a/b/c") (Some (lit "general")) = Ok K
    /\ length K = 64%nat
    /\ CryptoJS_AES.encrypt (lit "hello") K test_rnd 0 = (Ok T, 2%nat)
    /\ forall rnd' pos', CryptoJS_AES.decrypt T K rnd' pos' = (Ok (lit "hello"), pos').
Proof.
  apply (derived_passphrase_round_trip (fun _ => None) (lit "https://a/b/c") (lit "general")
           (lit "hello") test_rnd 0); [reflexivity | simpl; lia].
Defined.

(** ** inject.js: CryptoJS, the key derivation *)

Lemma MD5_doProcessBlock_length (q : list Z) (n : Z) (h : WA) :
  length (WordArray.words h) = 4%nat ->
  length (WordArray.words (snd (MD5._doProcessBlock q n h))) = 4%nat.
Proof.
  intros H. destruct h as [ws s]. cbn [WordArray.words] in H.
  destruct ws as [|w0 [|w1 [|w2 [|w3 [|w4 ws]]]]]; try discriminate H.
  reflexivity.
Qed.

Lemma MD5_process_length (s : MD5.hasher) :
  length (WordArray.words (MD5._hash s)) = 4%nat ->
  length (WordArray.words (MD5._hash (MD5.process s))) = 4%nat.
Proof.
  intros Hh. unfold MD5.process.
  pose proof (process_state (fun h => length (WordArray.words h) = 4%nat) MD5._doProcessBlock
                MD5.blockSize 0 false (MD5._data s) (MD5._hash s)) as H2.
  cbv beta in H2.
  specialize (H2 ltac:(intros e i st Hst; now apply MD5_doProcessBlock_length) Hh).
  destruct (_process _ _ _ _ _ _) as [[x d] h]. exact H2.
Qed.

Lemma MD5_update_words (s : MD5.hasher) (a : WA) :
  hasher_ok s -> length (WordArray.words (MD5._hash s)) = 4%nat -> 0 <= WordArray.sigBytes a ->
  exists s', MD5.update s a = Ok s' /\ hasher_ok s'
             /\ length (WordArray.words (MD5._hash s')) = 4%nat.
Proof.
  intros Hs Hl Ha. unfold MD5.update.
  destruct (MD5_append_ok s a Hs Ha) as (s' & E & Hs'). rewrite E. cbn [bind].
  eexists. split; [reflexivity|]. split; [apply MD5_process_ok, Hs'|].
  apply MD5_process_length. unfold MD5._append in E.
  destruct (WordArray.concat (MD5._data s) a); [|discriminate].
  cbn [bind] in E. apply Ok_inj in E. subst s'. exact Hl.
Qed.

Lemma MD5_update_string_words (s : MD5.hasher) (a bs : jsstring) :
  hasher_ok s -> length (WordArray.words (MD5._hash s)) = 4%nat ->
  unescape_encodeURIComponent a = Ok bs ->
  exists s', MD5.update_string s a = Ok s' /\ hasher_ok s'
             /\ length (WordArray.words (MD5._hash s')) = 4%nat.
Proof.
  intros Hs Hl Ha. unfold MD5.update_string, MD5._append_string, Utf8.parse.
  rewrite Ha. cbn [bind].
  destruct (MD5_append_ok s (Latin1.parse bs) Hs) as (s' & E & Hs'); [cbn; lia|].
  rewrite E. cbn [bind]. eexists. split; [reflexivity|]. split; [apply MD5_process_ok, Hs'|].
  apply MD5_process_length. unfold MD5._append in E.
  destruct (WordArray.concat (MD5._data s) (Latin1.parse bs)); [|discriminate].
  cbn [bind] in E. apply Ok_inj in E. subst s'. exact Hl.
Qed.

Lemma MD5_finalize_words (s : MD5.hasher) (a : WA) :
  hasher_ok s -> length (WordArray.words (MD5._hash s)) = 4%nat -> 0 <= WordArray.sigBytes a ->
  exists n, MD5.finalize s a = Ok n /\ WordArray.sigBytes n = 16
            /\ length (WordArray.words n) = 4%nat.
Proof.
  intros Hs Hl Ha.
  destruct (MD5_finalize_ok s a Hs Ha) as (n & E & Hn). exists n.
  split; [exact E|]. split; [exact Hn|].
  unfold MD5.finalize in E. destruct (MD5_append_ok s a Hs Ha) as (s' & E' & Hs').
  rewrite E' in E. cbn [bind] in E. apply Ok_inj in E. subst n.
  assert (Hl' : length (WordArray.words (MD5._hash s')) = 4%nat).
  { unfold MD5._append in E'. destruct (WordArray.concat (MD5._data s) a); [|discriminate].
    cbn [bind] in E'. apply Ok_inj in E'. subst s'. exact Hl. }
  unfold MD5._doFinalize. cbv zeta. cbn [WordArray.words]. rewrite length_map.
  apply MD5_process_length. exact Hl'.
Qed.

Lemma kdf_digest_ok (prev : option WA) (password : jsstring) (salt : WA) :
  lone_surrogate password = false -> 0 <= WordArray.sigBytes salt ->
  match prev with Some n => 0 <= WordArray.sigBytes n | None => True end ->
  exists d, kdf_digest prev password salt = Ok d /\ WordArray.sigBytes d = 16
            /\ length (WordArray.words d) = 4%nat.
Proof.
  intros Hp Hs Hn. destruct (utf8_of_code_points_paired _ Hp) as (bs & Hbs).
  unfold kdf_digest.
  assert (H1 : exists s, match prev with
                         | Some n => MD5.update MD5.reset n
                         | None => Ok MD5.reset
                         end = Ok s /\ hasher_ok s
                         /\ length (WordArray.words (MD5._hash s)) = 4%nat).
  { destruct prev as [n|].
    - apply MD5_update_words; [apply MD5_reset_ok|reflexivity|exact Hn].
    - eexists. split; [reflexivity|]. split; [apply MD5_reset_ok|reflexivity]. }
  destruct H1 as (s & -> & Hs1 & Hl1). cbn [bind].
  destruct (MD5_update_string_words s password bs Hs1 Hl1 Hbs) as (s2 & -> & Hs2 & Hl2).
  cbn [bind]. apply MD5_finalize_words; assumption.
Qed.

Lemma derive_step (fuel : nat) (keySize : Z) (password : jsstring) (salt : WA)
    (n : option WA) (b : WA) :
  EvpKDF.derive (S fuel) keySize password salt n b
  = if Z.of_nat (length (WordArray.words b)) <? keySize then
      d <- kdf_digest n password salt ;;
      b' <- WordArray.concat b d ;;
      EvpKDF.derive fuel keySize password salt (Some d) b'
    else Ok b.
Proof.
  cbn [EvpKDF.derive]. destruct (_ <? keySize); [|reflexivity].
  unfold kdf_digest.
  destruct (match n with Some n0 => MD5.update MD5.reset n0 | None => Ok MD5.reset end)
    as [s|e]; [|reflexivity].
  cbn [bind]. destruct (MD5.update_string s password) as [s2|e]; [|reflexivity].
  cbn [bind]. destruct (MD5.finalize s2 salt) as [d|e]; [|reflexivity].
  cbn [bind]. change (Z.to_nat (EvpKDF.iterations - 1)) with 0%nat. rewrite for_loop_0.
  reflexivity.
Qed.

(** X22.  The key derivation behind [encrypt] and [decrypt], for a password
    with no unpaired surrogate: three chained MD5 digests of four words
    each, the first of password and salt, every next one of the digest
    before, the password and the salt; the key is the first two digests (32
    bytes), the IV the third.  With a salt given, nothing is drawn from the
    random source; with none, the salt is drawn first. *)
Theorem OpenSSL_kdf_digests (password : jsstring) (salt : WA) :
  lone_surrogate password = false -> 0 <= WordArray.sigBytes salt ->
  exists D1 D2 D3,
    kdf_digest None password salt = Ok D1
    /\ kdf_digest (Some D1) password salt = Ok D2
    /\ kdf_digest (Some D2) password salt = Ok D3
    /\ length (WordArray.words D1) = 4%nat /\ length (WordArray.words D2) = 4%nat
    /\ length (WordArray.words D3) = 4%nat
    /\ (forall rnd pos,
          OpenSSL.execute password AES.keySize AES.ivSize (Some salt) rnd pos
          = (Ok (WordArray.Build (WordArray.words D1 ++ WordArray.words D2 ++ WordArray.words D3) 32,
                 WordArray.Build (WordArray.words D3) 16, salt), pos))
    /\ (forall rnd pos,
          WordArray.random rnd pos 8 = (salt, (pos + 2)%nat) ->
          OpenSSL.execute password AES.keySize AES.ivSize None rnd pos
          = (Ok (WordArray.Build (WordArray.words D1 ++ WordArray.words D2 ++ WordArray.words D3) 32,
                 WordArray.Build (WordArray.words D3) 16, salt), (pos + 2)%nat)).
Proof.
  intros Hp Hs.
  destruct (kdf_digest_ok None password salt Hp Hs I) as (D1 & E1 & S1 & L1).
  destruct (kdf_digest_ok (Some D1) password salt Hp Hs ltac:(cbv iota; lia)) as (D2 & E2 & S2 & L2).
  destruct (kdf_digest_ok (Some D2) password salt Hp Hs ltac:(cbv iota; lia)) as (D3 & E3 & S3 & L3).
  exists D1, D2, D3. do 6 (split; [assumption|]).
  destruct D1 as [w1 s1], D2 as [w2 s2], D3 as [w3 s3].
  cbn [WordArray.words WordArray.sigBytes] in *. subst s1 s2 s3.
  assert (Hc : EvpKDF.compute (AES.keySize + AES.ivSize) password salt
               = Ok (WordArray.Build (w1 ++ w2 ++ w3) 48)).
  { unfold EvpKDF.compute. change (Z.to_nat (AES.keySize + AES.ivSize)) with 12%nat.
    change (AES.keySize + AES.ivSize) with 12.
    rewrite derive_step. change (WordArray.words WordArray.empty) with (@nil Z).
    cbn [length]. change (Z.of_nat 0 <? 12) with true. cbv iota. rewrite E1. cbn [bind].
    change WordArray.empty with (WordArray.Build [] 0).
    rewrite (concat_aligned [] w1 0 16) by (cbn [length]; zarith). cbn [bind app].
    rewrite derive_step. cbn [WordArray.words]. rewrite L1.
    change (Z.of_nat 4 <? 12) with true. cbv iota. rewrite E2. cbn [bind].
    change (0 + 16) with 16.
    rewrite (concat_aligned w1 w2 16 16) by zarith. cbn [bind].
    rewrite derive_step. cbn [WordArray.words]. rewrite length_app, L1, L2.
    change (Z.of_nat (4 + 4) <? 12) with true. cbv iota. rewrite E3. cbn [bind].
    change (16 + 16) with 32.
    rewrite (concat_aligned (w1 ++ w2) w3 32 16) by (rewrite ?length_app; zarith). cbn [bind].
    rewrite derive_step. cbn [WordArray.words]. rewrite !length_app, L1, L2, L3.
    change (Z.of_nat (4 + 4 + 4) <? 12) with false. cbv iota. cbn [bind WordArray.words].
    now rewrite <- app_assoc. }
  assert (Hiv : skipn (Z.to_nat AES.keySize) (w1 ++ w2 ++ w3) = w3).
  { change (Z.to_nat AES.keySize) with 8%nat. rewrite app_assoc, skipn_app.
    rewrite length_app, L1, L2. cbn [Nat.sub]. rewrite skipn_all2 by (rewrite length_app; lia).
    reflexivity. }
  split.
  - intros rnd pos. unfold OpenSSL.execute. rewrite Hc. cbn [bind WordArray.words].
    rewrite Hiv. reflexivity.
  - intros rnd pos Hr. unfold OpenSSL.execute. rewrite Hr, Hc. cbn [bind WordArray.words].
    rewrite Hiv. reflexivity.
Qed.

Lemma OpenSSL_kdf_digests_witness :
  exists D1 D2 D3,
    kdf_digest None (lit "secret") (WordArray.Build [16909060; 84281096] 8) = Ok D1
    /\ kdf_digest (Some D1) (lit "secret") (WordArray.Build [16909060; 84281096] 8) = Ok D2
    /\ kdf_digest (Some D2) (lit "secret") (WordArray.Build [16909060; 84281096] 8) = Ok D3
    /\ length (WordArray.words D1) = 4%nat /\ length (WordArray.words D2) = 4%nat
    /\ length (WordArray.words D3) = 4%nat
    /\ (forall rnd pos,
          OpenSSL.execute (lit "secret") AES.keySize AES.ivSize
            (Some (WordArray.Build [16909060; 84281096] 8)) rnd pos
          = (Ok (WordArray.Build (WordArray.words D1 ++ WordArray.words D2 ++ WordArray.words D3) 32,
                 WordArray.Build (WordArray.words D3) 16,
                 WordArray.Build [16909060; 84281096] 8), pos))
    /\ (forall rnd pos,
          WordArray.random rnd pos 8 = (WordArray.Build [16909060; 84281096] 8, (pos + 2)%nat) ->
          OpenSSL.execute (lit "secret") AES.keySize AES.ivSize None rnd pos
          = (Ok (WordArray.Build (WordArray.words D1 ++ WordArray.words D2 ++ WordArray.words D3) 32,
                 WordArray.Build (WordArray.words D3) 16,
                 WordArray.Build [16909060; 84281096] 8), (pos + 2)%nat)).
Proof.
  apply (OpenSSL_kdf_digests (lit "secret") (WordArray.Build [16909060; 84281096] 8));
    [reflexivity | simpl; lia].
Defined.

(** ** options.js: the generated key *)

Lemma code_points_app (n : nat) :
  forall a b, (length a <= n)%nat -> well_formed a = true ->
  code_points (a ++ b) = code_points a ++ code_points b.
Proof.
  induction n as [|n IH]; intros a b Hn Hwf.
  - destruct a; [reflexivity|cbn [length] in Hn; lia].
  - destruct a as [|c a]; [reflexivity|].
    apply well_formed_cons in Hwf as [Hc [(Eh & El & Hwf)|(Eh & d & s' & -> & El & Hd & Hwf)]].
    + cbn [app]. rewrite !code_points_cons, Eh, El. cbn [app]. f_equal.
      apply IH; [cbn [length] in Hn; lia|exact Hwf].
    + cbn [app]. rewrite !code_points_cons, Eh, El. cbn [app]. f_equal.
      apply IH; [cbn [length] in Hn; lia|exact Hwf].
Qed.

Lemma well_formed_app (a b : jsstring) :
  well_formed a = true -> well_formed b = true -> well_formed (a ++ b) = true.
Proof.
  intros Ha Hb. pose proof (code_points_app (length a) a b (le_n _) Ha) as E.
  unfold well_formed in *. rewrite E, !forallb_app.
  apply andb_true_iff in Ha as [-> ->]. apply andb_true_iff in Hb as [-> ->]. reflexivity.
Qed.

Lemma makeid_chars (len : nat) (rnd : nat -> Z) (pos : nat) :
  (forall i, (i < len)%nat -> 0 <= rnd (pos + i)%nat < 62) ->
  length (fst (makeid len rnd pos)) = len
  /\ Forall (fun c => In c characters) (fst (makeid len rnd pos)).
Proof.
  unfold makeid. cbn [fst]. induction len as [|len IH]; intros H.
  - rewrite for_loop_0. split; [reflexivity|constructor].
  - rewrite for_loop_S. destruct IH as [IH1 IH2]; [intros i Hi; apply H; lia|].
    rewrite Z.add_0_l, Nat2Z.id. specialize (H len ltac:(lia)).
    set (r := for_loop 0 len _ _) in *. unfold charAt. change (Z.of_nat (length characters)) with 62.
    destruct (Z.leb_spec 0 (rnd (pos + len)%nat)); [|lia].
    destruct (Z.ltb_spec (rnd (pos + len)%nat) 62); [|lia]. cbn [andb]. split.
    + rewrite length_app, IH1. cbn [length]. lia.
    + apply Forall_app. split; [exact IH2|]. apply Forall_cons; [|constructor].
      apply aget_In. change (Z.of_nat (length characters)) with 62. lia.
Qed.

Lemma characters_ascii : Forall (fun c => 0 <= c < 128) characters.
Proof.
  apply Forall_forall. intros c H. vm_compute in H.
  repeat (destruct H as [<-|H]; [lia|]). destruct H.
Qed.

(** X23.  The key that the options page generates: eighteen characters
    drawn from the letters and digits, the server field and the selected
    time, joined by underscores and encrypted under the constant passphrase
    [xkrkey]; so [decrypt] with [xkrkey] returns that text from the
    generated key, whatever the random source. *)
Theorem generatekey_decrypts (urls selecteditem : jsstring) (rnd : nat -> Z) (pos : nat) :
  well_formed urls = true -> well_formed selecteditem = true ->
  Z.of_nat (length urls) + Z.of_nat (length selecteditem) <= 1073741800 ->
  (forall i, (i < 18)%nat -> 0 <= rnd (pos + i)%nat < 62) ->
  exists randompart finalkey,
    generatekey urls selecteditem rnd pos
    = (Ok (finalkey, randompart ++ lit "_" ++ urls ++ lit "_" ++ selecteditem), (pos + 20)%nat)
    /\ length randompart = 18%nat
    /\ Forall (fun c => In c characters) randompart
    /\ forall rnd' pos',
         CryptoJS_AES.decrypt finalkey (lit "xkrkey") rnd' pos'
         = (Ok (randompart ++ lit "_" ++ urls ++ lit "_" ++ selecteditem), pos').
Proof.
  intros Hu Hs Hlen Hr.
  destruct (makeid_chars 18 rnd pos Hr) as [Hl Hc].
  unfold generatekey. destruct (makeid 18 rnd pos) as [randompart pos1] eqn:Em.
  assert (Hpos : pos1 = (pos + 18)%nat) by (unfold makeid in Em; congruence).
  cbn [fst] in Hl, Hc. subst pos1.
  set (before := randompart ++ lit "_" ++ urls ++ lit "_" ++ selecteditem).
  assert (Hwf : well_formed before = true).
  { unfold before. apply well_formed_app.
    - apply ascii_well_formed. eapply Forall_impl; [|exact Hc]. cbv beta. intros c Hin.
      pose proof characters_ascii as Ha. rewrite Forall_forall in Ha. now apply Ha.
    - apply well_formed_app; [reflexivity|].
      apply well_formed_app; [exact Hu|]. apply well_formed_app; [reflexivity|exact Hs]. }
  assert (Hb : Z.of_nat (length before) <= 1073741824).
  { unfold before. rewrite !length_app, Hl. change (length (lit "_")) with 1%nat. lia. }
  destruct (encrypt_transport before (lit "xkrkey") rnd (pos + 18) Hwf eq_refl Hb)
    as (bs & C & T & m & _ & _ & _ & _ & Henc & Hdec).
  rewrite Henc. cbn [bind]. exists randompart, T.
  split; [f_equal; lia|]. split; [exact Hl|]. split; [exact Hc|exact Hdec].
Qed.

Lemma generatekey_decrypts_witness :
  exists randompart finalkey,
    generatekey (lit "discord.com/channels/1") (lit "24") (fun _ => 7) 0
    = (Ok (finalkey, randompart ++ lit "_" ++ lit "discord.com/channels/1" ++ lit "_" ++ lit "24"),
       20%nat)
    /\ length randompart = 18%nat
    /\ Forall (fun c => In c characters) randompart
    /\ forall rnd' pos',
         CryptoJS_AES.decrypt finalkey (lit "xkrkey") rnd' pos'
         = (Ok (randompart ++ lit "_" ++ lit "discord.com/channels/1" ++ lit "_" ++ lit "24"),
            pos').
Proof.
  apply (generatekey_decrypts (lit "discord.com/channels/1") (lit "24") (fun _ => 7) 0);
    [reflexivity | reflexivity | simpl; lia | intros i Hi; lia].
Defined.

(** ** inject.js: the keydown listener when encryption fails *)

(** X24.  The trigger key on an idle machine when nothing can be encrypted.
    With no text input on the page the listener raises [TypeError]; with a
    text (or a passphrase) in which a surrogate is unpaired it raises
    [URIError] after the two draws of the salt.  Either way the text input
    is left as it was, in clear, and yet the machine is armed and the send
    is flagged. *)
Theorem keydown_encrypt_failure (rnd : nat -> Z) (ev : keyevent) (s : session) :
  lastKeyWasStopKey s = false -> key ev = stopkey ->
  (textareaarray s = [] ->
     keydown rnd ev s
     = Outcome false (Some TypeError) (Session (passphrase s) true true [] (rnd_pos s)))
  /\ (forall P others,
        textareaarray s = P :: others ->
        lone_surrogate P = true \/ lone_surrogate (passphrase s) = true ->
        keydown rnd ev s
        = Outcome false (Some URIError)
            (Session (passphrase s) true true (P :: others) (rnd_pos s + 2)%nat)).
Proof.
  intros Hidle Hkey. unfold keydown. rewrite Hidle, Hkey, jsstring_eqb_refl.
  assert (Ha : (if keyCode ev =? 17 then false else false) = false)
    by (destruct (keyCode ev =? 17); reflexivity).
  rewrite Ha. cbn [andb]. split.
  - intros ->. reflexivity.
  - intros P others -> Hl.
    rewrite (encrypt_lone P (passphrase s) rnd (rnd_pos s) Hl). reflexivity.
Qed.

Lemma keydown_encrypt_failure_witness :
  keydown test_rnd (KeyEvent 192 stopkey) (Session (lit "secret") false false [] 0)
  = Outcome false (Some TypeError) (Session (lit "secret") true true [] 0)
  /\ keydown test_rnd (KeyEvent 192 stopkey)
       (Session (lit "secret") false false [[104; 55357]; lit "other"] 0)
     = Outcome false (Some URIError)
         (Session (lit "secret") true true [[104; 55357]; lit "other"] 2).
Proof.
  split.
  - apply (proj1 (keydown_encrypt_failure test_rnd (KeyEvent 192 stopkey)
                    (Session (lit "secret") false false [] 0) eq_refl eq_refl)).
    reflexivity.
  - apply (proj2 (keydown_encrypt_failure test_rnd (KeyEvent 192 stopkey)
                    (Session (lit "secret") false false [[104; 55357]; lit "other"] 0)
                    eq_refl eq_refl) [104; 55357] [lit "other"]);
      [reflexivity | left; reflexivity].
Defined.

(** ** inject.js: decryptMessages, a message without its container *)

(** X25.  A marked message that has no fourth ancestor always ends as the
    fallback text, whatever the passphrase: even when the text is decrypted
    and written, the access to the container raises [TypeError], which the
    pass catches.  The colour is the white of a decrypted message exactly
    when the decryption gave a non-empty text. *)
Theorem decryptMessages_without_container (emo : emojimap) (pass : jsstring)
    (rnd : nat -> Z) (st : page * nat) (i : nat) (m : node) :
  nth_error (messages (fst st)) i = Some m ->
  hd_error (innerHTML m) = Some 167 ->
  container m = None ->
  exists m',
    nth_error (messages (fst (decryptMessages emo pass rnd st))) i = Some m'
    /\ innerHTML m' = fallback
    /\ container m' = None
    /\ (style_color m' = style_color m \/ style_color m' = lit "#fff").
Proof.
  intros Hm Hh Hc. destruct (decryptMessages_nodes emo pass rnd st i m Hm) as [q Hq].
  eexists. split; [exact Hq|]. unfold turn_result.
  destruct (innerHTML m) as [|ch enc]; [discriminate|].
  cbn [hd_error] in Hh. injection Hh as ->. change (167 =? 167) with true. cbv iota.
  rewrite Hc.
  destruct (fst (CryptoJS_AES.decrypt _ pass rnd q)) as [d|e].
  - destruct (length d <? 1)%nat; cbn [innerHTML container style_color]; auto.
  - cbn [innerHTML container style_color]. auto.
Qed.

Lemma decryptMessages_without_container_witness :
  exists m',
    nth_error (messages (fst (decryptMessages default_emojis (lit "secret") test_rnd
                                (Page [Node (stopkey ++ sample_transport ++ stopkey) [] None]
                                      (fun _ => []), 0%nat)))) 0
    = Some m'
    /\ innerHTML m' = fallback
    /\ container m' = None
    /\ (style_color m' = [] \/ style_color m' = lit "#fff").
Proof.
  apply (decryptMessages_without_container default_emojis (lit "secret") test_rnd
           (Page [Node (stopkey ++ sample_transport ++ stopkey) [] None] (fun _ => []), 0%nat)
           0 (Node (stopkey ++ sample_transport ++ stopkey) [] None));
    reflexivity.
Defined.
